(** * Particle shape generation and per-frame animation: a shallow embedding

    The development follows the TypeScript sources:
    - [utils/shapes.ts]              (module [Shapes])
    - [components/DrawingCanvas.tsx] (module [DrawingCanvas])
    - the music-mode particle scene  (module [ParticleScene])
    - [components/ParticleScene.tsx] (module [LegacyScene])
    - the hand tracker, in its two versions (modules [HandTracker] and
      [LegacyTracker])
    - the audio manager              (module [AudioManager])
    - [App.tsx], with its audio      (module [App])

    JavaScript numbers are modelled as real numbers extended with one
    non-finite value; [Float32Array]s are lists of such numbers and keep
    their length under writes; [Math.random] is an oracle stream that the
    samplers consume left to right. *)

From Stdlib Require Import Reals Lra Lia ZArith List String Bool Psatz.
From Stdlib Require Strings.Byte.
Import ListNotations.
Local Open Scope R_scope.

(* ================================================================== *)
(** ** JavaScript numbers, [Math] and typed arrays *)
(* ================================================================== *)

Module JS.

(** A JavaScript number: a finite real, or [NaN], which stands for every
    non-finite result (NaN and the infinities).  The sources never compare
    an infinity or divide by one, so a single absorbing value is enough. *)
Inductive num : Type :=
| Fin (r : R)
| NaN.

Coercion Fin : R >-> num.

Definition lift1 (f : R -> R) (a : num) : num :=
  match a with
  | Fin x => Fin (f x)
  | NaN => NaN
  end.

Definition lift2 (f : R -> R -> R) (a b : num) : num :=
  match a, b with
  | Fin x, Fin y => Fin (f x y)
  | _, _ => NaN
  end.

Definition nadd : num -> num -> num := lift2 Rplus.
Definition nsub : num -> num -> num := lift2 Rminus.
Definition nmul : num -> num -> num := lift2 Rmult.
Definition nneg : num -> num := lift1 Ropp.

(** [a / b]: a zero divisor yields a non-finite number. *)
Definition ndiv (a b : num) : num :=
  match a, b with
  | Fin x, Fin y => if Req_dec_T y 0 then NaN else Fin (x / y)
  | _, _ => NaN
  end.

(** Comparisons with a non-finite operand are false, as for NaN. *)
Definition nlt (a b : num) : bool :=
  match a, b with
  | Fin x, Fin y => if Rlt_dec x y then true else false
  | _, _ => false
  end.

Definition ngt (a b : num) : bool := nlt b a.

Definition nge (a b : num) : bool :=
  match a, b with
  | Fin x, Fin y => if Rle_dec y x then true else false
  | _, _ => false
  end.

(** [a === b] on numbers. *)
Definition neq (a b : num) : bool :=
  match a, b with
  | Fin x, Fin y => if Req_dec_T x y then true else false
  | _, _ => false
  end.

Definition finite (a : num) : Prop :=
  match a with
  | Fin _ => True
  | NaN => False
  end.

Declare Scope num_scope.
Delimit Scope num_scope with num.
Infix "+!" := nadd (at level 50, left associativity) : num_scope.
Infix "-!" := nsub (at level 50, left associativity) : num_scope.
Infix "*!" := nmul (at level 40, left associativity) : num_scope.
Infix "/!" := ndiv (at level 40, left associativity) : num_scope.
Infix "<!" := nlt (at level 70, no associativity) : num_scope.
Infix ">!" := ngt (at level 70, no associativity) : num_scope.
Infix ">=!" := nge (at level 70, no associativity) : num_scope.
Local Open Scope num_scope.

(** *** [Math] *)

Definition Math_PI : num := Fin PI.
Definition Math_sin : num -> num := lift1 sin.
Definition Math_cos : num -> num := lift1 cos.
Definition Math_exp : num -> num := lift1 exp.
Definition Math_abs : num -> num := lift1 Rabs.

(** [Math.sqrt]: NaN below zero. *)
Definition Math_sqrt (a : num) : num :=
  match a with
  | Fin x => if Rlt_dec x 0 then NaN else Fin (sqrt x)
  | NaN => NaN
  end.

(** [Math.acos]: NaN outside [-1, 1]. *)
Definition Math_acos (a : num) : num :=
  match a with
  | Fin x => if Rle_dec (-1) x then if Rle_dec x 1 then Fin (acos x) else NaN else NaN
  | NaN => NaN
  end.

(** The real cube root. *)
Definition cbrt (x : R) : R :=
  if Rlt_dec 0 x then Rpower x (/ 3)
  else if Rlt_dec x 0 then - Rpower (- x) (/ 3)
  else 0.

Definition Math_cbrt : num -> num := lift1 cbrt.

(** [Math.pow(a, n)] for a non-negative integer literal [n], as in
    [Math.pow(a, 3)] and [Math.pow(d, 2)]. *)
Definition Math_pow (a : num) (n : nat) : num := lift1 (fun x => x ^ n) a.

(** [Math.pow(a, y)] for a positive non-integer literal [y], as in
    [Math.pow(g, 1.5)]: NaN for a negative base, 0 at 0. *)
Definition Math_powr (a : num) (y : R) : num :=
  match a with
  | Fin x =>
      if Rlt_dec x 0 then NaN
      else if Rlt_dec 0 x then Fin (Rpower x y)
      else Fin 0
  | NaN => NaN
  end.

(** [Math.floor]. *)
Definition Math_floor : num -> num := lift1 (fun x => IZR (Zfloor x)).

(** [Math.min]. *)
Definition Math_min : num -> num -> num := lift2 Rmin.

(** *** [Float32Array] *)

Definition Float32Array : Type := list num.

(** [new Float32Array(n)]: [n] zeros. *)
Definition new_Float32Array (n : nat) : Float32Array := repeat (Fin 0) n.

(** [a[i]] used as a number: a read past the end gives [undefined],
    which every arithmetic use and every typed-array store turns into NaN. *)
Definition get (a : Float32Array) (i : nat) : num := nth i a NaN.

(** [a[i] = v]: a write past the end is ignored; the length never changes. *)
Fixpoint store (a : Float32Array) (i : nat) (v : num) : Float32Array :=
  match a, i with
  | [], _ => []
  | _ :: t, O => v :: t
  | h :: t, S i' => h :: store t i' v
  end.

(** [l[idx]] on an ordinary array: [undefined] unless [idx] is a
    non-negative integer below the length. *)
Definition array_get {A : Type} (l : list A) (idx : num) : option A :=
  match idx with
  | Fin x =>
      let z := Zfloor x in
      if Req_dec_T (IZR z) x
      then if (0 <=? z)%Z then nth_error l (Z.to_nat z) else None
      else None
  | NaN => None
  end.

(** A possibly [undefined] number used in arithmetic. *)
Definition to_num (o : option num) : num :=
  match o with
  | Some v => v
  | None => NaN
  end.

(** *** [THREE.Vector3] *)

Record Vector3 : Type := mkVector3 { vx : num; vy : num; vz : num }.

Definition multiplyScalar (p : Vector3) (s : num) : Vector3 :=
  mkVector3 (vx p *! s) (vy p *! s) (vz p *! s).

End JS.

Export JS.
Local Open Scope num_scope.

(* ================================================================== *)
(** ** Randomised computations *)
(* ================================================================== *)

Module Rand.

(** The outcome of running a sampler: a value and the next position of the
    oracle, a raised exception, or an exhausted loop budget. *)
Inductive outcome (A : Type) : Type :=
| Ok (a : A) (next : nat)
| Raised
| OutOfFuel.

Arguments Ok {A} a next.
Arguments Raised {A}.
Arguments OutOfFuel {A}.

(** A sampler reads a loop budget (used by unbounded [while] loops only),
    the oracle [rnd] behind [Math.random], and the position of the next
    unread draw. *)
Definition M (A : Type) : Type := nat -> (nat -> R) -> nat -> outcome A.

Definition ret {A} (a : A) : M A := fun _ _ k => Ok a k.

Definition bind {A B} (c : M A) (f : A -> M B) : M B :=
  fun fuel rnd k =>
    match c fuel rnd k with
    | Ok a k' => f a fuel rnd k'
    | Raised => Raised
    | OutOfFuel => OutOfFuel
    end.

Definition raise {A} : M A := fun _ _ _ => Raised.

(** [Math.random()]. *)
Definition Math_random : M num := fun _ rnd k => Ok (Fin (rnd k)) (S k).

(** Every draw of the oracle lies in [0, 1). *)
Definition random_source (rnd : nat -> R) : Prop :=
  forall k, 0 <= rnd k < 1.

End Rand.

Import Rand.

Declare Scope rand_scope.
Delimit Scope rand_scope with rand.
Notation "x <- c ;; k" := (bind c (fun x => k))
  (at level 61, c at next level, right associativity) : rand_scope.
Local Open Scope rand_scope.

(* ================================================================== *)
(** ** types.ts *)
(* ================================================================== *)

Module ShapeType.
Local Open Scope string_scope.
Definition HEART := "Heart".
Definition DOUBLE_HEART := "Double Heart".
Definition FLOWER := "Flower".
Definition FLOWER_SEA := "Flower Sea".
Definition SATURN := "Saturn".
Definition SOLAR_SYSTEM := "Solar System".
Definition RING := "Ring".
Definition BUTTERFLY := "Butterfly".
Definition I_LOVE_U := "I Love U".
Definition BUDDHA := "Buddha".
Definition FIREWORKS := "Fireworks".
Definition GALAXY := "Galaxy".
Definition DNA := "DNA".
Definition SPHERE := "Sphere".
Definition CUSTOM := "Custom".
End ShapeType.

Record Position : Type := mkPosition { pos_x : R; pos_y : R }.

Record HandData : Type := mkHandData {
  isOpen : bool;
  gestureValue : R;
  position : Position
}.

(* ================================================================== *)
(** ** utils/shapes.ts *)
(* ================================================================== *)

Module Shapes.

Definition COUNT : nat := Z.to_nat 10000.

Definition getRandomPointInSphere (radius : num) : M Vector3 :=
  u <- Math_random ;;
  v <- Math_random ;;
  let theta := 2 *! Math_PI *! u in
  let phi := Math_acos (2 *! v -! 1) in
  r0 <- Math_random ;;
  let r := Math_cbrt r0 *! radius in
  let sinPhi := Math_sin phi in
  ret (mkVector3 (r *! sinPhi *! Math_cos theta)
                 (r *! sinPhi *! Math_sin theta)
                 (r *! Math_cos phi)).

(** The left-hand side of the implicit heart inequality,
    [(x^2 + 9/4 y^2 + z^2 - 1)^3 - x^2 z^3 - 9/80 y^2 z^3]. *)
Definition heart_result (x y z : num) : num :=
  let a := x *! x +! (9 / 4) *! y *! y +! z *! z -! 1 in
  Math_pow a 3 -! x *! x *! Math_pow z 3 -! (9 / 80) *! y *! y *! Math_pow z 3.

(** The [while (!found)] loop of the rejection sampler: one candidate per
    iteration, three draws each; [p.set(x, z, y)] on acceptance. *)
Fixpoint heart_while (fuel : nat) (rnd : nat -> R) (k : nat) : outcome Vector3 :=
  match fuel with
  | O => OutOfFuel
  | S fuel' =>
      let x := Fin (rnd k) *! 3 -! 1.5 in
      let y := Fin (rnd (S k)) *! 3 -! 1.5 in
      let z := Fin (rnd (S (S k))) *! 3 -! 1.5 in
      if heart_result x y z <! 0
      then Ok (mkVector3 x z y) (S (S (S k)))
      else heart_while fuel' rnd (S (S (S k)))
  end.

Definition getVolumetricHeartPoint (scale : num) : M Vector3 :=
  p <- heart_while ;;
  ret (multiplyScalar p scale).

Record Planet : Type := mkPlanet { r : num; size : num; angle : num }.

Definition orbitRadii : list num :=
  [Fin 1.5; Fin 2.2; Fin 3.2; Fin 4.5; Fin 6.5; Fin 8.5; Fin 10.5; Fin 12.5].

Definition planets : list Planet :=
  [ mkPlanet 1.5 0.1 0;
    mkPlanet 2.2 0.18 1.2;
    mkPlanet 3.2 0.2 2.5;
    mkPlanet 4.5 0.15 4.0;
    mkPlanet 6.5 0.5 5.5;
    mkPlanet 8.5 0.45 0.5;
    mkPlanet 10.5 0.3 2.0;
    mkPlanet 12.5 0.3 3.5 ].

Definition length_num {A : Type} (l : list A) : num := Fin (INR (List.length l)).

(** An integer loop counter used as a number. *)
Definition of_nat (n : nat) : num := Fin (INR n).

Definition Point : Type := (num * num * num)%type.

Definition of_vec (p : Vector3) : Point := (vx p, vy p, vz p).

Definition case_HEART : M Point :=
  p <- getVolumetricHeartPoint 2.0 ;;
  ret (of_vec p).

Definition case_DOUBLE_HEART : M Point :=
  u <- Math_random ;;
  let isFirst := u <! 0.5 in
  p <- getVolumetricHeartPoint 1.8 ;;
  if isFirst then ret (vx p -! 0.8, vy p, vz p)
  else
    let angle := Math_PI /! 4 in
    let rx := vx p *! Math_cos angle -! vz p *! Math_sin angle in
    let rz := vx p *! Math_sin angle +! vz p *! Math_cos angle in
    ret (rx +! 0.8, vy p, rz).

Definition case_GALAXY (i : nat) : M Point :=
  let arms := 3%nat in
  let armIndex := (i mod arms)%nat in
  randomOffset <- Math_random ;;
  let angle := randomOffset *! Math_PI *! 4
               +! (of_nat armIndex *! (Math_PI *! 2 /! of_nat arms)) in
  let distance := 0.2 +! randomOffset *! 3.5 in
  let x := Math_cos angle *! distance in
  let z := Math_sin angle *! distance in
  u1 <- Math_random ;;
  let y := (u1 -! 0.5) *! (1 -! randomOffset) *! 0.8 in
  u2 <- Math_random ;;
  let x := x +! (u2 -! 0.5) *! 0.2 in
  u3 <- Math_random ;;
  let z := z +! (u3 -! 0.5) *! 0.2 in
  ret (x, y, z).

Definition case_DNA (i count : nat) : M Point :=
  let t := (of_nat i /! of_nat count) *! Math_PI *! 20 in
  let radius : num := 1.0 in
  let height : num := 6.0 in
  let yPos := (of_nat i /! of_nat count) *! height -! (height /! 2) in
  if (i mod 10 =? 0)%nat then
    let tRung := Math_floor ((of_nat i /! of_nat count) *! 20) *! Math_PI in
    mix <- Math_random ;;
    let x := Math_cos tRung *! radius *! (mix *! 2 -! 1) in
    let z := Math_sin tRung *! radius *! (mix *! 2 -! 1) in
    ret (x, yPos, z)
  else
    let isStrandA := (i mod 2 =? 0)%nat in
    let offset := if isStrandA then Fin 0 else Math_PI in
    let x := Math_cos (t +! offset) *! radius in
    let z := Math_sin (t +! offset) *! radius in
    ret (x, yPos, z).

Definition case_FLOWER : M Point :=
  u <- Math_random ;;
  let theta := u *! Math_PI *! 2 in
  let k : num := 5 in
  let r_rose := 3 *! Math_cos (k *! theta) in
  u2 <- Math_random ;;
  let r2 := u2 *! 2 in
  let x := (r_rose +! r2) *! Math_cos theta in
  let y := (r_rose +! r2) *! Math_sin theta in
  u3 <- Math_random ;;
  let z := (u3 -! 0.5) *! 1.5 in
  ret (x, y, z).

Definition case_FLOWER_SEA : M Point :=
  let width : num := 14 in
  let depth : num := 14 in
  u1 <- Math_random ;;
  let x := (u1 -! 0.5) *! width in
  u2 <- Math_random ;;
  let z := (u2 -! 0.5) *! depth in
  let y := Math_sin (x *! 0.5) *! Math_cos (z *! 0.5) *! 1.5 -! 2.5 in
  let y := y +! 1.0 in
  u3 <- Math_random ;;
  let y := y +! u3 *! 0.6 in
  ret (x, y, z).

Definition case_RING : M Point :=
  u0 <- Math_random ;;
  if u0 <! 0.15 then
    u1 <- Math_random ;;
    let h := u1 *! 1.5 in
    let r := (1 -! Math_abs (h -! 0.75) /! 0.75) *! 0.8 in
    u2 <- Math_random ;;
    let theta := u2 *! Math_PI *! 2 in
    let x := r *! Math_cos theta in
    let z := r *! Math_sin theta in
    let y := h +! 2.0 in
    ret (x, y, z)
  else
    let majorR : num := 2.0 in
    u1 <- Math_random ;;
    let minorR := 0.2 +! u1 *! 0.1 in
    u2 <- Math_random ;;
    let u := u2 *! Math_PI *! 2 in
    u3 <- Math_random ;;
    let v := u3 *! Math_PI *! 2 in
    let x := (majorR +! minorR *! Math_cos v) *! Math_cos u in
    let y := (majorR +! minorR *! Math_cos v) *! Math_sin u in
    let z := minorR *! Math_sin v in
    let tempY := y in
    let y := x in
    let x := tempY in
    ret (x, y, z).

Definition case_BUTTERFLY : M Point :=
  u <- Math_random ;;
  let t := u *! Math_PI *! 4 in
  let e := Math_exp (Math_cos t) in
  let c4 := 2 *! Math_cos (4 *! t) in
  let s5 := Math_pow (Math_sin (t /! 12)) 5 in
  let r := e -! c4 +! s5 in
  let bx := r *! Math_sin t in
  let by_ := r *! Math_cos t in
  let x := bx *! 0.8 in
  let y := by_ *! 0.8 in
  let dist := Math_sqrt (x *! x +! y *! y) in
  u2 <- Math_random ;;
  let z := Math_abs x *! 0.5 *! Math_sin (dist *! 0.5) +! (u2 -! 0.5) *! 0.5 in
  ret (x, y, z).

Definition case_I_LOVE_U : M Point :=
  section <- Math_random ;;
  if section <! 0.2 then
    u1 <- Math_random ;;
    let x := (-2.5) +! (u1 *! 0.5) in
    u2 <- Math_random ;;
    let y := (u2 *! 4) -! 2 in
    u3 <- Math_random ;;
    let z := (u3 -! 0.5) *! 0.5 in
    ret (x, y, z)
  else if section <! 0.6 then
    p <- getVolumetricHeartPoint 1.2 ;;
    ret (of_vec p)
  else
    u1 <- Math_random ;;
    let t := u1 *! Math_PI in
    let r : num := 1.5 in
    let ux := Math_cos (t +! Math_PI) *! r in
    let uy := Math_sin (t +! Math_PI) *! r *! 1.5 in
    u2 <- Math_random ;;
    uy <- (if u2 >! 0.7
           then (u3 <- Math_random ;; ret (uy +! u3 *! 2))
           else ret uy) ;;
    let x := ux +! 2.5 in
    let y := uy +! 0.5 in
    u4 <- Math_random ;;
    let z := (u4 -! 0.5) *! 0.5 in
    ret (x, y, z).

Definition case_SATURN : M Point :=
  let ratio : num := 0.6 in
  u0 <- Math_random ;;
  if u0 <! ratio then
    p <- getRandomPointInSphere 1.8 ;;
    ret (of_vec p)
  else
    u1 <- Math_random ;;
    let angle := u1 *! Math_PI *! 2 in
    u2 <- Math_random ;;
    let dist := 2.8 +! u2 *! 1.5 in
    let x := Math_cos angle *! dist in
    let z := Math_sin angle *! dist in
    u3 <- Math_random ;;
    let y := (u3 -! 0.5) *! 0.1 in
    ret (x, y, z).

Definition case_SOLAR_SYSTEM : M Point :=
  r0 <- Math_random ;;
  if r0 <! 0.15 then
    p <- getRandomPointInSphere 0.8 ;;
    ret (of_vec p)
  else if r0 <! 0.55 then
    u1 <- Math_random ;;
    let selectedOrbit :=
      to_num (array_get orbitRadii (Math_floor (u1 *! length_num orbitRadii))) in
    u2 <- Math_random ;;
    let rad := selectedOrbit +! (u2 -! 0.5) *! 0.1 in
    u3 <- Math_random ;;
    let theta := u3 *! Math_PI *! 2 in
    let x := rad *! Math_cos theta in
    let z := rad *! Math_sin theta in
    u4 <- Math_random ;;
    let y := (u4 -! 0.5) *! 0.05 in
    ret (x, y, z)
  else
    u1 <- Math_random ;;
    let pIdx := Math_floor (u1 *! length_num planets) in
    match array_get planets pIdx with
    | None => raise (* reading [planet.r] of [undefined] *)
    | Some planet =>
        let centerX := r planet *! Math_cos (angle planet) in
        let centerZ := r planet *! Math_sin (angle planet) in
        p <- getRandomPointInSphere (size planet) ;;
        let x := centerX +! vx p in
        let y := vy p in
        let z := centerZ +! vz p in
        if neq pIdx 5 then
          u2 <- Math_random ;;
          if u2 >! 0.5 then
            u3 <- Math_random ;;
            let ringR := size planet *! (1.4 +! u3 *! 0.8) in
            u4 <- Math_random ;;
            let ringTheta := u4 *! Math_PI *! 2 in
            let x := centerX +! ringR *! Math_cos ringTheta in
            let z := centerZ +! ringR *! Math_sin ringTheta in
            u5 <- Math_random ;;
            let y := (u5 -! 0.5) *! 0.05 +! Math_sin ringTheta *! 0.1 in
            ret (x, y, z)
          else ret (x, y, z)
        else ret (x, y, z)
    end.

Definition case_BUDDHA : M Point :=
  part <- Math_random ;;
  if part <! 0.2 then
    p <- getRandomPointInSphere 0.8 ;;
    ret (vx p, vy p +! 2.5, vz p)
  else if part <! 0.6 then
    u1 <- Math_random ;;
    let h := u1 *! 3 in
    let r := 1.0 +! (3 -! h) *! 0.5 in
    u2 <- Math_random ;;
    let theta := u2 *! Math_PI *! 2 in
    u3 <- Math_random ;;
    let x := r *! Math_cos theta *! Math_sqrt u3 in
    u4 <- Math_random ;;
    let z := r *! Math_sin theta *! Math_sqrt u4 in
    let y := h -! 1.5 in
    ret (x, y, z)
  else
    u1 <- Math_random ;;
    let theta := u1 *! Math_PI *! 2 in
    u2 <- Math_random ;;
    let r := 2.5 *! Math_sqrt u2 in
    let x := r *! Math_cos theta in
    let z := r *! Math_sin theta in
    u3 <- Math_random ;;
    let y := (-1.5) +! (u3 *! 0.5) in
    ret (x, y, z).

Definition case_FIREWORKS : M Point :=
  u1 <- Math_random ;;
  let theta := u1 *! Math_PI *! 2 in
  u2 <- Math_random ;;
  let phi := Math_acos (2 *! u2 -! 1) in
  u3 <- Math_random ;;
  let r := u3 *! 6 in
  let x := r *! Math_sin phi *! Math_cos theta in
  let y := r *! Math_sin phi *! Math_sin theta in
  let z := r *! Math_cos phi in
  ret (x, y, z).

Definition case_CUSTOM : M Point :=
  p <- getRandomPointInSphere 3 ;;
  ret (of_vec p).

Definition case_SPHERE : M Point :=
  p <- getRandomPointInSphere 3 ;;
  ret (of_vec p).

(** The body of the [switch (shape)] for particle [i]; an identifier that
    matches no [case] label runs the [default] branch. *)
Definition switch_shape (shape : string) (i count : nat) : M Point :=
  if String.eqb shape ShapeType.HEART then case_HEART
  else if String.eqb shape ShapeType.DOUBLE_HEART then case_DOUBLE_HEART
  else if String.eqb shape ShapeType.GALAXY then case_GALAXY i
  else if String.eqb shape ShapeType.DNA then case_DNA i count
  else if String.eqb shape ShapeType.FLOWER then case_FLOWER
  else if String.eqb shape ShapeType.FLOWER_SEA then case_FLOWER_SEA
  else if String.eqb shape ShapeType.RING then case_RING
  else if String.eqb shape ShapeType.BUTTERFLY then case_BUTTERFLY
  else if String.eqb shape ShapeType.I_LOVE_U then case_I_LOVE_U
  else if String.eqb shape ShapeType.SATURN then case_SATURN
  else if String.eqb shape ShapeType.SOLAR_SYSTEM then case_SOLAR_SYSTEM
  else if String.eqb shape ShapeType.BUDDHA then case_BUDDHA
  else if String.eqb shape ShapeType.FIREWORKS then case_FIREWORKS
  else if String.eqb shape ShapeType.CUSTOM then case_CUSTOM
  else case_SPHERE.

(** The [for (let i = 0; i < count; i++)] loop, with [todo = count - i]
    iterations left. *)
Fixpoint generate_loop (shape : string) (count todo i : nat)
    (positions : Float32Array) : M Float32Array :=
  match todo with
  | O => ret positions
  | S todo' =>
      let idx := (i * 3)%nat in
      xyz <- switch_shape shape i count ;;
      let '(x, y, z) := xyz in
      let positions := store positions idx x in
      let positions := store positions (idx + 1) y in
      let positions := store positions (idx + 2) z in
      generate_loop shape count todo' (S i) positions
  end.

Definition generateParticles (shape : string) (count : nat) : M Float32Array :=
  let positions := new_Float32Array (count * 3) in
  generate_loop shape count count 0 positions.

End Shapes.

(* ================================================================== *)
(** ** components/DrawingCanvas.tsx *)
(* ================================================================== *)

Module DrawingCanvas.

(** A stroke point [{x, y}] in canvas pixels. *)
Record Pt : Type := mkPt { x : R; y : R }.

Definition Path : Type := list Pt.

Record Canvas : Type := mkCanvas { width : R; height : R }.

(** What [processAndSave] ends with: [onClose()] or [onSave(positions)]. *)
Inductive callback : Type :=
| onClose
| onSave (points : Float32Array).

Definition COUNT : nat := Z.to_nat 8000.

(** The inner [for (i = 1; i < path.length; i++)] that accumulates [pLen]. *)
Fixpoint pLen_loop (pLen : num) (path : Path) : num :=
  match path with
  | p0 :: ((p1 :: _) as rest) =>
      let dx := Fin (x p1) -! Fin (x p0) in
      let dy := Fin (y p1) -! Fin (y p0) in
      pLen_loop (pLen +! Math_sqrt (dx *! dx +! dy *! dy)) rest
  | _ => pLen
  end.

(** [flatPaths.forEach] of the measuring pass: the state is
    [(pathLengths, totalLength)]. *)
Definition measure_step (acc : list num * num) (path : Path) : list num * num :=
  let pLen := pLen_loop 0 path in
  (fst acc ++ [pLen], snd acc +! pLen).

Definition measure (flatPaths : list Path) : list num * num :=
  fold_left measure_step flatPaths ([], Fin 0).

(** [Math.floor((pathLengths[idx] / totalLength) * COUNT)]. *)
Definition numPointsForPath (pathLengths : list num) (totalLength : num) (idx : nat) : num :=
  Math_floor ((get pathLengths idx /! totalLength) *! Shapes.of_nat COUNT).

(** How many [i = 0, 1, 2, ...] satisfy [i < n]. *)
Definition iterations (n : num) : nat :=
  match n with
  | Fin v => Z.to_nat (Zceil v)
  | NaN => O
  end.

Record Walk : Type := mkWalk {
  positions : Float32Array;
  pIdx : nat;
  distanceWalked : num;
  currentSegIdx : nat
}.

Section Walking.

Variables centerX centerY scale : num.

(** The [while (currentSegIdx < path.length - 1)] loop that looks for the
    segment holding [targetDist]; [todo] is [path.length - 1 - currentSegIdx].
    Reading [.x] of a missing vertex would raise. *)
Fixpoint find_segment (todo : nat) (path : Path) (targetDist : num) (w : Walk) : M Walk :=
  match todo with
  | O => ret w
  | S todo' =>
      match nth_error path (currentSegIdx w), nth_error path (S (currentSegIdx w)) with
      | Some p1, Some p2 =>
          let segLen :=
            Math_sqrt (Math_pow (Fin (x p2) -! Fin (x p1)) 2
                       +! Math_pow (Fin (y p2) -! Fin (y p1)) 2) in
          if distanceWalked w +! segLen >=! targetDist then
            let t := (targetDist -! distanceWalked w) /! segLen in
            let px := Fin (x p1) +! (Fin (x p2) -! Fin (x p1)) *! t in
            let py := Fin (y p1) +! (Fin (y p2) -! Fin (y p1)) *! t in
            let ps := store (positions w) (pIdx w * 3) ((px -! centerX) /! scale) in
            let ps := store ps (pIdx w * 3 + 1) (nneg (py -! centerY) /! scale) in
            u <- Math_random ;;
            let ps := store ps (pIdx w * 3 + 2) ((u -! 0.5) *! 0.5) in
            ret (mkWalk ps (S (pIdx w)) (distanceWalked w) (currentSegIdx w))
          else
            find_segment todo' path targetDist
              (mkWalk (positions w) (pIdx w)
                      (distanceWalked w +! segLen) (S (currentSegIdx w)))
      | _, _ => raise
      end
  end.

(** The [for (i = 0; i < numPointsForPath && pIdx < COUNT; i++)] loop;
    [todo] counts the values of [i] still below [numPointsForPath]. *)
Fixpoint walk_for (todo i : nat) (path : Path) (step : num) (w : Walk) : M Walk :=
  match todo with
  | O => ret w
  | S todo' =>
      if (pIdx w <? COUNT)%nat then
        let targetDist := Shapes.of_nat i *! step in
        w' <- find_segment (List.length path - 1 - currentSegIdx w) path targetDist w ;;
        walk_for todo' (S i) path step w'
      else ret w
  end.

(** The callback of the distributing [flatPaths.forEach((path, idx) => ...)];
    the state is [(positions, pIdx)]. *)
Definition walk_path (pathLengths : list num) (totalLength : num)
    (acc : Float32Array * nat) (path : Path) (idx : nat) : M (Float32Array * nat) :=
  if neq totalLength 0 then ret acc
  else
    let n := numPointsForPath pathLengths totalLength idx in
    if (List.length path <? 2)%nat then ret acc
    else
      let step := get pathLengths idx /! n in
      w <- walk_for (iterations n) 0 path step (mkWalk (fst acc) (snd acc) 0 O) ;;
      ret (positions w, pIdx w).

Fixpoint walk_paths (pathLengths : list num) (totalLength : num)
    (acc : Float32Array * nat) (flatPaths : list Path) (idx : nat) : M (Float32Array * nat) :=
  match flatPaths with
  | [] => ret acc
  | path :: rest =>
      acc' <- walk_path pathLengths totalLength acc path idx ;;
      walk_paths pathLengths totalLength acc' rest (S idx)
  end.

End Walking.

(** The filling [while (pIdx < COUNT)] loop; [todo] is [COUNT - pIdx]. *)
Fixpoint fill_while (todo : nat) (ps : Float32Array) (pIdx : nat) : M Float32Array :=
  match todo with
  | O => ret ps
  | S todo' =>
      u <- Math_random ;;
      let sourceIdx := Math_floor (u *! Shapes.of_nat pIdx) in
      let ps := store ps (pIdx * 3) (to_num (array_get ps (sourceIdx *! 3))) in
      let ps := store ps (pIdx * 3 + 1) (to_num (array_get ps (sourceIdx *! 3 +! 1))) in
      let ps := store ps (pIdx * 3 + 2) (to_num (array_get ps (sourceIdx *! 3 +! 2))) in
      fill_while todo' ps (S pIdx)
  end.

Definition processAndSave (paths : list Path) (currentPath : Path) (canvas : Canvas)
    : M callback :=
  if ((List.length paths =? 0)%nat && (List.length currentPath =? 0)%nat)%bool
  then ret onClose
  else
    let positions := new_Float32Array (COUNT * 3) in
    let allPoints := List.concat paths in
    if (List.length allPoints <? 2)%nat then ret onClose
    else
      let '(pathLengths, totalLength) := measure paths in
      let centerX := Fin (width canvas) /! 2 in
      let centerY := Fin (height canvas) /! 2 in
      let scale := Math_min (width canvas) (height canvas) /! 5 in
      acc <- walk_paths centerX centerY scale pathLengths totalLength
               (positions, O) paths O ;;
      ps <- fill_while (COUNT - snd acc) (fst acc) (snd acc) ;;
      ret (onSave ps).

End DrawingCanvas.

(* ================================================================== *)
(** ** The particle scene with gesture and music modes *)
(* ================================================================== *)

Module ParticleScene.

Definition PARTICLE_COUNT : nat := Z.to_nat 8000.
Definition TRAIL_LENGTH : nat := 5.
Definition TOTAL_VERTICES : nat := PARTICLE_COUNT * TRAIL_LENGTH.

(** [THREE.Points]: its rotation and the two buffers of its geometry. *)
Record Points : Type := mkPoints {
  rotation_x : num;
  rotation_y : num;
  position_array : Float32Array;
  color_array : Float32Array
}.

Record PointsMaterial : Type := mkMaterial { size : num; opacity : num }.

(** [THREE.Color]. *)
Record Color : Type := mkColor { r : R; g : R; b : R }.

(** [audioManager.getAudioData()]. *)
Record AudioData : Type := mkAudio { bass : R; mid : R; high : R }.

Record Props : Type := mkProps {
  currentShape : string;
  color : Color;
  handData : HandData;
  customPoints : option Float32Array;
  isMusicMode : bool
}.

(** The mutable state of one mounted [ParticleMesh]: its refs. *)
Record Refs : Type := mkRefs {
  pointsRef : option Points;
  materialRef : option PointsMaterial;
  physicsPositions : Float32Array;
  transitionRef : num;
  prevShapeRef : string
}.

(** [randomOffsets]: one phase in [0, 2 PI) per particle. *)
Fixpoint randomOffsets_loop (todo i : nat) (offsets : Float32Array) : M Float32Array :=
  match todo with
  | O => ret offsets
  | S todo' =>
      u <- Math_random ;;
      randomOffsets_loop todo' (S i) (store offsets i (u *! Math_PI *! 2))
  end.

Definition randomOffsets : M Float32Array :=
  randomOffsets_loop PARTICLE_COUNT 0 (new_Float32Array PARTICLE_COUNT).

(** The resampling of a custom cloud of another size. *)
Fixpoint resample_loop (todo i : nat) (customPoints resampled : Float32Array)
    : M Float32Array :=
  match todo with
  | O => ret resampled
  | S todo' =>
      u <- Math_random ;;
      let srcIdx :=
        Math_floor (u *! (Shapes.of_nat (List.length customPoints) /! 3)) in
      let resampled :=
        store resampled (i * 3) (to_num (array_get customPoints (srcIdx *! 3))) in
      let resampled :=
        store resampled (i * 3 + 1) (to_num (array_get customPoints (srcIdx *! 3 +! 1))) in
      let resampled :=
        store resampled (i * 3 + 2) (to_num (array_get customPoints (srcIdx *! 3 +! 2))) in
      resample_loop todo' (S i) customPoints resampled
  end.

(** The [targetPositions] memo. *)
Definition targetPositions (currentShape : string)
    (customPoints : option Float32Array) : M Float32Array :=
  match String.eqb currentShape ShapeType.CUSTOM, customPoints with
  | true, Some customPoints =>
      if negb (List.length customPoints =? PARTICLE_COUNT * 3)%nat then
        resample_loop PARTICLE_COUNT 0 customPoints
          (new_Float32Array (PARTICLE_COUNT * 3))
      else ret customPoints
  | _, _ => Shapes.generateParticles currentShape PARTICLE_COUNT
  end.

(** The component body on each render: a changed shape triggers the warp. *)
Definition render (currentShape : string) (s : Refs) : Refs :=
  if negb (String.eqb (prevShapeRef s) currentShape)
  then mkRefs (pointsRef s) (materialRef s) (physicsPositions s) 1.0 currentShape
  else s.

(** The refs as [useRef] creates them on the first render, before the
    geometry memo fills the buffers and before the mesh is attached. *)
Definition initial_refs (currentShape : string) : Refs :=
  mkRefs None None (new_Float32Array (PARTICLE_COUNT * 3)) 0 currentShape.

(** The warp decay at the head of the common physics part of a frame. *)
Definition decay (transition : num) : num :=
  if transition >! 0 then
    let transition := transition *! 0.92 in
    if transition <! 0.01 then Fin 0 else transition
  else transition.

(** The mode switching part of a frame: the new rotation of the mesh,
    [expansionFactor] and [lerpBase]. *)
Definition mode_switch (isMusicMode : bool) (handData : HandData)
    (time : num) (audio : AudioData) (rot_x rot_y : num)
    : (num * num) * num * num :=
  if isMusicMode then
    let spinSpeed := 0.002 +! (Fin (high audio) *! 0.02) in
    let rot_y := rot_y +! spinSpeed in
    let rot_x := Math_sin (time *! 0.5) *! 0.1 +! (Fin (bass audio) *! 0.1) in
    let expansionFactor := 1.0 +! (Fin (bass audio) *! 2.5) in
    let expansionFactor :=
      expansionFactor +! Math_sin (time *! 3.0) *! (Fin (bass audio) *! 0.5) in
    let lerpBase := 0.1 +! (Fin (bass audio) *! 0.2) in
    ((rot_x, rot_y), expansionFactor, lerpBase)
  else
    let targetRotY := (Fin (pos_x (position handData)) -! 0.5) *! 3.0 in
    let targetRotX := (Fin (pos_y (position handData)) -! 0.5) *! 1.5 in
    let rot_y := rot_y +! (targetRotY -! rot_y) *! 0.05 in
    let rot_x := rot_x +! (targetRotX -! rot_x) *! 0.05 in
    let expansionFactor := 1 +! (Math_powr (gestureValue handData) 1.5 *! 3.0) in
    let expansionFactor := expansionFactor +! Fin (bass audio) *! 0.5 in
    let pulseFreq := 2.0 +! (Fin (gestureValue handData) *! 5.0) in
    let expansionFactor :=
      expansionFactor
      +! Math_sin (time *! pulseFreq) *! (0.05 +! Fin (bass audio) *! 0.1) in
    let lerpBase := 0.08 +! (Fin (gestureValue handData) *! 0.05) in
    ((rot_x, rot_y), expansionFactor, lerpBase).

(** The material update (size and opacity). *)
Definition material_update (isMusicMode : bool) (handData : HandData)
    (audio : AudioData) (m : PointsMaterial) : PointsMaterial :=
  let targetSize : num := 0.04 in
  let targetOpacity : num := 0.6 in
  let '(targetSize, targetOpacity) :=
    if isMusicMode
    then (targetSize +! Fin (bass audio) *! 0.15, 0.5 +! Fin (mid audio) *! 0.5)
    else (targetSize +! Math_powr (gestureValue handData) 1.2 *! 0.12,
          0.6 +! (Fin (gestureValue handData) *! 0.3)) in
  mkMaterial (size m +! (targetSize -! size m) *! 0.1) targetOpacity.

(** The vortex: the spin angle of a target at [(tx, tz)]. *)
Definition vortex_spin (isMusicMode : bool) (handData : HandData)
    (time : num) (audio : AudioData) (tx tz : num) : num :=
  let dist := Math_sqrt (tx *! tx +! tz *! tz) in
  let vortexStrength :=
    if isMusicMode then Fin (high audio) *! 0.8
    else Fin (gestureValue handData) *! 0.5 in
  time *! (0.2 +! Fin (high audio) *! 0.5) +! (1.0 /! (dist +! 0.1)) *! vortexStrength.

(** The vortex rotation of a target about the vertical axis: the new
    [(tx, tz)]. *)
Definition vortex (isMusicMode : bool) (handData : HandData)
    (time : num) (audio : AudioData) (tx tz : num) : num * num :=
  let spin := vortex_spin isMusicMode handData time audio tx tz in
  let rx := tx *! Math_cos spin -! tz *! Math_sin spin in
  let rz := tx *! Math_sin spin +! tz *! Math_cos spin in
  (rx, rz).

(** The integration step [stored += (t - current) * lerpBase], where
    [stored] is the buffer entry and [current] the copy read from it at the
    head of the loop body. *)
Definition integrate (stored current t lerpBase : num) : num :=
  stored +! (t -! current) *! lerpBase.

(** The trail shift [for (t = TRAIL_LENGTH - 1; t > 0; t--)], entered at [t]. *)
Fixpoint trail_shift (t bufferStartIdx : nat) (positions : Float32Array) : Float32Array :=
  match t with
  | O => positions
  | S t' =>
      let currT := (bufferStartIdx + (t * 3))%nat in
      let prevT := (bufferStartIdx + ((t - 1) * 3))%nat in
      let positions := store positions currT (get positions prevT) in
      let positions := store positions (currT + 1) (get positions (prevT + 1)) in
      let positions := store positions (currT + 2) (get positions (prevT + 2)) in
      trail_shift t' bufferStartIdx positions
  end.

(** The colour loop [for (t = 0; t < TRAIL_LENGTH; t++)]. *)
Fixpoint color_loop (todo t bufferStartIdx : nat) (cr cg cb : num)
    (colors : Float32Array) : Float32Array :=
  match todo with
  | O => colors
  | S todo' =>
      let colorIdx := (bufferStartIdx + (t * 3))%nat in
      let fade := 1.0 -! (Shapes.of_nat t /! Shapes.of_nat TRAIL_LENGTH) in
      let alpha := fade *! fade in
      let colors := store colors colorIdx (cr *! alpha) in
      let colors := store colors (colorIdx + 1) (cg *! alpha) in
      let colors := store colors (colorIdx + 2) (cb *! alpha) in
      color_loop todo' (S t) bufferStartIdx cr cg cb colors
  end.

(** The three buffers the particle loop mutates. *)
Record Buffers : Type := mkBuffers {
  physics : Float32Array;
  positions : Float32Array;
  colors : Float32Array
}.

Section Frame.

Variable isMusicMode : bool.
Variable handData : HandData.
Variable time : num.
Variable audio : AudioData.
Variable baseColor : Color.
Variable offsets : Float32Array.
Variable target : Float32Array.
Variables expansionFactor lerpBase transition : num.

(** The scatter added to the three target axes during a transition. *)
Definition warp_target (tx ty tz : num) : M (num * num * num) :=
  if transition >! 0 then
    let warp := transition *! 12 in
    u1 <- Math_random ;;
    let tx := tx +! (u1 -! 0.5) *! warp in
    u2 <- Math_random ;;
    let ty := ty +! (u2 -! 0.5) *! warp in
    u3 <- Math_random ;;
    let tz := tz +! (u3 -! 0.5) *! warp in
    ret (tx, ty, tz)
  else ret (tx, ty, tz).

(** The shockwave jitter on strong beats. *)
Definition audio_jitter (tx ty tz : num) : M (num * num * num) :=
  if Fin (bass audio) >! 0.3 then
    let jit := Fin (bass audio) *! 0.05 in
    u1 <- Math_random ;;
    let tx := tx +! (u1 -! 0.5) *! jit in
    u2 <- Math_random ;;
    let ty := ty +! (u2 -! 0.5) *! jit in
    u3 <- Math_random ;;
    let tz := tz +! (u3 -! 0.5) *! jit in
    ret (tx, ty, tz)
  else ret (tx, ty, tz).

(** The body of the particle loop for particle [i]. *)
Definition particle_step (i : nat) (bufs : Buffers) : M Buffers :=
  let pIdx := (i * 3)%nat in
  let currentX := get (physics bufs) pIdx in
  let currentY := get (physics bufs) (pIdx + 1) in
  let currentZ := get (physics bufs) (pIdx + 2) in
  let tx := get target pIdx in
  let ty := get target (pIdx + 1) in
  let tz := get target (pIdx + 2) in
  t3 <- warp_target tx ty tz ;;
  let '(tx, ty, tz) := t3 in
  let tx := tx *! expansionFactor in
  let ty := ty *! expansionFactor in
  let tz := tz *! expansionFactor in
  let '(rx, rz) := vortex isMusicMode handData time audio tx tz in
  let tx := rx in
  let tz := rz in
  let offset := get offsets i in
  let noiseFreq : num := 0.5 in
  let noiseAmp :=
    if isMusicMode then 0.1 +! (Fin (high audio) *! 0.5)
    else 0.15 +! (Fin (gestureValue handData) *! 0.2) in
  let fluidX := Math_sin (time *! 0.8 +! currentY *! noiseFreq +! offset) *! noiseAmp in
  let fluidY := Math_cos (time *! 0.7 +! currentZ *! noiseFreq +! offset) *! noiseAmp in
  let fluidZ := Math_sin (time *! 0.9 +! currentX *! noiseFreq +! offset) *! noiseAmp in
  let tx := tx +! fluidX in
  let ty := ty +! fluidY in
  let tz := tz +! fluidZ in
  t3 <- audio_jitter tx ty tz ;;
  let '(tx, ty, tz) := t3 in
  let phys := physics bufs in
  let phys := store phys pIdx (integrate (get phys pIdx) currentX tx lerpBase) in
  let phys := store phys (pIdx + 1) (integrate (get phys (pIdx + 1)) currentY ty lerpBase) in
  let phys := store phys (pIdx + 2) (integrate (get phys (pIdx + 2)) currentZ tz lerpBase) in
  let newX := get phys pIdx in
  let newY := get phys (pIdx + 1) in
  let newZ := get phys (pIdx + 2) in
  let bufferStartIdx := (i * TRAIL_LENGTH * 3)%nat in
  let pos := trail_shift (TRAIL_LENGTH - 1) bufferStartIdx (positions bufs) in
  let pos := store pos bufferStartIdx newX in
  let pos := store pos (bufferStartIdx + 1) newY in
  let pos := store pos (bufferStartIdx + 2) newZ in
  let nx := newX /! 5 in
  let ny := newY /! 5 in
  let nz := newZ /! 5 in
  let boost := Fin (bass audio) *! 0.6 +! Fin (high audio) *! 0.4 in
  let cr := Fin (r baseColor) +! (nx *! 0.4) +! boost in
  let cg := Fin (g baseColor) +! (ny *! 0.4) +! boost in
  let cb := Fin (b baseColor) +! (nz *! 0.6) +! boost in
  let cols := color_loop TRAIL_LENGTH 0 bufferStartIdx cr cg cb (colors bufs) in
  ret (mkBuffers phys pos cols).

(** The particle loop [for (i = 0; i < PARTICLE_COUNT; i++)]. *)
Fixpoint particle_loop (todo i : nat) (bufs : Buffers) : M Buffers :=
  match todo with
  | O => ret bufs
  | S todo' =>
      bufs' <- particle_step i bufs ;;
      particle_loop todo' (S i) bufs'
  end.

End Frame.

(** One [useFrame] callback: [target] is the memoised [targetPositions]
    (tested for presence), [offsets] the memoised [randomOffsets], [time]
    the elapsed clock time. *)
Definition useFrame (props : Props) (target : option Float32Array)
    (offsets : Float32Array) (time : R) (audio : AudioData) (s : Refs) : M Refs :=
  match pointsRef s with
  | None => ret s
  | Some pts =>
      let '(rot, expansionFactor, lerpBase) :=
        mode_switch (isMusicMode props) (handData props) time audio
                    (rotation_x pts) (rotation_y pts) in
      let material :=
        match materialRef s with
        | Some m => Some (material_update (isMusicMode props) (handData props) audio m)
        | None => None
        end in
      let transition := decay (transitionRef s) in
      bufs <- match target with
              | Some targetPositions =>
                  particle_loop (isMusicMode props) (handData props) time audio
                    (color props) offsets targetPositions
                    expansionFactor lerpBase transition
                    PARTICLE_COUNT 0
                    (mkBuffers (physicsPositions s) (position_array pts) (color_array pts))
              | None =>
                  ret (mkBuffers (physicsPositions s) (position_array pts) (color_array pts))
              end ;;
      ret (mkRefs (Some (mkPoints (fst rot) (snd rot) (positions bufs) (colors bufs)))
                  material (physics bufs) transition (prevShapeRef s))
  end.

(** The trail copies of one particle in the [geometry] memo:
    [for (t = 0; t < TRAIL_LENGTH; t++)]. *)
Fixpoint geometry_trail (todo t i : nat) (startPos : Float32Array)
    (pc : Float32Array * Float32Array) : Float32Array * Float32Array :=
  match todo with
  | O => pc
  | S todo' =>
      let '(positions, colors) := pc in
      let idx := ((i * TRAIL_LENGTH + t) * 3)%nat in
      let positions := store positions idx (get startPos (i * 3)) in
      let positions := store positions (idx + 1) (get startPos (i * 3 + 1)) in
      let positions := store positions (idx + 2) (get startPos (i * 3 + 2)) in
      let colors := store colors idx 1.0 in
      let colors := store colors (idx + 1) 1.0 in
      let colors := store colors (idx + 2) 1.0 in
      geometry_trail todo' (S t) i startPos (positions, colors)
  end.

(** The particle loop of the [geometry] memo. *)
Fixpoint geometry_loop (todo i : nat) (startPos : Float32Array) (bufs : Buffers) : Buffers :=
  match todo with
  | O => bufs
  | S todo' =>
      let phys := store (physics bufs) (i * 3) (get startPos (i * 3)) in
      let phys := store phys (i * 3 + 1) (get startPos (i * 3 + 1)) in
      let phys := store phys (i * 3 + 2) (get startPos (i * 3 + 2)) in
      let '(pos, cols) :=
        geometry_trail TRAIL_LENGTH 0 i startPos (positions bufs, colors bufs) in
      geometry_loop todo' (S i) startPos (mkBuffers phys pos cols)
  end.

(** The [geometry] memo, given [startPos], the sphere cloud it starts
    from: it fills [physicsPositions] and builds the two attribute buffers. *)
Definition geometry (startPos : Float32Array) (physicsPositions : Float32Array) : Buffers :=
  let positions := new_Float32Array (TOTAL_VERTICES * 3) in
  let colors := new_Float32Array (TOTAL_VERTICES * 3) in
  geometry_loop PARTICLE_COUNT 0 startPos (mkBuffers physicsPositions positions colors).

(** What happens to a [ParticleMesh] over time: the first commit, which
    runs the [geometry] memo on [startPos] and attaches the mesh and its
    material to their refs; a render with the current shape; a frame. *)
Inductive event : Type :=
| Mount (startPos : Float32Array)
| Render (currentShape : string)
| Frame (props : Props) (target : option Float32Array) (offsets : Float32Array)
        (time : R) (audio : AudioData).

Definition apply_event (e : event) (s : Refs) : M Refs :=
  match e with
  | Mount startPos =>
      let bufs := geometry startPos (physicsPositions s) in
      ret (mkRefs (Some (mkPoints 0 0 (positions bufs) (colors bufs)))
                  (Some (mkMaterial 0.06 0.8))
                  (physics bufs) (transitionRef s) (prevShapeRef s))
  | Render currentShape => ret (render currentShape s)
  | Frame props target offsets time audio => useFrame props target offsets time audio s
  end.

Fixpoint run (es : list event) (s : Refs) : M Refs :=
  match es with
  | [] => ret s
  | e :: rest =>
      s' <- apply_event e s ;;
      run rest s'
  end.

End ParticleScene.

(* ================================================================== *)
(** ** components/ParticleScene.tsx (the gesture-only scene) *)
(* ================================================================== *)

Module LegacyScene.

Definition count : nat := Z.to_nat 10000.

(** The vortex: the spin angle of a target at [(tx, tz)]. *)
Definition vortex_spin (time tx tz : num) : num :=
  let dist := Math_sqrt (tx *! tx +! tz *! tz) in
  let spinSpeed := 0.2 +! (1.0 /! (dist +! 0.1)) *! 0.5 in
  time *! spinSpeed *! 0.5.

(** The vortex rotation of a target about the vertical axis: the new
    [(tx, tz)]. *)
Definition vortex (time tx tz : num) : num * num :=
  let spin := vortex_spin time tx tz in
  let rx := tx *! Math_cos spin -! tz *! Math_sin spin in
  let rz := tx *! Math_sin spin +! tz *! Math_cos spin in
  (rx, rz).

Section Frame.

Variable time : num.
Variable baseColor : ParticleScene.Color.
Variable target : Float32Array.
Variables expansionFactor noiseAmount lerpSpeed transition : num.

(** The body of the particle loop for particle [i]; the state is
    [(positions, colors)]. *)
Definition particle_step (i : nat) (bufs : Float32Array * Float32Array)
    : M (Float32Array * Float32Array) :=
  let '(positions, colors) := bufs in
  let i3 := (i * 3)%nat in
  let tx := get target i3 in
  let ty := get target (i3 + 1) in
  let tz := get target (i3 + 2) in
  t3 <- (if transition >! 0 then
           let warp := transition *! 10 in
           u1 <- Math_random ;;
           u2 <- Math_random ;;
           u3 <- Math_random ;;
           ret (tx +! (u1 -! 0.5) *! warp,
                ty +! (u2 -! 0.5) *! warp,
                tz +! (u3 -! 0.5) *! warp)
         else ret (tx, ty, tz)) ;;
  let '(tx, ty, tz) := t3 in
  let tx := tx *! expansionFactor in
  let ty := ty *! expansionFactor in
  let tz := tz *! expansionFactor in
  let '(rx, rz) := vortex time tx tz in
  let tx := rx in
  let tz := rz in
  t3 <- (if noiseAmount >! 0.01 then
           u1 <- Math_random ;;
           u2 <- Math_random ;;
           u3 <- Math_random ;;
           ret (tx +! (u1 -! 0.5) *! noiseAmount,
                ty +! (u2 -! 0.5) *! noiseAmount,
                tz +! (u3 -! 0.5) *! noiseAmount)
         else ret (tx, ty, tz)) ;;
  let '(tx, ty, tz) := t3 in
  let positions :=
    store positions i3 (get positions i3 +! (tx -! get positions i3) *! lerpSpeed) in
  let positions :=
    store positions (i3 + 1)
      (get positions (i3 + 1) +! (ty -! get positions (i3 + 1)) *! lerpSpeed) in
  let positions :=
    store positions (i3 + 2)
      (get positions (i3 + 2) +! (tz -! get positions (i3 + 2)) *! lerpSpeed) in
  let nx := get positions i3 /! 5 in
  let ny := get positions (i3 + 1) /! 5 in
  let nz := get positions (i3 + 2) /! 5 in
  let rBase : num := ParticleScene.r baseColor in
  let gBase : num := ParticleScene.g baseColor in
  let bBase : num := ParticleScene.b baseColor in
  let pulse := (Math_sin (time *! 3 +! ny *! 5) +! 1) *! 0.5 in
  let colors := store colors i3 (rBase +! (nx *! 0.5) +! (pulse *! 0.2)) in
  let colors := store colors (i3 + 1) (gBase +! (ny *! 0.5) +! (pulse *! 0.2)) in
  let colors := store colors (i3 + 2) (bBase +! (nz *! 0.8) +! (pulse *! 0.5)) in
  ret (positions, colors).

Fixpoint particle_loop (todo i : nat) (bufs : Float32Array * Float32Array)
    : M (Float32Array * Float32Array) :=
  match todo with
  | O => ret bufs
  | S todo' =>
      bufs' <- particle_step i bufs ;;
      particle_loop todo' (S i) bufs'
  end.

End Frame.

(** The warp decay of this scene: the same two lines. *)
Definition decay (transition : num) : num :=
  if transition >! 0 then
    let transition := transition *! 0.92 in
    if transition <! 0.01 then Fin 0 else transition
  else transition.

(** The refs of this scene: the mesh (its [rotation.y] and the two buffers
    of its geometry, the position one being the stored positions
    themselves) and the warp intensity. *)
Record Refs : Type := mkRefs {
  pointsRef : option (num * Float32Array * Float32Array);
  transitionRef : num
}.

(** One [useFrame] callback of this scene. *)
Definition useFrame (handData : HandData) (baseColor : ParticleScene.Color)
    (target : option Float32Array) (time : R) (s : Refs) : M Refs :=
  match pointsRef s with
  | None => ret s
  | Some (_, positions, colors) =>
      let expansionFactor := 1 +! (Math_powr (gestureValue handData) 1.5 *! 3.5) in
      let noiseAmount := Fin (gestureValue handData) *! 0.8 in
      let lerpSpeed : num := 0.12 in
      let lerpSpeed := if Fin (gestureValue handData) >! 0.1 then Fin 0.2 else lerpSpeed in
      let lerpSpeed := if transitionRef s >! 0.1 then Fin 0.15 else lerpSpeed in
      let transition := decay (transitionRef s) in
      bufs <- match target with
              | Some targetPositions =>
                  particle_loop time baseColor targetPositions
                    expansionFactor noiseAmount lerpSpeed transition
                    count 0 (positions, colors)
              | None => ret (positions, colors)
              end ;;
      ret (mkRefs (Some (Fin time *! 0.05, fst bufs, snd bufs)) transition)
  end.

End LegacyScene.

(* ================================================================== *)
(** ** Vocabulary of the statements *)
(* ================================================================== *)

Module SamplerSpec.

(** From position [k] of the oracle [rnd], the sampler returns a value
    satisfying [Q], the same one for every large enough loop budget. *)
Definition runs {A} (rnd : nat -> R) (c : M A) (k : nat) (Q : A -> Prop) : Prop :=
  exists F a k', Q a /\ forall fuel, (F <= fuel)%nat -> c fuel rnd k = Ok a k'.

Definition ensures {A} (rnd : nat -> R) (c : M A) (Q : A -> Prop) : Prop :=
  forall k, runs rnd c k Q.

(** The points [0 .. n-1] of a cloud all satisfy [Q]. *)
Definition triples (Q : num * num * num -> Prop) (n : nat) (buf : Float32Array) : Prop :=
  forall j, (j < n)%nat -> Q (get buf (j * 3), get buf (j * 3 + 1), get buf (j * 3 + 2)).

(** A finite number of magnitude at most [B]. *)
Definition bounded (B : R) (a : num) : Prop :=
  exists v, a = Fin v /\ Rabs v <= B.

End SamplerSpec.

Module HeartSpec.

(** The implicit heart polynomial on reals. *)
Definition heart_poly (x y z : R) : R :=
  (x * x + 9 / 4 * y * y + z * z - 1) ^ 3 - x * x * z ^ 3 - 9 / 80 * y * y * z ^ 3.

(** The candidate read at position [k] of the oracle. *)
Definition candidate (rnd : nat -> R) (k : nat) : R * R * R :=
  (rnd k * 3 - 1.5, rnd (S k) * 3 - 1.5, rnd (S (S k)) * 3 - 1.5).

Definition accepted (rnd : nat -> R) (k : nat) : Prop :=
  let '(x, y, z) := candidate rnd k in heart_poly x y z < 0.

(** The oracle never rejects for ever: from every position, some later
    candidate is accepted. *)
Definition heart_fair (rnd : nat -> R) : Prop :=
  forall k, exists n, accepted rnd (k + 3 * n).

(** What the rejection loop hands back: a point [(x, y, z)] of the cube
    that satisfies the heart inequality, stored with [y] and [z] swapped. *)
Definition heart_point (p : Vector3) : Prop :=
  exists x y z,
    -1.5 <= x <= 1.5 /\ -1.5 <= y <= 1.5 /\ -1.5 <= z <= 1.5 /\
    heart_poly x y z < 0 /\ p = mkVector3 (Fin x) (Fin z) (Fin y).

(** A stored point that is the image, under the axis swap and the scaling
    by [s], of a point satisfying the heart inequality, and that lies
    within distance [s * 1.8] of the origin. *)
Definition scaled_heart_point (s : R) (pt : num * num * num) : Prop :=
  exists x y z,
    heart_poly x y z < 0 /\
    pt = (Fin (x * s), Fin (z * s), Fin (y * s)) /\
    sqrt ((x * s) * (x * s) + (z * s) * (z * s) + (y * s) * (y * s)) <= s * 1.8.

End HeartSpec.

Module CloudSpec.
Import SamplerSpec.

(** The magnitude no coordinate of a generated cloud exceeds. *)
Definition COORD_BOUND : R := 14.

(** A generated point: three finite coordinates within the bound. *)
Definition point_ok (pt : num * num * num) : Prop :=
  let '(x, y, z) := pt in
  bounded COORD_BOUND x /\ bounded COORD_BOUND y /\ bounded COORD_BOUND z.

End CloudSpec.

Module GenerateSpec.
Local Open Scope string_scope.

(** The shapes whose points come from the heart rejection sampler. *)
Definition rejection_sampled (shape : string) : bool :=
  (String.eqb shape ShapeType.HEART
   || String.eqb shape ShapeType.DOUBLE_HEART
   || String.eqb shape ShapeType.I_LOVE_U)%bool.

(** A vector with finite components of magnitude at most [B]. *)
Definition vec_within (B : R) (p : Vector3) : Prop :=
  exists a b c,
    p = mkVector3 (Fin a) (Fin b) (Fin c) /\ Rabs a <= B /\ Rabs b <= B /\ Rabs c <= B.

End GenerateSpec.

Module ResampleSpec.
Import DrawingCanvas.

(** The arc length of a polyline: the sum of its segment lengths. *)
Fixpoint polyline_length (path : Path) : R :=
  match path with
  | p0 :: ((p1 :: _) as rest) =>
      sqrt ((x p1 - x p0) * (x p1 - x p0) + (y p1 - y p0) * (y p1 - y p0))
      + polyline_length rest
  | _ => 0
  end.

(** The grand total over all strokes. *)
Fixpoint total_length (paths : list Path) : R :=
  match paths with
  | [] => 0
  | path :: rest => polyline_length path + total_length rest
  end.

(** The share of stroke [idx] in the total, times the point count. *)
Definition budget (paths : list Path) (idx : nat) : R :=
  polyline_length (nth idx paths []) / total_length paths * INR COUNT.

(** [Math.round]: the nearest integer, halves upwards. *)
Definition Math_round (v : R) : Z := Zfloor (v + 1 / 2).

(** The allocation as the specification words it:
    [round(strokeLength / totalLength * targetCount)]. *)
Definition allocation_round (paths : list Path) (idx : nat) : Z :=
  Math_round (budget paths idx).

(** The allocation with the fraction dropped. *)
Definition allocation_floor (paths : list Path) (idx : nat) : Z :=
  Zfloor (budget paths idx).

(** The allocation the code computes for stroke [idx]. *)
Definition allocated (paths : list Path) (idx : nat) : num :=
  numPointsForPath (fst (measure paths)) (snd (measure paths)) idx.

(** Point [slot] of a cloud. *)
Definition slot (buf : Float32Array) (i : nat) : num * num * num :=
  (get buf (i * 3), get buf (i * 3 + 1), get buf (i * 3 + 2)).

End ResampleSpec.

Module ResampleExamples.
Import DrawingCanvas.

(** Two horizontal strokes, of lengths 1 and 2. *)
Definition two_strokes : list Path :=
  [ [mkPt 0 0; mkPt 1 0]; [mkPt 0 0; mkPt 2 0] ].

(** Two taps: two strokes of a single point each. *)
Definition two_taps : list Path :=
  [ [mkPt 0 0]; [mkPt 1 1] ].

Definition a_canvas : Canvas := mkCanvas 500 500.

End ResampleExamples.

Module FillSpec.

(** One round of the filling loop, with the drawn source index [s] made
    explicit. *)
Definition copy_slot (ps : Float32Array) (p s : nat) : Float32Array :=
  let ps := store ps (p * 3) (get ps (s * 3)) in
  let ps := store ps (p * 3 + 1) (get ps (s * 3 + 1)) in
  store ps (p * 3 + 2) (get ps (s * 3 + 2)).

End FillSpec.

Module WalkSpec.
Import DrawingCanvas.

(** The buffer and [pIdx] when the distributing [forEach] is done, before
    the filling loop starts. *)
Definition walked (paths : list Path) (canvas : Canvas) : M (Float32Array * nat) :=
  let '(pathLengths, totalLength) := measure paths in
  let centerX := Fin (width canvas) /! 2 in
  let centerY := Fin (height canvas) /! 2 in
  let scale := Math_min (width canvas) (height canvas) /! 5 in
  walk_paths centerX centerY scale pathLengths totalLength
    (new_Float32Array (COUNT * 3), O) paths O.

End WalkSpec.

Module FrameSpec.
Import ParticleScene.

(** The warp intensity [k] frames after a shape change: [0.92^k], and 0
    once that has dropped below 0.01. *)
Definition decayed (k : nat) : R :=
  if Rlt_dec (0.92 ^ k) 0.01 then 0 else 0.92 ^ k.

Definition is_frame (e : event) : Prop :=
  match e with
  | Frame _ _ _ _ _ => True
  | _ => False
  end.

(** The mesh is attached to its ref. *)
Definition mounted (s : Refs) : Prop := pointsRef s <> None.

(** The divisor of the spin term at a target [(tx, tz)]. *)
Definition vortex_divisor (tx tz : R) : R := sqrt (tx * tx + tz * tz) + 0.1.

(** The position after [n] integration steps toward a constant target [t]
    at rate [lerpBase], from [x0]. *)
Fixpoint settle (lerpBase t : R) (n : nat) (x0 : R) : num :=
  match n with
  | O => Fin x0
  | S n' =>
      let cur := settle lerpBase t n' x0 in
      integrate cur cur (Fin t) (Fin lerpBase)
  end.

(** The three writes of the integration step of particle [i], toward the
    transformed target [(tx, ty, tz)]. *)
Definition integrate3 (phys : Float32Array) (i : nat) (tx ty tz lerpBase : num)
    : Float32Array :=
  let pIdx := (i * 3)%nat in
  let phys1 := store phys pIdx (integrate (get phys pIdx) (get phys pIdx) tx lerpBase) in
  let phys2 :=
    store phys1 (pIdx + 1)
      (integrate (get phys1 (pIdx + 1)) (get phys (pIdx + 1)) ty lerpBase) in
  store phys2 (pIdx + 2)
    (integrate (get phys2 (pIdx + 2)) (get phys (pIdx + 2)) tz lerpBase).

(** [lerpBase] as the mode switching part of a frame computes it. *)
Definition lerpBase_of (isMusicMode : bool) (handData : HandData) (audio : AudioData) : num :=
  snd (mode_switch isMusicMode handData 0 audio 0 0).

(** The signals are normalised to [0, 1]. *)
Definition normalised (handData : HandData) (audio : AudioData) : Prop :=
  0 <= gestureValue handData <= 1 /\ 0 <= bass audio <= 1 /\
  0 <= mid audio <= 1 /\ 0 <= high audio <= 1.

End FrameSpec.

Module FrameExamples.
Import ParticleScene.

Definition still_hand : HandData := mkHandData false 0 (mkPosition 0.5 0.5).
Definition silence : AudioData := mkAudio 0 0 0.
Definition white : Color := mkColor 1 1 1.

Definition gesture_props : Props :=
  mkProps ShapeType.HEART white still_hand None false.

(** A mounted mesh right after a shape change, with buffers of the sizes
    the component allocates. *)
Definition warped_refs : Refs :=
  mkRefs (Some (mkPoints 0 0 (new_Float32Array (TOTAL_VERTICES * 3))
                         (new_Float32Array (TOTAL_VERTICES * 3))))
         (Some (mkMaterial 0.06 0.8))
         (new_Float32Array (PARTICLE_COUNT * 3)) 1.0 ShapeType.HEART.

(** A mounted, settled mesh at rest at the origin. *)
Definition resting_refs : Refs :=
  mkRefs (Some (mkPoints 0 0 (new_Float32Array (TOTAL_VERTICES * 3))
                         (new_Float32Array (TOTAL_VERTICES * 3))))
         (Some (mkMaterial 0.06 0.8))
         (new_Float32Array (PARTICLE_COUNT * 3)) 0 ShapeType.HEART.

End FrameExamples.

Module PlacementSpec.
Import DrawingCanvas ResampleSpec.

(** The length of segment [j] of a polyline (0 past its last segment). *)
Definition seg_len (path : Path) (j : nat) : R :=
  match nth_error path j, nth_error path (S j) with
  | Some p1, Some p2 =>
      sqrt ((x p2 - x p1) * (x p2 - x p1) + (y p2 - y p1) * (y p2 - y p1))
  | _, _ => 0
  end.

(** The arc length of the first [j] segments. *)
Fixpoint prefix_length (path : Path) (j : nat) : R :=
  match j with
  | O => 0
  | S j' => prefix_length path j' + seg_len path j'
  end.

(** The points allocated to the strokes [idx, idx + 1, ...], [rest] being
    those strokes. *)
Fixpoint allocated_from (paths rest : list Path) (idx : nat) : nat :=
  match rest with
  | [] => O
  | _ :: rest' => (Z.to_nat (allocation_floor paths idx) + allocated_from paths rest' (S idx))%nat
  end.

(** The points allocated to all strokes together. *)
Definition allocated_total (paths : list Path) : nat := allocated_from paths paths 0.

End PlacementSpec.

(* ================================================================== *)
(** ** components/HandTracker.tsx: the [onResults] handler *)
(* ================================================================== *)

Module HandTracker.

(** A landmark of a detected hand, in normalised image coordinates. *)
Record Landmark : Type := mkLandmark { x : R; y : R }.

Definition Hand : Type := list Landmark.

(** The calls made on the 2D context of the overlay canvas. *)
Inductive DrawCmd : Type :=
| clearRect (x y w h : R)
| set_lineWidth (v : R)
| set_strokeStyle (style : string)
| set_fillStyle (style : string)
| beginPath
| moveTo (x y : R)
| lineTo (x y : R)
| stroke
| arc (x y radius startAngle endAngle : R)
| fill.

Definition FINGER_CONNECTIONS : list (nat * nat) :=
  [ (0, 1); (1, 2); (2, 3); (3, 4);
    (0, 5); (5, 6); (6, 7); (7, 8);
    (9, 10); (10, 11); (11, 12);
    (13, 14); (14, 15); (15, 16);
    (0, 17); (17, 18); (18, 19); (19, 20);
    (5, 9); (9, 13); (13, 17) ]%nat.

(** [l.forEach(f)] for a callback that draws and may raise: [None] is a
    raised [TypeError]. *)
Fixpoint forEach {A : Type} (f : A -> option (list DrawCmd)) (l : list A)
    : option (list DrawCmd) :=
  match l with
  | [] => Some []
  | a :: rest =>
      match f a with
      | Some cmds =>
          match forEach f rest with
          | Some more => Some (cmds ++ more)
          | None => None
          end
      | None => None
      end
  end.

Section Drawing.

Variable canvas : DrawingCanvas.Canvas.

(** One bone: reading [.x] of a missing landmark raises. *)
Definition draw_connection (landmarks : Hand) (c : nat * nat) : option (list DrawCmd) :=
  let '(startIdx, endIdx) := c in
  match nth_error landmarks startIdx, nth_error landmarks endIdx with
  | Some start, Some end_ =>
      Some [ moveTo (x start * DrawingCanvas.width canvas)
                    (y start * DrawingCanvas.height canvas);
             lineTo (x end_ * DrawingCanvas.width canvas)
                    (y end_ * DrawingCanvas.height canvas) ]
  | _, _ => None
  end.

Definition draw_joint (point : Landmark) : option (list DrawCmd) :=
  let px := x point * DrawingCanvas.width canvas in
  let py := y point * DrawingCanvas.height canvas in
  Some [ beginPath; arc px py 2.5 0 (2 * PI); fill ].

Definition draw_hand (landmarks : Hand) : option (list DrawCmd) :=
  match forEach (draw_connection landmarks) FINGER_CONNECTIONS with
  | Some bones =>
      match forEach draw_joint landmarks with
      | Some joints =>
          Some ([set_strokeStyle "#00f0ff"; beginPath] ++ bones ++ [stroke]
                ++ [set_fillStyle "#ffffff"] ++ joints)
      | None => None
      end
  | None => None
  end.

(** The skeleton overlay for one result. *)
Definition draw_skeleton (multiHandLandmarks : option (list Hand)) : option (list DrawCmd) :=
  let cleared :=
    [clearRect 0 0 (DrawingCanvas.width canvas) (DrawingCanvas.height canvas)] in
  match multiHandLandmarks with
  | Some hands =>
      match forEach draw_hand hands with
      | Some cmds => Some (cleared ++ [set_lineWidth 2] ++ cmds)
      | None => None
      end
  | None => Some cleared
  end.

End Drawing.

(** [Math.sqrt(Math.pow(a.x - b.x, 2) + Math.pow(a.y - b.y, 2))]. *)
Definition dist (a b : Landmark) : R :=
  sqrt ((x a - x b) ^ 2 + (y a - y b) ^ 2).

(** What one result says about the hands. *)
Record Raw : Type := mkRaw {
  rawOpenness : R;
  rawX : R;
  rawY : R;
  hasHand : bool
}.

(** The reading of the landmarks: two hands are measured by the distance
    of their wrists, one hand by the distance from its wrist to the tip of
    its middle finger.  Reading [.x] of a missing landmark raises ([None]). *)
Definition read_hands (multiHandLandmarks : option (list Hand)) : option Raw :=
  match multiHandLandmarks with
  | Some ((first :: _) as hands) =>
      if (List.length hands =? 2)%nat then
        match nth_error hands 1 with
        | Some second =>
            match nth_error first 0, nth_error second 0 with
            | Some hand1, Some hand2 =>
                let d := dist hand1 hand2 in
                Some (mkRaw (Rmin (Rmax ((d - 0.05) * 2.5) 0) 1)
                            ((x hand1 + x hand2) / 2)
                            ((y hand1 + y hand2) / 2)
                            true)
            | _, _ => None
            end
        | None => None
        end
      else
        let landmarks := first in
        match nth_error landmarks 0, nth_error landmarks 12, nth_error landmarks 9 with
        | Some wrist, Some middleTip, Some palm =>
            let d := dist wrist middleTip in
            Some (mkRaw (Rmin (Rmax ((d - 0.12) * 3.5) 0) 1) (x palm) (y palm) true)
        | _, _, _ => None
        end
  | _ => Some (mkRaw 0 0.5 0.5 false)
  end.

(** The refs of a mounted tracker that [onResults] reads and writes. *)
Record Refs : Type := mkRefs {
  wasOpenRef : bool;
  lastTriggerTimeRef : Z;
  prevPosRef : Position;
  prevOpennessRef : R;
  isMountedRef : bool
}.

Definition initial_refs : Refs :=
  mkRefs false 0 (mkPosition 0.5 0.5) 0 true.

(** What one call of the handler does besides updating its refs: the
    drawing, whether the gesture trigger callback was called, and the data
    passed to the hand update callback, if it was called. *)
Record Effects : Type := mkEffects {
  drawn : list DrawCmd;
  gestureTrigger : bool;
  handUpdate : option HandData
}.

(** [hands.onResults(results => ...)].  [canvas] is the overlay canvas when
    it and its 2D context exist; [hasGestureTrigger] and [hasHandUpdate] say
    whether the latest callbacks are set; [now] is [Date.now()].  A raised
    [TypeError] is [None]. *)
Definition onResults (canvas : option DrawingCanvas.Canvas)
    (hasGestureTrigger hasHandUpdate : bool) (now : Z)
    (multiHandLandmarks : option (list Hand)) (s : Refs) : option (Refs * Effects) :=
  if negb (isMountedRef s) then Some (s, mkEffects [] false None)
  else
    match (match canvas with
           | Some c => draw_skeleton c multiHandLandmarks
           | None => Some []
           end) with
    | None => None
    | Some cmds =>
        match read_hands multiHandLandmarks with
        | None => None
        | Some raw =>
            let posAlpha := 0.7 in
            let gestureAlpha := 0.6 in
            let smoothX :=
              pos_x (prevPosRef s) + (rawX raw - pos_x (prevPosRef s)) * posAlpha in
            let smoothY :=
              pos_y (prevPosRef s) + (rawY raw - pos_y (prevPosRef s)) * posAlpha in
            let targetOpenness := if hasHand raw then rawOpenness raw else 0.1 in
            let smoothOpenness :=
              prevOpennessRef s + (targetOpenness - prevOpennessRef s) * gestureAlpha in
            let isOpen := Fin smoothOpenness >! 0.60 in
            let isClosed := Fin smoothOpenness <! 0.25 in
            let wasOpen := if isOpen then true else wasOpenRef s in
            let fires := (wasOpen && isClosed
                          && (450 <? now - lastTriggerTimeRef s)%Z)%bool in
            let s' :=
              mkRefs (if fires then false else wasOpen)
                     (if fires then now else lastTriggerTimeRef s)
                     (mkPosition smoothX smoothY) smoothOpenness (isMountedRef s) in
            Some (s',
                  mkEffects cmds (fires && hasGestureTrigger)%bool
                    (if hasHandUpdate
                     then Some (mkHandData (Fin smoothOpenness >! 0.5) smoothOpenness
                                           (mkPosition smoothX smoothY))
                     else None))
        end
    end.

End HandTracker.

(* ================================================================== *)
(** ** The earlier hand tracker, without smoothing *)
(* ================================================================== *)

Module LegacyTracker.
Import HandTracker.

(** The reading of the landmarks when there is a hand. *)
Definition read_hands (first : Hand) (hands : list Hand) : option (R * R * R) :=
  if (List.length hands =? 2)%nat then
    match nth_error hands 1 with
    | Some second =>
        match nth_error first 0, nth_error second 0 with
        | Some hand1, Some hand2 =>
            let d := dist hand1 hand2 in
            Some (Rmin (Rmax ((d - 0.1) * 2) 0) 1,
                  (x hand1 + x hand2) / 2,
                  (y hand1 + y hand2) / 2)
        | _, _ => None
        end
    | None => None
    end
  else
    let landmarks := first in
    match nth_error landmarks 0, nth_error landmarks 12, nth_error landmarks 9 with
    | Some wrist, Some middleTip, Some palm =>
        let d := dist wrist middleTip in
        Some (Rmin (Rmax ((d - 0.2) * 3) 0) 1, x palm, y palm)
    | _, _, _ => None
    end.

Record Refs : Type := mkRefs {
  wasOpenRef : bool;
  lastTriggerTimeRef : Z;
  isMountedRef : bool
}.

Definition initial_refs : Refs := mkRefs false 0 true.

(** What one call of the handler does besides updating its refs. *)
Record Effects : Type := mkEffects {
  gestureTrigger : bool;
  handUpdate : option HandData
}.

(** [hands.onResults(results => ...)] of this tracker; [hasGestureTrigger]
    says whether the optional [onGestureTrigger] prop is set. *)
Definition onResults (hasGestureTrigger : bool) (now : Z)
    (multiHandLandmarks : option (list Hand)) (s : Refs) : option (Refs * Effects) :=
  if negb (isMountedRef s) then Some (s, mkEffects false None)
  else
    match multiHandLandmarks with
    | Some ((first :: _) as hands) =>
        match read_hands first hands with
        | None => None
        | Some (openness, centerX, centerY) =>
            let isOpen := Fin openness >! 0.65 in
            let isClosed := Fin openness <! 0.25 in
            let wasOpen := if isOpen then true else wasOpenRef s in
            let fires := (wasOpen && isClosed
                          && (1000 <? now - lastTriggerTimeRef s)%Z)%bool in
            Some (mkRefs (if fires then false else wasOpen)
                         (if fires then now else lastTriggerTimeRef s)
                         (isMountedRef s),
                  mkEffects (fires && hasGestureTrigger)%bool
                    (Some (mkHandData (Fin openness >! 0.5) openness
                                      (mkPosition centerX centerY))))
        end
    | _ =>
        Some (mkRefs false (lastTriggerTimeRef s) (isMountedRef s),
              mkEffects false (Some (mkHandData false 0.1 (mkPosition 0.5 0.5))))
    end.

End LegacyTracker.

(* ================================================================== *)
(** ** Vocabulary of the tracker statements *)
(* ================================================================== *)

Module TrackerSpec.
Import HandTracker.

(** One result delivered to the handler, with what the handler finds
    around it at that moment. *)
Record Delivery : Type := mkDelivery {
  canvas : option DrawingCanvas.Canvas;
  hasGestureTrigger : bool;
  hasHandUpdate : bool;
  now : Z;
  hands : option (list Hand)
}.

Definition deliver (d : Delivery) (s : Refs) : option (Refs * Effects) :=
  onResults (canvas d) (hasGestureTrigger d) (hasHandUpdate d) (now d) (hands d) s.

(** The handler run on deliveries in turn.  A delivery on which it raises
    has written no ref (every ref is written after the last landmark is
    read), so the next delivery finds the refs as they were.  The log
    holds, for each completed delivery, its timestamp and its effects. *)
Fixpoint run (ds : list Delivery) (s : Refs) : list (Z * Effects) * Refs :=
  match ds with
  | [] => ([], s)
  | d :: rest =>
      match deliver d s with
      | Some (s', e) =>
          let '(log, final) := run rest s' in ((now d, e) :: log, final)
      | None => run rest s
      end
  end.

(** The timestamps at which the gesture trigger callback was called. *)
Definition trigger_times (log : list (Z * Effects)) : list Z :=
  map fst (filter (fun te => gestureTrigger (snd te)) log).

(** The data passed to the hand update callback. *)
Fixpoint reports (log : list (Z * Effects)) : list HandData :=
  match log with
  | [] => []
  | (_, e) :: rest =>
      match handUpdate e with
      | Some hd => hd :: reports rest
      | None => reports rest
      end
  end.

(** Timestamps that follow [last] and each other by more than [gap]. *)
Fixpoint spaced (gap last : Z) (ts : list Z) : Prop :=
  match ts with
  | [] => True
  | t :: rest => (gap < t - last)%Z /\ spaced gap t rest
  end.

(** A delivery that shows no hand. *)
Definition no_hand (d : Delivery) : Prop :=
  hands d = None \/ hands d = Some [].

(** The legacy handler run on results in turn, each with its timestamp and
    with whether the trigger callback is set. *)
Fixpoint legacy_run (ds : list (bool * Z * option (list Hand))) (s : LegacyTracker.Refs)
    : list (Z * LegacyTracker.Effects) * LegacyTracker.Refs :=
  match ds with
  | [] => ([], s)
  | (hasGestureTrigger, now, hands) :: rest =>
      match LegacyTracker.onResults hasGestureTrigger now hands s with
      | Some (s', e) =>
          let '(log, final) := legacy_run rest s' in ((now, e) :: log, final)
      | None => legacy_run rest s
      end
  end.

Definition legacy_trigger_times (log : list (Z * LegacyTracker.Effects)) : list Z :=
  map fst (filter (fun te => LegacyTracker.gestureTrigger (snd te)) log).

Fixpoint legacy_reports (log : list (Z * LegacyTracker.Effects)) : list HandData :=
  match log with
  | [] => []
  | (_, e) :: rest =>
      match LegacyTracker.handUpdate e with
      | Some hd => hd :: legacy_reports rest
      | None => legacy_reports rest
      end
  end.

End TrackerSpec.

(* ================================================================== *)
(** ** utils/audio.ts: the synchronous methods of [AudioManager] *)
(* ================================================================== *)

Module AudioManager.

(** The automation calls of an [AudioParam]. *)
Inductive ParamEvent : Type :=
| setValueAtTime (value startTime : R)
| setTargetAtTime (target startTime timeConstant : R)
| linearRampToValueAtTime (value endTime : R)
| exponentialRampToValueAtTime (value endTime : R)
| cancelScheduledValues (cancelTime : R).

(** An [AudioParam]: the value last assigned to [.value] and the automation
    calls made on it, oldest first. *)
Record AudioParam : Type := mkParam {
  value : R;
  automation : list ParamEvent
}.

Definition schedule (p : AudioParam) (e : ParamEvent) : AudioParam :=
  mkParam (value p) (automation p ++ [e]).

(** The [AudioContext]: the manager only counts as its own effect the
    calls of [resume()]; [state] and [currentTime] belong to the browser
    and are arguments of the methods that read them. *)
Record AudioContext : Type := mkContext { resumes : nat }.

Record GainNode : Type := mkGain { gain : AudioParam }.

Record BiquadFilterNode : Type := mkFilter {
  filter_type : string;
  frequency : AudioParam;
  Q : AudioParam
}.

Record AnalyserNode : Type := mkAnalyser {
  fftSize : nat;
  smoothingTimeConstant : R
}.

(** [analyser.frequencyBinCount]: half the FFT size. *)
Definition frequencyBinCount (a : AnalyserNode) : nat := (fftSize a / 2)%nat.

(** A running oscillator of the drone: started and connected to
    [droneGain]. *)
Record OscillatorNode : Type := mkOscillator {
  osc_type : string;
  osc_frequency : AudioParam
}.

Record HTMLAudioElement : Type := mkAudioElement {
  crossOrigin : option string;
  loop : bool;
  src : string;
  paused : bool;
  currentTime : R
}.

(** The fields of the manager. *)
Record State : Type := mkState {
  ctx : option AudioContext;
  masterGain : option GainNode;
  filterNode : option BiquadFilterNode;
  analyser : option AnalyserNode;
  droneGain : option GainNode;
  audioElement : option HTMLAudioElement;
  mediaElementSource : bool;
  oscillators : list OscillatorNode;
  dataArray : option (list Byte.byte);
  isInitialized : bool;
  isMuted : bool;
  isPlayingFile : bool
}.

(** [new AudioManager()]. *)
Definition constructed : State :=
  mkState None None None None None None false [] None false false false.

Definition freqs : list R := [110; 110.5; 220.2].
Definition types : list string := ["sawtooth"; "sine"; "triangle"]%string.

(** The callback of [freqs.forEach((f, i) => ...)] under [startDrone],
    entered at index [i]: one started oscillator per frequency, pushed on
    [oscillators].  ([types[i % types.length]] is always in range.) *)
Fixpoint push_oscillators (fs : list R) (i : nat) (oscillators : list OscillatorNode)
    : list OscillatorNode :=
  match fs with
  | [] => oscillators
  | f :: rest =>
      let osc := mkOscillator (nth (i mod List.length types) types "sine"%string)
                              (mkParam f []) in
      push_oscillators rest (S i) (oscillators ++ [osc])
  end.

Definition startDrone (s : State) : State :=
  match ctx s, filterNode s with
  | Some _, Some _ =>
      if isPlayingFile s then s
      else
        match droneGain s with
        | Some _ => s
        | None =>
            mkState (ctx s) (masterGain s) (filterNode s) (analyser s)
                    (Some (mkGain (mkParam 0.5 [])))
                    (audioElement s) (mediaElementSource s)
                    (push_oscillators freqs 0 (oscillators s))
                    (dataArray s) (isInitialized s) (isMuted s) (isPlayingFile s)
        end
  | _, _ => s
  end.

(** [stopDrone]: every oscillator is stopped and disconnected, then
    forgotten; so is the drone gain. *)
Definition stopDrone (s : State) : State :=
  mkState (ctx s) (masterGain s) (filterNode s) (analyser s) None
          (audioElement s) (mediaElementSource s) [] (dataArray s)
          (isInitialized s) (isMuted s) (isPlayingFile s).

(** [init()]: the context, the master gain, the analyser with its byte
    buffer, the filter, the audio element and its source, then the drone. *)
Definition init (s : State) : State :=
  if isInitialized s then s
  else
    let node := mkAnalyser 512 0.8 in
    let s1 :=
      mkState (Some (mkContext 0))
              (Some (mkGain (mkParam 0.4 [])))
              (Some (mkFilter "lowpass" (mkParam 400 []) (mkParam 1 [])))
              (Some node)
              (droneGain s)
              (Some (mkAudioElement (Some "anonymous"%string) true "" true 0))
              true
              (oscillators s)
              (Some (repeat Byte.x00 (frequencyBinCount node)))
              (isInitialized s) (isMuted s) (isPlayingFile s) in
    let s2 := startDrone s1 in
    mkState (ctx s2) (masterGain s2) (filterNode s2) (analyser s2) (droneGain s2)
            (audioElement s2) (mediaElementSource s2) (oscillators s2) (dataArray s2)
            true (isMuted s2) (isPlayingFile s2).

(** [stopAudio()], at context time [now]. *)
Definition stopAudio (now : R) (s : State) : State :=
  let audioElement' :=
    match audioElement s with
    | Some a =>
        if negb (paused a)
        then Some (mkAudioElement (crossOrigin a) (loop a) (src a) true 0)
        else Some a
    | None => None
    end in
  let s1 :=
    startDrone
      (mkState (ctx s) (masterGain s) (filterNode s) (analyser s) (droneGain s)
               audioElement' (mediaElementSource s) (oscillators s) (dataArray s)
               (isInitialized s) (isMuted s) false) in
  match filterNode s1, ctx s1 with
  | Some f, Some _ =>
      mkState (ctx s1) (masterGain s1)
              (Some (mkFilter (filter_type f)
                              (schedule (frequency f) (setTargetAtTime 400 now 0.1))
                              (Q f)))
              (analyser s1) (droneGain s1) (audioElement s1) (mediaElementSource s1)
              (oscillators s1) (dataArray s1) (isInitialized s1) (isMuted s1)
              (isPlayingFile s1)
  | _, _ => s1
  end.

(** [toggleMute(shouldMute)], at context time [now]; [suspended] says
    whether [ctx.state] is ['suspended']. *)
Definition toggleMute (shouldMute : bool) (now : R) (suspended : bool) (s : State) : State :=
  let masterGain' :=
    match ctx s, masterGain s with
    | Some _, Some g =>
        Some (mkGain
                (schedule (schedule (gain g) (cancelScheduledValues now))
                          (linearRampToValueAtTime (if shouldMute then 0 else 0.4)
                                                   (now + 0.5))))
    | _, m => m
    end in
  let ctx' :=
    match ctx s with
    | Some c => if (negb shouldMute && suspended)%bool
                then Some (mkContext (S (resumes c))) else Some c
    | None => None
    end in
  mkState ctx' masterGain' (filterNode s) (analyser s) (droneGain s)
          (audioElement s) (mediaElementSource s) (oscillators s) (dataArray s)
          (isInitialized s) shouldMute (isPlayingFile s).

(** [updateFilter(gestureValue)], at context time [now]. *)
Definition updateFilter (gestureValue : R) (now : R) (s : State) : State :=
  match ctx s, filterNode s with
  | Some _, Some f =>
      if isMuted s then s
      else
        let with_filter f' :=
          mkState (ctx s) (masterGain s) (Some f') (analyser s) (droneGain s)
                  (audioElement s) (mediaElementSource s) (oscillators s) (dataArray s)
                  (isInitialized s) (isMuted s) (isPlayingFile s) in
        if isPlayingFile s then
          with_filter (mkFilter (filter_type f)
                                (schedule (frequency f) (setTargetAtTime 20000 now 0.1))
                                (Q f))
        else
          let minFreq := 150 in
          let maxFreq := 6000 in
          let targetFreq :=
            minFreq + (maxFreq - minFreq) * (gestureValue * gestureValue) in
          with_filter (mkFilter (filter_type f)
                                (schedule (frequency f) (setTargetAtTime targetFreq now 0.1))
                                (schedule (Q f)
                                   (setTargetAtTime (1 + (gestureValue * 8)) now 0.1)))
  | _, _ => s
  end.

(** [analyser.getByteFrequencyData(array)]: the current spectrum is
    copied over the front of the buffer, as far as both reach. *)
Fixpoint getByteFrequencyData (spectrum array : list Byte.byte) : list Byte.byte :=
  match spectrum, array with
  | b :: spectrum', _ :: array' => b :: getByteFrequencyData spectrum' array'
  | _, _ => array
  end.

(** The [for (i = start; i < end; i++) sum += dataArray[i]] of [getAvg];
    a read past the end makes the sum NaN. *)
Fixpoint getAvg_loop (todo i : nat) (dataArray : list Byte.byte) (sum : num) : num :=
  match todo with
  | O => sum
  | S todo' =>
      let entry :=
        match nth_error dataArray i with
        | Some b => Fin (INR (Byte.to_nat b))
        | None => NaN
        end in
      getAvg_loop todo' (S i) dataArray (sum +! entry)
  end.

Definition getAvg (dataArray : list Byte.byte) (start end_ : nat) : num :=
  getAvg_loop (end_ - start) start dataArray 0
  /! (Shapes.of_nat end_ -! Shapes.of_nat start).

(** The three band levels, as JavaScript numbers. *)
Record Levels : Type := mkLevels { bass : num; mid : num; high : num }.

(** [getAudioData()]; [spectrum] is what the analyser holds at the call. *)
Definition getAudioData (spectrum : list Byte.byte) (s : State) : State * Levels :=
  match analyser s, dataArray s with
  | Some _, Some array =>
      let array := getByteFrequencyData spectrum array in
      let bass := getAvg array 0 15 /! 255 in
      let mid := getAvg array 15 80 /! 255 in
      let high := getAvg array 80 200 /! 255 in
      (mkState (ctx s) (masterGain s) (filterNode s) (analyser s) (droneGain s)
               (audioElement s) (mediaElementSource s) (oscillators s) (Some array)
               (isInitialized s) (isMuted s) (isPlayingFile s),
       mkLevels bass mid high)
  | _, _ => (s, mkLevels 0 0 0)
  end.

(** The one-shot sound of [triggerWarp]: a sine oscillator through a gain
    into the master gain, with its automation and its start and stop. *)
Record Warp : Type := mkWarp {
  warp_type : string;
  warp_frequency : list ParamEvent;
  warp_gain : list ParamEvent;
  warp_start : R;
  warp_stop : R
}.

(** [triggerWarp()], at context time [now]: the sound it schedules, if
    any.  No field of the manager changes. *)
Definition triggerWarp (now : R) (s : State) : option Warp :=
  match ctx s, masterGain s with
  | Some _, Some _ =>
      if isMuted s then None
      else
        Some (mkWarp "sine"
                [setValueAtTime 200 now; exponentialRampToValueAtTime 800 (now + 0.1)]
                [setValueAtTime 0 now; linearRampToValueAtTime 0.2 (now + 0.05);
                 exponentialRampToValueAtTime 0.01 (now + 0.3)]
                now (now + 0.3))
  | _, _ => None
  end.

(** [playAudioUrl(url)] is asynchronous: it runs in pieces separated by its
    [await]s, and other calls may run between two pieces.  The entry piece:
    the flag says whether "Audio System not initialized" was thrown; a
    suspended context is asked to resume. *)
Definition playAudioUrl_enter (suspended : bool) (s : State) : State * bool :=
  let s := match ctx s with
           | None => init s
           | Some _ => s
           end in
  match ctx s, audioElement s with
  | Some c, Some _ =>
      (mkState (Some (if suspended then mkContext (S (resumes c)) else c))
               (masterGain s) (filterNode s) (analyser s) (droneGain s)
               (audioElement s) (mediaElementSource s) (oscillators s)
               (dataArray s) (isInitialized s) (isMuted s) (isPlayingFile s),
       false)
  | _, _ => (s, true)
  end.

(** The [catch] branch: the drone comes back, then the error is thrown on. *)
Definition playAudioUrl_failed (s : State) : State :=
  startDrone
    (mkState (ctx s) (masterGain s) (filterNode s) (analyser s) (droneGain s)
             (audioElement s) (mediaElementSource s) (oscillators s)
             (dataArray s) (isInitialized s) (isMuted s) false).

(** The piece that stops the drone, sets the source and calls [play()]
    (which clears [paused]); without an audio element the assignment raises
    into the [catch] branch. *)
Definition playAudioUrl_load (url : string) (s : State) : State :=
  let s := stopDrone s in
  match audioElement s with
  | Some a =>
      mkState (ctx s) (masterGain s) (filterNode s) (analyser s) (droneGain s)
              (Some (mkAudioElement (crossOrigin a) (loop a) url false (currentTime a)))
              (mediaElementSource s) (oscillators s)
              (dataArray s) (isInitialized s) (isMuted s) (isPlayingFile s)
  | None => playAudioUrl_failed s
  end.

(** The piece after [play()] has succeeded, at context time [now]; reading
    [currentTime] of a missing context raises into the [catch] branch. *)
Definition playAudioUrl_played (now : R) (s : State) : State :=
  let s :=
    mkState (ctx s) (masterGain s) (filterNode s) (analyser s) (droneGain s)
            (audioElement s) (mediaElementSource s) (oscillators s)
            (dataArray s) (isInitialized s) (isMuted s) true in
  match filterNode s with
  | Some f =>
      match ctx s with
      | Some _ =>
          mkState (ctx s) (masterGain s)
                  (Some (mkFilter (filter_type f)
                                  (schedule (frequency f) (setValueAtTime 20000 now))
                                  (Q f)))
                  (analyser s) (droneGain s) (audioElement s) (mediaElementSource s)
                  (oscillators s) (dataArray s) (isInitialized s) (isMuted s)
                  (isPlayingFile s)
      | None => playAudioUrl_failed s
      end
  | None => s
  end.

End AudioManager.

(* ================================================================== *)
(** ** App.tsx: the state of the application and its handlers *)
(* ================================================================== *)

Module App.
Local Open Scope string_scope.

Definition ROMANTIC_SHAPES : list string :=
  [ ShapeType.HEART; ShapeType.DOUBLE_HEART; ShapeType.GALAXY; ShapeType.DNA;
    ShapeType.RING; ShapeType.BUTTERFLY; ShapeType.I_LOVE_U; ShapeType.FIREWORKS ].

Definition COLORS : list string :=
  [ "#00f0ff"; "#ff00aa"; "#7000ff"; "#00ff66"; "#ffaa00"; "#ffffff" ].

Record Track : Type := mkTrack { name : string; url : string }.

(** The [useState] cells of [App]. *)
Record State : Type := mkState {
  currentShape : string;
  color : string;
  handData : HandData;
  showUI : bool;
  showPlaylist : bool;
  showDrawingCanvas : bool;
  customPoints : option Float32Array;
  isMuted : bool;
  hasInteracted : bool;
  playlist : list Track;
  currentTrackIndex : option nat
}.

Definition initial : State :=
  mkState ShapeType.HEART "#ff00aa" (mkHandData false 0 (mkPosition 0.5 0.5))
          true false false None true false [] None.

(** [currentTrackIndex !== null]. *)
Definition isMusicMode (s : State) : bool :=
  match currentTrackIndex s with
  | Some _ => true
  | None => false
  end.

(** [playlist[currentTrackIndex]?.name], or [null]. *)
Definition songName (s : State) : option string :=
  match currentTrackIndex s with
  | Some i => option_map name (nth_error (playlist s) i)
  | None => None
  end.

(** The state of the page: the cells of [App] and the [audioManager]
    singleton.  A handler is run against the cells of the last render. *)
Record World : Type := mkWorld {
  app : State;
  audio : AudioManager.State
}.

(** An array read past the end gives [undefined]; as a shape or a colour
    it is a value equal to none of the identifiers. *)
Definition undefined : string := "undefined".

Definition or_undefined (o : option string) : string :=
  match o with
  | Some v => v
  | None => undefined
  end.

(** The updater passed to [setCurrentShape]: the
    [while (nextShape === prevShape)] loop, one draw per round. *)
Fixpoint nextShape_while (fuel : nat) (prevShape : string) (rnd : nat -> R) (k : nat)
    : outcome string :=
  match fuel with
  | O => OutOfFuel
  | S fuel' =>
      let idx := Math_floor (Fin (rnd k) *! Shapes.length_num ROMANTIC_SHAPES) in
      let nextShape := or_undefined (array_get ROMANTIC_SHAPES idx) in
      if String.eqb nextShape prevShape
      then nextShape_while fuel' prevShape rnd (S k)
      else Ok nextShape (S k)
  end.

Definition nextShape (prevShape : string) : M string :=
  fun fuel rnd k => nextShape_while fuel prevShape rnd k.

(** [COLORS[Math.floor(Math.random() * COLORS.length)]]. *)
Definition randomColor : M string :=
  u <- Math_random ;;
  ret (or_undefined (array_get COLORS (Math_floor (u *! Shapes.length_num COLORS)))).

Section Handlers.

(** The context time and whether the context is suspended, as the audio
    manager finds them during the handler. *)
Variable now : R.
Variable suspended : bool.

Definition handleInteraction (w : World) : World :=
  let s := app w in
  if negb (hasInteracted s) then
    mkWorld
      (mkState (currentShape s) (color s) (handData s) (showUI s) (showPlaylist s)
               (showDrawingCanvas s) (customPoints s) false true
               (playlist s) (currentTrackIndex s))
      (AudioManager.toggleMute false now suspended (AudioManager.init (audio w)))
  else w.

Definition toggleMute (w : World) : World :=
  let s := app w in
  let newMuted := negb (isMuted s) in
  let audio1 := if negb (hasInteracted s) then AudioManager.init (audio w) else audio w in
  mkWorld
    (mkState (currentShape s) (color s) (handData s) (showUI s) (showPlaylist s)
             (showDrawingCanvas s) (customPoints s) newMuted
             (if negb (hasInteracted s) then true else hasInteracted s)
             (playlist s) (currentTrackIndex s))
    (AudioManager.toggleMute newMuted now suspended audio1).

Definition handleHandUpdate (data : HandData) (w : World) : World :=
  let s := app w in
  mkWorld
    (mkState (currentShape s) (color s) data (showUI s) (showPlaylist s)
             (showDrawingCanvas s) (customPoints s) (isMuted s) (hasInteracted s)
             (playlist s) (currentTrackIndex s))
    (if negb (isMusicMode s)
     then AudioManager.updateFilter (gestureValue data) now (audio w)
     else audio w).

(** The gesture trigger; the updater of the shape is run at once, then
    the colour is drawn.  The second component is the warp sound, if any. *)
Definition handleGestureTrigger (w : World) : M (World * option AudioManager.Warp) :=
  let s := app w in
  if isMusicMode s then ret (w, None)
  else
    shape <- nextShape (currentShape s) ;;
    randomColor <- randomColor ;;
    ret (mkWorld
           (mkState shape randomColor (handData s) (showUI s) (showPlaylist s)
                    (showDrawingCanvas s) (customPoints s) (isMuted s) (hasInteracted s)
                    (playlist s) (currentTrackIndex s))
           (audio w),
         AudioManager.triggerWarp now (audio w)).

Definition handleShapeSelect (type : string) (w : World)
    : World * option AudioManager.Warp :=
  let s := app w in
  let with_shape shape :=
    mkState shape (color s) (handData s) (showUI s) (showPlaylist s)
            (showDrawingCanvas s) (customPoints s) (isMuted s) (hasInteracted s)
            (playlist s) (currentTrackIndex s) in
  let s' :=
    if String.eqb type ShapeType.CUSTOM then
      match customPoints s with
      | None =>
          mkState (currentShape s) (color s) (handData s) (showUI s) (showPlaylist s)
                  true (customPoints s) (isMuted s) (hasInteracted s)
                  (playlist s) (currentTrackIndex s)
      | Some _ => with_shape type
      end
    else with_shape type in
  (mkWorld s' (audio w), AudioManager.triggerWarp now (audio w)).

Definition handleSaveDrawing (points : Float32Array) (w : World)
    : World * option AudioManager.Warp :=
  let s := app w in
  (mkWorld
     (mkState ShapeType.CUSTOM (color s) (handData s) (showUI s) (showPlaylist s)
              false (Some points) (isMuted s) (hasInteracted s)
              (playlist s) (currentTrackIndex s))
     (audio w),
   AudioManager.triggerWarp now (audio w)).

Definition stopMusic (w : World) : World :=
  let s := app w in
  mkWorld
    (mkState (currentShape s) (color s) (handData s) (showUI s) (showPlaylist s)
             (showDrawingCanvas s) (customPoints s) (isMuted s) (hasInteracted s)
             (playlist s) None)
    (AudioManager.stopAudio now (audio w)).

End Handlers.

(** The inline handlers of the interface. *)
Definition setColor (c : string) (s : State) : State :=
  mkState (currentShape s) c (handData s) (showUI s) (showPlaylist s)
          (showDrawingCanvas s) (customPoints s) (isMuted s) (hasInteracted s)
          (playlist s) (currentTrackIndex s).

Definition setShowUI (v : bool) (s : State) : State :=
  mkState (currentShape s) (color s) (handData s) v (showPlaylist s)
          (showDrawingCanvas s) (customPoints s) (isMuted s) (hasInteracted s)
          (playlist s) (currentTrackIndex s).

Definition setShowPlaylist (v : bool) (s : State) : State :=
  mkState (currentShape s) (color s) (handData s) (showUI s) v
          (showDrawingCanvas s) (customPoints s) (isMuted s) (hasInteracted s)
          (playlist s) (currentTrackIndex s).

Definition setShowDrawingCanvas (v : bool) (s : State) : State :=
  mkState (currentShape s) (color s) (handData s) (showUI s) (showPlaylist s)
          v (customPoints s) (isMuted s) (hasInteracted s)
          (playlist s) (currentTrackIndex s).

End App.

(* ================================================================== *)
(** ** Vocabulary of the audio and application statements *)
(* ================================================================== *)

Module AudioSpec.
Import AudioManager.

(** The calls made on the manager, the pieces of [playAudioUrl] among them. *)
Inductive Call : Type :=
| call_init
| call_startDrone
| call_stopDrone
| call_stopAudio (now : R)
| call_toggleMute (shouldMute : bool) (now : R) (suspended : bool)
| call_updateFilter (gestureValue now : R)
| call_getAudioData (spectrum : list Byte.byte)
| call_playAudioUrl_enter (suspended : bool)
| call_playAudioUrl_load (url : string)
| call_playAudioUrl_played (now : R)
| call_playAudioUrl_failed.

Definition apply_call (c : Call) (s : State) : State :=
  match c with
  | call_init => init s
  | call_startDrone => startDrone s
  | call_stopDrone => stopDrone s
  | call_stopAudio now => stopAudio now s
  | call_toggleMute shouldMute now suspended => toggleMute shouldMute now suspended s
  | call_updateFilter g now => updateFilter g now s
  | call_getAudioData spectrum => fst (getAudioData spectrum s)
  | call_playAudioUrl_enter suspended => fst (playAudioUrl_enter suspended s)
  | call_playAudioUrl_load url => playAudioUrl_load url s
  | call_playAudioUrl_played now => playAudioUrl_played now s
  | call_playAudioUrl_failed => playAudioUrl_failed s
  end.

Definition after (calls : list Call) (s : State) : State :=
  fold_left (fun s c => apply_call c s) calls s.

(** The three oscillators of the drone. *)
Definition drone : list OscillatorNode :=
  [ mkOscillator "sawtooth" (mkParam 110 []);
    mkOscillator "sine" (mkParam 110.5 []);
    mkOscillator "triangle" (mkParam 220.2 []) ].

(** Band levels that are finite numbers of the unit interval. *)
Definition unit_levels (l : Levels) : Prop :=
  exists a : ParticleScene.AudioData,
    l = mkLevels (Fin (ParticleScene.bass a)) (Fin (ParticleScene.mid a))
                 (Fin (ParticleScene.high a)) /\
    0 <= ParticleScene.bass a <= 1 /\
    0 <= ParticleScene.mid a <= 1 /\
    0 <= ParticleScene.high a <= 1.

(** The value an automation call asks the parameter to reach, if any. *)
Definition asked (e : ParamEvent) : option R :=
  match e with
  | setValueAtTime v _ => Some v
  | setTargetAtTime v _ _ => Some v
  | linearRampToValueAtTime v _ => Some v
  | exponentialRampToValueAtTime v _ => Some v
  | cancelScheduledValues _ => None
  end.

(** Every value assigned to the parameter, or asked of it, is within
    [lo, hi]. *)
Definition within (lo hi : R) (p : AudioParam) : Prop :=
  lo <= value p <= hi /\
  Forall (fun e => match asked e with
                   | Some v => lo <= v <= hi
                   | None => True
                   end) (automation p).

(** The filter is asked for frequencies between 150 Hz and 20 kHz and
    resonances between 1 and 9; the master gain for levels between 0 and
    0.4. *)
Definition ranges_ok (s : State) : Prop :=
  match filterNode s with
  | Some f => within 150 20000 (frequency f) /\ within 1 9 (Q f)
  | None => True
  end /\
  match masterGain s with
  | Some g => within 0 0.4 (gain g)
  | None => True
  end.

(** The gesture values passed to [updateFilter] are in [0, 1]. *)
Definition unit_gestures (calls : list Call) : Prop :=
  Forall (fun c => match c with
                   | call_updateFilter g _ => 0 <= g <= 1
                   | _ => True
                   end) calls.

(** What every reachable state satisfies: the drone is absent, or it is
    exactly its three oscillators; the byte buffer, once made, has 256
    bins. *)
Definition drone_ok (s : State) : Prop :=
  (droneGain s = None /\ oscillators s = []) \/
  (droneGain s = Some (mkGain (mkParam 0.5 [])) /\ oscillators s = drone).

Definition buffer_ok (s : State) : Prop :=
  match dataArray s with
  | Some array => List.length array = 256%nat
  | None => True
  end.

End AudioSpec.

Module AppSpec.
Import App.

(** What can happen to the page: the handlers of [App], each with the
    context time and state the audio manager finds. *)
Inductive Event : Type :=
| Interaction (now : R) (suspended : bool)
| ToggleMute (now : R) (suspended : bool)
| HandUpdate (data : HandData) (now : R)
| GestureTrigger (now : R)
| ShapeSelect (type : string) (now : R)
| SaveDrawing (points : Float32Array) (now : R)
| StopMusic (now : R)
| SetColor (c : string)
| SetShowUI (v : bool)
| SetShowPlaylist (v : bool)
| SetShowDrawingCanvas (v : bool).

Definition on_app (f : State -> State) (w : World) : World :=
  mkWorld (f (app w)) (audio w).

Definition step (e : Event) (w : World) : M World :=
  match e with
  | Interaction now suspended => ret (handleInteraction now suspended w)
  | ToggleMute now suspended => ret (toggleMute now suspended w)
  | HandUpdate data now => ret (handleHandUpdate now data w)
  | GestureTrigger now =>
      r <- handleGestureTrigger now w ;;
      ret (fst r)
  | ShapeSelect type now => ret (fst (handleShapeSelect now type w))
  | SaveDrawing points now => ret (fst (handleSaveDrawing now points w))
  | StopMusic now => ret (stopMusic now w)
  | SetColor c => ret (on_app (setColor c) w)
  | SetShowUI v => ret (on_app (setShowUI v) w)
  | SetShowPlaylist v => ret (on_app (setShowPlaylist v) w)
  | SetShowDrawingCanvas v => ret (on_app (setShowDrawingCanvas v) w)
  end.

Fixpoint run (es : list Event) (w : World) : M World :=
  match es with
  | [] => ret w
  | e :: rest =>
      w' <- step e w ;;
      run rest w'
  end.

(** The shape the draw at position [k] of the oracle selects. *)
Definition drawn_shape (rnd : nat -> R) (k : nat) : string :=
  or_undefined
    (array_get ROMANTIC_SHAPES
       (Math_floor (Fin (rnd k) *! Shapes.length_num ROMANTIC_SHAPES))).

(** The oracle does not draw the shape [prev] for ever. *)
Definition shape_fair (rnd : nat -> R) (prev : string) : Prop :=
  forall k, exists n, drawn_shape rnd (k + n) <> prev.

(** The custom shape is only shown when there is a drawing. *)
Definition custom_has_points (s : State) : Prop :=
  currentShape s = ShapeType.CUSTOM -> customPoints s <> None.

End AppSpec.

(* ================================================================== *)
(** ** Vocabulary of the trail and buffer statements *)
(* ================================================================== *)

Module TrailSpec.
Import ParticleScene.

(** The index, in the position and colour buffers, of coordinate [c] of
    trail vertex [t] of particle [i]. *)
Definition vertex (i t c : nat) : nat := (i * TRAIL_LENGTH * 3 + t * 3 + c)%nat.

(** The brightness of trail vertex [t]: [(1 - t / TRAIL_LENGTH)^2]. *)
Definition alpha (t : nat) : R :=
  (1 - INR t / INR TRAIL_LENGTH) * (1 - INR t / INR TRAIL_LENGTH).

(** The three writes of the head of a trail. *)
Definition head3 (pos : Float32Array) (base : nat) (x y z : num) : Float32Array :=
  store (store (store pos base x) (base + 1) y) (base + 2) z.

(** Channel [c] of a colour. *)
Definition channel (c : nat) (cr cg cb : num) : num :=
  match c with
  | O => cr
  | S O => cg
  | _ => cb
  end.

(** Every entry of a buffer is a finite number. *)
Definition all_finite (a : Float32Array) : Prop := Forall finite a.

(** What one round of the particle loop leaves in the three buffers, given
    the transformed target [(tx, ty, tz)] of particle [i]: the integration
    step, the trail update and the colour update. *)
Definition step_result (audio : AudioData) (baseColor : Color) (lerpBase : num)
    (i : nat) (bufs : Buffers) (tx ty tz : num) : Buffers :=
  let phys := FrameSpec.integrate3 (physics bufs) i tx ty tz lerpBase in
  let newX := get phys (i * 3) in
  let newY := get phys (i * 3 + 1) in
  let newZ := get phys (i * 3 + 2) in
  let bufferStartIdx := (i * TRAIL_LENGTH * 3)%nat in
  let boost := Fin (bass audio) *! 0.6 +! Fin (high audio) *! 0.4 in
  mkBuffers phys
    (head3 (trail_shift (TRAIL_LENGTH - 1) bufferStartIdx (positions bufs))
           bufferStartIdx newX newY newZ)
    (color_loop TRAIL_LENGTH 0 bufferStartIdx
       (Fin (r baseColor) +! (newX /! 5 *! 0.4) +! boost)
       (Fin (g baseColor) +! (newY /! 5 *! 0.4) +! boost)
       (Fin (b baseColor) +! (newZ /! 5 *! 0.6) +! boost)
       (colors bufs)).

(** The buffers have the sizes the component allocates. *)
Definition sized (phys pos cols : Float32Array) : Prop :=
  List.length phys = (PARTICLE_COUNT * 3)%nat /\
  List.length pos = (TOTAL_VERTICES * 3)%nat /\
  List.length cols = (TOTAL_VERTICES * 3)%nat.

(** The first [n] entries of a buffer are finite numbers. *)
Definition finite_prefix (n : nat) (a : Float32Array) : Prop :=
  forall j, (j < n)%nat -> finite (get a j).

(** The trail of particle [q] after a frame: its head is the new stored
    position, every other vertex holds what the vertex before it held, and
    the colour of vertex [t] is the colour of the head dimmed by
    [alpha t]. *)
Definition trail_updated (q : nat) (pos_before phys' pos' cols' : Float32Array) : Prop :=
  (forall c, (c < 3)%nat -> get pos' (vertex q 0 c) = get phys' (q * 3 + c)) /\
  (forall t c, (1 <= t < TRAIL_LENGTH)%nat -> (c < 3)%nat ->
     get pos' (vertex q t c) = get pos_before (vertex q (t - 1) c)) /\
  (forall t c, (t < TRAIL_LENGTH)%nat -> (c < 3)%nat ->
     get cols' (vertex q t c) = get cols' (vertex q 0 c) *! Fin (alpha t)).

End TrailSpec.

(* ================================================================== *)
(** ** Vocabulary of the drawing statements *)
(* ================================================================== *)

Module BoxSpec.
Import DrawingCanvas.

(** The half-sizes of the box the canvas is mapped into: the centred
    coordinates are divided by a fifth of the smaller side. *)
Definition half_width (c : Canvas) : R :=
  width c / 2 / (Rmin (width c) (height c) / 5).

Definition half_height (c : Canvas) : R :=
  height c / 2 / (Rmin (width c) (height c) / 5).

(** A finite point inside the box. *)
Definition boxed (c : Canvas) (p : num * num * num) : Prop :=
  exists X Y Z,
    p = (Fin X, Fin Y, Fin Z) /\
    Rabs X <= half_width c /\ Rabs Y <= half_height c /\ Rabs Z <= 0.25.

(** A stroke drawn inside the canvas. *)
Definition in_canvas (c : Canvas) (path : Path) : Prop :=
  Forall (fun p => 0 <= x p <= width c /\ 0 <= y p <= height c) path.

(** A stroke none of whose segments has length zero. *)
Definition no_repeat (path : Path) : Prop :=
  forall j, (S j < List.length path)%nat -> 0 < PlacementSpec.seg_len path j.

(** Every particle of a cloud is inside the box. *)
Definition all_boxed (c : Canvas) (ps : Float32Array) : Prop :=
  forall q, (q < COUNT)%nat -> boxed c (ResampleSpec.slot ps q).

End BoxSpec.

(* ================================================================== *)
(** ** Vocabulary of the sphere statements *)
(* ================================================================== *)

Module BallSpec.

(** A finite point at distance at most [rad] from the origin. *)
Definition in_ball (rad : R) (pt : num * num * num) : Prop :=
  exists x y z,
    pt = (Fin x, Fin y, Fin z) /\ x * x + y * y + z * z <= rad * rad.

(** The identifiers with a [case] of their own that does not draw from
    the plain sphere. *)
Definition own_case (shape : string) : bool :=
  existsb (String.eqb shape)
    [ShapeType.HEART; ShapeType.DOUBLE_HEART; ShapeType.GALAXY; ShapeType.DNA;
     ShapeType.FLOWER; ShapeType.FLOWER_SEA; ShapeType.RING; ShapeType.BUTTERFLY;
     ShapeType.I_LOVE_U; ShapeType.SATURN; ShapeType.SOLAR_SYSTEM;
     ShapeType.BUDDHA; ShapeType.FIREWORKS].

End BallSpec.

(* ================================================================== *)
(** ** Vocabulary of the target statements *)
(* ================================================================== *)

Module TargetSpec.
Import ParticleScene FrameSpec.

Section Target.

Variable isMusicMode : bool.
Variable handData : HandData.
Variable time : num.
Variable audio : AudioData.
Variable offsets : Float32Array.
Variable target : Float32Array.
Variables expansionFactor transition : num.

(** Step 1 of the body of the particle loop ("Target Calc", down to the
    audio jitter): the transformed target of particle [i], whose stored
    position at the head of the body is [(currentX, currentY, currentZ)]. *)
Definition target_calc (i : nat) (currentX currentY currentZ : num)
    : M (num * num * num) :=
  let pIdx := (i * 3)%nat in
  let tx := get target pIdx in
  let ty := get target (pIdx + 1) in
  let tz := get target (pIdx + 2) in
  t3 <- warp_target transition tx ty tz ;;
  let '(tx, ty, tz) := t3 in
  let tx := tx *! expansionFactor in
  let ty := ty *! expansionFactor in
  let tz := tz *! expansionFactor in
  let '(rx, rz) := vortex isMusicMode handData time audio tx tz in
  let tx := rx in
  let tz := rz in
  let offset := get offsets i in
  let noiseFreq : num := 0.5 in
  let noiseAmp :=
    if isMusicMode then 0.1 +! (Fin (high audio) *! 0.5)
    else 0.15 +! (Fin (gestureValue handData) *! 0.2) in
  let fluidX := Math_sin (time *! 0.8 +! currentY *! noiseFreq +! offset) *! noiseAmp in
  let fluidY := Math_cos (time *! 0.7 +! currentZ *! noiseFreq +! offset) *! noiseAmp in
  let fluidZ := Math_sin (time *! 0.9 +! currentX *! noiseFreq +! offset) *! noiseAmp in
  let tx := tx +! fluidX in
  let ty := ty +! fluidY in
  let tz := tz +! fluidZ in
  audio_jitter audio tx ty tz.

End Target.

(** The draws one round of the particle loop makes: three during a
    transition, three on a strong beat. *)
Definition draws_per_particle (transition : num) (audio : AudioData) : nat :=
  let warp := if transition >! 0 then 3%nat else 0%nat in
  let jitter := if Fin (bass audio) >! 0.3 then 3%nat else 0%nat in
  (warp + jitter)%nat.

(** [expansionFactor] as the mode switching part of a frame computes it. *)
Definition expansion_of (isMusicMode : bool) (handData : HandData)
    (time : num) (audio : AudioData) : num :=
  snd (fst (mode_switch isMusicMode handData time audio 0 0)).

(** Particle [q] is animated by the frame that takes the refs [s] to [s'],
    run from position [k] of the oracle: its transformed target is what
    the target calculation of that frame returns for it, at the position
    of the oracle the loop has reached, and each of its stored coordinates
    is the one it had, moved by the integration step toward that target at
    the rate of the frame. *)
Definition animated (props : Props) (target offsets : Float32Array) (time : R)
    (audio : AudioData) (s s' : Refs) (fuel : nat) (rnd : nat -> R) (k q : nat) : Prop :=
  let d := draws_per_particle (decay (transitionRef s)) audio in
  let oldX := get (physicsPositions s) (q * 3)%nat in
  let oldY := get (physicsPositions s) (q * 3 + 1)%nat in
  let oldZ := get (physicsPositions s) (q * 3 + 2)%nat in
  let lerpBase := lerpBase_of (isMusicMode props) (handData props) audio in
  exists tx ty tz,
    target_calc (isMusicMode props) (handData props) time audio offsets target
      (expansion_of (isMusicMode props) (handData props) time audio)
      (decay (transitionRef s)) q oldX oldY oldZ fuel rnd (k + q * d)%nat
    = Ok (tx, ty, tz) (k + S q * d)%nat /\
    get (physicsPositions s') (q * 3)%nat = integrate oldX oldX tx lerpBase /\
    get (physicsPositions s') (q * 3 + 1)%nat = integrate oldY oldY ty lerpBase /\
    get (physicsPositions s') (q * 3 + 2)%nat = integrate oldZ oldZ tz lerpBase.

End TargetSpec.

(* ################################################################## *)
(** * Properties *)
(* ################################################################## *)

(* ================================================================== *)
(** ** Typed arrays: reads and writes *)
(* ================================================================== *)

Section ArrayFacts.

Lemma length_store (a : Float32Array) i v : List.length (store a i v) = List.length a.
Proof.
  revert i; induction a as [|h t IH]; intros [|i]; simpl; auto.
Qed.

Lemma get_store_same (a : Float32Array) i v :
  (i < List.length a)%nat -> get (store a i v) i = v.
Proof.
  unfold get. revert i; induction a as [|h t IH]; intros [|i] H; simpl in *; try lia; auto.
  apply IH; lia.
Qed.

Lemma get_store_other (a : Float32Array) i j v :
  i <> j -> get (store a i v) j = get a j.
Proof.
  unfold get. revert i j; induction a as [|h t IH]; intros [|i] [|j] H; simpl; auto; try lia.
Qed.

Lemma length_new n : List.length (new_Float32Array n) = n.
Proof. apply repeat_length. Qed.

Lemma get_new n i : (i < n)%nat -> get (new_Float32Array n) i = Fin 0.
Proof.
  intros H. unfold get, new_Float32Array.
  apply nth_repeat_lt; exact H.
Qed.

Lemma get_past_end (a : Float32Array) i : (List.length a <= i)%nat -> get a i = NaN.
Proof. intros H. unfold get. apply nth_overflow; exact H. Qed.

Lemma store_past_end (a : Float32Array) i v : (List.length a <= i)%nat -> store a i v = a.
Proof.
  revert i; induction a as [|h t IH]; intros [|i] H; simpl in *; auto; try lia.
  f_equal. apply IH. lia.
Qed.

End ArrayFacts.

(* ================================================================== *)
(** ** Reasoning about samplers *)
(* ================================================================== *)

Module SamplerFacts.
Import SamplerSpec.

Lemma Ok_value {A} (a b : A) (k k' : nat) : Ok a k = Ok b k' -> a = b.
Proof. intros H. congruence. Qed.

Section Ensures.

Variable rnd : nat -> R.

Lemma ensures_ret {A} (a : A) (Q : A -> Prop) : Q a -> ensures rnd (ret a) Q.
Proof. intros H k. exists O, a, k. split; [assumption | reflexivity]. Qed.

Lemma ensures_bind {A B} (c : M A) (f : A -> M B) (P : A -> Prop) (Q : B -> Prop) :
  ensures rnd c P -> (forall a, P a -> ensures rnd (f a) Q) -> ensures rnd (bind c f) Q.
Proof.
  intros Hc Hf k.
  destruct (Hc k) as (F1 & a & k1 & Ha & H1).
  destruct (Hf a Ha k1) as (F2 & b & k2 & Hb & H2).
  exists (Nat.max F1 F2), b, k2. split; [assumption|].
  intros fuel Hfuel. unfold bind.
  rewrite H1 by lia. apply H2. lia.
Qed.

Lemma ensures_weaken {A} (c : M A) (P Q : A -> Prop) :
  ensures rnd c P -> (forall a, P a -> Q a) -> ensures rnd c Q.
Proof.
  intros Hc HPQ k. destruct (Hc k) as (F & a & k' & Ha & H).
  exists F, a, k'. auto.
Qed.

Hypothesis Hrnd : random_source rnd.

Lemma ensures_random {B} (f : num -> M B) (Q : B -> Prop) :
  (forall u, 0 <= u < 1 -> ensures rnd (f (Fin u)) Q) -> ensures rnd (bind Math_random f) Q.
Proof.
  intros Hf k.
  destruct (Hf (rnd k) (Hrnd k) (S k)) as (F & b & k' & Hb & H).
  exists F, b, k'. split; [assumption|].
  intros fuel Hfuel. unfold bind, Math_random. apply H. exact Hfuel.
Qed.

End Ensures.

Lemma random_source_half : random_source (fun _ => 1 / 2).
Proof. intros k. lra. Qed.

End SamplerFacts.


(* ================================================================== *)
(** ** The heart *)
(* ================================================================== *)

Module HeartFacts.
Import Shapes HeartSpec SamplerSpec SamplerFacts.

Lemma heart_result_real x y z :
  heart_result (Fin x) (Fin y) (Fin z) = Fin (heart_poly x y z).
Proof. reflexivity. Qed.

Lemma heart_accept_iff x y z :
  (heart_result (Fin x) (Fin y) (Fin z) <! 0) = true <-> heart_poly x y z < 0.
Proof.
  rewrite heart_result_real. simpl. destruct (Rlt_dec (heart_poly x y z) 0); split; intros; auto; try discriminate; contradiction.
Qed.

(** Inside the sampling cube, the heart body stays within radius 1.8. *)
Lemma heart_poly_radius x y z :
  -1.5 <= x <= 1.5 -> -1.5 <= y <= 1.5 -> -1.5 <= z <= 1.5 ->
  heart_poly x y z < 0 ->
  x * x + y * y + z * z <= 1.8 * 1.8.
Proof.
  intros Hx Hy Hz Hp.
  destruct (Rle_dec (x * x + y * y + z * z) (1.8 * 1.8)) as [|Hn]; [assumption|].
  exfalso. apply Rnot_le_lt in Hn.
  unfold heart_poly in Hp.
  set (a := x * x + 9 / 4 * y * y + z * z - 1) in *.
  assert (Ha : 2.24 < a) by (unfold a; nra).
  assert (Ha2 : 2.24 * 2.24 < a * a) by nra.
  assert (Ha3 : 2.24 * 2.24 * 2.24 < a ^ 3) by (simpl; nra).
  assert (Hxx : 0 <= x * x <= 2.25) by nra.
  assert (Hyy : 0 <= y * y <= 2.25) by nra.
  assert (Hzz : 0 <= z * z <= 2.25) by nra.
  assert (Hz3 : z ^ 3 <= 3.375) by (simpl; nra).
  assert (Hz3' : -3.375 <= z ^ 3) by (simpl; nra).
  set (w := z ^ 3) in *.
  assert (H1 : x * x * w <= 2.25 * 3.375) by nra.
  assert (H2 : 9 / 80 * y * y * w <= 9 / 80 * 2.25 * 3.375) by nra.
  lra.
Qed.


Lemma heart_while_step fuel rnd k :
  heart_while (S fuel) rnd k =
  let '(x, y, z) := candidate rnd k in
  if Rlt_dec (heart_poly x y z) 0
  then Ok (mkVector3 (Fin x) (Fin z) (Fin y)) (S (S (S k)))
  else heart_while fuel rnd (S (S (S k))).
Proof.
  unfold candidate. cbn [heart_while]. cbn [nmul nsub lift2].
  rewrite heart_result_real. cbn [nlt].
  destruct (Rlt_dec _ 0); reflexivity.
Qed.

Lemma candidate_in_cube rnd k :
  random_source rnd ->
  let '(x, y, z) := candidate rnd k in
  -1.5 <= x <= 1.5 /\ -1.5 <= y <= 1.5 /\ -1.5 <= z <= 1.5.
Proof.
  intros H. unfold candidate.
  pose proof (H k). pose proof (H (S k)). pose proof (H (S (S k))).
  repeat split; lra.
Qed.

(** Partial correctness: whatever the loop returns was accepted. *)
Lemma heart_while_accepts rnd :
  random_source rnd ->
  forall fuel k p k', heart_while fuel rnd k = Ok p k' -> heart_point p.
Proof.
  intros Hrnd. induction fuel as [|fuel IH]; intros k p k' H.
  - discriminate.
  - rewrite heart_while_step in H.
    pose proof (candidate_in_cube rnd k Hrnd) as Hc.
    destruct (candidate rnd k) as [[x y] z].
    destruct (Rlt_dec (heart_poly x y z) 0) as [Hlt|Hge].
    + inversion H; subst. exists x, y, z. tauto.
    + eapply IH; eassumption.
Qed.

(** Termination under fairness. *)
Lemma heart_while_runs rnd :
  random_source rnd -> heart_fair rnd -> ensures rnd heart_while heart_point.
Proof.
  intros Hrnd Hfair k.
  destruct (Hfair k) as [n Hn]. revert k Hn.
  induction n as [|n IH]; intros k Hn.
  - replace (k + 3 * 0)%nat with k in Hn by lia.
    pose proof (candidate_in_cube rnd k Hrnd) as Hc.
    unfold accepted in Hn.
    exists 1%nat. destruct (candidate rnd k) as [[x y] z] eqn:E.
    exists (mkVector3 (Fin x) (Fin z) (Fin y)), (S (S (S k))). split.
    + exists x, y, z. tauto.
    + intros [|fuel] Hf; [lia|]. rewrite heart_while_step, E.
      destruct (Rlt_dec (heart_poly x y z) 0); [reflexivity | contradiction].
  - pose proof (candidate_in_cube rnd k Hrnd) as Hc.
    destruct (candidate rnd k) as [[x y] z] eqn:E.
    destruct (Rlt_dec (heart_poly x y z) 0) as [Hlt|Hge].
    + exists 1%nat, (mkVector3 (Fin x) (Fin z) (Fin y)), (S (S (S k))). split.
      * exists x, y, z. tauto.
      * intros [|fuel] Hf; [lia|]. rewrite heart_while_step, E.
        destruct (Rlt_dec (heart_poly x y z) 0); [reflexivity | contradiction].
    + destruct (IH (S (S (S k)))) as (F & p & k' & Hp & HF).
      { replace (S (S (S k)) + 3 * n)%nat with (k + 3 * S n)%nat by lia. exact Hn. }
      exists (S F), p, k'. split; [assumption|].
      intros [|fuel] Hf; [lia|]. rewrite heart_while_step, E.
      destruct (Rlt_dec (heart_poly x y z) 0); [contradiction|].
      apply HF. lia.
Qed.

Lemma heart_while_half k :
  heart_while 1 (fun _ => 1 / 2) k
  = Ok (mkVector3 (Fin (1 / 2 * 3 - 1.5)) (Fin (1 / 2 * 3 - 1.5)) (Fin (1 / 2 * 3 - 1.5)))
       (S (S (S k))).
Proof.
  rewrite heart_while_step. unfold candidate.
  destruct (Rlt_dec _ 0) as [|Hn]; [reflexivity|].
  exfalso. apply Hn. unfold heart_poly. simpl. lra.
Qed.

Lemma heart_fair_half : heart_fair (fun _ => 1 / 2).
Proof.
  intros k. exists 0%nat. unfold accepted, candidate, heart_poly.
  simpl. lra.
Qed.

End HeartFacts.

(* ================================================================== *)
(** ** The particle loop of [generateParticles] *)
(* ================================================================== *)

Module GenerateFacts.
Import Shapes SamplerSpec SamplerFacts.

Lemma triples_store Q (count i : nat) (ps : Float32Array) x y z :
  List.length ps = (count * 3)%nat -> (i < count)%nat ->
  triples Q i ps -> Q (x, y, z) ->
  triples Q (S i) (store (store (store ps (i * 3) x) (i * 3 + 1) y) (i * 3 + 2) z).
Proof.
  intros Hlen Hi Hprev Hq j Hj.
  destruct (Nat.eq_dec j i) as [->|Hne].
  - rewrite get_store_same by (rewrite !length_store; lia).
    rewrite (get_store_other _ (i * 3 + 2) (i * 3 + 1)) by lia.
    rewrite get_store_same by (rewrite !length_store; lia).
    rewrite (get_store_other _ (i * 3 + 2) (i * 3)) by lia.
    rewrite (get_store_other _ (i * 3 + 1) (i * 3)) by lia.
    rewrite get_store_same by lia.
    exact Hq.
  - rewrite !get_store_other by lia. apply Hprev. lia.
Qed.

(** Partial correctness of the loop: every point of the returned buffer
    was produced by the [switch]. *)
Lemma generate_loop_sound (rnd : nat -> R) shape count (Q : Point -> Prop) :
  (forall i fuel k pt k', switch_shape shape i count fuel rnd k = Ok pt k' -> Q pt) ->
  forall todo i ps fuel k buf k',
    List.length ps = (count * 3)%nat -> (i + todo = count)%nat -> triples Q i ps ->
    generate_loop shape count todo i ps fuel rnd k = Ok buf k' ->
    List.length buf = (count * 3)%nat /\ triples Q count buf.
Proof.
  intros Hsw. induction todo as [|todo IH]; intros i ps fuel k buf k' Hlen Hi Hq Hrun.
  - cbn in Hrun. inversion Hrun as [[Hb Hk]]. rewrite <- Hb.
    replace count with i by lia. split; [lia | assumption].
  - cbn [generate_loop] in Hrun. unfold bind in Hrun.
    destruct (switch_shape shape i count fuel rnd k) as [[[x y] z] k1| |] eqn:E;
      try discriminate.
    eapply IH in Hrun; eauto.
    + rewrite !length_store. exact Hlen.
    + lia.
    + apply triples_store with (count := count); auto; try lia.
      eapply Hsw; eassumption.
Qed.

(** Total correctness of the loop. *)
Lemma generate_loop_runs (rnd : nat -> R) shape count (Q : Point -> Prop) :
  (forall i, (i < count)%nat -> ensures rnd (switch_shape shape i count) Q) ->
  forall todo i ps,
    List.length ps = (count * 3)%nat -> (i + todo = count)%nat -> triples Q i ps ->
    ensures rnd (generate_loop shape count todo i ps)
      (fun buf => List.length buf = (count * 3)%nat /\ triples Q count buf).
Proof.
  intros Hsw. induction todo as [|todo IH]; intros i ps Hlen Hi Hq.
  - cbn. apply ensures_ret. assert (Hc : count = i) by lia.
    rewrite Hc in *. split; assumption.
  - cbn [generate_loop]. eapply ensures_bind.
    + apply Hsw. lia.
    + intros [[x y] z] Hpt. cbv beta iota zeta. apply IH.
      * rewrite !length_store. exact Hlen.
      * lia.
      * apply triples_store with (count := count); auto; lia.
Qed.

Lemma triples_nil Q (ps : Float32Array) : triples Q 0 ps.
Proof. intros j Hj. lia. Qed.

End GenerateFacts.

Module HeartClaims.
Import Shapes HeartSpec SamplerSpec SamplerFacts HeartFacts GenerateFacts.

Lemma scaled_heart_point_of s x y z :
  0 <= s ->
  -1.5 <= x <= 1.5 -> -1.5 <= y <= 1.5 -> -1.5 <= z <= 1.5 ->
  heart_poly x y z < 0 ->
  scaled_heart_point s (Fin (x * s), Fin (z * s), Fin (y * s)).
Proof.
  intros Hs Hx Hy Hz Hp. exists x, y, z. repeat split; auto.
  pose proof (heart_poly_radius x y z Hx Hy Hz Hp) as Hr.
  rewrite <- (sqrt_square (s * 1.8)) by lra.
  apply sqrt_le_1_alt. nra.
Qed.

Lemma getVolumetricHeartPoint_sound rnd (scale : R) fuel k p k' :
  random_source rnd ->
  getVolumetricHeartPoint (Fin scale) fuel rnd k = Ok p k' ->
  exists q, heart_point q /\ p = multiplyScalar q (Fin scale).
Proof.
  intros Hrnd H. unfold getVolumetricHeartPoint, bind in H.
  destruct (heart_while fuel rnd k) as [q k1| |] eqn:E; try discriminate.
  cbn in H. inversion H; subst.
  exists q. split; [|reflexivity].
  eapply heart_while_accepts; eassumption.
Qed.

Lemma case_HEART_sound rnd fuel k pt k' :
  random_source rnd ->
  case_HEART fuel rnd k = Ok pt k' -> scaled_heart_point 2.0 pt.
Proof.
  intros Hrnd H. unfold case_HEART, bind in H.
  destruct (getVolumetricHeartPoint 2.0 fuel rnd k) as [p k1| |] eqn:E; try discriminate.
  cbn in H. inversion H; subst.
  apply getVolumetricHeartPoint_sound in E; [|assumption].
  destruct E as (q & (x & y & z & Hx & Hy & Hz & Hp & ->) & ->).
  cbn. apply scaled_heart_point_of; auto. lra.
Qed.

(** C2.  Every point the heart rejection sampler accepts satisfies the
    heart inequality [(x^2 + 9/4 y^2 + z^2 - 1)^3 - x^2 z^3 - 9/80 y^2 z^3 < 0]
    in its coordinates before the axis swap and the scaling; and every
    point [generateParticles] emits for the heart shape is such a point
    scaled by 2.0, within distance 2.0 * 1.8 of the origin. *)
Theorem heart_points_satisfy_inequality (rnd : nat -> R) :
  random_source rnd ->
  (forall (scale : R) fuel k p k',
      getVolumetricHeartPoint (Fin scale) fuel rnd k = Ok p k' ->
      exists x y z,
        (heart_result (Fin x) (Fin y) (Fin z) <! 0) = true /\
        heart_poly x y z < 0 /\
        p = multiplyScalar (mkVector3 (Fin x) (Fin z) (Fin y)) (Fin scale))
  /\
  (forall count fuel k buf k',
      generateParticles ShapeType.HEART count fuel rnd k = Ok buf k' ->
      triples (scaled_heart_point 2.0) count buf).
Proof.
  intros Hrnd. split.
  - intros scale fuel k p k' H.
    destruct (getVolumetricHeartPoint_sound rnd scale fuel k p k' Hrnd H)
      as (q & (x & y & z & _ & _ & _ & Hp & ->) & ->).
    exists x, y, z. split; [|split; [assumption | reflexivity]].
    apply heart_accept_iff. exact Hp.
  - intros count fuel k buf k' H.
    unfold generateParticles in H.
    eapply (generate_loop_sound rnd ShapeType.HEART count (scaled_heart_point 2.0)) in H.
    + apply H.
    + intros i f k0 pt k1 Hsw. cbn in Hsw.
      eapply case_HEART_sound; eassumption.
    + apply length_new.
    + lia.
    + apply triples_nil.
Qed.

Lemma heart_points_satisfy_inequality_witness :
  exists buf k',
    generateParticles ShapeType.HEART 1%nat 1%nat (fun _ => 1 / 2) 0%nat = Ok buf k' /\
    triples (scaled_heart_point 2.0) 1%nat buf.
Proof.
  eexists. eexists.
  assert (E : generateParticles ShapeType.HEART 1%nat 1%nat (fun _ => 1 / 2) 0%nat
              = Ok (store (store (store (new_Float32Array 3) 0%nat (Fin (1 / 2 * 3 - 1.5) *! 2.0))
                      1%nat (Fin (1 / 2 * 3 - 1.5) *! 2.0)) 2%nat (Fin (1 / 2 * 3 - 1.5) *! 2.0)) 3%nat).
  { unfold generateParticles. cbn [generate_loop Nat.mul].
    unfold bind at 1. cbn [switch_shape String.eqb Ascii.eqb Bool.eqb ShapeType.HEART].
    unfold case_HEART, getVolumetricHeartPoint, bind.
    rewrite heart_while_half. reflexivity. }
  split.
  - exact E.
  - exact (proj2 (heart_points_satisfy_inequality (fun _ => 1 / 2) SamplerFacts.random_source_half)
             1%nat 1%nat 0%nat _ _ E).
Defined.

End HeartClaims.

(* ================================================================== *)
(** ** Magnitude bounds on real expressions *)
(* ================================================================== *)

Module Bounds.

Lemma bd_add a b A B : Rabs a <= A -> Rabs b <= B -> Rabs (a + b) <= A + B.
Proof. intros Ha Hb. eapply Rle_trans; [apply Rabs_triang | lra]. Qed.

Lemma bd_sub a b A B : Rabs a <= A -> Rabs b <= B -> Rabs (a - b) <= A + B.
Proof.
  intros Ha Hb. unfold Rminus. eapply Rle_trans; [apply Rabs_triang|].
  rewrite Rabs_Ropp. lra.
Qed.

Lemma bd_mul a b A B : Rabs a <= A -> Rabs b <= B -> Rabs (a * b) <= A * B.
Proof.
  intros Ha Hb. rewrite Rabs_mult.
  pose proof (Rabs_pos a). pose proof (Rabs_pos b). nra.
Qed.

Lemma bd_opp a A : Rabs a <= A -> Rabs (- a) <= A.
Proof. rewrite Rabs_Ropp. auto. Qed.

Lemma bd_abs a A : Rabs a <= A -> Rabs (Rabs a) <= A.
Proof. rewrite Rabs_Rabsolu. auto. Qed.

Lemma bd_div a c A : 0 < c -> Rabs a <= A -> Rabs (a / c) <= A / c.
Proof.
  intros Hc Ha. unfold Rdiv. rewrite Rabs_mult, (Rabs_pos_eq (/ c)).
  - apply Rmult_le_compat_r; [|assumption]. left. apply Rinv_0_lt_compat. assumption.
  - left. apply Rinv_0_lt_compat. assumption.
Qed.

Lemma bd_sin x : Rabs (sin x) <= 1.
Proof. apply Rabs_le. pose proof (SIN_bound x). lra. Qed.

Lemma bd_cos x : Rabs (cos x) <= 1.
Proof. apply Rabs_le. pose proof (COS_bound x). lra. Qed.

Lemma bd_exp_cos x : Rabs (exp (cos x)) <= 3.
Proof.
  rewrite Rabs_pos_eq by (left; apply exp_pos).
  apply Rle_trans with (exp 1); [|apply exp_le_3].
  pose proof (COS_bound x) as [_ H].
  destruct H as [H|H]; [left; apply exp_increasing; assumption | rewrite H; right; reflexivity].
Qed.

Lemma bd_pow a n A : Rabs a <= A -> Rabs (a ^ n) <= A ^ n.
Proof.
  intros Ha. rewrite <- RPow_abs. apply pow_incr. split; [apply Rabs_pos | assumption].
Qed.

Lemma bd_sqrt_unit u : 0 <= u < 1 -> Rabs (sqrt u) <= 1.
Proof.
  intros Hu. rewrite Rabs_pos_eq by apply sqrt_pos.
  rewrite <- sqrt_1. apply sqrt_le_1_alt. lra.
Qed.

Lemma cbrt_unit u : 0 <= u < 1 -> 0 <= cbrt u <= 1.
Proof.
  intros Hu. unfold cbrt.
  destruct (Rlt_dec 0 u) as [Hpos|Hn].
  - unfold Rpower. split; [left; apply exp_pos|].
    rewrite <- exp_0. left. apply exp_increasing.
    assert (ln u < 0) by (rewrite <- ln_1; apply ln_increasing; lra).
    assert (0 < / 3) by lra. nra.
  - destruct (Rlt_dec u 0); lra.
Qed.

Lemma bd_cbrt_unit u : 0 <= u < 1 -> Rabs (cbrt u) <= 1.
Proof. intros Hu. apply Rabs_le. pose proof (cbrt_unit u Hu). lra. Qed.

Lemma bd_unit u : 0 <= u < 1 -> Rabs u <= 1.
Proof. intros Hu. apply Rabs_le. lra. Qed.

Lemma bd_half u : 0 <= u < 1 -> Rabs (u - 0.5) <= 0.5.
Proof. intros Hu. apply Rabs_le. lra. Qed.

Lemma bd_pos c : 0 <= c -> Rabs c <= c.
Proof. intros Hc. rewrite Rabs_pos_eq; lra. Qed.

Lemma bd_neg c : c <= 0 -> Rabs c <= - c.
Proof. intros Hc. rewrite Rabs_left1; lra. Qed.

(** [bd] bounds the magnitude of a real expression built from draws of the
    oracle, literals and the [Math] functions, filling in the bound. *)
Ltac bd :=
  lazymatch goal with
  | |- Rabs (?u - 0.5) <= _ =>
      first [ apply bd_half; assumption | eapply bd_sub; bd ]
  | |- Rabs (_ + _) <= _ => eapply bd_add; bd
  | |- Rabs (_ - _) <= _ => eapply bd_sub; bd
  | |- Rabs (sin _) <= _ => apply bd_sin
  | |- Rabs (cos _) <= _ => apply bd_cos
  | |- Rabs (exp (cos _)) <= _ => apply bd_exp_cos
  | |- Rabs (sqrt _) <= _ => apply bd_sqrt_unit; assumption
  | |- Rabs (cbrt _) <= _ => apply bd_cbrt_unit; assumption
  | |- Rabs (Rabs _) <= _ => eapply bd_abs; bd
  | |- Rabs (- _) <= _ => first [ apply bd_neg; lra | eapply bd_opp; bd ]
  | |- Rabs (_ ^ _) <= _ => eapply bd_pow; bd
  | |- Rabs (_ * _) <= _ => eapply bd_mul; bd
  | |- Rabs (_ / _) <= _ =>
      first [ apply bd_pos; lra | apply bd_neg; lra | eapply bd_div; [lra | bd] ]
  | |- Rabs _ <= _ =>
      first [ eassumption | apply bd_unit; assumption | apply bd_pos; lra | apply bd_neg; lra ]
  end.

End Bounds.

Module ShapeFacts.
Import Shapes SamplerSpec SamplerFacts CloudSpec GenerateSpec Bounds.

Lemma bounded_Fin B v : Rabs v <= B -> bounded B (Fin v).
Proof. intros H. exists v. auto. Qed.

(** Open the lifted arithmetic on finite operands. *)
Ltac open_num :=
  unfold of_vec, multiplyScalar, of_nat, length_num, Math_PI in *;
  cbn [vx vy vz] in *;
  unfold nadd, nsub, nmul, nneg, Math_sin, Math_cos, Math_exp, Math_abs,
    Math_cbrt, Math_pow, Math_floor in *;
  cbn [lift1 lift2] in *.

Ltac coord :=
  apply bounded_Fin; unfold COORD_BOUND;
  eapply Rle_trans; [bd | simpl; lra].

Ltac sample :=
  lazymatch goal with
  | |- ensures _ (bind Math_random _) _ =>
      apply ensures_random; [assumption | intros ? ?]; cbv beta zeta
  end.

Ltac branch :=
  lazymatch goal with
  | |- ensures _ (if ?c then _ else _) _ => destruct c
  end.

Lemma ndiv_Fin x y : y <> 0 -> Fin x /! Fin y = Fin (x / y).
Proof.
  intros H. unfold ndiv. destruct (Req_dec_T y 0); [contradiction | reflexivity].
Qed.

Lemma Math_sqrt_Fin x : 0 <= x -> Math_sqrt (Fin x) = Fin (sqrt x).
Proof.
  intros H. unfold Math_sqrt. destruct (Rlt_dec x 0); [lra | reflexivity].
Qed.

Lemma Math_acos_Fin x : -1 <= x <= 1 -> Math_acos (Fin x) = Fin (acos x).
Proof.
  intros H. unfold Math_acos.
  destruct (Rle_dec (-1) x); [|lra]. destruct (Rle_dec x 1); [reflexivity | lra].
Qed.

(** [Math.floor(Math.random() * l.length)] is a valid index of [l]. *)
Lemma floor_random_index (n : nat) u :
  0 <= u < 1 -> (0 < n)%nat ->
  exists j, (j < n)%nat /\ IZR (Zfloor (u * INR n)) = INR j.
Proof.
  intros Hu Hn.
  assert (Hn' : 0 < INR n) by (apply lt_0_INR; assumption).
  pose proof (Zfloor_bound (u * INR n)) as [Hlo Hhi].
  assert (H0 : (0 <= Zfloor (u * INR n))%Z).
  { apply Zfloor_lub. simpl. nra. }
  assert (E : INR (Z.to_nat (Zfloor (u * INR n))) = IZR (Zfloor (u * INR n))).
  { rewrite INR_IZR_INZ, Z2Nat.id by assumption. reflexivity. }
  exists (Z.to_nat (Zfloor (u * INR n))). split.
  - apply INR_lt. rewrite E. nra.
  - symmetry. exact E.
Qed.

Lemma array_get_index {A} (l : list A) j : array_get l (Fin (INR j)) = nth_error l j.
Proof.
  unfold array_get. rewrite INR_IZR_INZ, ZfloorZ.
  destruct (Req_dec_T _ _) as [_|E]; [|contradiction E; reflexivity].
  destruct (Z.leb_spec 0 (Z.of_nat j)); [|lia].
  rewrite Nat2Z.id. reflexivity.
Qed.

Section Cases.

Variable rnd : nat -> R.
Hypothesis Hrnd : random_source rnd.

Lemma getRandomPointInSphere_ok (radius : R) :
  0 <= radius ->
  ensures rnd (getRandomPointInSphere (Fin radius)) (vec_within radius).
Proof.
  intros Hr. unfold getRandomPointInSphere.
  do 3 sample. apply ensures_ret.
  open_num. rewrite Math_acos_Fin by lra. cbn [lift1 lift2].
  do 3 eexists. split; [reflexivity|].
  repeat split; (eapply Rle_trans; [bd | simpl; lra]).
Qed.

Hypothesis Hfair : HeartSpec.heart_fair rnd.

Lemma getVolumetricHeartPoint_ok (scale : R) :
  0 <= scale ->
  ensures rnd (getVolumetricHeartPoint (Fin scale)) (vec_within (1.5 * scale)).
Proof.
  intros Hs. unfold getVolumetricHeartPoint.
  eapply ensures_bind; [apply HeartFacts.heart_while_runs; assumption|].
  intros p (x & y & z & Hx & Hy & Hz & _ & ->). apply ensures_ret.
  open_num. do 3 eexists. split; [reflexivity|].
  assert (Rabs x <= 1.5) by (apply Rabs_le; lra).
  assert (Rabs y <= 1.5) by (apply Rabs_le; lra).
  assert (Rabs z <= 1.5) by (apply Rabs_le; lra).
  repeat split; (eapply Rle_trans; [bd | simpl; lra]).
Qed.

Ltac sphere rad :=
  eapply ensures_bind;
  [ apply (getRandomPointInSphere_ok rad); lra
  | intros ? (? & ? & ? & -> & ? & ? & ?) ].

Ltac heart s :=
  eapply ensures_bind;
  [ apply (getVolumetricHeartPoint_ok s); lra
  | intros ? (? & ? & ? & -> & ? & ? & ?) ].

Ltac finish := apply ensures_ret; open_num; repeat split; coord.

Lemma case_HEART_ok : ensures rnd case_HEART point_ok.
Proof. unfold case_HEART. heart 2.0. finish. Qed.

Lemma case_DOUBLE_HEART_ok : ensures rnd case_DOUBLE_HEART point_ok.
Proof.
  unfold case_DOUBLE_HEART. sample. heart 1.8.
  branch; [finish|].
  cbv beta zeta. apply ensures_ret. open_num.
  rewrite ndiv_Fin by lra. cbn [lift1 lift2].
  repeat split; coord.
Qed.

Lemma case_GALAXY_ok i : ensures rnd (case_GALAXY i) point_ok.
Proof.
  unfold case_GALAXY. cbv beta zeta.
  do 4 sample. apply ensures_ret.
  open_num. cbn [INR]. rewrite ndiv_Fin by lra. cbn [lift2].
  repeat split; coord.
Qed.

Lemma frac_unit i count : (i < count)%nat -> 0 <= INR i / INR count < 1.
Proof.
  intros H. assert (0 < INR count) by (apply lt_0_INR; lia).
  pose proof (pos_INR i). apply lt_INR in H.
  split.
  - apply Rmult_le_pos; [assumption | left; apply Rinv_0_lt_compat; assumption].
  - apply Rmult_lt_reg_r with (INR count); [assumption|].
    unfold Rdiv. rewrite Rmult_assoc, Rinv_l by lra. lra.
Qed.

Lemma case_DNA_ok i count : (i < count)%nat -> ensures rnd (case_DNA i count) point_ok.
Proof.
  intros Hi. unfold case_DNA. cbv beta zeta.
  assert (Hc : INR count <> 0) by (apply not_0_INR; lia).
  pose proof (frac_unit i count Hi) as Hf.
  unfold of_nat. rewrite !ndiv_Fin by (assumption || lra).
  set (f := INR i / INR count) in *.
  destruct (i mod 10 =? 0)%nat.
  - sample. finish.
  - destruct (i mod 2 =? 0)%nat; finish.
Qed.

Lemma case_FLOWER_ok : ensures rnd case_FLOWER point_ok.
Proof. unfold case_FLOWER. cbv beta zeta. do 3 sample. finish. Qed.

Lemma case_FLOWER_SEA_ok : ensures rnd case_FLOWER_SEA point_ok.
Proof. unfold case_FLOWER_SEA. cbv beta zeta. do 3 sample. finish. Qed.

Lemma case_RING_ok : ensures rnd case_RING point_ok.
Proof.
  unfold case_RING. sample. branch.
  - do 2 sample. apply ensures_ret. open_num.
    rewrite ndiv_Fin by lra. cbn [lift2]. repeat split; coord.
  - cbv beta zeta. do 3 sample. finish.
Qed.

Lemma case_BUTTERFLY_ok : ensures rnd case_BUTTERFLY point_ok.
Proof.
  unfold case_BUTTERFLY. sample. sample. apply ensures_ret. open_num.
  rewrite ndiv_Fin by lra. cbn [lift1 lift2].
  rewrite Math_sqrt_Fin by (apply Rplus_le_le_0_compat; apply Rle_0_sqr).
  cbn [lift1 lift2].
  repeat split; coord.
Qed.

Lemma case_I_LOVE_U_ok : ensures rnd case_I_LOVE_U point_ok.
Proof.
  unfold case_I_LOVE_U. sample. branch; [do 3 sample; finish|].
  branch; [heart 1.2; finish|].
  do 2 sample.
  eapply ensures_bind with (P := fun uy => exists v, uy = Fin v /\ Rabs v <= 4.25).
  - branch.
    + sample. apply ensures_ret. open_num. eexists. split; [reflexivity|].
      eapply Rle_trans; [bd | simpl; lra].
    + apply ensures_ret. open_num. eexists. split; [reflexivity|].
      eapply Rle_trans; [bd | simpl; lra].
  - intros uy (v & -> & Hv). cbv beta zeta. sample. finish.
Qed.

Lemma case_SATURN_ok : ensures rnd case_SATURN point_ok.
Proof.
  unfold case_SATURN. cbv beta zeta. sample. branch.
  - sphere 1.8. finish.
  - do 3 sample. finish.
Qed.

Lemma orbitRadii_nth j :
  (j < 8)%nat -> exists c, nth_error orbitRadii j = Some (Fin c) /\ Rabs c <= 12.5.
Proof.
  intros Hj.
  do 8 (destruct j as [|j];
        [eexists; split; [reflexivity | apply Rabs_le; lra]|]).
  lia.
Qed.

Lemma planets_nth j :
  (j < 8)%nat ->
  exists pr ps pa,
    nth_error planets j = Some (mkPlanet (Fin pr) (Fin ps) (Fin pa)) /\
    Rabs pr <= 12.5 /\ 0 <= ps <= 0.5.
Proof.
  intros Hj.
  do 8 (destruct j as [|j];
        [do 3 eexists; split; [reflexivity | split; [apply Rabs_le; lra | lra]]|]).
  lia.
Qed.

Lemma case_SOLAR_SYSTEM_ok : ensures rnd case_SOLAR_SYSTEM point_ok.
Proof.
  unfold case_SOLAR_SYSTEM. sample. branch; [sphere 0.8; finish|].
  branch.
  - sample.
    destruct (floor_random_index 8 u0) as (j & Hj & Ej); [assumption | lia |].
    unfold length_num. cbn [List.length orbitRadii].
    change (Math_floor (Fin u0 *! Fin (INR 8))) with (Fin (IZR (Zfloor (u0 * INR 8)))).
    rewrite Ej, array_get_index.
    destruct (orbitRadii_nth j Hj) as (c & -> & Hc). cbn [to_num].
    do 3 sample. finish.
  - sample.
    destruct (floor_random_index 8 u0) as (j & Hj & Ej); [assumption | lia |].
    unfold length_num. cbn [List.length planets].
    change (Math_floor (Fin u0 *! Fin (INR 8))) with (Fin (IZR (Zfloor (u0 * INR 8)))).
    rewrite Ej, array_get_index.
    destruct (planets_nth j Hj) as (pr & ps & pa & -> & Hpr & Hps).
    cbn [Shapes.r Shapes.size Shapes.angle].
    assert (Hps' : Rabs ps <= 0.5) by (apply Rabs_le; lra).
    eapply ensures_bind;
      [ apply (getRandomPointInSphere_ok ps); lra
      | intros ? (? & ? & ? & -> & ? & ? & ?) ].
    assert (Rabs x <= 0.5) by lra.
    assert (Rabs x0 <= 0.5) by lra.
    assert (Rabs x1 <= 0.5) by lra.
    branch; [|finish].
    sample. branch; [|finish].
    do 3 sample. finish.
Qed.

Lemma case_BUDDHA_ok : ensures rnd case_BUDDHA point_ok.
Proof.
  unfold case_BUDDHA. sample. branch; [sphere 0.8; finish|].
  branch.
  - do 4 sample. apply ensures_ret. open_num.
    rewrite !Math_sqrt_Fin by lra. cbn [lift2].
    repeat split; coord.
  - do 3 sample. apply ensures_ret. open_num.
    rewrite !Math_sqrt_Fin by lra. cbn [lift2].
    repeat split; coord.
Qed.

Lemma case_FIREWORKS_ok : ensures rnd case_FIREWORKS point_ok.
Proof.
  unfold case_FIREWORKS. do 3 sample. apply ensures_ret. open_num.
  rewrite Math_acos_Fin by lra. cbn [lift1 lift2].
  repeat split; coord.
Qed.

Lemma case_CUSTOM_ok : ensures rnd case_CUSTOM point_ok.
Proof. unfold case_CUSTOM. sphere 3. finish. Qed.

Lemma case_SPHERE_ok : ensures rnd case_SPHERE point_ok.
Proof. unfold case_SPHERE. sphere 3. finish. Qed.

End Cases.

Section Switch.

Variable rnd : nat -> R.
Hypothesis Hrnd : random_source rnd.

(** Every branch of the [switch], the [default] one included; only the
    three heart-sampling shapes need a fair oracle. *)
Lemma switch_shape_ok shape i count :
  (rejection_sampled shape = true -> HeartSpec.heart_fair rnd) ->
  (i < count)%nat -> ensures rnd (switch_shape shape i count) point_ok.
Proof.
  intros Hfair Hi. unfold switch_shape. unfold rejection_sampled in Hfair.
  destruct (String.eqb shape ShapeType.HEART);
    [apply case_HEART_ok; [assumption | apply Hfair; reflexivity]|].
  destruct (String.eqb shape ShapeType.DOUBLE_HEART);
    [apply case_DOUBLE_HEART_ok; [assumption | apply Hfair; reflexivity]|].
  destruct (String.eqb shape ShapeType.GALAXY); [apply case_GALAXY_ok; assumption|].
  destruct (String.eqb shape ShapeType.DNA); [apply case_DNA_ok; assumption|].
  destruct (String.eqb shape ShapeType.FLOWER); [apply case_FLOWER_ok; assumption|].
  destruct (String.eqb shape ShapeType.FLOWER_SEA); [apply case_FLOWER_SEA_ok; assumption|].
  destruct (String.eqb shape ShapeType.RING); [apply case_RING_ok; assumption|].
  destruct (String.eqb shape ShapeType.BUTTERFLY); [apply case_BUTTERFLY_ok; assumption|].
  destruct (String.eqb shape ShapeType.I_LOVE_U);
    [apply case_I_LOVE_U_ok; [assumption | apply Hfair; reflexivity]|].
  destruct (String.eqb shape ShapeType.SATURN); [apply case_SATURN_ok; assumption|].
  destruct (String.eqb shape ShapeType.SOLAR_SYSTEM); [apply case_SOLAR_SYSTEM_ok; assumption|].
  destruct (String.eqb shape ShapeType.BUDDHA); [apply case_BUDDHA_ok; assumption|].
  destruct (String.eqb shape ShapeType.FIREWORKS); [apply case_FIREWORKS_ok; assumption|].
  destruct (String.eqb shape ShapeType.CUSTOM); [apply case_CUSTOM_ok; assumption|].
  apply case_SPHERE_ok; assumption.
Qed.

End Switch.

Lemma triples_entries (Q : num -> Prop) n (buf : Float32Array) :
  List.length buf = (n * 3)%nat ->
  triples (fun '(x, y, z) => Q x /\ Q y /\ Q z) n buf ->
  Forall Q buf.
Proof.
  intros Hlen Ht. apply Forall_forall. intros e He.
  destruct (In_nth buf e NaN He) as (m & Hm & <-).
  fold (get buf m).
  assert (Hj : (m / 3 < n)%nat) by (apply Nat.Div0.div_lt_upper_bound; lia).
  pose proof (Ht (m / 3)%nat Hj) as (Hx & Hy & Hz).
  pose proof (Nat.div_mod_eq m 3) as Hdm.
  pose proof (Nat.mod_upper_bound m 3 ltac:(lia)) as Hr.
  destruct (m mod 3)%nat as [|[|[|r]]] eqn:Er; try lia.
  - replace m with (m / 3 * 3)%nat by lia. exact Hx.
  - replace m with (m / 3 * 3 + 1)%nat by lia. exact Hy.
  - replace m with (m / 3 * 3 + 2)%nat by lia. exact Hz.
Qed.

(** C1.  For every shape identifier, declared or not, and every count,
    [generateParticles] returns (it neither raises nor loops for ever): for
    every large enough budget of the rejection loop it yields one and the
    same buffer, of exactly [3 * count] entries, each a finite number (of
    magnitude at most 14); for [count = 0] the buffer is empty.  The
    oracle behind [Math.random] draws from [0, 1); the three shapes that
    use the rejection sampler need it not to reject for ever. *)
Theorem generateParticles_returns_finite_cloud
    (rnd : nat -> R) (shape : string) (count : nat) (k : nat) :
  random_source rnd ->
  (rejection_sampled shape = true -> HeartSpec.heart_fair rnd) ->
  exists F buf k',
    (forall fuel, (F <= fuel)%nat -> generateParticles shape count fuel rnd k = Ok buf k') /\
    List.length buf = (3 * count)%nat /\
    Forall (fun e => finite e /\ bounded COORD_BOUND e) buf /\
    (count = 0%nat -> buf = []).
Proof.
  intros Hrnd Hfair.
  destruct (GenerateFacts.generate_loop_runs rnd shape count point_ok
              (fun i Hi => switch_shape_ok rnd Hrnd shape i count Hfair Hi)
              count 0%nat (new_Float32Array (count * 3))
              (length_new _) (eq_refl _) (GenerateFacts.triples_nil _ _) k)
    as (F & buf & k' & (Hlen & Ht) & Hrun).
  exists F, buf, k'. split; [exact Hrun|]. split; [lia|]. split.
  - apply triples_entries with (n := count); [assumption|].
    intros j Hj. specialize (Ht j Hj). unfold point_ok in Ht.
    destruct Ht as (Hx & Hy & Hz).
    repeat split; try assumption;
      match goal with
      | H : bounded _ ?a |- finite ?a => destruct H as (v & -> & _); exact I
      end.
  - intros ->. destruct buf; [reflexivity | discriminate].
Qed.

Lemma generateParticles_returns_finite_cloud_witness :
  exists F buf k',
    (forall fuel, (F <= fuel)%nat ->
       generateParticles ShapeType.HEART 2%nat fuel (fun _ => 1 / 2) 0%nat = Ok buf k') /\
    List.length buf = 6%nat /\
    Forall (fun e => finite e /\ bounded COORD_BOUND e) buf /\
    (2%nat = 0%nat -> buf = []).
Proof.
  exact (generateParticles_returns_finite_cloud (fun _ => 1 / 2) ShapeType.HEART 2%nat 0%nat
           SamplerFacts.random_source_half (fun _ => HeartFacts.heart_fair_half)).
Defined.

End ShapeFacts.

(* ================================================================== *)
(** ** The stroke resampler: allocation *)
(* ================================================================== *)

Module AllocationFacts.
Import DrawingCanvas ResampleSpec.

Lemma INR_COUNT : INR COUNT = 8000.
Proof.
  unfold COUNT. rewrite INR_IZR_INZ, Z2Nat.id by lia. reflexivity.
Qed.

Lemma pLen_loop_cons acc p0 p1 rest :
  pLen_loop acc (p0 :: p1 :: rest)
  = pLen_loop (acc +! Math_sqrt ((Fin (x p1) -! Fin (x p0)) *! (Fin (x p1) -! Fin (x p0))
                                 +! (Fin (y p1) -! Fin (y p0)) *! (Fin (y p1) -! Fin (y p0))))
              (p1 :: rest).
Proof. reflexivity. Qed.

Lemma polyline_length_cons p0 p1 rest :
  polyline_length (p0 :: p1 :: rest)
  = sqrt ((x p1 - x p0) * (x p1 - x p0) + (y p1 - y p0) * (y p1 - y p0))
    + polyline_length (p1 :: rest).
Proof. reflexivity. Qed.

Lemma polyline_length_nonneg path : 0 <= polyline_length path.
Proof.
  induction path as [|p0 rest IH]; [simpl; lra|].
  destruct rest as [|p1 rest]; [simpl; lra|].
  rewrite polyline_length_cons. pose proof (sqrt_pos ((x p1 - x p0) * (x p1 - x p0) + (y p1 - y p0) * (y p1 - y p0))).
  lra.
Qed.

Lemma total_length_nonneg paths : 0 <= total_length paths.
Proof.
  induction paths as [|p rest IH]; simpl; [lra|].
  pose proof (polyline_length_nonneg p). lra.
Qed.

(** The accumulation loop computes the arc length. *)
Lemma pLen_loop_length (acc : R) path :
  pLen_loop (Fin acc) path = Fin (acc + polyline_length path).
Proof.
  revert acc. induction path as [|p0 rest IH]; intros acc.
  - simpl. f_equal. lra.
  - destruct rest as [|p1 rest]; [simpl; f_equal; lra|].
    rewrite pLen_loop_cons, polyline_length_cons.
    unfold nsub, nmul, nadd. cbn [lift2].
    rewrite ShapeFacts.Math_sqrt_Fin
      by (apply Rplus_le_le_0_compat; apply Rle_0_sqr).
    cbn [lift2]. rewrite IH. f_equal. lra.
Qed.

Lemma measure_fold paths (ls : list num) (t : R) :
  fold_left measure_step paths (ls, Fin t)
  = (ls ++ map (fun p => Fin (polyline_length p)) paths, Fin (t + total_length paths)).
Proof.
  revert ls t. induction paths as [|p rest IH]; intros ls t.
  - simpl. rewrite app_nil_r. do 2 f_equal. lra.
  - cbn [fold_left]. unfold measure_step at 2. cbn [fst snd].
    rewrite pLen_loop_length. cbn [nadd lift2]. rewrite IH.
    rewrite <- app_assoc. cbn [map app total_length].
    rewrite Rplus_0_l. do 2 f_equal. lra.
Qed.

Lemma measure_lengths paths :
  measure paths = (map (fun p => Fin (polyline_length p)) paths, Fin (total_length paths)).
Proof.
  unfold measure. rewrite measure_fold. cbn [app]. do 2 f_equal. lra.
Qed.

Lemma get_map_length paths idx :
  (idx < List.length paths)%nat ->
  get (map (fun p => Fin (polyline_length p)) paths) idx
  = Fin (polyline_length (nth idx paths [])).
Proof.
  intros H. unfold get.
  rewrite (nth_indep _ NaN (Fin (polyline_length []))) by (rewrite length_map; exact H).
  apply (map_nth (fun p => Fin (polyline_length p))).
Qed.

(** What the code allocates: the floor of the budget. *)
Lemma allocated_floor paths idx :
  (idx < List.length paths)%nat -> total_length paths <> 0 ->
  allocated paths idx = Fin (IZR (allocation_floor paths idx)).
Proof.
  intros Hidx Ht. unfold allocated, numPointsForPath, allocation_floor, budget.
  rewrite measure_lengths. cbn [fst snd].
  rewrite get_map_length by assumption.
  rewrite ShapeFacts.ndiv_Fin by assumption.
  reflexivity.
Qed.

Lemma floor_double v : (0 <= Zfloor (2 * v) - 2 * Zfloor v <= 1)%Z.
Proof.
  pose proof (Zfloor_bound v) as [H1 H2].
  pose proof (Zfloor_bound (2 * v)) as [H3 H4].
  assert (Ha : (2 * Zfloor v <= Zfloor (2 * v))%Z).
  { apply Zfloor_lub. rewrite mult_IZR. lra. }
  assert (Hb : (Zfloor (2 * v) < 2 * Zfloor v + 2)%Z).
  { apply lt_IZR. rewrite plus_IZR, mult_IZR. lra. }
  lia.
Qed.

Import ResampleExamples.

Lemma two_strokes_lengths :
  polyline_length (nth 0 two_strokes []) = 1 /\
  polyline_length (nth 1 two_strokes []) = 2 /\
  total_length two_strokes = 3.
Proof.
  assert (H1 : polyline_length [mkPt 0 0; mkPt 1 0] = 1).
  { cbn [polyline_length x y].
    replace ((1 - 0) * (1 - 0) + (0 - 0) * (0 - 0)) with 1 by lra.
    rewrite sqrt_1. lra. }
  assert (H2 : polyline_length [mkPt 0 0; mkPt 2 0] = 2).
  { cbn [polyline_length x y].
    replace ((2 - 0) * (2 - 0) + (0 - 0) * (0 - 0)) with (2 * 2) by lra.
    rewrite sqrt_square by lra. lra. }
  cbn [nth two_strokes total_length]. rewrite H1, H2. repeat split; lra.
Qed.

End AllocationFacts.

(* ================================================================== *)
(** ** The stroke resampler: walking and filling *)
(* ================================================================== *)

Module FillFacts.
Import DrawingCanvas ResampleSpec ResampleExamples FillSpec.

Lemma to_num_nth_error (ps : Float32Array) i : to_num (nth_error ps i) = get ps i.
Proof.
  unfold get. revert i. induction ps as [|h t IH]; intros [|i]; simpl; auto.
Qed.

Lemma array_get_slot (ps : Float32Array) (s c : nat) :
  to_num (array_get ps (Fin (INR s * 3 + INR c))) = get ps (s * 3 + c).
Proof.
  replace (INR s * 3 + INR c) with (INR (s * 3 + c)).
  - rewrite ShapeFacts.array_get_index. apply to_num_nth_error.
  - rewrite plus_INR, mult_INR. simpl. lra.
Qed.

(** The index drawn by the filling loop lies below [pIdx], or is 0. *)
Lemma source_index p u :
  0 <= u < 1 ->
  exists s, IZR (Zfloor (u * INR p)) = INR s /\ ((s < p)%nat \/ (p = 0 /\ s = 0)%nat).
Proof.
  intros Hu. destruct p as [|p].
  - exists 0%nat. split; [|right; auto].
    simpl. rewrite Rmult_0_r. rewrite (Zfloor_eq 0); [reflexivity | simpl; lra].
  - destruct (ShapeFacts.floor_random_index (S p) u Hu ltac:(lia)) as (j & Hj & Ej).
    exists j. split; [exact Ej | left; exact Hj].
Qed.

Lemma fill_while_step todo ps p fuel rnd k :
  random_source rnd ->
  exists s, ((s < p)%nat \/ (p = 0 /\ s = 0)%nat) /\
    fill_while (S todo) ps p fuel rnd k
    = fill_while todo (copy_slot ps p s) (S p) fuel rnd (S k).
Proof.
  intros Hrnd. destruct (source_index p (rnd k) (Hrnd k)) as (s & Es & Hs).
  exists s. split; [exact Hs|].
  cbn [fill_while]. unfold bind, Math_random.
  change (Math_floor (Fin (rnd k) *! Shapes.of_nat p))
    with (Fin (IZR (Zfloor (rnd k * INR p)))).
  rewrite Es. unfold copy_slot.
  change (Fin (INR s) *! 3) with (Fin (INR s * 3)).
  change (Fin (INR s * 3) +! 1) with (Fin (INR s * 3 + INR 1)).
  change (Fin (INR s * 3) +! 2) with (Fin (INR s * 3 + INR 2)).
  rewrite !array_get_slot.
  replace (INR s * 3) with (INR s * 3 + INR 0) by (simpl; lra).
  rewrite array_get_slot. rewrite Nat.add_0_r. reflexivity.
Qed.

Lemma length_copy_slot ps p s : List.length (copy_slot ps p s) = List.length ps.
Proof. unfold copy_slot. rewrite !length_store. reflexivity. Qed.

Lemma get_copy_slot_below ps p s i :
  (i < p * 3)%nat -> get (copy_slot ps p s) i = get ps i.
Proof.
  intros H. unfold copy_slot. rewrite !get_store_other by lia. reflexivity.
Qed.

Lemma slot_copy_slot_below ps p s j :
  (j < p)%nat -> slot (copy_slot ps p s) j = slot ps j.
Proof.
  intros H. unfold slot. rewrite !get_copy_slot_below by lia. reflexivity.
Qed.

Lemma slot_copy_slot_new ps p s :
  (s < p)%nat -> ((p * 3 + 2) < List.length ps)%nat ->
  slot (copy_slot ps p s) p = slot ps s.
Proof.
  intros Hs Hlen. unfold slot, copy_slot.
  rewrite (get_store_other _ (p * 3 + 2) (p * 3)) by lia.
  rewrite (get_store_other _ (p * 3 + 1) (p * 3)) by lia.
  rewrite get_store_same by lia.
  rewrite (get_store_other _ (p * 3 + 2) (p * 3 + 1)) by lia.
  rewrite get_store_same by (rewrite length_store; lia).
  rewrite get_store_same by (rewrite !length_store; lia).
  rewrite !get_store_other by lia. reflexivity.
Qed.

(** The filling loop, entered after at least one point was placed: every
    slot it fills repeats a slot below [placed], which it leaves alone. *)
Lemma fill_while_copies rnd placed :
  random_source rnd -> (0 < placed)%nat ->
  forall todo p ps fuel k,
    (placed <= p)%nat -> (p + todo = COUNT)%nat ->
    List.length ps = (COUNT * 3)%nat ->
    (forall q, (placed <= q < p)%nat -> exists j, (j < placed)%nat /\ slot ps q = slot ps j) ->
    exists final k',
      fill_while todo ps p fuel rnd k = Ok final k' /\
      List.length final = (COUNT * 3)%nat /\
      (forall i, (i < placed * 3)%nat -> get final i = get ps i) /\
      (forall q, (placed <= q < COUNT)%nat ->
         exists j, (j < placed)%nat /\ slot final q = slot final j).
Proof.
  intros Hrnd Hpos. induction todo as [|todo IH]; intros p ps fuel k Hp Hsum Hlen Hinv.
  - exists ps, k. split; [reflexivity|]. split; [assumption|]. split; [auto|].
    intros q Hq. apply Hinv. lia.
  - destruct (fill_while_step todo ps p fuel rnd k Hrnd) as (s & Hs & ->).
    assert (Hs' : (s < p)%nat) by lia.
    destruct (IH (S p) (copy_slot ps p s) fuel (S k)) as (final & k' & Hrun & Hl & Hlow & Hall).
    + lia.
    + lia.
    + rewrite length_copy_slot. assumption.
    + intros q Hq. destruct (Nat.eq_dec q p) as [->|Hne].
      * rewrite slot_copy_slot_new by lia.
        destruct (Nat.lt_ge_cases s placed) as [Hlt|Hge].
        -- exists s. split; [assumption|]. rewrite slot_copy_slot_below by lia. reflexivity.
        -- destruct (Hinv s ltac:(lia)) as (j & Hj & Ej).
           exists j. split; [assumption|]. rewrite slot_copy_slot_below by lia. exact Ej.
      * destruct (Hinv q ltac:(lia)) as (j & Hj & Ej).
        exists j. split; [assumption|]. rewrite !slot_copy_slot_below by lia. exact Ej.
    + exists final, k'. split; [exact Hrun|]. split; [exact Hl|]. split; [|exact Hall].
      intros i Hi. rewrite Hlow by assumption. apply get_copy_slot_below. lia.
Qed.

(** On a buffer of zeros the filling loop changes nothing. *)
Lemma copy_slot_zeros n p s :
  ((s < p)%nat \/ (p = 0 /\ s = 0)%nat) -> (p * 3 + 2 < n)%nat ->
  copy_slot (new_Float32Array n) p s = new_Float32Array n.
Proof.
  intros Hs Hp. unfold copy_slot.
  assert (Hst : forall i, (i < n)%nat -> store (new_Float32Array n) i (Fin 0) = new_Float32Array n).
  { intros i Hi. apply nth_ext with (d := NaN) (d' := NaN).
    - rewrite length_store. reflexivity.
    - intros m Hm. fold (get (store (new_Float32Array n) i (Fin 0)) m).
      fold (get (new_Float32Array n) m).
      destruct (Nat.eq_dec i m) as [->|Hne].
      + rewrite get_store_same by (rewrite length_new; lia).
        rewrite get_new by lia. reflexivity.
      + rewrite get_store_other by assumption. reflexivity. }
  rewrite (get_new n (s * 3)) by lia. rewrite Hst by lia.
  rewrite (get_new n (s * 3 + 1)) by lia. rewrite Hst by lia.
  rewrite (get_new n (s * 3 + 2)) by lia. rewrite Hst by lia.
  reflexivity.
Qed.

Lemma fill_while_zeros rnd :
  random_source rnd ->
  forall todo p fuel k,
    (p + todo = COUNT)%nat ->
    fill_while todo (new_Float32Array (COUNT * 3)) p fuel rnd k
    = Ok (new_Float32Array (COUNT * 3)) (k + todo).
Proof.
  intros Hrnd. induction todo as [|todo IH]; intros p fuel k Hsum.
  - cbn. rewrite Nat.add_0_r. reflexivity.
  - destruct (fill_while_step todo (new_Float32Array (COUNT * 3)) p fuel rnd k Hrnd)
      as (s & Hs & ->).
    rewrite copy_slot_zeros by lia.
    rewrite IH by lia. f_equal. lia.
Qed.

(** *** The walk never raises and keeps the buffer size *)

Section WalkFacts.

Variables centerX centerY scale : num.
Variable rnd : nat -> R.

Lemma find_segment_ok path targetDist fuel :
  forall todo w k,
    (todo <= List.length path - 1 - currentSegIdx w)%nat ->
    exists w' k',
      find_segment centerX centerY scale todo path targetDist w fuel rnd k = Ok w' k' /\
      List.length (positions w') = List.length (positions w) /\
      (pIdx w <= pIdx w' <= S (pIdx w))%nat /\
      (pIdx w' = pIdx w -> positions w' = positions w).
Proof.
  induction todo as [|todo IH]; intros w k Htodo.
  - exists w, k. split; [reflexivity | split; [reflexivity | split; [lia | auto]]].
  - cbn [find_segment].
    destruct (nth_error path (currentSegIdx w)) as [p1|] eqn:E1;
      [|apply nth_error_None in E1; lia].
    destruct (nth_error path (S (currentSegIdx w))) as [p2|] eqn:E2;
      [|apply nth_error_None in E2; lia].
    destruct (nge _ _).
    + unfold bind, Math_random, ret. eexists. eexists. split; [reflexivity|].
      cbn [positions pIdx]. rewrite !length_store.
      split; [reflexivity | split; [lia | intros; lia]].
    + destruct (IH (mkWalk (positions w) (pIdx w)
                      (distanceWalked w +!
                       Math_sqrt (Math_pow (Fin (x p2) -! Fin (x p1)) 2
                                  +! Math_pow (Fin (y p2) -! Fin (y p1)) 2))
                      (S (currentSegIdx w))) k)
        as (w' & k' & Hrun & Hl & Hp & Hsame).
      { cbn [currentSegIdx]. lia. }
      exists w', k'. split; [exact Hrun|]. exact (conj Hl (conj Hp Hsame)).
Qed.

Lemma walk_for_ok path step fuel :
  forall todo i w k,
    (pIdx w <= COUNT)%nat ->
    exists w' k',
      walk_for centerX centerY scale todo i path step w fuel rnd k = Ok w' k' /\
      List.length (positions w') = List.length (positions w) /\
      (pIdx w <= pIdx w' <= COUNT)%nat /\
      (pIdx w' = pIdx w -> positions w' = positions w).
Proof.
  induction todo as [|todo IH]; intros i w k Hw.
  - exists w, k. split; [reflexivity | split; [reflexivity | split; [lia | auto]]].
  - cbn [walk_for]. destruct (Nat.ltb_spec (pIdx w) COUNT) as [Hlt|Hge].
    + destruct (find_segment_ok path (Shapes.of_nat i *! step) fuel
                  (List.length path - 1 - currentSegIdx w) w k (Nat.le_refl _))
        as (w1 & k1 & Hrun1 & Hl1 & Hp1 & Hs1).
      destruct (IH (S i) w1 k1 ltac:(lia)) as (w2 & k2 & Hrun2 & Hl2 & Hp2 & Hs2).
      exists w2, k2. unfold bind. rewrite Hrun1. split; [exact Hrun2|].
      split; [congruence|]. split; [lia|].
      intros E. rewrite Hs2 by lia. apply Hs1. lia.
    + exists w, k. split; [reflexivity | split; [reflexivity | split; [lia | auto]]].
Qed.

Lemma walk_path_ok pathLengths totalLength acc path idx fuel k :
  (snd acc <= COUNT)%nat ->
  exists acc' k',
    walk_path centerX centerY scale pathLengths totalLength acc path idx fuel rnd k
    = Ok acc' k' /\
    List.length (fst acc') = List.length (fst acc) /\
    (snd acc <= snd acc' <= COUNT)%nat /\
    (snd acc' = snd acc -> fst acc' = fst acc).
Proof.
  intros Hacc. unfold walk_path.
  destruct (neq totalLength 0);
    [exists acc, k; split; [reflexivity | split; [reflexivity | split; [lia | auto]]]|].
  destruct (List.length path <? 2)%nat;
    [exists acc, k; split; [reflexivity | split; [reflexivity | split; [lia | auto]]]|].
  destruct (walk_for_ok path
              (get pathLengths idx /! numPointsForPath pathLengths totalLength idx) fuel
              (iterations (numPointsForPath pathLengths totalLength idx)) 0%nat
              (mkWalk (fst acc) (snd acc) 0 0) k Hacc)
    as (w & k' & Hrun & Hl & Hp & Hs).
  exists (positions w, pIdx w), k'. unfold bind. rewrite Hrun.
  split; [reflexivity|]. cbn [fst snd positions pIdx] in *.
  split; [exact Hl | split; [exact Hp | exact Hs]].
Qed.

Lemma walk_paths_ok pathLengths totalLength fuel :
  forall flatPaths acc idx k,
    (snd acc <= COUNT)%nat ->
    exists acc' k',
      walk_paths centerX centerY scale pathLengths totalLength acc flatPaths idx fuel rnd k
      = Ok acc' k' /\
      List.length (fst acc') = List.length (fst acc) /\
      (snd acc <= snd acc' <= COUNT)%nat /\
      (snd acc' = snd acc -> fst acc' = fst acc).
Proof.
  induction flatPaths as [|path rest IH]; intros acc idx k Hacc.
  - exists acc, k. split; [reflexivity | split; [reflexivity | split; [lia | auto]]].
  - cbn [walk_paths].
    destruct (walk_path_ok pathLengths totalLength acc path idx fuel k Hacc)
      as (acc1 & k1 & Hrun1 & Hl1 & Hp1 & Hs1).
    destruct (IH acc1 (S idx) k1 ltac:(lia)) as (acc2 & k2 & Hrun2 & Hl2 & Hp2 & Hs2).
    exists acc2, k2. unfold bind. rewrite Hrun1. split; [exact Hrun2|].
    split; [congruence|]. split; [lia|].
    intros E. rewrite Hs2 by lia. apply Hs1. lia.
Qed.

End WalkFacts.

Import WalkSpec.

Lemma walked_ok paths canvas rnd fuel k :
  exists ps placed k1,
    walked paths canvas fuel rnd k = Ok (ps, placed) k1 /\
    List.length ps = (COUNT * 3)%nat /\ (placed <= COUNT)%nat /\
    (placed = 0%nat -> ps = new_Float32Array (COUNT * 3)).
Proof.
  unfold walked. destruct (measure paths) as [pathLengths totalLength].
  destruct (walk_paths_ok (Fin (width canvas) /! 2) (Fin (height canvas) /! 2)
              (Math_min (width canvas) (height canvas) /! 5) rnd
              pathLengths totalLength fuel paths (new_Float32Array (COUNT * 3), 0%nat) 0%nat k
              (Nat.le_0_l _))
    as ([ps placed] & k1 & Hrun & Hl & Hp & Hs).
  cbn [fst snd] in *. exists ps, placed, k1.
  split; [exact Hrun|]. split; [rewrite Hl; apply length_new|]. split; [lia | exact Hs].
Qed.

Lemma processAndSave_unfold paths currentPath canvas fuel rnd k :
  (2 <= List.length (List.concat paths))%nat ->
  processAndSave paths currentPath canvas fuel rnd k
  = match walked paths canvas fuel rnd k with
    | Ok acc k1 =>
        match fill_while (COUNT - snd acc) (fst acc) (snd acc) fuel rnd k1 with
        | Ok ps k2 => Ok (onSave ps) k2
        | Raised => Raised
        | OutOfFuel => OutOfFuel
        end
    | Raised => Raised
    | OutOfFuel => OutOfFuel
    end.
Proof.
  intros H. unfold processAndSave, walked.
  destruct paths as [|p rest]; [simpl in H; lia|].
  cbn [List.length Nat.eqb andb].
  destruct (Nat.ltb_spec (List.length (List.concat (p :: rest))) 2) as [Hlt|_]; [lia|].
  destruct (measure (p :: rest)) as [pathLengths totalLength].
  unfold bind. 
  destruct (walk_paths _ _ _ _ _ _ _ _ _ _ _) as [acc k1| |]; [|reflexivity|reflexivity].
  destruct (fill_while _ _ _ _ _ _) as [ps k2| |]; reflexivity.
Qed.

End FillFacts.

(* ================================================================== *)
(** ** The stroke resampler: how many points the walk places *)
(* ================================================================== *)

Module PlacementFacts.
Import DrawingCanvas ResampleSpec PlacementSpec WalkSpec.

Lemma seg_len_nonneg path j : 0 <= seg_len path j.
Proof.
  unfold seg_len. destruct (nth_error path j); [|lra].
  destruct (nth_error path (S j)); [apply sqrt_pos | lra].
Qed.

Lemma prefix_length_cons p path j :
  prefix_length (p :: path) (S j) = seg_len (p :: path) 0 + prefix_length path j.
Proof.
  induction j as [|j IH].
  - simpl. lra.
  - cbn [prefix_length] in *. rewrite IH.
    change (seg_len (p :: path) (S j)) with (seg_len path j). lra.
Qed.

(** The arc length is that of all [length - 1] segments. *)
Lemma polyline_length_prefix path :
  polyline_length path = prefix_length path (List.length path - 1).
Proof.
  induction path as [|p0 rest IH]; [reflexivity|].
  destruct rest as [|p1 rest]; [reflexivity|].
  rewrite AllocationFacts.polyline_length_cons, IH.
  cbn [List.length]. replace (S (S (List.length rest)) - 1)%nat with (S (List.length rest)) by lia.
  replace (S (List.length rest) - 1)%nat with (List.length rest) by lia.
  rewrite prefix_length_cons. reflexivity.
Qed.

Lemma segLen_value p1 p2 :
  Math_sqrt (Math_pow (Fin (x p2) -! Fin (x p1)) 2 +! Math_pow (Fin (y p2) -! Fin (y p1)) 2)
  = Fin (sqrt ((x p2 - x p1) * (x p2 - x p1) + (y p2 - y p1) * (y p2 - y p1))).
Proof.
  unfold Math_pow, nsub, nadd. cbn [lift1 lift2].
  replace ((x p2 - x p1) ^ 2 + (y p2 - y p1) ^ 2)
    with ((x p2 - x p1) * (x p2 - x p1) + (y p2 - y p1) * (y p2 - y p1)) by (simpl; ring).
  apply ShapeFacts.Math_sqrt_Fin. apply Rplus_le_le_0_compat; apply Rle_0_sqr.
Qed.

Section Placement.

Variables centerX centerY scale : num.
Variable rnd : nat -> R.

(** Looking for a target distance within the stroke always places a point. *)
Lemma find_segment_places path (td : R) fuel :
  td <= polyline_length path ->
  forall todo w k,
    (todo = List.length path - 1 - currentSegIdx w)%nat -> (0 < todo)%nat ->
    distanceWalked w = Fin (prefix_length path (currentSegIdx w)) ->
    exists w' k',
      find_segment centerX centerY scale todo path (Fin td) w fuel rnd k = Ok w' k' /\
      List.length (positions w') = List.length (positions w) /\
      pIdx w' = S (pIdx w) /\
      (currentSegIdx w' < List.length path - 1)%nat /\
      distanceWalked w' = Fin (prefix_length path (currentSegIdx w')).
Proof.
  intros Htd. induction todo as [|todo IH]; intros w k Htodo Hpos Hd; [lia|].
  cbn [find_segment].
  destruct (nth_error path (currentSegIdx w)) as [p1|] eqn:E1;
    [|apply nth_error_None in E1; lia].
  destruct (nth_error path (S (currentSegIdx w))) as [p2|] eqn:E2;
    [|apply nth_error_None in E2; lia].
  rewrite segLen_value, Hd.
  assert (Hseg : seg_len path (currentSegIdx w)
                 = sqrt ((x p2 - x p1) * (x p2 - x p1) + (y p2 - y p1) * (y p2 - y p1))).
  { unfold seg_len. rewrite E1, E2. reflexivity. }
  rewrite <- Hseg. cbn [nadd lift2 nge].
  destruct (Rle_dec td (prefix_length path (currentSegIdx w) + seg_len path (currentSegIdx w)))
    as [Hhit|Hmiss].
  - unfold bind, Math_random, ret. eexists. eexists. split; [reflexivity|].
    cbn [positions pIdx currentSegIdx distanceWalked]. rewrite !length_store.
    split; [reflexivity|]. split; [reflexivity|]. split; [lia | reflexivity].
  - assert (Hmore : (0 < todo)%nat).
    { destruct todo as [|t]; [|lia]. exfalso. apply Hmiss.
      rewrite polyline_length_prefix in Htd.
      replace (List.length path - 1)%nat with (S (currentSegIdx w)) in Htd by lia.
      cbn [prefix_length] in Htd. exact Htd. }
    destruct (IH (mkWalk (positions w) (pIdx w)
                    (Fin (prefix_length path (currentSegIdx w) + seg_len path (currentSegIdx w)))
                    (S (currentSegIdx w))) k)
      as (w' & k' & Hrun & Hl & Hp & Hc & Hd').
    + cbn [currentSegIdx]. lia.
    + exact Hmore.
    + reflexivity.
    + exists w', k'. split; [exact Hrun|]. cbn [positions pIdx] in *. auto.
Qed.

(** The walk of one stroke places one point per round, buffer permitting. *)
Lemma walk_for_places path (n : nat) fuel :
  (0 < n)%nat -> (2 <= List.length path)%nat ->
  forall todo i w k,
    (i + todo = n)%nat -> (pIdx w + todo <= COUNT)%nat ->
    (currentSegIdx w < List.length path - 1)%nat ->
    distanceWalked w = Fin (prefix_length path (currentSegIdx w)) ->
    exists w' k',
      walk_for centerX centerY scale todo i path (Fin (polyline_length path / INR n)) w
        fuel rnd k = Ok w' k' /\
      List.length (positions w') = List.length (positions w) /\
      pIdx w' = (pIdx w + todo)%nat.
Proof.
  intros Hn Hlen. induction todo as [|todo IH]; intros i w k Hi Hroom Hc Hd.
  - exists w, k. split; [reflexivity|]. split; [reflexivity | lia].
  - cbn [walk_for]. destruct (Nat.ltb_spec (pIdx w) COUNT) as [_|Hfull]; [|lia].
    assert (Htd : INR i * (polyline_length path / INR n) <= polyline_length path).
    { pose proof (AllocationFacts.polyline_length_nonneg path) as HL.
      assert (Hn' : 0 < INR n) by (apply lt_0_INR; lia).
      assert (Hi' : INR i <= INR n) by (apply le_INR; lia).
      pose proof (pos_INR i) as Hi0.
      replace (INR i * (polyline_length path / INR n))
        with (polyline_length path * (INR i / INR n)) by (field; lra).
      assert (Hfrac : INR i / INR n <= 1).
      { apply Rmult_le_reg_r with (INR n); [lra|].
        unfold Rdiv. rewrite Rmult_assoc, Rinv_l by lra. lra. }
      assert (0 <= INR i / INR n).
      { apply Rmult_le_pos; [lra | left; apply Rinv_0_lt_compat; lra]. }
      nra. }
    change (Shapes.of_nat i *! Fin (polyline_length path / INR n))
      with (Fin (INR i * (polyline_length path / INR n))).
    destruct (find_segment_places path _ fuel Htd
                (List.length path - 1 - currentSegIdx w) w k eq_refl ltac:(lia) Hd)
      as (w1 & k1 & Hrun1 & Hl1 & Hp1 & Hc1 & Hd1).
    destruct (IH (S i) w1 k1 ltac:(lia) ltac:(lia) Hc1 Hd1) as (w2 & k2 & Hrun2 & Hl2 & Hp2).
    exists w2, k2. unfold bind. rewrite Hrun1. split; [exact Hrun2|].
    split; [congruence | lia].
Qed.

Lemma allocation_floor_nonneg paths idx :
  0 <= total_length paths -> (0 <= allocation_floor paths idx)%Z.
Proof.
  intros HT. unfold allocation_floor. apply Zfloor_lub. simpl.
  unfold budget.
  pose proof (AllocationFacts.polyline_length_nonneg (nth idx paths [])) as HL.
  pose proof (pos_INR COUNT) as HC.
  assert (0 <= / total_length paths).
  { destruct HT as [HT|HT]; [left; apply Rinv_0_lt_compat; exact HT|].
    rewrite <- HT, Rinv_0. lra. }
  unfold Rdiv. apply Rmult_le_pos; [apply Rmult_le_pos|]; assumption.
Qed.

Lemma short_path_length path : (List.length path < 2)%nat -> polyline_length path = 0.
Proof.
  destruct path as [|p0 [|p1 rest]]; simpl; intros H; try reflexivity; lia.
Qed.

(** The walk of stroke [idx] places exactly its allocation, if the buffer
    has that much room. *)
Lemma walk_path_places paths idx path acc fuel k :
  nth_error paths idx = Some path -> 0 < total_length paths ->
  (snd acc + Z.to_nat (allocation_floor paths idx) <= COUNT)%nat ->
  exists acc' k',
    walk_path centerX centerY scale (fst (measure paths)) (snd (measure paths))
      acc path idx fuel rnd k = Ok acc' k' /\
    List.length (fst acc') = List.length (fst acc) /\
    snd acc' = (snd acc + Z.to_nat (allocation_floor paths idx))%nat.
Proof.
  intros Hnth HT Hroom.
  assert (Hidx : (idx < List.length paths)%nat) by (apply nth_error_Some; congruence).
  assert (Hpath : nth idx paths [] = path) by (apply nth_error_nth; exact Hnth).
  pose proof (allocation_floor_nonneg paths idx ltac:(lra)) as Hz.
  unfold walk_path.
  pose proof (AllocationFacts.allocated_floor paths idx Hidx ltac:(lra)) as Halloc.
  unfold allocated in Halloc. rewrite Halloc. clear Halloc.
  rewrite AllocationFacts.measure_lengths. cbn [fst snd neq].
  destruct (Req_dec_T (total_length paths) 0) as [E|_]; [lra|].
  destruct (Nat.ltb_spec (List.length path) 2) as [Hshort|Hlong].
  - assert (Ez : allocation_floor paths idx = 0%Z).
    { unfold allocation_floor, budget. rewrite Hpath, (short_path_length path Hshort).
      unfold Rdiv. rewrite !Rmult_0_l. apply (ZfloorZ 0). }
    exists acc, k. split; [reflexivity|]. split; [reflexivity|]. rewrite Ez. simpl. lia.
  - rewrite AllocationFacts.get_map_length by assumption. rewrite Hpath.
    assert (Eit : iterations (Fin (IZR (allocation_floor paths idx)))
                  = Z.to_nat (allocation_floor paths idx)).
    { unfold iterations, Zceil. rewrite <- opp_IZR, ZfloorZ. f_equal. lia. }
    rewrite Eit.
    destruct (Z.to_nat (allocation_floor paths idx)) as [|m] eqn:En.
    + exists acc, k. unfold bind. cbn [walk_for]. unfold ret.
      cbn [positions pIdx]. destruct acc as [ps p]. cbn [fst snd].
      split; [reflexivity|]. split; [reflexivity | lia].
    + assert (EI : IZR (allocation_floor paths idx) = INR (S m)).
      { rewrite <- En, INR_IZR_INZ, Z2Nat.id by assumption. reflexivity. }
      rewrite EI. rewrite ShapeFacts.ndiv_Fin by (apply not_0_INR; lia).
      destruct (walk_for_places path (S m) fuel ltac:(lia) Hlong (S m) 0%nat
                  (mkWalk (fst acc) (snd acc) 0 0) k eq_refl)
        as (w & k' & Hrun & Hl & Hp).
      * cbn [pIdx]. lia.
      * cbn [currentSegIdx]. lia.
      * reflexivity.
      * exists (positions w, pIdx w), k'. unfold bind. rewrite Hrun.
        split; [reflexivity|]. cbn [fst snd positions pIdx] in *. auto.
Qed.

Lemma walk_paths_places paths fuel :
  0 < total_length paths ->
  forall rest idx acc k,
    skipn idx paths = rest ->
    (snd acc + allocated_from paths rest idx <= COUNT)%nat ->
    exists acc' k',
      walk_paths centerX centerY scale (fst (measure paths)) (snd (measure paths))
        acc rest idx fuel rnd k = Ok acc' k' /\
      List.length (fst acc') = List.length (fst acc) /\
      snd acc' = (snd acc + allocated_from paths rest idx)%nat.
Proof.
  intros HT. induction rest as [|path rest IH]; intros idx acc k Hskip Hroom.
  - exists acc, k. split; [reflexivity|]. split; [reflexivity|]. cbn. lia.
  - cbn [walk_paths allocated_from] in *.
    assert (Hnth : nth_error paths idx = Some path).
    { rewrite <- (Nat.add_0_r idx), <- nth_error_skipn, Hskip. reflexivity. }
    assert (Hnext : skipn (S idx) paths = rest).
    { change (S idx) with (1 + idx)%nat. rewrite <- skipn_skipn, Hskip. reflexivity. }
    destruct (walk_path_places paths idx path acc fuel k Hnth HT ltac:(lia))
      as (acc1 & k1 & Hrun1 & Hl1 & Hp1).
    destruct (IH (S idx) acc1 k1 Hnext ltac:(lia)) as (acc2 & k2 & Hrun2 & Hl2 & Hp2).
    exists acc2, k2. unfold bind. rewrite Hrun1. split; [exact Hrun2|].
    split; [congruence | lia].
Qed.

End Placement.

(** The allocations never add up to more than the buffer holds. *)
Lemma allocated_from_bound paths :
  0 < total_length paths ->
  forall rest idx,
    skipn idx paths = rest ->
    INR (allocated_from paths rest idx) <= total_length rest / total_length paths * INR COUNT.
Proof.
  intros HT. pose proof (pos_INR COUNT) as HC.
  induction rest as [|path rest IH]; intros idx Hskip.
  - cbn. unfold Rdiv. rewrite !Rmult_0_l. lra.
  - cbn [allocated_from total_length].
    assert (Hnth : nth idx paths [] = path).
    { apply nth_error_nth.
      rewrite <- (Nat.add_0_r idx), <- nth_error_skipn, Hskip. reflexivity. }
    assert (Hnext : skipn (S idx) paths = rest).
    { change (S idx) with (1 + idx)%nat. rewrite <- skipn_skipn, Hskip. reflexivity. }
    specialize (IH (S idx) Hnext).
    pose proof (allocation_floor_nonneg paths idx ltac:(lra)) as Hz.
    rewrite plus_INR, INR_IZR_INZ, Z2Nat.id by assumption.
    pose proof (Zfloor_bound (budget paths idx)) as [Hfl _].
    fold (allocation_floor paths idx) in Hfl.
    unfold budget in Hfl. rewrite Hnth in Hfl.
    replace ((polyline_length path + total_length rest) / total_length paths * INR COUNT)
      with (polyline_length path / total_length paths * INR COUNT
            + total_length rest / total_length paths * INR COUNT) by (field; lra).
    lra.
Qed.

Lemma allocated_total_bound paths :
  0 < total_length paths -> (allocated_total paths <= COUNT)%nat.
Proof.
  intros HT. apply INR_le.
  pose proof (allocated_from_bound paths HT paths 0%nat eq_refl) as H.
  fold (allocated_total paths) in H.
  replace (total_length paths / total_length paths * INR COUNT) with (INR COUNT) in H
    by (field; lra).
  exact H.
Qed.

(** With strokes of positive total length, when the walk is done [pIdx]
    is the sum of the allocations. *)
Lemma walked_places_allocations paths canvas rnd fuel k :
  0 < total_length paths ->
  exists ps k1,
    walked paths canvas fuel rnd k = Ok (ps, allocated_total paths) k1 /\
    List.length ps = (COUNT * 3)%nat.
Proof.
  intros HT. unfold walked.
  pose proof (allocated_total_bound paths HT) as Hb.
  destruct (walk_paths_places (Fin (width canvas) /! 2) (Fin (height canvas) /! 2)
              (Math_min (width canvas) (height canvas) /! 5) rnd paths fuel HT paths 0%nat
              (new_Float32Array (COUNT * 3), 0%nat) k eq_refl)
    as ([ps placed] & k1 & Hrun & Hl & Hp).
  - cbn [snd]. fold (allocated_total paths). lia.
  - cbn [fst snd] in *. fold (allocated_total paths) in Hp. subst placed.
    exists ps, k1. destruct (measure paths) as [pathLengths totalLength].
    cbn [fst snd] in Hrun. split; [exact Hrun|]. rewrite Hl. apply length_new.
Qed.

(** With strokes of no length at all, the walk places nothing and leaves
    the fresh buffer alone. *)
Lemma walked_zero_length paths canvas rnd fuel k :
  total_length paths = 0 ->
  walked paths canvas fuel rnd k = Ok (new_Float32Array (COUNT * 3), 0%nat) k.
Proof.
  intros HT. unfold walked. rewrite AllocationFacts.measure_lengths, HT. clear HT.
  generalize (map (fun p => Fin (polyline_length p)) paths) as pathLengths.
  generalize (new_Float32Array (COUNT * 3), 0%nat) as acc.
  generalize 0%nat as idx.
  induction paths as [|path rest IH]; intros idx acc pathLengths; [reflexivity|].
  cbn [walk_paths]. unfold bind, walk_path. cbn [neq].
  destruct (Req_dec_T 0 0) as [_|Hn]; [|contradiction Hn; reflexivity].
  unfold ret. apply IH.
Qed.

End PlacementFacts.

(* ================================================================== *)
(** ** The stroke resampler: the claims *)
(* ================================================================== *)

Module ResampleClaims.
Import DrawingCanvas ResampleSpec ResampleExamples FillSpec WalkSpec PlacementSpec.
Import AllocationFacts FillFacts PlacementFacts.

(** C3, as stated, fails: for strokes of lengths 1 and 2 the code allocates
    2666 points to the first stroke, while rounding the budget
    [1/3 * 8000] gives 2667. *)
Lemma allocation_is_not_rounded :
  0 < total_length two_strokes /\
  allocated two_strokes 0 = Fin 2666 /\
  allocation_round two_strokes 0 = 2667%Z /\
  allocated two_strokes 0 <> Fin (IZR (allocation_round two_strokes 0)).
Proof.
  destruct two_strokes_lengths as (H1 & H2 & Ht).
  assert (Hb : budget two_strokes 0 = 8000 / 3).
  { unfold budget. rewrite H1, Ht, INR_COUNT. lra. }
  assert (Ha : allocated two_strokes 0 = Fin 2666).
  { rewrite allocated_floor; [| simpl; lia | lra].
    unfold allocation_floor. rewrite Hb.
    rewrite (Zfloor_eq 2666) by lra. reflexivity. }
  assert (Hr : allocation_round two_strokes 0 = 2667%Z).
  { unfold allocation_round, Math_round. rewrite Hb. apply Zfloor_eq. lra. }
  split; [lra|]. split; [exact Ha|]. split; [exact Hr|].
  rewrite Ha, Hr. intros E. inversion E. lra.
Qed.

(** C3, amended.  For every stroke set of positive total arc length, the
    number of points allocated to each stroke is
    [floor(strokeLength / totalLength * COUNT)], the fraction being
    dropped rather than rounded, and the walk places exactly that many
    points for the stroke (the allocations never exceed the buffer); so
    two strokes whose lengths are in ratio 2:1 receive counts [a] and [b]
    with [0 <= a - 2b <= 1]. *)
Theorem allocation_is_floor_of_share (paths : list Path) :
  0 < total_length paths ->
  (forall idx, (idx < List.length paths)%nat ->
     allocated paths idx = Fin (IZR (allocation_floor paths idx)) /\
     (0 <= allocation_floor paths idx)%Z)
  /\
  (forall idx path centerX centerY scale acc fuel rnd k,
     nth_error paths idx = Some path ->
     (snd acc + Z.to_nat (allocation_floor paths idx) <= COUNT)%nat ->
     exists acc' k',
       walk_path centerX centerY scale (fst (measure paths)) (snd (measure paths))
         acc path idx fuel rnd k = Ok acc' k' /\
       snd acc' = (snd acc + Z.to_nat (allocation_floor paths idx))%nat)
  /\
  (forall canvas fuel rnd k,
     exists ps k1,
       walked paths canvas fuel rnd k = Ok (ps, allocated_total paths) k1 /\
       (allocated_total paths <= COUNT)%nat)
  /\
  (forall a b, (a < List.length paths)%nat -> (b < List.length paths)%nat ->
     polyline_length (nth a paths []) = 2 * polyline_length (nth b paths []) ->
     (0 <= allocation_floor paths a - 2 * allocation_floor paths b <= 1)%Z).
Proof.
  intros Ht. split; [|split; [|split]].
  - intros idx Hidx. split.
    + apply allocated_floor; [assumption | lra].
    + apply allocation_floor_nonneg. lra.
  - intros idx path centerX centerY scale acc fuel rnd k Hnth Hroom.
    destruct (walk_path_places centerX centerY scale rnd paths idx path acc fuel k
                Hnth Ht Hroom) as (acc' & k' & Hrun & _ & Hp).
    exists acc', k'. split; assumption.
  - intros canvas fuel rnd k.
    destruct (walked_places_allocations paths canvas rnd fuel k Ht) as (ps & k1 & Hrun & _).
    exists ps, k1. split; [exact Hrun | apply allocated_total_bound; exact Ht].
  - intros a b _ _ H. unfold allocation_floor, budget. rewrite H.
    replace (2 * polyline_length (nth b paths []) / total_length paths * INR COUNT)
      with (2 * (polyline_length (nth b paths []) / total_length paths * INR COUNT))
      by (unfold Rdiv; ring).
    apply floor_double.
Qed.

Lemma allocation_is_floor_of_share_witness :
  (allocated two_strokes 0 = Fin (IZR (allocation_floor two_strokes 0)) /\
   (0 <= allocation_floor two_strokes 0)%Z) /\
  (exists ps k1,
      walked two_strokes a_canvas 0%nat (fun _ => 0) 0%nat
      = Ok (ps, allocated_total two_strokes) k1 /\
      (allocated_total two_strokes <= COUNT)%nat) /\
  (0 <= allocation_floor two_strokes 1 - 2 * allocation_floor two_strokes 0 <= 1)%Z.
Proof.
  destruct two_strokes_lengths as (H1 & H2 & Ht).
  assert (Hpos : 0 < total_length two_strokes) by (rewrite Ht; lra).
  split; [|split].
  - apply (proj1 (allocation_is_floor_of_share two_strokes Hpos) 0%nat).
    simpl. lia.
  - apply (proj1 (proj2 (proj2 (allocation_is_floor_of_share two_strokes Hpos)))).
  - apply (proj2 (proj2 (proj2 (allocation_is_floor_of_share two_strokes Hpos)))
             1%nat 0%nat).
    + simpl. lia.
    + simpl. lia.
    + rewrite H1, H2. lra.
Defined.

(** C4, as stated, fails: two taps are two points in total, their strokes
    have no length, the walk places nothing, and the filling loop copies
    the untouched slot 0 into every slot: the emitted cloud is the freshly
    allocated buffer, all of whose entries are still zero. *)
Lemma two_taps_leave_every_slot_zero :
  (2 <= List.length (List.concat two_taps))%nat /\
  random_source (fun _ => 0) /\
  processAndSave two_taps [] a_canvas 0%nat (fun _ => 0) 0%nat
  = Ok (onSave (new_Float32Array (COUNT * 3))) COUNT /\
  (forall i, (i < COUNT * 3)%nat -> get (new_Float32Array (COUNT * 3)) i = Fin 0).
Proof.
  assert (Hrnd : random_source (fun _ => 0)) by (intros k; lra).
  split; [simpl; lia|]. split; [exact Hrnd|]. split; [|intros i Hi; apply get_new; exact Hi].
  rewrite processAndSave_unfold by (simpl; lia).
  rewrite (walked_zero_length two_taps a_canvas (fun _ => 0) 0%nat 0%nat)
    by (simpl; lra).
  cbn [fst snd].
  rewrite fill_while_zeros by (assumption || lia).
  rewrite Nat.sub_0_r. reflexivity.
Qed.

(** C4, amended.  For every stroke set with at least two points in total,
    the resampler neither raises nor loops: it calls [onSave] with a buffer
    of exactly [3 * COUNT] entries.  The points the walk placed stay as
    they are; if it placed at least one, every slot left over is a copy of
    a slot the walk filled; if it placed none, the cloud is the freshly
    allocated buffer of zeros. *)
Theorem processAndSave_emits_full_cloud
    (paths : list Path) (currentPath : Path) (canvas : Canvas)
    (rnd : nat -> R) (fuel k : nat) :
  random_source rnd ->
  (2 <= List.length (List.concat paths))%nat ->
  exists ps placed k1 final k2,
    walked paths canvas fuel rnd k = Ok (ps, placed) k1 /\
    processAndSave paths currentPath canvas fuel rnd k = Ok (onSave final) k2 /\
    List.length final = (3 * COUNT)%nat /\
    (placed <= COUNT)%nat /\
    (forall i, (i < placed * 3)%nat -> get final i = get ps i) /\
    ((0 < placed)%nat ->
       forall q, (placed <= q < COUNT)%nat ->
         exists j, (j < placed)%nat /\ slot final q = slot final j) /\
    (placed = 0%nat -> final = new_Float32Array (COUNT * 3)) /\
    (0 < total_length paths -> placed = allocated_total paths) /\
    (total_length paths = 0 -> placed = 0%nat).
Proof.
  intros Hrnd Hpts.
  destruct (walked_ok paths canvas rnd fuel k) as (ps & placed & k1 & Hw & Hl & Hp & Hz).
  assert (Hcount : (0 < total_length paths -> placed = allocated_total paths) /\
                   (total_length paths = 0 -> placed = 0%nat)).
  { split.
    - intros HT.
      destruct (walked_places_allocations paths canvas rnd fuel k HT) as (ps' & k1' & Hw' & _).
      rewrite Hw in Hw'. apply SamplerFacts.Ok_value in Hw'. apply (f_equal snd) in Hw'. exact Hw'.
    - intros HT. rewrite (walked_zero_length paths canvas rnd fuel k HT) in Hw.
      apply SamplerFacts.Ok_value in Hw. apply (f_equal snd) in Hw. symmetry. exact Hw. }
  rewrite processAndSave_unfold by assumption. rewrite Hw. cbn [fst snd].
  destruct (Nat.eq_dec placed 0) as [->|Hne].
  - rewrite (Hz eq_refl), fill_while_zeros by (assumption || lia).
    exists (new_Float32Array (COUNT * 3)), 0%nat, k1.
    exists (new_Float32Array (COUNT * 3)), (k1 + (COUNT - 0))%nat.
    split; [rewrite <- (Hz eq_refl); reflexivity|]. split; [reflexivity|].
    split; [rewrite length_new; lia|]. split; [lia|].
    split; [intros i Hi; lia|]. split; [intros H; lia|]. split; [reflexivity | exact Hcount].
  - destruct (fill_while_copies rnd placed Hrnd ltac:(lia) (COUNT - placed) placed ps fuel k1
                (Nat.le_refl _) ltac:(lia) Hl)
      as (final & k2 & Hrun & Hlf & Hlow & Hall).
    { intros q Hq. lia. }
    rewrite Hrun. exists ps, placed, k1, final, k2.
    split; [reflexivity|]. split; [reflexivity|]. split; [lia|]. split; [assumption|].
    split; [exact Hlow|]. split; [intros _; exact Hall|].
    split; [intros E; contradiction | exact Hcount].
Qed.

Lemma processAndSave_emits_full_cloud_witness :
  exists ps placed k1 final k2,
    walked two_strokes a_canvas 0%nat (fun _ => 0) 0%nat = Ok (ps, placed) k1 /\
    processAndSave two_strokes [] a_canvas 0%nat (fun _ => 0) 0%nat = Ok (onSave final) k2 /\
    List.length final = (3 * COUNT)%nat /\
    (placed <= COUNT)%nat /\
    (forall i, (i < placed * 3)%nat -> get final i = get ps i) /\
    ((0 < placed)%nat ->
       forall q, (placed <= q < COUNT)%nat ->
         exists j, (j < placed)%nat /\ slot final q = slot final j) /\
    (placed = 0%nat -> final = new_Float32Array (COUNT * 3)) /\
    (0 < total_length two_strokes -> placed = allocated_total two_strokes) /\
    (total_length two_strokes = 0 -> placed = 0%nat).
Proof.
  apply (processAndSave_emits_full_cloud two_strokes [] a_canvas (fun _ => 0) 0%nat 0%nat).
  - intros k. lra.
  - simpl. lia.
Defined.

End ResampleClaims.

(* ================================================================== *)
(** ** The vortex *)
(* ================================================================== *)

Module VortexFacts.
Import FrameSpec.

Lemma vortex_divisor_pos tx tz : 0.1 <= vortex_divisor tx tz.
Proof.
  unfold vortex_divisor. pose proof (sqrt_pos (tx * tx + tz * tz)). lra.
Qed.

Lemma sqrt_sum_squares tx tz :
  Math_sqrt (Fin tx *! Fin tx +! Fin tz *! Fin tz) = Fin (sqrt (tx * tx + tz * tz)).
Proof.
  unfold nmul, nadd. cbn [lift2].
  apply ShapeFacts.Math_sqrt_Fin. apply Rplus_le_le_0_compat; apply Rle_0_sqr.
Qed.

Lemma spin_term tx tz :
  1.0 /! (Math_sqrt (Fin tx *! Fin tx +! Fin tz *! Fin tz) +! 0.1)
  = Fin (1.0 / vortex_divisor tx tz).
Proof.
  rewrite sqrt_sum_squares. unfold nadd. cbn [lift2].
  apply ShapeFacts.ndiv_Fin. pose proof (vortex_divisor_pos tx tz).
  unfold vortex_divisor in *. lra.
Qed.

Lemma rotation_norm tx tz a :
  (tx * cos a - tz * sin a) * (tx * cos a - tz * sin a)
  + (tx * sin a + tz * cos a) * (tx * sin a + tz * cos a)
  = tx * tx + tz * tz.
Proof.
  pose proof (sin2_cos2 a) as H. unfold Rsqr in H. nra.
Qed.

(** C9.  The spin term of the vortex divides by the horizontal distance
    plus 0.1, which is at least 0.1 and so never zero; for every finite
    target, the vertical axis [tx = tz = 0] included, the spin angle is a
    finite number, and so are the rotated coordinates, which keep the
    horizontal distance to the axis.  This holds in both scenes. *)
Theorem vortex_never_divides_by_zero
    (isMusicMode : bool) (handData : HandData) (time : R)
    (audio : ParticleScene.AudioData) (tx tz : R) :
  0.1 <= vortex_divisor tx tz /\
  (exists spin rx rz,
      ParticleScene.vortex_spin isMusicMode handData time audio tx tz = Fin spin /\
      spin = time * (0.2 + ParticleScene.high audio * 0.5)
             + 1.0 / vortex_divisor tx tz
               * (if isMusicMode then ParticleScene.high audio * 0.8
                  else gestureValue handData * 0.5) /\
      ParticleScene.vortex isMusicMode handData time audio tx tz = (Fin rx, Fin rz) /\
      rx * rx + rz * rz = tx * tx + tz * tz) /\
  (exists spin rx rz,
      LegacyScene.vortex_spin time tx tz = Fin spin /\
      spin = time * (0.2 + 1.0 / vortex_divisor tx tz * 0.5) * 0.5 /\
      LegacyScene.vortex time tx tz = (Fin rx, Fin rz) /\
      rx * rx + rz * rz = tx * tx + tz * tz).
Proof.
  split; [apply vortex_divisor_pos|]. split.
  - assert (E : ParticleScene.vortex_spin isMusicMode handData time audio tx tz
                = Fin (time * (0.2 + ParticleScene.high audio * 0.5)
                       + 1.0 / vortex_divisor tx tz
                         * (if isMusicMode then ParticleScene.high audio * 0.8
                            else gestureValue handData * 0.5))).
    { unfold ParticleScene.vortex_spin. cbv zeta. rewrite spin_term.
      destruct isMusicMode; reflexivity. }
    eexists. eexists. eexists. split; [exact E|]. split; [reflexivity|].
    unfold ParticleScene.vortex. cbv zeta. rewrite E. split; [reflexivity|].
    apply rotation_norm.
  - assert (E : LegacyScene.vortex_spin time tx tz
                = Fin (time * (0.2 + 1.0 / vortex_divisor tx tz * 0.5) * 0.5)).
    { unfold LegacyScene.vortex_spin. cbv zeta. rewrite spin_term. reflexivity. }
    eexists. eexists. eexists. split; [exact E|]. split; [reflexivity|].
    unfold LegacyScene.vortex. cbv zeta. rewrite E. split; [reflexivity|].
    apply rotation_norm.
Qed.

End VortexFacts.

(* ================================================================== *)
(** ** The integration step *)
(* ================================================================== *)

Module IntegrationFacts.
Import ParticleScene FrameSpec.

Lemma integrate_Fin x t l :
  integrate (Fin x) (Fin x) (Fin t) (Fin l) = Fin (x + (t - x) * l).
Proof. reflexivity. Qed.

Lemma settle_closed_form lerpBase t x0 n :
  exists xn, settle lerpBase t n x0 = Fin xn /\ xn - t = (1 - lerpBase) ^ n * (x0 - t).
Proof.
  induction n as [|n (xn & E & H)].
  - exists x0. split; [reflexivity | simpl; lra].
  - exists (xn + (t - xn) * lerpBase). split.
    + cbn [settle]. rewrite E. apply integrate_Fin.
    + simpl. nra.
Qed.

Lemma pow_unit_range q n : 0 < q < 1 -> 0 < q ^ n <= 1.
Proof.
  intros Hq. induction n as [|n IH]; simpl; [lra | nra].
Qed.

(** C6.  For every rate [lerpBase] in (0, 1), start [x0] and constant
    target [t], with nothing added to the target, iterating the
    integration step gives [x_n - t = (1 - lerpBase)^n (x0 - t)]: each
    frame multiplies the distance to the target by [1 - lerpBase]; the
    position stays on its side of the target and never moves away from it;
    and it comes within any [eps > 0] of the target after finitely many
    frames. *)
Theorem integration_converges (lerpBase t x0 : R) :
  0 < lerpBase < 1 ->
  (forall n, exists xn xn',
      settle lerpBase t n x0 = Fin xn /\
      settle lerpBase t (S n) x0 = Fin xn' /\
      xn' = xn + (t - xn) * lerpBase /\
      xn - t = (1 - lerpBase) ^ n * (x0 - t) /\
      Rabs (xn' - t) = (1 - lerpBase) * Rabs (xn - t) /\
      Rabs (xn' - t) <= Rabs (xn - t) /\
      (x0 <= t -> xn <= xn' <= t) /\
      (t <= x0 -> t <= xn' <= xn)) /\
  (forall eps, 0 < eps ->
     exists N, forall n, (N <= n)%nat ->
       exists xn, settle lerpBase t n x0 = Fin xn /\ Rabs (xn - t) < eps).
Proof.
  intros Hl. split.
  - intros n. destruct (settle_closed_form lerpBase t x0 n) as (xn & E & H).
    exists xn, (xn + (t - xn) * lerpBase).
    pose proof (pow_unit_range (1 - lerpBase) n ltac:(lra)) as Hp.
    assert (Hd : xn + (t - xn) * lerpBase - t = (1 - lerpBase) * (xn - t)) by ring.
    split; [exact E|]. split; [cbn [settle]; rewrite E; apply integrate_Fin|].
    split; [reflexivity|]. split; [exact H|].
    split; [rewrite Hd, Rabs_mult, (Rabs_pos_eq (1 - lerpBase)) by lra; reflexivity|].
    split; [rewrite Hd, Rabs_mult, (Rabs_pos_eq (1 - lerpBase)) by lra;
            pose proof (Rabs_pos (xn - t)); nra|].
    split; intros Hside.
    + assert (xn - t <= 0) by (rewrite H; nra). nra.
    + assert (0 <= xn - t) by (rewrite H; nra). nra.
  - intros eps Heps.
    assert (Hq : Rabs (1 - lerpBase) < 1) by (rewrite Rabs_pos_eq; lra).
    assert (Hy : 0 < eps / (Rabs (x0 - t) + 1)).
    { apply Rdiv_lt_0_compat; [assumption|]. pose proof (Rabs_pos (x0 - t)). lra. }
    destruct (pow_lt_1_zero (1 - lerpBase) Hq _ Hy) as [N HN].
    exists N. intros n Hn.
    destruct (settle_closed_form lerpBase t x0 n) as (xn & E & H).
    exists xn. split; [exact E|].
    rewrite H, Rabs_mult.
    specialize (HN n ltac:(lia)).
    pose proof (Rabs_pos (x0 - t)) as Hx. pose proof (Rabs_pos ((1 - lerpBase) ^ n)) as Hp.
    apply Rle_lt_trans with (Rabs ((1 - lerpBase) ^ n) * (Rabs (x0 - t) + 1)); [nra|].
    apply Rlt_le_trans with (eps / (Rabs (x0 - t) + 1) * (Rabs (x0 - t) + 1)).
    + apply Rmult_lt_compat_r; [lra | exact HN].
    + right. field. lra.
Qed.

Lemma integration_converges_witness :
  exists N, forall n, (N <= n)%nat ->
    exists xn, settle 0.1 3 n 0 = Fin xn /\ Rabs (xn - 3) < 0.001.
Proof.
  apply (proj2 (integration_converges 0.1 3 0 ltac:(lra)) 0.001). lra.
Defined.

End IntegrationFacts.

(* ================================================================== *)
(** ** The frame: particle loop *)
(* ================================================================== *)

Module LoopFacts.
Import ParticleScene FrameSpec.

Lemma length_integrate3 phys i tx ty tz l :
  List.length (integrate3 phys i tx ty tz l) = List.length phys.
Proof. unfold integrate3. rewrite !length_store. reflexivity. Qed.

Lemma get_integrate3_other phys i tx ty tz l j :
  (j < i * 3 \/ i * 3 + 3 <= j)%nat ->
  get (integrate3 phys i tx ty tz l) j = get phys j.
Proof.
  intros H. unfold integrate3. rewrite !get_store_other by lia. reflexivity.
Qed.

(** The entries of particle [i] after its integration step. *)
Lemma get_integrate3_own phys i tx ty tz l :
  (i * 3 + 2 < List.length phys)%nat ->
  get (integrate3 phys i tx ty tz l) (i * 3)
  = integrate (get phys (i * 3)) (get phys (i * 3)) tx l /\
  get (integrate3 phys i tx ty tz l) (i * 3 + 1)
  = integrate (get phys (i * 3 + 1)) (get phys (i * 3 + 1)) ty l /\
  get (integrate3 phys i tx ty tz l) (i * 3 + 2)
  = integrate (get phys (i * 3 + 2)) (get phys (i * 3 + 2)) tz l.
Proof.
  intros H. unfold integrate3. repeat split.
  - rewrite (get_store_other _ (i * 3 + 2) (i * 3)) by lia.
    rewrite (get_store_other _ (i * 3 + 1) (i * 3)) by lia.
    rewrite get_store_same by lia. reflexivity.
  - rewrite (get_store_other _ (i * 3 + 2) (i * 3 + 1)) by lia.
    rewrite get_store_same by (rewrite length_store; lia).
    rewrite (get_store_other _ (i * 3) (i * 3 + 1)) by lia. reflexivity.
  - rewrite get_store_same by (rewrite !length_store; lia).
    rewrite (get_store_other _ (i * 3 + 1) (i * 3 + 2)) by lia.
    rewrite (get_store_other _ (i * 3) (i * 3 + 2)) by lia. reflexivity.
Qed.

Section Loop.

Variable isMusicMode : bool.
Variable handData : HandData.
Variable time : num.
Variable audio : AudioData.
Variable baseColor : Color.
Variable offsets : Float32Array.
Variable target : Float32Array.
Variables expansionFactor lerpBase transition : num.
Variable rnd : nat -> R.

Lemma warp_target_ok tx ty tz fuel k :
  exists t k', warp_target transition tx ty tz fuel rnd k = Ok t k'.
Proof.
  unfold warp_target. destruct (transition >! 0);
    unfold bind, Math_random, ret; eauto.
Qed.

Lemma audio_jitter_ok tx ty tz fuel k :
  exists t k', audio_jitter audio tx ty tz fuel rnd k = Ok t k'.
Proof.
  unfold audio_jitter. destruct (Fin (bass audio) >! 0.3);
    unfold bind, Math_random, ret; eauto.
Qed.

(** One round of the particle loop returns, and moves the stored position
    of particle [i] by one integration step toward some transformed
    target. *)
Lemma particle_step_ok i bufs fuel k :
  exists tx ty tz pos cols k',
    particle_step isMusicMode handData time audio baseColor offsets target
      expansionFactor lerpBase transition i bufs fuel rnd k
    = Ok (mkBuffers (integrate3 (physics bufs) i tx ty tz lerpBase) pos cols) k'.
Proof.
  unfold particle_step, bind.
  destruct (warp_target_ok (get target (i * 3)) (get target (i * 3 + 1))
              (get target (i * 3 + 2)) fuel k) as ([[wx wy] wz] & k1 & ->).
  destruct (vortex isMusicMode handData time audio
              (wx *! expansionFactor) (wz *! expansionFactor)) as [rx rz].
  match goal with
  | |- context [audio_jitter audio ?a ?b ?c fuel rnd k1] =>
      destruct (audio_jitter_ok a b c fuel k1) as ([[jx jy] jz] & k2 & ->)
  end.
  unfold ret. do 6 eexists. reflexivity.
Qed.

Lemma particle_loop_ok fuel :
  forall todo i bufs k,
    exists bufs' k',
      particle_loop isMusicMode handData time audio baseColor offsets target
        expansionFactor lerpBase transition todo i bufs fuel rnd k = Ok bufs' k' /\
      List.length (physics bufs') = List.length (physics bufs) /\
      (forall j, (j < i * 3 \/ (i + todo) * 3 <= j)%nat ->
         get (physics bufs') j = get (physics bufs) j) /\
      (forall q c, (i <= q < i + todo)%nat -> (c < 3)%nat ->
         (q * 3 + 2 < List.length (physics bufs))%nat ->
         exists t,
           get (physics bufs') (q * 3 + c)
           = integrate (get (physics bufs) (q * 3 + c)) (get (physics bufs) (q * 3 + c))
               t lerpBase).
Proof.
  induction todo as [|todo IH]; intros i bufs k.
  - exists bufs, k. split; [reflexivity|]. split; [reflexivity|].
    split; [reflexivity | intros; lia].
  - cbn [particle_loop]. unfold bind.
    destruct (particle_step_ok i bufs fuel k) as (tx & ty & tz & pos & cols & k1 & ->).
    destruct (IH (S i) (mkBuffers (integrate3 (physics bufs) i tx ty tz lerpBase) pos cols) k1)
      as (bufs' & k' & Hrun & Hl & Hout & Hin).
    cbn [physics] in *.
    exists bufs', k'. split; [exact Hrun|].
    split; [rewrite Hl; apply length_integrate3|]. split.
    + intros j Hj. rewrite Hout by lia. apply get_integrate3_other. lia.
    + intros q c Hq Hc Hlen. destruct (Nat.eq_dec q i) as [->|Hne].
      * rewrite Hout by lia.
        destruct (get_integrate3_own (physics bufs) i tx ty tz lerpBase Hlen)
          as (Hx & Hy & Hz).
        destruct c as [|[|[|c]]]; try lia.
        -- exists tx. rewrite Nat.add_0_r. exact Hx.
        -- exists ty. exact Hy.
        -- exists tz. exact Hz.
      * destruct (Hin q c ltac:(lia) Hc) as (t & Ht).
        { rewrite length_integrate3. exact Hlen. }
        exists t. rewrite Ht.
        rewrite get_integrate3_other by lia. reflexivity.
Qed.

End Loop.

(** A frame always returns; it keeps [prevShapeRef]; on a mounted mesh it
    applies the warp decay, whatever else happens in the frame; off a
    mounted mesh it does nothing. *)
Lemma useFrame_ok props target offsets time audio s fuel rnd k :
  exists s' k',
    useFrame props target offsets time audio s fuel rnd k = Ok s' k' /\
    prevShapeRef s' = prevShapeRef s /\
    List.length (physicsPositions s') = List.length (physicsPositions s) /\
    (mounted s -> mounted s' /\ transitionRef s' = decay (transitionRef s)) /\
    (~ mounted s -> s' = s).
Proof.
  unfold useFrame, mounted. destruct (pointsRef s) as [pts|] eqn:Epts.
  - destruct (mode_switch _ _ _ _ _ _) as [[rot expansionFactor] lerpBase].
    unfold bind. destruct target as [targetPositions|].
    + destruct (particle_loop_ok (isMusicMode props) (handData props) time audio
                  (color props) offsets targetPositions expansionFactor lerpBase
                  (decay (transitionRef s)) rnd fuel PARTICLE_COUNT 0%nat
                  (mkBuffers (physicsPositions s) (position_array pts) (color_array pts)) k)
        as (bufs' & k' & -> & Hl & _).
      unfold ret. eexists. eexists. split; [reflexivity|].
      cbn [prevShapeRef physicsPositions pointsRef transitionRef physics] in *.
      split; [reflexivity|]. split; [exact Hl|].
      split; [intros _; split; [discriminate | reflexivity] | intros H; contradiction H; discriminate].
    + unfold ret. eexists. eexists. split; [reflexivity|].
      cbn [prevShapeRef physicsPositions pointsRef transitionRef physics].
      split; [reflexivity|]. split; [reflexivity|].
      split; [intros _; split; [discriminate | reflexivity] | intros H; contradiction H; discriminate].
  - exists s, k. split; [reflexivity|]. split; [reflexivity|]. split; [reflexivity|].
    split; [intros H; contradiction | reflexivity].
Qed.

End LoopFacts.

(* ================================================================== *)
(** ** The warp transition *)
(* ================================================================== *)

Module TransitionFacts.
Import ParticleScene FrameSpec FrameExamples LoopFacts.

Lemma pow92_pos k : 0 < 0.92 ^ k.
Proof. apply pow_lt. lra. Qed.

Lemma decayed_0 : decayed 0 = 1.
Proof. unfold decayed. simpl. destruct (Rlt_dec 1 0.01); lra. Qed.

(** One frame takes the intensity of frame [k] to that of frame [k + 1]. *)
Lemma decay_decayed k : decay (Fin (decayed k)) = Fin (decayed (S k)).
Proof.
  unfold decay, decayed. pose proof (pow92_pos k) as Hp.
  destruct (Rlt_dec (0.92 ^ k) 0.01) as [Hlow|Hhigh].
  - cbn [ngt nlt]. destruct (Rlt_dec 0 0) as [H|_]; [lra|].
    destruct (Rlt_dec (0.92 ^ S k) 0.01) as [_|Hn]; [reflexivity|].
    exfalso. apply Hn. simpl. nra.
  - cbn [ngt nlt]. destruct (Rlt_dec 0 (0.92 ^ k)) as [_|Hn]; [|lra].
    cbn [nmul lift2 nlt]. replace (0.92 ^ k * 0.92) with (0.92 ^ S k) by (simpl; lra).
    destruct (Rlt_dec (0.92 ^ S k) 0.01); reflexivity.
Qed.

(** What one decay step can do to an intensity in [0, 1] (or outside). *)
Lemma decay_cases t :
  exists t', decay (Fin t) = Fin t' /\
    ((t <= 0 /\ t' = t) \/ (0 < t /\ 0.01 <= t * 0.92 /\ t' = t * 0.92)
     \/ (0 < t /\ t * 0.92 < 0.01 /\ t' = 0)).
Proof.
  unfold decay. cbn [ngt nlt]. destruct (Rlt_dec 0 t) as [Hpos|Hnpos].
  - cbn [nmul lift2 nlt]. destruct (Rlt_dec (t * 0.92) 0.01) as [Hlow|Hhigh].
    + exists 0. split; [reflexivity|]. right. right. lra.
    + exists (t * 0.92). split; [reflexivity|]. right. left. lra.
  - exists t. split; [reflexivity|]. left. lra.
Qed.

Lemma decay_in_range t :
  0 <= t <= 1 -> exists t', decay (Fin t) = Fin t' /\ 0 <= t' <= 1.
Proof.
  intros Ht. destruct (decay_cases t) as (t' & E & H).
  exists t'. split; [exact E|]. lra.
Qed.

(** C5.  After a shape change has set the intensity to 1.0, its value
    after [k] frames on the mounted mesh is [0.92^k], and exactly 0 once
    that product has dropped below 0.01 -- whatever the frames' mode,
    gesture, audio, target, clock and random draws are. *)
Theorem transition_decays_geometrically
    (es : list event) (s : Refs) (fuel : nat) (rnd : nat -> R) (k : nat) :
  Forall is_frame es -> mounted s -> transitionRef s = Fin 1.0 ->
  exists s' k',
    run es s fuel rnd k = Ok s' k' /\
    transitionRef s' = Fin (decayed (List.length es)) /\
    decayed (List.length es)
    = (if Rlt_dec (0.92 ^ List.length es) 0.01 then 0 else 0.92 ^ List.length es).
Proof.
  intros Hes Hm Ht.
  assert (Hgen : forall es j s k,
             Forall is_frame es -> mounted s -> transitionRef s = Fin (decayed j) ->
             exists s' k', run es s fuel rnd k = Ok s' k' /\
                           transitionRef s' = Fin (decayed (j + List.length es))).
  { clear. induction es as [|e rest IH]; intros j s k Hes Hm Ht.
    - exists s, k. split; [reflexivity|]. rewrite Nat.add_0_r. exact Ht.
    - inversion Hes as [|? ? He Hrest]; subst.
      destruct e as [sp|sh|props target offsets time audio]; try contradiction.
      cbn [run apply_event]. unfold bind.
      destruct (useFrame_ok props target offsets time audio s fuel rnd k)
        as (s1 & k1 & -> & _ & _ & Hmount & _).
      destruct (Hmount Hm) as [Hm1 Ht1].
      rewrite Ht, decay_decayed in Ht1.
      destruct (IH (S j) s1 k1 Hrest Hm1 Ht1) as (s' & k' & Hrun & Hfin).
      exists s', k'. split; [exact Hrun|].
      rewrite Hfin. do 2 f_equal. cbn [List.length]. lia. }
  destruct (Hgen es 0%nat s k Hes Hm) as (s' & k' & Hrun & Hfin).
  { rewrite Ht, decayed_0. f_equal. lra. }
  exists s', k'. split; [exact Hrun|]. split; [exact Hfin | reflexivity].
Qed.

Lemma transition_decays_geometrically_witness :
  exists s' k',
    run [Frame gesture_props None [] 0 silence; Frame gesture_props None [] 1 silence]
        warped_refs 0%nat (fun _ => 0) 0%nat = Ok s' k' /\
    transitionRef s' = Fin (decayed 2) /\
    decayed 2 = (if Rlt_dec (0.92 ^ 2) 0.01 then 0 else 0.92 ^ 2).
Proof.
  apply (transition_decays_geometrically
           [Frame gesture_props None [] 0 silence; Frame gesture_props None [] 1 silence]
           warped_refs 0%nat (fun _ => 0) 0%nat).
  - repeat constructor.
  - unfold mounted, warped_refs. cbn [pointsRef]. discriminate.
  - reflexivity.
Defined.

(** C10.  The transition intensity always lies in [0, 1].  It starts at
    0; a render with a changed shape sets it to exactly 1.0 and any other
    render leaves it alone; a frame leaves it as it is (at 0, or off a
    mounted mesh), multiplies it by 0.92, or clamps it to 0; so after any
    sequence of mounts, renders and frames -- all of which return -- the
    intensity is a finite number between 0 and 1. *)
Theorem transition_stays_in_unit_interval :
  (forall sh, transitionRef (initial_refs sh) = Fin 0) /\
  (forall sh s, prevShapeRef s <> sh -> transitionRef (render sh s) = Fin 1.0) /\
  (forall sh s, prevShapeRef s = sh -> render sh s = s) /\
  (forall props target offsets time audio s fuel rnd k t,
      transitionRef s = Fin t -> 0 <= t <= 1 ->
      exists s' k' t',
        useFrame props target offsets time audio s fuel rnd k = Ok s' k' /\
        transitionRef s' = Fin t' /\
        ((t' = t /\ (t = 0 \/ ~ mounted s)) \/ t' = t * 0.92 \/ t' = 0)) /\
  (forall es sh fuel rnd k,
      exists s k' t,
        run es (initial_refs sh) fuel rnd k = Ok s k' /\
        transitionRef s = Fin t /\ 0 <= t <= 1).
Proof.
  split; [reflexivity|]. split.
  { intros sh s H. unfold render.
    destruct (String.eqb_spec (prevShapeRef s) sh) as [E|_]; [contradiction|].
    reflexivity. }
  split.
  { intros sh s H. unfold render. rewrite H, String.eqb_refl. reflexivity. }
  split.
  { intros props target offsets time audio s fuel rnd k t Ht Hr.
    destruct (useFrame_ok props target offsets time audio s fuel rnd k)
      as (s' & k' & Hrun & _ & _ & Hm & Hu).
    destruct (pointsRef s) as [pts|] eqn:Epts.
    - destruct Hm as [_ Hd]; [unfold mounted; rewrite Epts; discriminate|].
      destruct (decay_cases t) as (t' & E & Hc).
      exists s', k', t'. split; [exact Hrun|].
      split; [rewrite Hd, Ht; exact E|].
      destruct Hc as [[H1 H2]|[[_ [_ H2]]|[_ [_ H2]]]].
      + left. split; [exact H2 | left; lra].
      + right. left. exact H2.
      + right. right. exact H2.
    - assert (Hn : ~ mounted s) by (unfold mounted; rewrite Epts; intros H; apply H; reflexivity).
      exists s', k', t. split; [exact Hrun|].
      rewrite (Hu Hn). split; [exact Ht|]. left. split; [reflexivity | right; exact Hn]. }
  intros es sh fuel rnd k.
  assert (Hgen : forall es s k t,
             transitionRef s = Fin t -> 0 <= t <= 1 ->
             exists s' k' t', run es s fuel rnd k = Ok s' k' /\
                              transitionRef s' = Fin t' /\ 0 <= t' <= 1).
  { clear. induction es as [|e rest IH]; intros s k t Ht Hr.
    - exists s, k, t. split; [reflexivity|]. split; assumption.
    - cbn [run]. unfold bind.
      destruct e as [startPos|sh|props target offsets time audio].
      + cbn [apply_event]. unfold ret. eapply IH; [cbn [transitionRef]; exact Ht | exact Hr].
      + cbn [apply_event]. unfold ret. unfold render.
        destruct (negb _).
        * apply (IH _ k 1.0); [reflexivity | lra].
        * apply (IH _ k t); assumption.
      + cbn [apply_event].
        destruct (useFrame_ok props target offsets time audio s fuel rnd k)
          as (s1 & k1 & -> & _ & _ & Hm & Hu).
        destruct (pointsRef s) as [pts|] eqn:Epts.
        * destruct Hm as [_ Hd]; [unfold mounted; rewrite Epts; discriminate|].
          destruct (decay_in_range t Hr) as (t1 & E1 & Hr1).
          apply (IH s1 k1 t1); [rewrite Hd, Ht; exact E1 | exact Hr1].
        * rewrite (Hu ltac:(unfold mounted; rewrite Epts; intros H; apply H; reflexivity)).
          apply (IH s k1 t); assumption. }
  apply (Hgen es (initial_refs sh) k 0); [reflexivity | lra].
Qed.

Lemma transition_stays_in_unit_interval_witness :
  transitionRef (render ShapeType.HEART (initial_refs ShapeType.SPHERE)) = Fin 1.0 /\
  (exists s' k' t',
      useFrame gesture_props None [] 0 silence warped_refs 0%nat (fun _ => 0) 0%nat
      = Ok s' k' /\
      transitionRef s' = Fin t' /\
      ((t' = 1.0 /\ (1.0 = 0 \/ ~ mounted warped_refs)) \/ t' = 1.0 * 0.92 \/ t' = 0)).
Proof.
  split.
  - apply (proj1 (proj2 transition_stays_in_unit_interval)
             ShapeType.HEART (initial_refs ShapeType.SPHERE)).
    cbn [prevShapeRef initial_refs]. discriminate.
  - apply (proj1 (proj2 (proj2 (proj2 transition_stays_in_unit_interval)))
             gesture_props None [] 0 silence warped_refs 0%nat (fun _ => 0) 0%nat 1.0).
    + reflexivity.
    + lra.
Defined.

(** With the constants of the source, the warp is over after 56 frames. *)
Lemma warp_settles_after_56_frames :
  decayed 55 = 0.92 ^ 55 /\ 0 < decayed 55 /\ decayed 56 = 0.
Proof.
  assert (H55 : 0.01 <= 0.92 ^ 55) by (simpl; lra).
  assert (H56 : 0.92 ^ 56 < 0.01) by (simpl; lra).
  unfold decayed.
  destruct (Rlt_dec (0.92 ^ 55) 0.01); [lra|].
  destruct (Rlt_dec (0.92 ^ 56) 0.01); [|lra].
  repeat split; lra.
Qed.

End TransitionFacts.

(* ================================================================== *)
(** ** Modes and targets *)
(* ================================================================== *)

Module ModeFacts.
Import ParticleScene FrameSpec FrameExamples LoopFacts.

Lemma lerpBase_of_mode_switch m hd time audio rx ry :
  snd (mode_switch m hd time audio rx ry) = lerpBase_of m hd audio.
Proof. destruct m; reflexivity. Qed.

(** Both modes integrate at a rate strictly between 0 and 1. *)
Lemma lerpBase_in_unit m hd audio :
  normalised hd audio ->
  exists l, lerpBase_of m hd audio = Fin l /\ 0.08 <= l <= 0.3.
Proof.
  intros (Hg & Hb & _ & _). destruct m.
  - exists (0.1 + bass audio * 0.2). split; [reflexivity | lra].
  - exists (0.08 + gestureValue hd * 0.05). split; [reflexivity | lra].
Qed.

(** In music mode, a round of the particle loop does not read the hand. *)
Lemma particle_loop_ignores_hand hd1 hd2 time audio baseColor offsets target
    expansionFactor lerpBase transition fuel rnd :
  forall todo i bufs k,
    particle_loop true hd1 time audio baseColor offsets target
      expansionFactor lerpBase transition todo i bufs fuel rnd k
    = particle_loop true hd2 time audio baseColor offsets target
        expansionFactor lerpBase transition todo i bufs fuel rnd k.
Proof.
  induction todo as [|todo IH]; intros i bufs k; [reflexivity|].
  cbn [particle_loop]. unfold bind.
  change (particle_step true hd1 time audio baseColor offsets target
            expansionFactor lerpBase transition i bufs fuel rnd k)
    with (particle_step true hd2 time audio baseColor offsets target
            expansionFactor lerpBase transition i bufs fuel rnd k).
  destruct (particle_step true hd2 time audio baseColor offsets target
              expansionFactor lerpBase transition i bufs fuel rnd k); auto.
Qed.

End ModeFacts.

Module TargetFacts.
Import ParticleScene FrameSpec FrameExamples LoopFacts.

Lemma PARTICLE_COUNT_pos : (0 < PARTICLE_COUNT)%nat.
Proof. unfold PARTICLE_COUNT. lia. Qed.

Lemma if_negb_false {T} (a b : T) : (if negb false then a else b) = a.
Proof. reflexivity. Qed.

Lemma if_negb_true {T} (a b : T) : (if negb true then a else b) = b.
Proof. reflexivity. Qed.

Lemma resample_loop_length customPoints fuel rnd :
  forall todo i resampled k,
    exists buf k',
      resample_loop todo i customPoints resampled fuel rnd k = Ok buf k' /\
      List.length buf = List.length resampled.
Proof.
  induction todo as [|todo IH]; intros i resampled k.
  - exists resampled, k. split; reflexivity.
  - cbn [resample_loop]. unfold bind, Math_random.
    match goal with
    | |- context [resample_loop todo (S i) customPoints ?r fuel rnd (S k)] =>
        destruct (IH (S i) r (S k)) as (buf & k' & Hrun & Hl)
    end.
    exists buf, k'. split; [exact Hrun|]. rewrite Hl, !length_store. reflexivity.
Qed.

Lemma generateParticles_length shape count fuel rnd k buf k' :
  Shapes.generateParticles shape count fuel rnd k = Ok buf k' ->
  List.length buf = (count * 3)%nat.
Proof.
  intros H. unfold Shapes.generateParticles in H.
  eapply (GenerateFacts.generate_loop_sound rnd shape count (fun _ => True)) in H.
  - apply H.
  - intros; exact I.
  - apply length_new.
  - lia.
  - intros j Hj. exact I.
Qed.

(** Whatever the memo returns has one entry per coordinate. *)
Lemma targetPositions_length shape custom fuel rnd k buf k' :
  targetPositions shape custom fuel rnd k = Ok buf k' ->
  List.length buf = (PARTICLE_COUNT * 3)%nat.
Proof.
  unfold targetPositions. intros H.
  destruct (String.eqb shape ShapeType.CUSTOM).
  - destruct custom as [cp|].
    + destruct (Nat.eqb_spec (List.length cp) (PARTICLE_COUNT * 3)) as [E|Hne].
      * rewrite if_negb_true in H. unfold ret in H. injection H as Hb _.
        rewrite <- Hb. exact E.
      * rewrite if_negb_false in H.
        destruct (resample_loop_length cp fuel rnd PARTICLE_COUNT 0%nat
                    (new_Float32Array (PARTICLE_COUNT * 3)) k) as (b & kb & Hrun & Hl).
        rewrite Hrun in H. injection H as Hb _. rewrite <- Hb, Hl. apply length_new.
    + exact (generateParticles_length _ _ _ _ _ _ _ H).
  - exact (generateParticles_length _ _ _ _ _ _ _ H).
Qed.

End TargetFacts.

(* ================================================================== *)
(** ** The hand tracker *)
(* ================================================================== *)

Module TrackerFacts.
Import HandTracker TrackerSpec.

Lemma clamp_unit v : 0 <= Rmin (Rmax v 0) 1 <= 1.
Proof.
  unfold Rmin, Rmax.
  destruct (Rle_dec v 0); destruct (Rle_dec _ 1); lra.
Qed.

Lemma ngt_Fin a b : (Fin a >! Fin b) = true <-> b < a.
Proof.
  unfold ngt, nlt. destruct (Rlt_dec b a); split; intros; try lra; try discriminate; auto.
Qed.

Lemma nlt_Fin a b : (Fin a <! Fin b) = true <-> a < b.
Proof.
  unfold nlt. destruct (Rlt_dec a b); split; intros; try lra; try discriminate; auto.
Qed.

Lemma read_hands_range hands raw :
  read_hands hands = Some raw -> 0 <= rawOpenness raw <= 1.
Proof.
  unfold read_hands. intros H.
  destruct hands as [[|first rest]|]; try (injection H as <-; cbn; lra).
  destruct (List.length (first :: rest) =? 2)%nat.
  - destruct (nth_error (first :: rest) 1) as [second|]; [|discriminate].
    destruct (nth_error first 0) as [hand1|]; [|discriminate].
    destruct (nth_error second 0) as [hand2|]; [|discriminate].
    injection H as <-. cbn [rawOpenness]. apply clamp_unit.
  - destruct (nth_error first 0) as [wrist|]; [|discriminate].
    destruct (nth_error first 12) as [middleTip|]; [|discriminate].
    destruct (nth_error first 9) as [palm|]; [|discriminate].
    injection H as <-. cbn [rawOpenness]. apply clamp_unit.
Qed.

Lemma read_hands_no_hand hands :
  hands = None \/ hands = Some [] -> read_hands hands = Some (mkRaw 0 0.5 0.5 false).
Proof. intros [->| ->]; reflexivity. Qed.

(** The shape of a completed call on a mounted tracker. *)
Lemma onResults_mounted canvas hg hu now hands s s' e :
  isMountedRef s = true ->
  onResults canvas hg hu now hands s = Some (s', e) ->
  exists raw,
    read_hands hands = Some raw /\
    let target := if hasHand raw then rawOpenness raw else 0.1 in
    let smooth := prevOpennessRef s + (target - prevOpennessRef s) * 0.6 in
    let wasOpen := if Fin smooth >! 0.60 then true else wasOpenRef s in
    let fires := (wasOpen && (Fin smooth <! 0.25)
                  && (450 <? now - lastTriggerTimeRef s)%Z)%bool in
    prevOpennessRef s' = smooth /\
    pos_x (prevPosRef s') = pos_x (prevPosRef s) + (rawX raw - pos_x (prevPosRef s)) * 0.7 /\
    pos_y (prevPosRef s') = pos_y (prevPosRef s) + (rawY raw - pos_y (prevPosRef s)) * 0.7 /\
    wasOpenRef s' = (if fires then false else wasOpen) /\
    lastTriggerTimeRef s' = (if fires then now else lastTriggerTimeRef s) /\
    isMountedRef s' = true /\
    gestureTrigger e = (fires && hg)%bool /\
    handUpdate e =
      (if hu then Some (mkHandData (Fin smooth >! 0.5) smooth (prevPosRef s')) else None).
Proof.
  intros Hm H. unfold onResults in H. rewrite Hm in H. cbn [negb] in H.
  destruct (match canvas with Some c => draw_skeleton c hands | None => Some [] end);
    [|discriminate].
  destruct (read_hands hands) as [raw|]; [|discriminate].
  exists raw. split; [reflexivity|].
  injection H as <- <-. cbn -[Rlt_dec nlt ngt].
  repeat split; first [reflexivity | exact Hm].
Qed.

Lemma onResults_unmounted canvas hg hu now hands s :
  isMountedRef s = false ->
  onResults canvas hg hu now hands s = Some (s, mkEffects [] false None).
Proof. intros Hm. unfold onResults. rewrite Hm. reflexivity. Qed.

(** A step keeps the smoothed openness in the unit interval, and reports
    it. *)
Lemma onResults_unit canvas hg hu now hands s s' e :
  0 <= prevOpennessRef s <= 1 ->
  onResults canvas hg hu now hands s = Some (s', e) ->
  0 <= prevOpennessRef s' <= 1 /\
  forall hd, handUpdate e = Some hd -> 0 <= gestureValue hd <= 1.
Proof.
  intros Hr H. destruct (isMountedRef s) eqn:Hm.
  - destruct (onResults_mounted _ _ _ _ _ _ _ _ Hm H)
      as (raw & Hraw & Ho & _ & _ & _ & _ & _ & _ & Hu).
    cbv zeta in Ho, Hu.
    pose proof (read_hands_range _ _ Hraw) as Hraw01.
    assert (Ht : 0 <= (if hasHand raw then rawOpenness raw else 0.1) <= 1)
      by (destruct (hasHand raw); lra).
    assert (Hs : 0 <= prevOpennessRef s' <= 1) by (rewrite Ho; lra).
    split; [exact Hs|].
    intros hd Hhd. rewrite Hu in Hhd. destruct hu; [|discriminate].
    injection Hhd as <-. cbn [gestureValue]. rewrite <- Ho. exact Hs.
  - rewrite onResults_unmounted in H by exact Hm. injection H as <- <-.
    split; [exact Hr|]. intros hd Hhd. discriminate.
Qed.

Lemma run_cons d rest s :
  run (d :: rest) s =
  match deliver d s with
  | Some (s', e) => ((now d, e) :: fst (run rest s'), snd (run rest s'))
  | None => run rest s
  end.
Proof.
  cbn [run]. destruct (deliver d s) as [[s' e]|]; [|reflexivity].
  destruct (run rest s'). reflexivity.
Qed.

Lemma run_reports_unit ds :
  forall s, 0 <= prevOpennessRef s <= 1 ->
    Forall (fun hd => 0 <= gestureValue hd <= 1) (reports (fst (run ds s))).
Proof.
  induction ds as [|d rest IH]; intros s Hs; [constructor|].
  rewrite run_cons. destruct (deliver d s) as [[s' e]|] eqn:Hd; [|apply IH; exact Hs].
  destruct (onResults_unit _ _ _ _ _ _ _ _ Hs Hd) as (Hs' & Hrep).
  cbn [fst reports]. destruct (handUpdate e) as [hd|].
  - constructor; [apply Hrep; reflexivity | apply IH; exact Hs'].
  - apply IH; exact Hs'.
Qed.

(** X1.  Every [gestureValue] a mounted tracker reports lies in [0, 1]. *)
Theorem tracker_reports_unit_gesture (ds : list Delivery) :
  Forall (fun hd => 0 <= gestureValue hd <= 1 /\
                    (isOpen hd = true <-> 0.5 < gestureValue hd))
         (reports (fst (run ds initial_refs))).
Proof.
  assert (G : forall ds s,
             Forall (fun hd => isOpen hd = true <-> 0.5 < gestureValue hd)
                    (reports (fst (run ds s)))).
  { clear ds. induction ds as [|d rest IH]; intros s; [constructor|].
    rewrite run_cons. destruct (deliver d s) as [[s' e]|] eqn:Hd; [|apply IH].
    cbn [fst reports]. destruct (handUpdate e) as [hd|] eqn:Hu; [|apply IH].
    constructor; [|apply IH].
    destruct (isMountedRef s) eqn:Hm.
    - destruct (onResults_mounted _ _ _ _ _ _ _ _ Hm Hd)
        as (raw & _ & _ & _ & _ & _ & _ & _ & _ & Hu').
      cbv zeta in Hu'. rewrite Hu' in Hu. destruct (hasHandUpdate d); [|discriminate].
      injection Hu as <-. cbn [isOpen gestureValue]. apply ngt_Fin.
    - unfold deliver in Hd. rewrite onResults_unmounted in Hd by exact Hm.
      injection Hd as <- <-. discriminate. }
  pose proof (run_reports_unit ds initial_refs) as H1.
  specialize (H1 ltac:(cbn; lra)).
  specialize (G ds initial_refs).
  rewrite Forall_forall in *. intros hd Hin. split; [apply H1 | apply G]; exact Hin.
Qed.

Lemma spaced_earlier gap last last' ts :
  (last' <= last)%Z -> spaced gap last ts -> spaced gap last' ts.
Proof.
  destruct ts as [|t rest]; [trivial|]. cbn. intros Hle [H1 H2]. split; [lia | exact H2].
Qed.

Lemma deliver_trigger d s s' e :
  deliver d s = Some (s', e) ->
  (lastTriggerTimeRef s <= lastTriggerTimeRef s')%Z /\
  (gestureTrigger e = true ->
     (450 < now d - lastTriggerTimeRef s)%Z /\ lastTriggerTimeRef s' = now d).
Proof.
  intros Hd. unfold deliver in Hd. destruct (isMountedRef s) eqn:Hm.
  - destruct (onResults_mounted _ _ _ _ _ _ _ _ Hm Hd)
      as (raw & _ & _ & _ & _ & _ & Hl & _ & Hg & _).
    cbv zeta in Hl, Hg. rewrite Hl, Hg.
    match goal with |- context [if ?f then now d else _] => destruct f eqn:Hf end.
    + apply andb_prop in Hf as [_ Hf]. apply Z.ltb_lt in Hf.
      split; [lia|]. intros _. split; [exact Hf | reflexivity].
    + split; [lia|]. cbn. discriminate.
  - rewrite onResults_unmounted in Hd by exact Hm. injection Hd as <- <-.
    split; [lia|]. cbn. discriminate.
Qed.

Lemma run_spaced ds :
  forall s last, (last <= lastTriggerTimeRef s)%Z ->
    spaced 450 last (trigger_times (fst (run ds s))).
Proof.
  induction ds as [|d rest IH]; intros s last Hl; [exact I|].
  rewrite run_cons. destruct (deliver d s) as [[s' e]|] eqn:Hd; [|apply IH; exact Hl].
  destruct (deliver_trigger _ _ _ _ Hd) as (Hmono & Hfire).
  cbn [fst]. unfold trigger_times. cbn [filter snd].
  destruct (gestureTrigger e) eqn:Hg.
  - destruct (Hfire eq_refl) as (Hgap & Hnow).
    cbn [map fst spaced]. split; [lia|].
    apply IH. rewrite Hnow. lia.
  - apply IH. lia.
Qed.

(** X2.  Two calls of the gesture trigger are more than 450 ms apart. *)
Theorem tracker_triggers_are_debounced (ds : list Delivery) (s : Refs) :
  spaced 450 (lastTriggerTimeRef s) (trigger_times (fst (run ds s))).
Proof. apply run_spaced. lia. Qed.


(** X3.  The trigger is called only on a closed hand of an armed tracker,
    more than 450 ms after the last call, and disarms it; only an open hand
    arms the tracker. *)
Theorem trigger_needs_open_then_closed canvas hg hu now hands s s' e :
  onResults canvas hg hu now hands s = Some (s', e) ->
  (gestureTrigger e = true ->
     wasOpenRef s = true /\ prevOpennessRef s' < 0.25 /\
     (450 < now - lastTriggerTimeRef s)%Z /\
     wasOpenRef s' = false /\ lastTriggerTimeRef s' = now) /\
  (wasOpenRef s = false -> wasOpenRef s' = true -> 0.60 < prevOpennessRef s').
Proof.
  intros H. destruct (isMountedRef s) eqn:Hm.
  - destruct (onResults_mounted _ _ _ _ _ _ _ _ Hm H)
      as (raw & _ & Ho & _ & _ & Hw & Hl & _ & Hg & _).
    cbv zeta in Ho, Hw, Hl, Hg. rewrite <- Ho in Hw, Hl, Hg.
    split.
    + intros Hfire. rewrite Hfire in Hg. symmetry in Hg.
      apply andb_prop in Hg as [Hf _]. rewrite Hf in Hw, Hl.
      apply andb_prop in Hf as [Hf Ht]. apply andb_prop in Hf as [Ha Hc].
      apply nlt_Fin in Hc. apply Z.ltb_lt in Ht.
      destruct (Fin (prevOpennessRef s') >! 0.60) eqn:Hopen.
      * apply ngt_Fin in Hopen. lra.
      * repeat split; assumption.
    + intros Hoff Hon. rewrite Hon in Hw.
      destruct (Fin (prevOpennessRef s') >! 0.60) eqn:Hopen.
      * apply ngt_Fin in Hopen. exact Hopen.
      * rewrite Hoff in Hw. cbn in Hw. discriminate.
  - rewrite onResults_unmounted in H by exact Hm. injection H as <- <-.
    split; [cbn; discriminate | congruence].
Qed.

Lemma trigger_needs_open_then_closed_witness :
  let s := mkRefs true 0 (mkPosition 0.5 0.5) 0 true in
  let s' := mkRefs false 1000
              (mkPosition (0.5 + (0.5 - 0.5) * 0.7) (0.5 + (0.5 - 0.5) * 0.7))
              (0 + (0.1 - 0) * 0.6) true in
  onResults None true false 1000 None s = Some (s', mkEffects [] true None) /\
  prevOpennessRef s' < 0.25.
Proof.
  assert (H : onResults None true false 1000 None
                (mkRefs true 0 (mkPosition 0.5 0.5) 0 true)
              = Some (mkRefs false 1000
                        (mkPosition (0.5 + (0.5 - 0.5) * 0.7) (0.5 + (0.5 - 0.5) * 0.7))
                        (0 + (0.1 - 0) * 0.6) true,
                      mkEffects [] true None)).
  { unfold onResults. cbn -[Rlt_dec nlt ngt Z.ltb Z.sub].
    assert (Hopen : (Fin (0 + (0.1 - 0) * 0.6) >! 0.60) = false).
    { unfold ngt, nlt. destruct (Rlt_dec 0.60 (0 + (0.1 - 0) * 0.6)); [lra | reflexivity]. }
    assert (Hclosed : (Fin (0 + (0.1 - 0) * 0.6) <! 0.25) = true).
    { apply nlt_Fin. lra. }
    rewrite Hopen, Hclosed. reflexivity. }
  split; [exact H|].
  exact (proj1 (proj2 (proj1 (trigger_needs_open_then_closed _ _ _ _ _ _ _ _ H) eq_refl))).
Defined.

(** Deliveries without a hand always complete. *)
Lemma deliver_no_hand d s :
  no_hand d -> isMountedRef s = true ->
  exists s' e, deliver d s = Some (s', e).
Proof.
  intros Hn Hm. unfold deliver, onResults. rewrite Hm. cbn [negb].
  rewrite (read_hands_no_hand _ Hn).
  destruct (canvas d) as [c|]; [|eauto].
  destruct Hn as [-> | ->]; cbn; eauto.
Qed.

Lemma deliver_no_hand_smooth d s s' e :
  no_hand d -> isMountedRef s = true -> deliver d s = Some (s', e) ->
  prevOpennessRef s' = 0.1 + 0.4 * (prevOpennessRef s - 0.1) /\
  pos_x (prevPosRef s') = 0.5 + 0.3 * (pos_x (prevPosRef s) - 0.5) /\
  pos_y (prevPosRef s') = 0.5 + 0.3 * (pos_y (prevPosRef s) - 0.5) /\
  isMountedRef s' = true.
Proof.
  intros Hn Hm Hd.
  destruct (onResults_mounted _ _ _ _ _ _ _ _ Hm Hd)
    as (raw & Hraw & Ho & Hx & Hy & _ & _ & Hm' & _).
  rewrite (read_hands_no_hand _ Hn) in Hraw. injection Hraw as <-.
  cbn in Ho, Hx, Hy. rewrite Ho, Hx, Hy. repeat split; try lra. exact Hm'.
Qed.

(** X4.  While no hand is seen, the smoothed openness tends to 0.1 and the
    smoothed position to the centre, geometrically. *)
Theorem absent_hand_relaxes_to_rest (ds : list Delivery) (s : Refs) :
  Forall no_hand ds -> isMountedRef s = true ->
  let final := snd (run ds s) in
  let n := List.length ds in
  List.length (fst (run ds s)) = n /\
  prevOpennessRef final = 0.1 + 0.4 ^ n * (prevOpennessRef s - 0.1) /\
  pos_x (prevPosRef final) = 0.5 + 0.3 ^ n * (pos_x (prevPosRef s) - 0.5) /\
  pos_y (prevPosRef final) = 0.5 + 0.3 ^ n * (pos_y (prevPosRef s) - 0.5).
Proof.
  intros Hall. revert s. induction Hall as [|d rest Hd Hrest IH]; intros s Hm.
  - cbn. repeat split; lra.
  - cbv zeta. rewrite run_cons.
    destruct (deliver_no_hand d s Hd Hm) as (s' & e & Hrun). rewrite Hrun.
    destruct (deliver_no_hand_smooth _ _ _ _ Hd Hm Hrun) as (Ho & Hx & Hy & Hm').
    destruct (IH s' Hm') as (Hlen & Ho' & Hx' & Hy').
    cbn [fst snd List.length pow]. rewrite Hlen, Ho', Hx', Hy', Ho, Hx, Hy.
    repeat split; try reflexivity; lra.
Qed.

Lemma absent_hand_relaxes_to_rest_witness :
  let d := mkDelivery None true true 0 None in
  prevOpennessRef (snd (run [d; d] initial_refs)) = 0.1 + 0.4 ^ 2 * (0 - 0.1).
Proof.
  intros d.
  refine (proj1 (proj2 (absent_hand_relaxes_to_rest [d; d] initial_refs _ _))).
  - repeat constructor.
  - reflexivity.
Defined.

(** X5.  When an open hand leaves the view, the trigger is called once,
    on the first or on the second result without a hand. *)
Theorem withdrawn_hand_fires_once (d1 d2 : Delivery) (s : Refs) :
  isMountedRef s = true -> wasOpenRef s = true -> 0 <= prevOpennessRef s <= 1 ->
  no_hand d1 -> no_hand d2 ->
  hasGestureTrigger d1 = true -> hasGestureTrigger d2 = true ->
  (450 < now d1 - lastTriggerTimeRef s)%Z ->
  (450 < now d2 - lastTriggerTimeRef s)%Z ->
  trigger_times (fst (run [d1; d2] s))
  = [if Rlt_dec (prevOpennessRef s) 0.475 then now d1 else now d2].
Proof.
  intros Hm Hw Hr Hn1 Hn2 Hg1 Hg2 Ht1 Ht2.
  rewrite run_cons.
  destruct (deliver_no_hand d1 s Hn1 Hm) as (s1 & e1 & Hrun1). rewrite Hrun1.
  destruct (deliver_no_hand_smooth _ _ _ _ Hn1 Hm Hrun1) as (Ho1 & _ & _ & Hm1).
  rewrite run_cons.
  destruct (deliver_no_hand d2 s1 Hn2 Hm1) as (s2 & e2 & Hrun2). rewrite Hrun2.
  destruct (deliver_no_hand_smooth _ _ _ _ Hn2 Hm1 Hrun2) as (Ho2 & _ & _ & _).
  destruct (onResults_mounted _ _ _ _ _ _ _ _ Hm Hrun1)
    as (raw1 & _ & Hs1 & _ & _ & Hw1 & Hl1 & _ & Hf1 & _).
  destruct (onResults_mounted _ _ _ _ _ _ _ _ Hm1 Hrun2)
    as (raw2 & _ & Hs2 & _ & _ & Hw2 & Hl2 & _ & Hf2 & _).
  cbv zeta in *. rewrite <- Hs1 in Hw1, Hl1, Hf1. rewrite <- Hs2 in Hw2, Hl2, Hf2.
  clear Hs1 Hs2.
  assert (Hopen1 : (Fin (prevOpennessRef s1) >! 0.60) = false).
  { unfold ngt, nlt. destruct (Rlt_dec 0.60 (prevOpennessRef s1)); [lra | reflexivity]. }
  assert (Hopen2 : (Fin (prevOpennessRef s2) >! 0.60) = false).
  { unfold ngt, nlt. destruct (Rlt_dec 0.60 (prevOpennessRef s2)); [lra | reflexivity]. }
  rewrite Hopen1, Hw in Hw1, Hl1, Hf1. rewrite Hopen2 in Hw2, Hl2, Hf2.
  apply Z.ltb_lt in Ht1. rewrite Ht1, Hg1 in *.
  unfold trigger_times. cbn [fst filter snd map].
  destruct (Rlt_dec (prevOpennessRef s) 0.475) as [Hlow|Hhigh].
  - assert (Hc : (Fin (prevOpennessRef s1) <! 0.25) = true) by (apply nlt_Fin; lra).
    rewrite Hc in *. cbn [andb] in *. rewrite Hf1, Hw1 in *.
    cbn [andb] in Hf2. rewrite Hf2. reflexivity.
  - assert (Hc : (Fin (prevOpennessRef s1) <! 0.25) = false).
    { unfold nlt. destruct (Rlt_dec (prevOpennessRef s1) 0.25); [lra | reflexivity]. }
    rewrite Hc in *. cbn [andb] in *. rewrite Hf1, Hw1, Hl1 in *.
    assert (Hc2 : (Fin (prevOpennessRef s2) <! 0.25) = true) by (apply nlt_Fin; lra).
    apply Z.ltb_lt in Ht2. rewrite Hc2, Ht2, Hg2 in Hf2. cbn [andb] in Hf2.
    rewrite Hf2. reflexivity.
Qed.

Lemma withdrawn_hand_fires_once_witness :
  let d1 := mkDelivery None true true 1000 None in
  let d2 := mkDelivery None true true 1033 None in
  let s := mkRefs true 0 (mkPosition 0.5 0.5) 1 true in
  trigger_times (fst (run [d1; d2] s)) = [if Rlt_dec 1 0.475 then 1000%Z else 1033%Z].
Proof.
  intros d1 d2 s.
  apply (withdrawn_hand_fires_once d1 d2 s); cbn;
    first [reflexivity | lra | lia | (left; reflexivity)].
Defined.

End TrackerFacts.

(* ================================================================== *)
(** ** The earlier hand tracker *)
(* ================================================================== *)

Module LegacyTrackerFacts.
Import HandTracker TrackerSpec.

Lemma legacy_read_hands_range first hands o cx cy :
  LegacyTracker.read_hands first hands = Some (o, cx, cy) -> 0 <= o <= 1.
Proof.
  unfold LegacyTracker.read_hands. intros H.
  destruct (List.length hands =? 2)%nat.
  - destruct (nth_error hands 1) as [second|]; [|discriminate].
    destruct (nth_error first 0) as [hand1|]; [|discriminate].
    destruct (nth_error second 0) as [hand2|]; [|discriminate].
    injection H as <- _ _. apply TrackerFacts.clamp_unit.
  - destruct (nth_error first 0) as [wrist|]; [|discriminate].
    destruct (nth_error first 12) as [middleTip|]; [|discriminate].
    destruct (nth_error first 9) as [palm|]; [|discriminate].
    injection H as <- _ _. apply TrackerFacts.clamp_unit.
Qed.

Lemma legacy_run_cons hg now hands rest s :
  legacy_run ((hg, now, hands) :: rest) s =
  match LegacyTracker.onResults hg now hands s with
  | Some (s', e) => ((now, e) :: fst (legacy_run rest s'), snd (legacy_run rest s'))
  | None => legacy_run rest s
  end.
Proof.
  cbn [legacy_run]. destruct (LegacyTracker.onResults hg now hands s) as [[s' e]|];
    [|reflexivity].
  destruct (legacy_run rest s'). reflexivity.
Qed.

Lemma legacy_step hg now hands s s' e :
  LegacyTracker.onResults hg now hands s = Some (s', e) ->
  (forall hd, LegacyTracker.handUpdate e = Some hd -> 0 <= gestureValue hd <= 1) /\
  (LegacyTracker.lastTriggerTimeRef s <= LegacyTracker.lastTriggerTimeRef s')%Z /\
  (LegacyTracker.gestureTrigger e = true ->
     hands <> None /\ hands <> Some [] /\
     (1000 < now - LegacyTracker.lastTriggerTimeRef s)%Z /\
     LegacyTracker.lastTriggerTimeRef s' = now).
Proof.
  unfold LegacyTracker.onResults. intros H.
  destruct (LegacyTracker.isMountedRef s); cbn [negb] in H.
  - destruct hands as [[|first rest]|].
    + injection H as <- <-. cbn [LegacyTracker.handUpdate LegacyTracker.gestureTrigger
                                   LegacyTracker.lastTriggerTimeRef].
      split; [intros h0 Hh; injection Hh as <-; cbn; lra|].
      split; [lia | discriminate].
    + destruct (LegacyTracker.read_hands first (first :: rest)) as [[[o cx] cy]|] eqn:Hr;
        [|discriminate].
      apply legacy_read_hands_range in Hr.
      injection H as <- <-. cbn -[Rlt_dec nlt ngt Z.ltb Z.sub].
      split; [intros h0 Hh; injection Hh as <-; exact Hr|].
      match goal with |- context [if ?f then now else _] => destruct f eqn:Hf end.
      * apply andb_prop in Hf as [_ Hf]. apply Z.ltb_lt in Hf.
        split; [lia|]. intros _. repeat split; try discriminate. exact Hf.
      * split; [lia|]. cbn. discriminate.
    + injection H as <- <-. cbn [LegacyTracker.handUpdate LegacyTracker.gestureTrigger
                                   LegacyTracker.lastTriggerTimeRef].
      split; [intros h0 Hh; injection Hh as <-; cbn; lra|].
      split; [lia | discriminate].
  - injection H as <- <-. cbn [LegacyTracker.handUpdate LegacyTracker.gestureTrigger].
    split; [discriminate|]. split; [lia | discriminate].
Qed.

Lemma legacy_run_ok ds :
  forall s last, (last <= LegacyTracker.lastTriggerTimeRef s)%Z ->
    Forall (fun hd => 0 <= gestureValue hd <= 1) (legacy_reports (fst (legacy_run ds s))) /\
    spaced 1000 last (legacy_trigger_times (fst (legacy_run ds s))).
Proof.
  induction ds as [|[[hg now] hands] rest IH]; intros s last Hl.
  - split; [constructor | exact I].
  - rewrite legacy_run_cons.
    destruct (LegacyTracker.onResults hg now hands s) as [[s' e]|] eqn:Hd;
      [|apply IH; exact Hl].
    destruct (legacy_step _ _ _ _ _ _ Hd) as (Hrep & Hmono & Hfire).
    cbn [fst legacy_reports]. unfold legacy_trigger_times. cbn [filter snd].
    destruct (LegacyTracker.gestureTrigger e) eqn:Hg.
    + destruct (Hfire eq_refl) as (_ & _ & Hgap & Hnow).
      destruct (IH s' now ltac:(lia)) as (IH1 & IH2).
      split.
      * destruct (LegacyTracker.handUpdate e) as [hd|]; [constructor; auto | exact IH1].
      * cbn [map fst spaced]. split; [lia | exact IH2].
    + destruct (IH s' last ltac:(lia)) as (IH1 & IH2).
      split; [|exact IH2].
      destruct (LegacyTracker.handUpdate e) as [hd|]; [constructor; auto | exact IH1].
Qed.

(** X6.  The earlier tracker reports gesture values in [0, 1] and calls the
    trigger at most once per second. *)
Theorem legacy_tracker_unit_and_debounced
    (ds : list (bool * Z * option (list Hand))) (s : LegacyTracker.Refs) :
  Forall (fun hd => 0 <= gestureValue hd <= 1) (legacy_reports (fst (legacy_run ds s))) /\
  spaced 1000 (LegacyTracker.lastTriggerTimeRef s)
         (legacy_trigger_times (fst (legacy_run ds s))).
Proof. apply legacy_run_ok. lia. Qed.

End LegacyTrackerFacts.

(* ================================================================== *)
(** ** The audio manager *)
(* ================================================================== *)

Module AudioFacts.
Import AudioManager AudioSpec.

Lemma length_getByteFrequencyData spectrum :
  forall array, List.length (getByteFrequencyData spectrum array) = List.length array.
Proof.
  induction spectrum as [|b spectrum IH]; intros [|a array]; cbn; try reflexivity.
  rewrite IH. reflexivity.
Qed.

(** Summing [todo] bytes adds at most [255] each. *)
Lemma getAvg_loop_range array :
  forall todo i (sum : R),
    (i + todo <= List.length array)%nat ->
    exists v, getAvg_loop todo i array (Fin sum) = Fin v /\
              sum <= v <= sum + 255 * INR todo.
Proof.
  induction todo as [|todo IH]; intros i sum Hlen.
  - exists sum. cbn. split; [reflexivity | lra].
  - cbn [getAvg_loop].
    destruct (nth_error array i) as [b|] eqn:Hb.
    2:{ apply nth_error_None in Hb. lia. }
    destruct (IH (S i) (sum + INR (Byte.to_nat b)) ltac:(lia)) as (v & Hv & Hr).
    exists v. split; [exact Hv|].
    pose proof (Byte.to_nat_bounded b) as Hb255.
    assert (0 <= INR (Byte.to_nat b) <= 255).
    { split; [apply pos_INR|]. replace 255 with (INR 255) by (simpl; lra).
      apply le_INR. exact Hb255. }
    rewrite S_INR. lra.
Qed.

Lemma band_unit array start end_ :
  (start < end_)%nat -> (end_ <= List.length array)%nat ->
  exists a, getAvg array start end_ /! 255 = Fin a /\ 0 <= a <= 1.
Proof.
  intros Hlt Hlen. unfold getAvg.
  destruct (getAvg_loop_range array (end_ - start) start 0 ltac:(lia)) as (v & Hv & Hr).
  change (Fin 0) with (Fin 0) in Hv. rewrite Hv.
  unfold Shapes.of_nat. cbn [nsub lift2].
  assert (Hn : 0 < INR end_ - INR start).
  { apply lt_INR in Hlt. lra. }
  rewrite minus_INR in Hr by lia.
  rewrite ShapeFacts.ndiv_Fin by lra. rewrite ShapeFacts.ndiv_Fin by lra.
  eexists. split; [reflexivity|].
  split.
  - apply Rmult_le_pos; [|lra]. apply Rmult_le_pos; [lra|].
    apply Rlt_le, Rinv_0_lt_compat. exact Hn.
  - apply Rmult_le_reg_r with 255; [lra|].
    unfold Rdiv. rewrite Rmult_assoc, Rinv_l, Rmult_1_r by lra.
    apply Rmult_le_reg_r with (INR end_ - INR start); [exact Hn|].
    rewrite Rmult_assoc, Rinv_l, Rmult_1_r by lra. lra.
Qed.

(** With a buffer of at least 200 bins, the three levels are in [0, 1]. *)
Lemma getAudioData_unit spectrum s :
  match dataArray s with
  | Some array => (200 <= List.length array)%nat
  | None => True
  end ->
  unit_levels (snd (getAudioData spectrum s)).
Proof.
  intros Hlen. unfold getAudioData.
  destruct (analyser s) as [a|]; [destruct (dataArray s) as [array|]|].
  - cbn [snd].
    pose proof (length_getByteFrequencyData spectrum array) as Hl.
    destruct (band_unit (getByteFrequencyData spectrum array) 0 15) as (b & Hb & Hbr); try lia.
    destruct (band_unit (getByteFrequencyData spectrum array) 15 80) as (m & Hm & Hmr); try lia.
    destruct (band_unit (getByteFrequencyData spectrum array) 80 200) as (h & Hh & Hhr); try lia.
    exists (ParticleScene.mkAudio b m h). rewrite Hb, Hm, Hh. cbn. auto.
  - exists (ParticleScene.mkAudio 0 0 0). cbn. repeat split; lra.
  - exists (ParticleScene.mkAudio 0 0 0). cbn. repeat split; lra.
Qed.

Lemma startDrone_ok s : drone_ok s -> buffer_ok s ->
  drone_ok (startDrone s) /\ buffer_ok (startDrone s).
Proof.
  intros Hd Hb. unfold startDrone.
  destruct (ctx s); [|auto]. destruct (filterNode s); [|auto].
  destruct (isPlayingFile s); [auto|].
  destruct (droneGain s) eqn:Hg; [auto|].
  split; [|exact Hb]. right. cbn [droneGain oscillators].
  destruct Hd as [[_ ->]|[Hd _]]; [|congruence].
  split; reflexivity.
Qed.

Lemma stopDrone_ok s : buffer_ok s -> drone_ok (stopDrone s) /\ buffer_ok (stopDrone s).
Proof. intros Hb. split; [left; split; reflexivity | exact Hb]. Qed.

Lemma init_ok s : drone_ok s -> buffer_ok s -> drone_ok (init s) /\ buffer_ok (init s).
Proof.
  intros Hd Hb. unfold init. destruct (isInitialized s); [auto|].
  match goal with |- context [startDrone ?s1] =>
    destruct (startDrone_ok s1) as (Hd1 & Hb1); [exact Hd | reflexivity |]
  end.
  split; [exact Hd1 | exact Hb1].
Qed.

Lemma playAudioUrl_failed_ok s :
  drone_ok s -> buffer_ok s ->
  drone_ok (playAudioUrl_failed s) /\ buffer_ok (playAudioUrl_failed s).
Proof. intros Hd Hb. unfold playAudioUrl_failed. apply startDrone_ok; assumption. Qed.

Lemma apply_call_ok c s :
  drone_ok s -> buffer_ok s -> drone_ok (apply_call c s) /\ buffer_ok (apply_call c s).
Proof.
  intros Hd Hb. destruct c; cbn [apply_call].
  - apply init_ok; assumption.
  - apply startDrone_ok; assumption.
  - apply stopDrone_ok; assumption.
  - unfold stopAudio.
    match goal with |- context [startDrone ?s1] =>
      destruct (startDrone_ok s1) as (Hd1 & Hb1); [exact Hd | exact Hb |];
      destruct (filterNode (startDrone s1)); [destruct (ctx (startDrone s1))|]
    end; auto.
  - split; [exact Hd | exact Hb].
  - unfold updateFilter. destruct (ctx s); [|auto]. destruct (filterNode s); [|auto].
    destruct (isMuted s); [auto|]. destruct (isPlayingFile s); split; assumption.
  - unfold getAudioData. destruct (analyser s); [|auto].
    destruct (dataArray s) as [array|] eqn:Ha; [|auto].
    cbn [fst]. split; [exact Hd|].
    unfold buffer_ok in *. rewrite Ha in Hb. cbn [dataArray].
    rewrite length_getByteFrequencyData. exact Hb.
  - unfold playAudioUrl_enter.
    assert (H1 : drone_ok (match ctx s with None => init s | Some _ => s end) /\
                 buffer_ok (match ctx s with None => init s | Some _ => s end)).
    { destruct (ctx s); [auto | apply init_ok; assumption]. }
    destruct H1 as (Hd1 & Hb1).
    destruct (ctx (match ctx s with None => init s | Some _ => s end)); [|auto].
    destruct (audioElement (match ctx s with None => init s | Some _ => s end)); auto.
  - unfold playAudioUrl_load.
    destruct (stopDrone_ok s Hb) as (Hd1 & Hb1).
    destruct (audioElement (stopDrone s)); [auto|].
    apply playAudioUrl_failed_ok; assumption.
  - unfold playAudioUrl_played.
    match goal with |- context [filterNode ?s1] =>
      assert (Hd1 : drone_ok s1) by exact Hd;
      assert (Hb1 : buffer_ok s1) by exact Hb;
      destruct (filterNode s1); [destruct (ctx s1)|]
    end; auto.
    apply playAudioUrl_failed_ok; assumption.
  - apply playAudioUrl_failed_ok; assumption.
Qed.

Lemma after_ok calls :
  forall s, drone_ok s -> buffer_ok s ->
    drone_ok (after calls s) /\ buffer_ok (after calls s).
Proof.
  induction calls as [|c rest IH]; intros s Hd Hb; [auto|].
  cbn [after fold_left].
  destruct (apply_call_ok c s Hd Hb) as (Hd1 & Hb1). apply IH; assumption.
Qed.

Lemma constructed_ok : drone_ok constructed /\ buffer_ok constructed.
Proof. split; [left; split; reflexivity | exact I]. Qed.

(** X7.  Whatever is called on the manager, in whatever order, the band
    levels it reports are finite numbers of [0, 1]. *)
Theorem audio_levels_are_unit (calls : list Call) (spectrum : list Byte.byte) :
  unit_levels (snd (getAudioData spectrum (after calls constructed))).
Proof.
  destruct constructed_ok as (Hd & Hb).
  destruct (after_ok calls constructed Hd Hb) as (_ & Hb').
  apply getAudioData_unit. unfold buffer_ok in Hb'.
  destruct (dataArray (after calls constructed)); [lia | exact I].
Qed.

(** X8.  The drone never stacks: whatever is called on the manager, its
    oscillators are none or exactly the three of one drone, and the drone
    gain is set exactly when they run. *)
Theorem drone_never_stacks (calls : list Call) :
  let s := after calls constructed in
  (droneGain s = None /\ oscillators s = []) \/
  (droneGain s = Some (mkGain (mkParam 0.5 [])) /\ oscillators s = drone).
Proof.
  destruct constructed_ok as (Hd & Hb).
  exact (proj1 (after_ok calls constructed Hd Hb)).
Qed.

(** *** The ranges of the audio parameters *)

Lemma within_schedule lo hi p e :
  within lo hi p ->
  match asked e with Some v => lo <= v <= hi | None => True end ->
  within lo hi (schedule p e).
Proof.
  intros (Hv & Ha) He. split; [exact Hv|].
  unfold schedule. cbn [automation]. apply Forall_app. split; [exact Ha|].
  constructor; [exact He | constructor].
Qed.

Lemma within_fresh lo hi v : lo <= v <= hi -> within lo hi (mkParam v []).
Proof. intros H. split; [exact H | constructor]. Qed.

Lemma startDrone_ranges s : ranges_ok s -> ranges_ok (startDrone s).
Proof.
  intros H. unfold startDrone.
  destruct (ctx s); [|exact H]. destruct (filterNode s) eqn:Hf; [|exact H].
  destruct (isPlayingFile s); [exact H|]. destruct (droneGain s); [exact H|].
  unfold ranges_ok in *. cbn [filterNode masterGain]. rewrite Hf in H. exact H.
Qed.

Lemma init_ranges s : ranges_ok s -> ranges_ok (init s).
Proof.
  intros H. unfold init. destruct (isInitialized s); [exact H|]. cbv zeta.
  match goal with |- context [startDrone ?s1] =>
    assert (H1 : ranges_ok (startDrone s1))
  end.
  { apply startDrone_ranges. unfold ranges_ok. cbn [filterNode masterGain frequency Q gain].
    repeat split; try constructor; cbn [value]; lra. }
  exact H1.
Qed.

Lemma playAudioUrl_failed_ranges s : ranges_ok s -> ranges_ok (playAudioUrl_failed s).
Proof. intros H. unfold playAudioUrl_failed. apply startDrone_ranges. exact H. Qed.

Lemma apply_call_ranges c s :
  match c with
  | call_updateFilter g _ => 0 <= g <= 1
  | _ => True
  end ->
  ranges_ok s -> ranges_ok (apply_call c s).
Proof.
  intros Hc H. destruct c; cbn [apply_call].
  - apply init_ranges; exact H.
  - apply startDrone_ranges; exact H.
  - exact H.
  - unfold stopAudio. cbv zeta.
    match goal with |- context [startDrone ?s1] =>
      assert (H1 : ranges_ok (startDrone s1)) by (apply startDrone_ranges; exact H);
      destruct (filterNode (startDrone s1)) as [f|] eqn:Hf; [|exact H1];
      destruct (ctx (startDrone s1)); [|exact H1]
    end.
    unfold ranges_ok in *. rewrite Hf in H1. cbn [filterNode masterGain frequency Q].
    destruct H1 as ((Hfr & Hq) & Hg). split; [|exact Hg]. split; [|exact Hq].
    apply within_schedule; [exact Hfr | cbn; lra].
  - unfold toggleMute, ranges_ok in *. cbn [filterNode masterGain].
    destruct H as (Hf & Hg). split; [exact Hf|].
    destruct (ctx s); [|exact Hg]. destruct (masterGain s) as [g|]; [|exact I].
    cbn [gain]. apply within_schedule; [apply within_schedule; [exact Hg | exact I]|].
    cbn. destruct shouldMute; lra.
  - unfold updateFilter. destruct (ctx s); [|exact H].
    destruct (filterNode s) as [f|] eqn:Hf; [|exact H].
    destruct (isMuted s); [exact H|].
    unfold ranges_ok in *. rewrite Hf in H. destruct H as ((Hfr & Hq) & Hg).
    destruct (isPlayingFile s); cbn [filterNode masterGain frequency Q].
    + split; [|exact Hg]. split; [|exact Hq].
      apply within_schedule; [exact Hfr | cbn; lra].
    + split; [|exact Hg]. split.
      * apply within_schedule; [exact Hfr | cbn; nra].
      * apply within_schedule; [exact Hq | cbn; lra].
  - unfold getAudioData. destruct (analyser s); [|exact H].
    destruct (dataArray s); exact H.
  - unfold playAudioUrl_enter.
    assert (H1 : ranges_ok (match ctx s with None => init s | Some _ => s end)).
    { destruct (ctx s); [exact H | apply init_ranges; exact H]. }
    destruct (ctx (match ctx s with None => init s | Some _ => s end)); [|exact H1].
    destruct (audioElement (match ctx s with None => init s | Some _ => s end)); exact H1.
  - unfold playAudioUrl_load.
    assert (H1 : ranges_ok (stopDrone s)) by exact H.
    destruct (audioElement (stopDrone s)); [exact H1|].
    apply playAudioUrl_failed_ranges; exact H1.
  - unfold playAudioUrl_played. cbv zeta. cbn [filterNode ctx].
    match goal with |- context [playAudioUrl_failed ?s1] =>
      assert (H1 : ranges_ok s1) by exact H
    end.
    destruct (filterNode s) as [f|] eqn:Hf; [|exact H1].
    destruct (ctx s).
    + unfold ranges_ok in *. rewrite Hf in H. destruct H as ((Hfr & Hq) & Hg).
      cbn [filterNode masterGain frequency Q]. split; [|exact Hg]. split; [|exact Hq].
      apply within_schedule; [exact Hfr | cbn; lra].
    + apply playAudioUrl_failed_ranges. exact H1.
  - apply playAudioUrl_failed_ranges; exact H.
Qed.

(** X9.  Whatever is called on the manager, in whatever order, with
    gesture values of [0, 1]: the filter is only ever asked for
    frequencies between 150 Hz and 20 kHz and resonances between 1 and 9,
    and the master gain for levels between 0 and 0.4. *)
Theorem audio_parameters_stay_in_range (calls : list Call) :
  unit_gestures calls ->
  let s := after calls constructed in
  match filterNode s with
  | Some f => within 150 20000 (frequency f) /\ within 1 9 (Q f)
  | None => True
  end /\
  match masterGain s with
  | Some g => within 0 0.4 (gain g)
  | None => True
  end.
Proof.
  intros Hg. cbv zeta. change (ranges_ok (after calls constructed)).
  assert (H0 : ranges_ok constructed) by (split; exact I).
  revert Hg H0. generalize constructed.
  induction calls as [|c rest IH]; intros s Hg H0; [exact H0|].
  cbn [after fold_left]. inversion Hg as [|c' rest' Hc Hrest]; subst.
  apply IH; [exact Hrest|]. apply apply_call_ranges; assumption.
Qed.

Lemma audio_parameters_stay_in_range_witness :
  let s := after [call_init; call_updateFilter (1 / 2) 1;
                  call_toggleMute true 2 false; call_stopAudio 3] constructed in
  match filterNode s with
  | Some f => within 150 20000 (frequency f) /\ within 1 9 (Q f)
  | None => True
  end /\
  match masterGain s with
  | Some g => within 0 0.4 (gain g)
  | None => True
  end.
Proof.
  apply (audio_parameters_stay_in_range
           [call_init; call_updateFilter (1 / 2) 1;
            call_toggleMute true 2 false; call_stopAudio 3]).
  repeat constructor; lra.
Defined.

End AudioFacts.

(* ================================================================== *)
(** ** The application *)
(* ================================================================== *)

Module AppFacts.
Import App AppSpec SamplerSpec SamplerFacts.

Lemma ROMANTIC_SHAPES_length : Shapes.length_num ROMANTIC_SHAPES = Fin (INR 8).
Proof. reflexivity. Qed.

Lemma COLORS_length : Shapes.length_num COLORS = Fin (INR 6).
Proof. reflexivity. Qed.

(** A draw selects one of the eight shapes. *)
Lemma drawn_shape_in rnd k :
  random_source rnd -> In (drawn_shape rnd k) ROMANTIC_SHAPES.
Proof.
  intros Hrnd. unfold drawn_shape. rewrite ROMANTIC_SHAPES_length.
  cbn [nmul lift2 Math_floor lift1].
  destruct (ShapeFacts.floor_random_index 8 (rnd k) (Hrnd k) ltac:(lia)) as (j & Hj & ->).
  rewrite ShapeFacts.array_get_index.
  destruct (nth_error ROMANTIC_SHAPES j) as [v|] eqn:Hv.
  - cbn [or_undefined]. eapply nth_error_In. exact Hv.
  - apply nth_error_None in Hv. cbn in Hv. lia.
Qed.

Lemma nextShape_while_step fuel prev rnd k :
  nextShape_while (S fuel) prev rnd k =
  if String.eqb (drawn_shape rnd k) prev
  then nextShape_while fuel prev rnd (S k)
  else Ok (drawn_shape rnd k) (S k).
Proof. reflexivity. Qed.

(** The updater returns as soon as a draw differs from the previous
    shape. *)
Lemma nextShape_runs rnd prev :
  random_source rnd ->
  forall n k, drawn_shape rnd (k + n) <> prev ->
    exists F shape k',
      In shape ROMANTIC_SHAPES /\ shape <> prev /\
      forall fuel, (F <= fuel)%nat -> nextShape prev fuel rnd k = Ok shape k'.
Proof.
  intros Hrnd. induction n as [|n IH]; intros k Hn.
  - rewrite Nat.add_0_r in Hn.
    exists 1%nat, (drawn_shape rnd k), (S k).
    split; [apply drawn_shape_in; exact Hrnd|]. split; [exact Hn|].
    intros [|fuel] Hf; [lia|]. unfold nextShape. rewrite nextShape_while_step.
    apply String.eqb_neq in Hn. rewrite Hn. reflexivity.
  - destruct (String.eqb (drawn_shape rnd k) prev) eqn:He.
    + destruct (IH (S k)) as (F & shape & k' & Hin & Hne & Hrun).
      { replace (S k + n)%nat with (k + S n)%nat by lia. exact Hn. }
      exists (S F), shape, k'. split; [exact Hin|]. split; [exact Hne|].
      intros [|fuel] Hf; [lia|]. unfold nextShape. rewrite nextShape_while_step, He.
      apply Hrun. lia.
    + exists 1%nat, (drawn_shape rnd k), (S k).
      split; [apply drawn_shape_in; exact Hrnd|].
      split; [apply String.eqb_neq; exact He|].
      intros [|fuel] Hf; [lia|]. unfold nextShape. rewrite nextShape_while_step, He.
      reflexivity.
Qed.

Lemma nextShape_ensures rnd prev :
  random_source rnd -> shape_fair rnd prev ->
  ensures rnd (nextShape prev) (fun shape => In shape ROMANTIC_SHAPES /\ shape <> prev).
Proof.
  intros Hrnd Hfair k. destruct (Hfair k) as (n & Hn).
  destruct (nextShape_runs rnd prev Hrnd n k Hn) as (F & shape & k' & Hin & Hne & Hrun).
  exists F, shape, k'. auto.
Qed.

Lemma randomColor_ensures rnd :
  random_source rnd -> ensures rnd randomColor (fun c => In c COLORS).
Proof.
  intros Hrnd. unfold randomColor. apply ensures_random; [exact Hrnd|].
  intros u Hu. apply ensures_ret. rewrite COLORS_length.
  cbn [nmul lift2 Math_floor lift1].
  destruct (ShapeFacts.floor_random_index 6 u Hu ltac:(lia)) as (j & Hj & ->).
  rewrite ShapeFacts.array_get_index.
  destruct (nth_error COLORS j) as [v|] eqn:Hv.
  - cbn [or_undefined]. eapply nth_error_In. exact Hv.
  - apply nth_error_None in Hv. cbn in Hv. lia.
Qed.

Lemma CUSTOM_not_romantic : ~ In ShapeType.CUSTOM ROMANTIC_SHAPES.
Proof. cbn. intros H. repeat destruct H as [H|H]; try discriminate H. exact H. Qed.

(** X10.  A gesture trigger in gesture mode switches to another shape of
    the romantic pool and to a colour of the palette, and touches nothing
    else; in music mode it changes nothing and makes no sound. *)
Theorem gesture_trigger_switches_shape (rnd : nat -> R) (now : R) (w : World) :
  random_source rnd -> shape_fair rnd (currentShape (app w)) ->
  ensures rnd (handleGestureTrigger now w)
    (fun r =>
       let w' := fst r in
       if isMusicMode (app w) then w' = w /\ snd r = None
       else
         In (currentShape (app w')) ROMANTIC_SHAPES /\
         currentShape (app w') <> currentShape (app w) /\
         currentShape (app w') <> ShapeType.CUSTOM /\
         In (color (app w')) COLORS /\
         customPoints (app w') = customPoints (app w) /\
         handData (app w') = handData (app w) /\
         currentTrackIndex (app w') = currentTrackIndex (app w) /\
         audio w' = audio w /\
         snd r = AudioManager.triggerWarp now (audio w)).
Proof.
  intros Hrnd Hfair. unfold handleGestureTrigger.
  destruct (isMusicMode (app w)) eqn:Hm.
  - apply ensures_ret. cbv zeta. cbn [fst snd]. auto.
  - eapply ensures_bind; [apply nextShape_ensures; eassumption|].
    intros shape (Hin & Hne).
    eapply ensures_bind; [apply randomColor_ensures; exact Hrnd|].
    intros c Hc. apply ensures_ret. cbv zeta. cbn [fst snd].
    cbn [app currentShape color customPoints handData currentTrackIndex audio].
    repeat split; try assumption.
    intros ->. exact (CUSTOM_not_romantic Hin).
Qed.

Lemma alternating_source :
  random_source (fun k => if Nat.even k then 0 else 1 / 2).
Proof. intros k. destruct (Nat.even k); lra. Qed.

Lemma drawn_shape_0 rnd k : rnd k = 0 -> drawn_shape rnd k = ShapeType.HEART.
Proof.
  intros H. unfold drawn_shape. rewrite H, ROMANTIC_SHAPES_length.
  cbn [nmul lift2 Math_floor lift1]. rewrite Rmult_0_l.
  change 0 with (INR 0). rewrite INR_IZR_INZ, ZfloorZ, <- INR_IZR_INZ.
  rewrite ShapeFacts.array_get_index. reflexivity.
Qed.

Lemma drawn_shape_half rnd k : rnd k = 1 / 2 -> drawn_shape rnd k = ShapeType.RING.
Proof.
  intros H. unfold drawn_shape. rewrite H, ROMANTIC_SHAPES_length.
  cbn [nmul lift2 Math_floor lift1].
  replace (1 / 2 * INR 8) with (INR 4) by (simpl; lra).
  rewrite INR_IZR_INZ, ZfloorZ, <- INR_IZR_INZ.
  rewrite ShapeFacts.array_get_index. reflexivity.
Qed.

(** The alternating oracle draws no shape for ever. *)
Lemma alternating_fair prev :
  shape_fair (fun k => if Nat.even k then 0 else 1 / 2) prev.
Proof.
  intros k.
  destruct (String.eqb prev ShapeType.HEART) eqn:He.
  - apply String.eqb_eq in He. subst prev.
    destruct (Nat.even k) eqn:Hk.
    + exists 1%nat. rewrite drawn_shape_half; [discriminate|].
      replace (k + 1)%nat with (S k) by lia. rewrite Nat.even_succ, <- Nat.negb_even, Hk.
      reflexivity.
    + exists 0%nat. rewrite drawn_shape_half; [discriminate|].
      rewrite Nat.add_0_r, Hk. reflexivity.
  - apply String.eqb_neq in He.
    destruct (Nat.even k) eqn:Hk.
    + exists 0%nat. rewrite drawn_shape_0; [congruence|].
      rewrite Nat.add_0_r, Hk. reflexivity.
    + exists 1%nat. rewrite drawn_shape_0; [congruence|].
      replace (k + 1)%nat with (S k) by lia. rewrite Nat.even_succ, <- Nat.negb_even, Hk.
      reflexivity.
Qed.

Lemma gesture_trigger_switches_shape_witness :
  ensures (fun k => if Nat.even k then 0 else 1 / 2)
    (handleGestureTrigger 0 (mkWorld initial AudioManager.constructed))
    (fun r =>
       In (currentShape (app (fst r))) ROMANTIC_SHAPES /\
       currentShape (app (fst r)) <> ShapeType.HEART).
Proof.
  eapply ensures_weaken.
  - apply (gesture_trigger_switches_shape _ 0 (mkWorld initial AudioManager.constructed)
             alternating_source (alternating_fair _)).
  - cbn. intros r H. split; apply H.
Defined.

Lemma handleGestureTrigger_keeps_custom rnd now w :
  random_source rnd -> shape_fair rnd (currentShape (app w)) ->
  custom_has_points (app w) ->
  ensures rnd (handleGestureTrigger now w) (fun r => custom_has_points (app (fst r))).
Proof.
  intros Hrnd Hfair Hinv. unfold handleGestureTrigger.
  destruct (isMusicMode (app w)).
  - apply ensures_ret. exact Hinv.
  - eapply ensures_bind; [apply nextShape_ensures; eassumption|].
    intros shape (Hin & _).
    eapply ensures_bind; [apply randomColor_ensures; exact Hrnd|].
    intros c _. apply ensures_ret. cbn [fst app].
    intros Hc. cbn [currentShape] in Hc. subst shape.
    exfalso. exact (CUSTOM_not_romantic Hin).
Qed.

(** Every handler keeps [custom_has_points]. *)
Lemma step_keeps_custom rnd e w :
  random_source rnd -> (forall prev, shape_fair rnd prev) ->
  custom_has_points (app w) ->
  ensures rnd (step e w) (fun w' => custom_has_points (app w')).
Proof.
  intros Hrnd Hfair Hinv. destruct e; cbn [step];
    try (apply ensures_ret; exact Hinv).
  - apply ensures_ret. unfold handleInteraction.
    destruct (hasInteracted (app w)); exact Hinv.
  - eapply ensures_bind; [apply handleGestureTrigger_keeps_custom; auto|].
    intros r Hr. apply ensures_ret. exact Hr.
  - apply ensures_ret. unfold handleShapeSelect. cbn [fst app].
    destruct (String.eqb type ShapeType.CUSTOM) eqn:He.
    + destruct (customPoints (app w)) eqn:Hp.
      * intros _. cbn [customPoints]. discriminate.
      * unfold custom_has_points in *. cbn [currentShape customPoints].
        rewrite Hp in Hinv. exact Hinv.
    + intros Hc. cbn [currentShape] in Hc. apply String.eqb_neq in He. contradiction.
  - apply ensures_ret. intros _. cbn. discriminate.
Qed.

Lemma run_keeps_custom rnd es :
  random_source rnd -> (forall prev, shape_fair rnd prev) ->
  forall w, custom_has_points (app w) ->
    ensures rnd (run es w) (fun w' => custom_has_points (app w')).
Proof.
  intros Hrnd Hfair. induction es as [|e rest IH]; intros w Hinv.
  - apply ensures_ret. exact Hinv.
  - cbn [run]. eapply ensures_bind; [apply step_keeps_custom; eassumption|].
    intros w' Hw'. apply IH. exact Hw'.
Qed.

(** X11.  Whatever the handlers do, in whatever order, the custom shape is
    never current without a drawing to show. *)
Theorem custom_shape_always_has_points (rnd : nat -> R) (es : list Event) :
  random_source rnd -> (forall prev, shape_fair rnd prev) ->
  ensures rnd (run es (mkWorld initial AudioManager.constructed))
    (fun w' => currentShape (app w') = ShapeType.CUSTOM -> customPoints (app w') <> None).
Proof.
  intros Hrnd Hfair. apply run_keeps_custom; try assumption.
  intros H. discriminate H.
Qed.

Lemma custom_shape_always_has_points_witness :
  ensures (fun k => if Nat.even k then 0 else 1 / 2)
    (run [ShapeSelect ShapeType.CUSTOM 0; GestureTrigger 0;
          SaveDrawing [] 0; ShapeSelect ShapeType.CUSTOM 0]
         (mkWorld initial AudioManager.constructed))
    (fun w' => currentShape (app w') = ShapeType.CUSTOM -> customPoints (app w') <> None).
Proof.
  apply (custom_shape_always_has_points _ _ alternating_source alternating_fair).
Defined.

End AppFacts.

(* ================================================================== *)
(** ** The buffers of the scene: geometry, trails, colours *)
(* ================================================================== *)

Module BufferFacts.
Import ParticleScene TrailSpec.

Lemma finite_get (a : Float32Array) j :
  all_finite a -> (j < List.length a)%nat -> finite (get a j).
Proof.
  unfold all_finite, get. intros H Hj. rewrite Forall_forall in H.
  apply H. apply nth_In. exact Hj.
Qed.

Lemma all_finite_store (a : Float32Array) j v :
  all_finite a -> finite v -> all_finite (store a j v).
Proof.
  unfold all_finite. intros H Hv. revert j.
  induction H as [|h t Hh Ht IH]; intros j; [constructor|].
  destruct j as [|j]; cbn [store]; constructor; auto.
Qed.

Lemma all_finite_get (a : Float32Array) :
  (forall j, (j < List.length a)%nat -> finite (get a j)) -> all_finite a.
Proof.
  unfold all_finite, get. intros H. apply Forall_forall. intros v Hv.
  destruct (In_nth _ _ NaN Hv) as (j & Hj & <-). apply H. exact Hj.
Qed.

Lemma all_finite_new n : all_finite (new_Float32Array n).
Proof. unfold all_finite, new_Float32Array. apply Forall_forall. intros v Hv.
  apply repeat_spec in Hv. subst v. exact I. Qed.

Lemma finite_Fin (a : num) : finite a -> exists v, a = Fin v.
Proof. destruct a as [v|]; [eauto | contradiction]. Qed.

(** *** The trail shift *)

Lemma trail_shift_spec base :
  forall t pos,
    (base + t * 3 + 2 < List.length pos)%nat ->
    List.length (trail_shift t base pos) = List.length pos /\
    (forall j, (j < base + 3 \/ base + t * 3 + 3 <= j)%nat ->
       get (trail_shift t base pos) j = get pos j) /\
    (forall u c, (1 <= u <= t)%nat -> (c < 3)%nat ->
       get (trail_shift t base pos) (base + u * 3 + c)
       = get pos (base + (u - 1) * 3 + c)).
Proof.
  induction t as [|t IH]; intros pos Hlen.
  - cbn [trail_shift]. split; [reflexivity|]. split; [reflexivity|]. intros; lia.
  - cbn [trail_shift]. replace (S t - 1)%nat with t by lia.
    set (currT := (base + S t * 3)%nat). set (prevT := (base + t * 3)%nat).
    set (p1 := store pos currT (get pos prevT)).
    set (p2 := store p1 (currT + 1) (get p1 (prevT + 1))).
    set (p3 := store p2 (currT + 2) (get p2 (prevT + 2))).
    assert (Hl3 : List.length p3 = List.length pos).
    { unfold p3, p2, p1. rewrite !length_store. reflexivity. }
    assert (Hother : forall j, (j < currT \/ currT + 3 <= j)%nat -> get p3 j = get pos j).
    { intros j Hj. unfold p3, p2, p1. rewrite !get_store_other by lia. reflexivity. }
    assert (Hown : forall c, (c < 3)%nat -> get p3 (currT + c) = get pos (prevT + c)).
    { intros c Hc. unfold p3, p2, p1, currT, prevT in *.
      destruct c as [|[|[|c]]]; try lia.
      - rewrite Nat.add_0_r.
        rewrite (get_store_other _ (base + S t * 3 + 2)) by lia.
        rewrite (get_store_other _ (base + S t * 3 + 1)) by lia.
        rewrite get_store_same by lia. rewrite Nat.add_0_r. reflexivity.
      - rewrite (get_store_other _ (base + S t * 3 + 2)) by lia.
        rewrite get_store_same by (rewrite length_store; lia).
        rewrite get_store_other by lia. reflexivity.
      - rewrite get_store_same by (rewrite !length_store; lia).
        rewrite !get_store_other by lia. reflexivity. }
    destruct (IH p3) as (Hl & Hout & Hin).
    { rewrite Hl3. lia. }
    split; [rewrite Hl; exact Hl3|]. split.
    + intros j Hj. rewrite Hout by lia. apply Hother. unfold currT. lia.
    + intros u c Hu Hc. destruct (Nat.eq_dec u (S t)) as [->|Hne].
      * rewrite Hout by lia. replace (S t - 1)%nat with t by lia.
        apply (Hown c Hc).
      * rewrite Hin by lia. apply Hother. unfold currT. lia.
Qed.

(** The positions of one particle after its trail update. *)
Lemma trail_update_spec base pos x y z :
  (base + 14 < List.length pos)%nat ->
  let pos' := head3 (trail_shift (TRAIL_LENGTH - 1) base pos) base x y z in
  List.length pos' = List.length pos /\
  (forall j, (j < base \/ base + 15 <= j)%nat -> get pos' j = get pos j) /\
  get pos' base = x /\ get pos' (base + 1) = y /\ get pos' (base + 2) = z /\
  (forall u c, (1 <= u < TRAIL_LENGTH)%nat -> (c < 3)%nat ->
     get pos' (base + u * 3 + c) = get pos (base + (u - 1) * 3 + c)).
Proof.
  intros Hlen. unfold TRAIL_LENGTH. cbn [Nat.sub].
  destruct (trail_shift_spec base 4 pos ltac:(lia)) as (Hl & Hout & Hin).
  cbv zeta. unfold head3.
  split; [rewrite !length_store; exact Hl|]. split.
  { intros j Hj. rewrite !get_store_other by lia. apply Hout. lia. }
  split.
  { rewrite (get_store_other _ (base + 2)) by lia.
    rewrite (get_store_other _ (base + 1)) by lia.
    apply get_store_same. lia. }
  split.
  { rewrite (get_store_other _ (base + 2)) by lia.
    apply get_store_same. rewrite length_store. lia. }
  split.
  { apply get_store_same. rewrite !length_store. lia. }
  intros u c Hu Hc. rewrite !get_store_other by lia. apply Hin; lia.
Qed.

(** *** The colour loop *)

Lemma fade_alpha t :
  (1.0 -! (Shapes.of_nat t /! Shapes.of_nat TRAIL_LENGTH))
  *! (1.0 -! (Shapes.of_nat t /! Shapes.of_nat TRAIL_LENGTH)) = Fin (alpha t).
Proof.
  unfold Shapes.of_nat, alpha, TRAIL_LENGTH.
  rewrite ShapeFacts.ndiv_Fin by (simpl; lra).
  unfold nsub, nmul. cbn [lift2]. replace 1.0 with 1 by lra. reflexivity.
Qed.

Lemma color_loop_spec base cr cg cb :
  forall todo t cols,
    (base + (t + todo) * 3 <= List.length cols)%nat ->
    List.length (color_loop todo t base cr cg cb cols) = List.length cols /\
    (forall j, (j < base + t * 3 \/ base + (t + todo) * 3 <= j)%nat ->
       get (color_loop todo t base cr cg cb cols) j = get cols j) /\
    (forall u c, (t <= u < t + todo)%nat -> (c < 3)%nat ->
       get (color_loop todo t base cr cg cb cols) (base + u * 3 + c)
       = channel c cr cg cb *! Fin (alpha u)).
Proof.
  induction todo as [|todo IH]; intros t cols Hlen.
  - cbn [color_loop]. split; [reflexivity|]. split; [reflexivity|]. intros; lia.
  - cbn [color_loop]. rewrite fade_alpha.
    set (ci := (base + t * 3)%nat).
    set (c3 := store (store (store cols ci (cr *! Fin (alpha t))) (ci + 1)
                        (cg *! Fin (alpha t))) (ci + 2) (cb *! Fin (alpha t))).
    assert (Hl3 : List.length c3 = List.length cols).
    { unfold c3. rewrite !length_store. reflexivity. }
    destruct (IH (S t) c3) as (Hl & Hout & Hin).
    { rewrite Hl3. lia. }
    split; [rewrite Hl; exact Hl3|]. split.
    + intros j Hj. rewrite Hout by lia. unfold c3.
      rewrite !get_store_other by (unfold ci; lia). reflexivity.
    + intros u c Hu Hc. destruct (Nat.eq_dec u t) as [->|Hne].
      * rewrite Hout by lia. unfold c3, ci.
        destruct c as [|[|[|c]]]; try lia; cbn [channel].
        -- rewrite Nat.add_0_r.
           rewrite (get_store_other _ (base + t * 3 + 2)) by lia.
           rewrite (get_store_other _ (base + t * 3 + 1)) by lia.
           apply get_store_same. lia.
        -- rewrite (get_store_other _ (base + t * 3 + 2)) by lia.
           apply get_store_same. rewrite length_store. lia.
        -- apply get_store_same. rewrite !length_store. lia.
      * apply Hin; lia.
Qed.

(** *** One round of the particle loop *)

Section Step.

Variable isMusicMode : bool.
Variable handData : HandData.
Variable time : num.
Variable audio : AudioData.
Variable baseColor : Color.
Variable offsets : Float32Array.
Variable target : Float32Array.
Variables expansionFactor lerpBase transition : num.
Variable rnd : nat -> R.

Lemma particle_step_form i bufs fuel k :
  exists tx ty tz k',
    particle_step isMusicMode handData time audio baseColor offsets target
      expansionFactor lerpBase transition i bufs fuel rnd k
    = Ok (step_result audio baseColor lerpBase i bufs tx ty tz) k'.
Proof.
  unfold particle_step, bind.
  destruct (LoopFacts.warp_target_ok transition rnd (get target (i * 3))
              (get target (i * 3 + 1)) (get target (i * 3 + 2)) fuel k)
    as ([[wx wy] wz] & k1 & ->).
  destruct (vortex isMusicMode handData time audio
              (wx *! expansionFactor) (wz *! expansionFactor)) as [rx rz].
  match goal with
  | |- context [audio_jitter audio ?a ?b ?c fuel rnd k1] =>
      destruct (LoopFacts.audio_jitter_ok audio rnd a b c fuel k1) as ([[jx jy] jz] & k2 & ->)
  end.
  unfold ret. exists jx, jy, jz, k2. reflexivity.
Qed.

Lemma warp_target_fin (tr a1 a2 a3 : R) fuel k :
  exists b1 b2 b3 k',
    warp_target (Fin tr) (Fin a1) (Fin a2) (Fin a3) fuel rnd k
    = Ok (Fin b1, Fin b2, Fin b3) k'.
Proof.
  unfold warp_target. destruct (Fin tr >! 0);
    unfold bind, Math_random, ret; cbn [nadd nsub nmul lift2];
    do 4 eexists; reflexivity.
Qed.

Lemma audio_jitter_fin (a1 a2 a3 : R) fuel k :
  exists b1 b2 b3 k',
    audio_jitter audio (Fin a1) (Fin a2) (Fin a3) fuel rnd k
    = Ok (Fin b1, Fin b2, Fin b3) k'.
Proof.
  unfold audio_jitter. destruct (Fin (bass audio) >! 0.3);
    unfold bind, Math_random, ret; cbn [nadd nsub nmul lift2];
    do 4 eexists; reflexivity.
Qed.

Lemma vortex_fin (tm x z : R) :
  exists rx rz,
    vortex isMusicMode handData (Fin tm) audio (Fin x) (Fin z) = (Fin rx, Fin rz).
Proof.
  unfold vortex, vortex_spin. cbv zeta. rewrite VortexFacts.spin_term.
  destruct isMusicMode; cbn [nadd nsub nmul lift2 Math_sin Math_cos lift1];
    do 2 eexists; reflexivity.
Qed.

(** With finite inputs the transformed target is finite. *)
Lemma particle_step_finite i bufs fuel k (a1 a2 a3 c1 c2 c3 o e tr tm : R) :
  get target (i * 3) = Fin a1 ->
  get target (i * 3 + 1) = Fin a2 ->
  get target (i * 3 + 2) = Fin a3 ->
  get (physics bufs) (i * 3) = Fin c1 ->
  get (physics bufs) (i * 3 + 1) = Fin c2 ->
  get (physics bufs) (i * 3 + 2) = Fin c3 ->
  get offsets i = Fin o ->
  expansionFactor = Fin e -> transition = Fin tr -> time = Fin tm ->
  exists tx ty tz k',
    particle_step isMusicMode handData time audio baseColor offsets target
      expansionFactor lerpBase transition i bufs fuel rnd k
    = Ok (step_result audio baseColor lerpBase i bufs (Fin tx) (Fin ty) (Fin tz)) k'.
Proof.
  intros Ha1 Ha2 Ha3 Hc1 Hc2 Hc3 Ho -> -> ->.
  unfold particle_step, bind. rewrite Ha1, Ha2, Ha3.
  destruct (warp_target_fin tr a1 a2 a3 fuel k) as (w1 & w2 & w3 & k1 & ->).
  cbn [nmul lift2].
  destruct (vortex_fin tm (w1 * e) (w3 * e)) as (rx & rz & ->).
  rewrite Hc1, Hc2, Hc3, Ho.
  match goal with
  | |- context [audio_jitter audio ?a ?b ?c fuel rnd k1] =>
      assert (Hj : exists j1 j2 j3 k2,
                 audio_jitter audio a b c fuel rnd k1 = Ok (Fin j1, Fin j2, Fin j3) k2)
  end.
  { destruct isMusicMode; cbn [nadd nsub nmul lift2 Math_sin Math_cos lift1];
      apply audio_jitter_fin. }
  destruct Hj as (j1 & j2 & j3 & k2 & ->).
  unfold ret. exists j1, j2, j3, k2.
  unfold step_result, FrameSpec.integrate3. cbv zeta.
  rewrite ?Hc1, ?Hc2, ?Hc3. reflexivity.
Qed.

End Step.

Lemma nmul_alpha_0 (a : num) : a *! Fin (alpha 0) = a.
Proof.
  assert (H : alpha 0 = 1).
  { unfold alpha, TRAIL_LENGTH. simpl INR. lra. }
  rewrite H. destruct a as [v|]; cbn; [f_equal; lra | reflexivity].
Qed.

Lemma vertex_base i t c : vertex i t c = (i * TRAIL_LENGTH * 3 + t * 3 + c)%nat.
Proof. reflexivity. Qed.

(** What one round leaves in the buffers. *)
Lemma step_result_spec audio baseColor lerpBase i bufs tx ty tz :
  (i * 3 + 2 < List.length (physics bufs))%nat ->
  (i * 15 + 14 < List.length (positions bufs))%nat ->
  (i * 15 + 15 <= List.length (colors bufs))%nat ->
  let r := step_result audio baseColor lerpBase i bufs tx ty tz in
  List.length (physics r) = List.length (physics bufs) /\
  List.length (positions r) = List.length (positions bufs) /\
  List.length (colors r) = List.length (colors bufs) /\
  (forall j, (j < i * 3 \/ i * 3 + 3 <= j)%nat ->
     get (physics r) j = get (physics bufs) j) /\
  (forall j, (j < i * 15 \/ i * 15 + 15 <= j)%nat ->
     get (positions r) j = get (positions bufs) j /\
     get (colors r) j = get (colors bufs) j) /\
  (forall c, (c < 3)%nat -> get (positions r) (vertex i 0 c) = get (physics r) (i * 3 + c)) /\
  (forall t c, (1 <= t < TRAIL_LENGTH)%nat -> (c < 3)%nat ->
     get (positions r) (vertex i t c) = get (positions bufs) (vertex i (t - 1) c)) /\
  (forall t c, (t < TRAIL_LENGTH)%nat -> (c < 3)%nat ->
     get (colors r) (vertex i t c) = get (colors r) (vertex i 0 c) *! Fin (alpha t)).
Proof.
  intros Hp Hq Hc. cbv zeta. unfold step_result. cbv zeta. cbn [physics positions colors].
  set (phys := FrameSpec.integrate3 (physics bufs) i tx ty tz lerpBase).
  assert (Hbase : (i * TRAIL_LENGTH * 3 = i * 15)%nat) by (unfold TRAIL_LENGTH; lia).
  destruct (trail_update_spec (i * TRAIL_LENGTH * 3) (positions bufs)
              (get phys (i * 3)) (get phys (i * 3 + 1)) (get phys (i * 3 + 2))
              ltac:(lia)) as (Hl & Hout & H0 & H1 & H2 & Hin).
  match goal with
  | |- context [color_loop TRAIL_LENGTH 0 _ ?cr ?cg ?cb _] =>
      destruct (color_loop_spec (i * TRAIL_LENGTH * 3) cr cg cb TRAIL_LENGTH 0 (colors bufs))
        as (Hcl & Hcout & Hcin); [unfold TRAIL_LENGTH in *; lia|];
      set (ccr := cr) in *; set (ccg := cg) in *; set (ccb := cb) in *
  end.
  split; [apply LoopFacts.length_integrate3|].
  split; [exact Hl|]. split; [exact Hcl|].
  split; [intros j Hj; apply LoopFacts.get_integrate3_other; exact Hj|].
  split.
  { intros j Hj. split; [apply Hout; lia | apply Hcout; unfold TRAIL_LENGTH in *; lia]. }
  split.
  { intros c Hc3. rewrite vertex_base.
    destruct c as [|[|[|c]]]; try lia; rewrite ?Nat.add_0_r.
    - exact H0.
    - replace (i * TRAIL_LENGTH * 3 + 0 * 3 + 1)%nat with (i * TRAIL_LENGTH * 3 + 1)%nat by lia.
      exact H1.
    - replace (i * TRAIL_LENGTH * 3 + 0 * 3 + 2)%nat with (i * TRAIL_LENGTH * 3 + 2)%nat by lia.
      exact H2. }
  split.
  { intros t c Ht Hc3. rewrite !vertex_base. apply Hin; assumption. }
  intros t c Ht Hc3. rewrite !vertex_base.
  rewrite (Hcin t c) by (unfold TRAIL_LENGTH in *; lia).
  rewrite (Hcin 0%nat c) by (unfold TRAIL_LENGTH in *; lia).
  rewrite nmul_alpha_0. reflexivity.
Qed.

(** *** Finite entries *)

Lemma finite_integrate (a t l : R) : finite (integrate (Fin a) (Fin a) (Fin t) (Fin l)).
Proof. exact I. Qed.

Lemma all_finite_integrate3 phys i (tx ty tz l : R) :
  all_finite phys -> (i * 3 + 2 < List.length phys)%nat ->
  all_finite (FrameSpec.integrate3 phys i (Fin tx) (Fin ty) (Fin tz) (Fin l)).
Proof.
  intros Hf Hlen. unfold FrameSpec.integrate3.
  destruct (finite_Fin _ (finite_get phys (i * 3) Hf ltac:(lia))) as (a & Ha).
  destruct (finite_Fin _ (finite_get phys (i * 3 + 1) Hf ltac:(lia))) as (b & Hb).
  destruct (finite_Fin _ (finite_get phys (i * 3 + 2) Hf ltac:(lia))) as (c & Hc).
  rewrite Ha.
  rewrite (get_store_other _ (i * 3) (i * 3 + 1)) by lia. rewrite Hb.
  rewrite (get_store_other _ (i * 3 + 1) (i * 3 + 2)) by lia.
  rewrite (get_store_other _ (i * 3) (i * 3 + 2)) by lia. rewrite Hc.
  repeat apply all_finite_store; try exact Hf; exact I.
Qed.

Lemma all_finite_trail_shift base :
  forall t pos, all_finite pos -> (base + t * 3 + 2 < List.length pos)%nat ->
    all_finite (trail_shift t base pos).
Proof.
  induction t as [|t IH]; intros pos Hf Hlen; [exact Hf|].
  cbn [trail_shift].
  set (p1 := store pos (base + S t * 3) (get pos (base + (S t - 1) * 3))).
  assert (H1 : all_finite p1).
  { apply all_finite_store; [exact Hf | apply finite_get; [exact Hf | lia]]. }
  set (p2 := store p1 (base + S t * 3 + 1) (get p1 (base + (S t - 1) * 3 + 1))).
  assert (H2 : all_finite p2).
  { apply all_finite_store; [exact H1|].
    apply finite_get; [exact H1 | unfold p1; rewrite length_store; lia]. }
  apply IH.
  - apply all_finite_store; [exact H2|].
    apply finite_get; [exact H2 | unfold p2, p1; rewrite !length_store; lia].
  - unfold p2, p1. rewrite !length_store. lia.
Qed.

Lemma finite_nmul (a b : num) : finite a -> finite b -> finite (a *! b).
Proof. destruct a, b; cbn; auto. Qed.

Lemma all_finite_color_loop base cr cg cb :
  finite cr -> finite cg -> finite cb ->
  forall todo t cols, all_finite cols ->
    all_finite (color_loop todo t base cr cg cb cols).
Proof.
  intros Hr Hg Hb. induction todo as [|todo IH]; intros t cols Hf; [exact Hf|].
  cbn [color_loop]. rewrite fade_alpha. apply IH.
  repeat apply all_finite_store; try exact Hf; apply finite_nmul; auto; exact I.
Qed.

Lemma finite_channel (base boost v : R) (k : R) :
  finite (Fin base +! (Fin v /! 5 *! Fin k) +! Fin boost).
Proof. rewrite ShapeFacts.ndiv_Fin by lra. exact I. Qed.

Lemma all_finite_step_result audio baseColor i bufs (tx ty tz l : R) :
  all_finite (physics bufs) -> all_finite (positions bufs) -> all_finite (colors bufs) ->
  (i * 3 + 2 < List.length (physics bufs))%nat ->
  (i * 15 + 14 < List.length (positions bufs))%nat ->
  let r := step_result audio baseColor (Fin l) i bufs (Fin tx) (Fin ty) (Fin tz) in
  all_finite (physics r) /\ all_finite (positions r) /\ all_finite (colors r).
Proof.
  intros Hp Hq Hc Hlp Hlq. cbv zeta. unfold step_result. cbv zeta.
  cbn [physics positions colors].
  pose proof (all_finite_integrate3 (physics bufs) i tx ty tz l Hp Hlp) as Hphys.
  set (phys := FrameSpec.integrate3 (physics bufs) i (Fin tx) (Fin ty) (Fin tz) (Fin l)) in *.
  assert (Hlen : List.length phys = List.length (physics bufs))
    by apply LoopFacts.length_integrate3.
  destruct (finite_Fin _ (finite_get phys (i * 3) Hphys ltac:(lia))) as (nx & Hx).
  destruct (finite_Fin _ (finite_get phys (i * 3 + 1) Hphys ltac:(lia))) as (ny & Hy).
  destruct (finite_Fin _ (finite_get phys (i * 3 + 2) Hphys ltac:(lia))) as (nz & Hz).
  rewrite Hx, Hy, Hz.
  split; [exact Hphys|]. split.
  - unfold head3. do 3 (apply all_finite_store; [|exact I]).
    apply all_finite_trail_shift; [exact Hq | unfold TRAIL_LENGTH; lia].
  - apply all_finite_color_loop; try exact Hc.
    + change (Fin (bass audio) *! 0.6 +! Fin (high audio) *! 0.4)
        with (Fin (bass audio * 0.6 + high audio * 0.4)). apply finite_channel.
    + change (Fin (bass audio) *! 0.6 +! Fin (high audio) *! 0.4)
        with (Fin (bass audio * 0.6 + high audio * 0.4)). apply finite_channel.
    + change (Fin (bass audio) *! 0.6 +! Fin (high audio) *! 0.4)
        with (Fin (bass audio * 0.6 + high audio * 0.4)). apply finite_channel.
Qed.

End BufferFacts.

(* ================================================================== *)
(** ** The frame: trails and finiteness *)
(* ================================================================== *)

Module TrailFacts.
Import ParticleScene TrailSpec BufferFacts.

Lemma vertex_range q t c :
  (t < TRAIL_LENGTH)%nat -> (c < 3)%nat -> (q * 15 <= vertex q t c < q * 15 + 15)%nat.
Proof. unfold vertex, TRAIL_LENGTH. lia. Qed.

Lemma sized_bounds phys pos cols i :
  sized phys pos cols -> (i < PARTICLE_COUNT)%nat ->
  (i * 3 + 2 < List.length phys)%nat /\
  (i * 15 + 14 < List.length pos)%nat /\
  (i * 15 + 15 <= List.length cols)%nat.
Proof.
  intros (Hp & Hq & Hc) Hi. rewrite Hp, Hq, Hc.
  unfold TOTAL_VERTICES, TRAIL_LENGTH. lia.
Qed.

Section Loop.

Variable isMusicMode : bool.
Variable handData : HandData.
Variable time : num.
Variable audio : AudioData.
Variable baseColor : Color.
Variable offsets : Float32Array.
Variable target : Float32Array.
Variables expansionFactor lerpBase transition : num.
Variable rnd : nat -> R.

Lemma particle_loop_trails fuel :
  forall todo i bufs k,
    (i + todo <= PARTICLE_COUNT)%nat ->
    sized (physics bufs) (positions bufs) (colors bufs) ->
    exists bufs' k',
      particle_loop isMusicMode handData time audio baseColor offsets target
        expansionFactor lerpBase transition todo i bufs fuel rnd k = Ok bufs' k' /\
      sized (physics bufs') (positions bufs') (colors bufs') /\
      (forall j, (j < i * 3 \/ (i + todo) * 3 <= j)%nat ->
         get (physics bufs') j = get (physics bufs) j) /\
      (forall j, (j < i * 15 \/ (i + todo) * 15 <= j)%nat ->
         get (positions bufs') j = get (positions bufs) j /\
         get (colors bufs') j = get (colors bufs) j) /\
      (forall q, (i <= q < i + todo)%nat ->
         trail_updated q (positions bufs) (physics bufs') (positions bufs') (colors bufs')).
Proof.
  induction todo as [|todo IH]; intros i bufs k Hi Hs.
  - exists bufs, k. split; [reflexivity|]. split; [exact Hs|].
    split; [reflexivity|]. split; [auto | intros; lia].
  - cbn [particle_loop]. unfold bind.
    destruct (particle_step_form isMusicMode handData time audio baseColor offsets target
                expansionFactor lerpBase transition rnd i bufs fuel k)
      as (tx & ty & tz & k1 & ->).
    destruct (sized_bounds _ _ _ i Hs ltac:(lia)) as (Hb1 & Hb2 & Hb3).
    destruct (step_result_spec audio baseColor lerpBase i bufs tx ty tz Hb1 Hb2 Hb3)
      as (Hl1 & Hl2 & Hl3 & Hpo & Hqo & Hhead & Hshift & Hcol).
    set (r := step_result audio baseColor lerpBase i bufs tx ty tz) in *.
    assert (Hsr : sized (physics r) (positions r) (colors r)).
    { destruct Hs as (H1 & H2 & H3). unfold sized. rewrite Hl1, Hl2, Hl3. auto. }
    destruct (IH (S i) r k1 ltac:(lia) Hsr) as (bufs' & k' & Hrun & Hs' & Hpo' & Hqo' & Hin).
    exists bufs', k'. split; [exact Hrun|]. split; [exact Hs'|].
    split; [intros j Hj; rewrite Hpo' by lia; apply Hpo; lia|].
    split.
    { intros j Hj. destruct (Hqo' j ltac:(lia)) as (-> & ->). apply Hqo. lia. }
    intros q Hq. destruct (Nat.eq_dec q i) as [->|Hne].
    + repeat split.
      * intros c Hc. pose proof (vertex_range i 0 c ltac:(unfold TRAIL_LENGTH; lia) Hc).
        rewrite (proj1 (Hqo' (vertex i 0 c) ltac:(lia))). rewrite Hpo' by lia.
        apply Hhead. exact Hc.
      * intros t c Ht Hc. pose proof (vertex_range i t c ltac:(lia) Hc).
        rewrite (proj1 (Hqo' (vertex i t c) ltac:(lia))). apply Hshift; assumption.
      * intros t c Ht Hc. pose proof (vertex_range i t c ltac:(lia) Hc).
        pose proof (vertex_range i 0 c ltac:(unfold TRAIL_LENGTH; lia) Hc).
        rewrite (proj2 (Hqo' (vertex i t c) ltac:(lia))).
        rewrite (proj2 (Hqo' (vertex i 0 c) ltac:(lia))).
        apply Hcol; assumption.
    + destruct (Hin q ltac:(lia)) as (H1 & H2 & H3). repeat split.
      * exact H1.
      * intros t c Ht Hc. rewrite H2 by assumption.
        pose proof (vertex_range q (t - 1) c ltac:(lia) Hc).
        apply (proj1 (Hqo (vertex q (t - 1) c) ltac:(lia))).
      * exact H3.
Qed.

Hypothesis Htarget : finite_prefix (PARTICLE_COUNT * 3) target.
Hypothesis Hoffsets : finite_prefix PARTICLE_COUNT offsets.

Lemma particle_loop_finite fuel (e l tr tm : R) :
  expansionFactor = Fin e -> lerpBase = Fin l -> transition = Fin tr -> time = Fin tm ->
  forall todo i bufs k,
    (i + todo <= PARTICLE_COUNT)%nat ->
    sized (physics bufs) (positions bufs) (colors bufs) ->
    all_finite (physics bufs) -> all_finite (positions bufs) -> all_finite (colors bufs) ->
    exists bufs' k',
      particle_loop isMusicMode handData time audio baseColor offsets target
        expansionFactor lerpBase transition todo i bufs fuel rnd k = Ok bufs' k' /\
      all_finite (physics bufs') /\ all_finite (positions bufs') /\
      all_finite (colors bufs').
Proof.
  intros He Hl Htr Htm.
  induction todo as [|todo IH]; intros i bufs k Hi Hs Hp Hq Hc.
  - exists bufs, k. split; [reflexivity | auto].
  - cbn [particle_loop]. unfold bind.
    destruct (sized_bounds _ _ _ i Hs ltac:(lia)) as (Hb1 & Hb2 & Hb3).
    destruct (finite_Fin _ (Htarget (i * 3)%nat ltac:(lia))) as (a1 & Ha1).
    destruct (finite_Fin _ (Htarget (i * 3 + 1)%nat ltac:(lia))) as (a2 & Ha2).
    destruct (finite_Fin _ (Htarget (i * 3 + 2)%nat ltac:(lia))) as (a3 & Ha3).
    destruct (finite_Fin _ (finite_get _ (i * 3) Hp ltac:(lia))) as (c1 & Hc1).
    destruct (finite_Fin _ (finite_get _ (i * 3 + 1) Hp ltac:(lia))) as (c2 & Hc2).
    destruct (finite_Fin _ (finite_get _ (i * 3 + 2) Hp ltac:(lia))) as (c3 & Hc3).
    destruct (finite_Fin _ (Hoffsets i ltac:(lia))) as (o & Ho).
    destruct (particle_step_finite isMusicMode handData time audio baseColor offsets target
                expansionFactor lerpBase transition rnd i bufs fuel k
                a1 a2 a3 c1 c2 c3 o e tr tm Ha1 Ha2 Ha3 Hc1 Hc2 Hc3 Ho He Htr Htm)
      as (tx & ty & tz & k1 & ->).
    rewrite Hl.
    destruct (all_finite_step_result audio baseColor i bufs tx ty tz l Hp Hq Hc Hb1 Hb2)
      as (Hp1 & Hq1 & Hc1').
    destruct (step_result_spec audio baseColor (Fin l) i bufs (Fin tx) (Fin ty) (Fin tz)
                Hb1 Hb2 Hb3) as (Hl1 & Hl2 & Hl3 & _).
    set (r := step_result audio baseColor (Fin l) i bufs (Fin tx) (Fin ty) (Fin tz)) in *.
    assert (Hsr : sized (physics r) (positions r) (colors r)).
    { destruct Hs as (H1 & H2 & H3). unfold sized. rewrite Hl1, Hl2, Hl3. auto. }
    rewrite <- Hl.
    apply (IH (S i) r k1 ltac:(lia) Hsr Hp1 Hq1 Hc1').
Qed.

End Loop.

Lemma mode_switch_finite m hd (tm : R) audio rx ry :
  m = true \/ 0 <= gestureValue hd ->
  exists rot e l, mode_switch m hd (Fin tm) audio rx ry = (rot, Fin e, Fin l).
Proof.
  intros H. unfold mode_switch. destruct m.
  - cbn [nadd nmul lift2 Math_sin lift1]. do 3 eexists. reflexivity.
  - destruct H as [H|H]; [discriminate|].
    unfold Math_powr. destruct (Rlt_dec (gestureValue hd) 0); [lra|].
    destruct (Rlt_dec 0 (gestureValue hd));
      cbn [nadd nmul lift2 Math_sin lift1]; do 3 eexists; reflexivity.
Qed.

Lemma decay_finite (tr : R) : exists tr', decay (Fin tr) = Fin tr'.
Proof.
  unfold decay. destruct (Fin tr >! 0); [|eauto].
  cbn [nmul lift2]. destruct (Fin (tr * 0.92) <! 0.01); eauto.
Qed.

(** X12.  A frame over buffers of the allocated sizes shifts every trail by
    one vertex: the head of the trail of each particle is its new stored
    position, vertex [t] holds what vertex [t - 1] held before the frame,
    and the colour of vertex [t] is the head colour times
    [(1 - t / TRAIL_LENGTH)^2]. *)
Theorem frame_shifts_every_trail
    (props : Props) (target offsets : Float32Array) (time : R) (audio : AudioData)
    (s : Refs) (pts : Points) (rnd : nat -> R) (fuel k : nat) :
  pointsRef s = Some pts ->
  sized (physicsPositions s) (position_array pts) (color_array pts) ->
  exists s' pts' k',
    useFrame props (Some target) offsets time audio s fuel rnd k = Ok s' k' /\
    pointsRef s' = Some pts' /\
    sized (physicsPositions s') (position_array pts') (color_array pts') /\
    forall q, (q < PARTICLE_COUNT)%nat ->
      trail_updated q (position_array pts)
        (physicsPositions s') (position_array pts') (color_array pts').
Proof.
  intros Hpts Hs. unfold useFrame. rewrite Hpts.
  destruct (mode_switch _ _ _ _ _ _) as [[rot expansionFactor] lerpBase].
  unfold bind.
  destruct (particle_loop_trails (isMusicMode props) (handData props) time audio
              (color props) offsets target expansionFactor lerpBase
              (decay (transitionRef s)) rnd fuel PARTICLE_COUNT 0%nat
              (mkBuffers (physicsPositions s) (position_array pts) (color_array pts)) k
              (Nat.le_refl _) Hs)
    as (bufs' & k' & -> & Hs' & _ & _ & Hin).
  unfold ret. eexists. eexists. eexists. split; [reflexivity|].
  cbn [pointsRef physicsPositions position_array color_array].
  split; [reflexivity|]. split; [exact Hs'|].
  intros q Hq. apply Hin. lia.
Qed.

Lemma frame_shifts_every_trail_witness :
  exists s' pts' k',
    useFrame FrameExamples.gesture_props
      (Some (new_Float32Array (PARTICLE_COUNT * 3))) (new_Float32Array PARTICLE_COUNT)
      0 FrameExamples.silence FrameExamples.resting_refs 0%nat (fun _ => 0) 0%nat
    = Ok s' k' /\
    pointsRef s' = Some pts' /\
    sized (physicsPositions s') (position_array pts') (color_array pts') /\
    forall q, (q < PARTICLE_COUNT)%nat ->
      trail_updated q (new_Float32Array (TOTAL_VERTICES * 3))
        (physicsPositions s') (position_array pts') (color_array pts').
Proof.
  apply (frame_shifts_every_trail FrameExamples.gesture_props
           (new_Float32Array (PARTICLE_COUNT * 3)) (new_Float32Array PARTICLE_COUNT)
           0 FrameExamples.silence FrameExamples.resting_refs
           (mkPoints 0 0 (new_Float32Array (TOTAL_VERTICES * 3))
                     (new_Float32Array (TOTAL_VERTICES * 3)))
           (fun _ => 0) 0%nat 0%nat).
  - reflexivity.
  - repeat split; apply length_new.
Defined.

(** X13.  A frame keeps the buffers finite: with a non-negative gesture
    value (or in music mode), a finite warp intensity, a finite target and
    finite phases, finite buffers of the allocated sizes stay finite. *)
Theorem frame_keeps_buffers_finite
    (props : Props) (target offsets : Float32Array) (time : R) (audio : AudioData)
    (s : Refs) (pts : Points) (rnd : nat -> R) (fuel k : nat) :
  isMusicMode props = true \/ 0 <= gestureValue (handData props) ->
  pointsRef s = Some pts ->
  finite (transitionRef s) ->
  finite_prefix (PARTICLE_COUNT * 3) target ->
  finite_prefix PARTICLE_COUNT offsets ->
  sized (physicsPositions s) (position_array pts) (color_array pts) ->
  all_finite (physicsPositions s) ->
  all_finite (position_array pts) ->
  all_finite (color_array pts) ->
  exists s' pts' k',
    useFrame props (Some target) offsets time audio s fuel rnd k = Ok s' k' /\
    pointsRef s' = Some pts' /\
    finite (transitionRef s') /\
    all_finite (physicsPositions s') /\
    all_finite (position_array pts') /\
    all_finite (color_array pts').
Proof.
  intros Hmode Hpts Htr Htarget Hoffsets Hs Hp Hq Hc. unfold useFrame. rewrite Hpts.
  destruct (finite_Fin _ Htr) as (tr & Etr). rewrite Etr.
  destruct (mode_switch_finite (isMusicMode props) (handData props) time audio
              (rotation_x pts) (rotation_y pts) Hmode) as (rot & e & l & ->).
  destruct (decay_finite tr) as (tr' & Etr'). rewrite Etr'.
  unfold bind.
  destruct (particle_loop_finite (isMusicMode props) (handData props) time audio
              (color props) offsets target (Fin e) (Fin l) (Fin tr') rnd
              Htarget Hoffsets fuel e l tr' time eq_refl eq_refl eq_refl eq_refl
              PARTICLE_COUNT 0%nat
              (mkBuffers (physicsPositions s) (position_array pts) (color_array pts)) k
              (Nat.le_refl _) Hs Hp Hq Hc)
    as (bufs' & k' & -> & Hp' & Hq' & Hc').
  unfold ret. eexists. eexists. eexists. split; [reflexivity|].
  cbn [pointsRef physicsPositions position_array color_array transitionRef].
  split; [reflexivity|]. split; [exact I|]. auto.
Qed.

Lemma frame_keeps_buffers_finite_witness :
  exists s' pts' k',
    useFrame FrameExamples.gesture_props
      (Some (new_Float32Array (PARTICLE_COUNT * 3))) (new_Float32Array PARTICLE_COUNT)
      0 FrameExamples.silence FrameExamples.resting_refs 0%nat (fun _ => 0) 0%nat
    = Ok s' k' /\
    pointsRef s' = Some pts' /\
    finite (transitionRef s') /\
    all_finite (physicsPositions s') /\
    all_finite (position_array pts') /\
    all_finite (color_array pts').
Proof.
  apply (frame_keeps_buffers_finite FrameExamples.gesture_props
           (new_Float32Array (PARTICLE_COUNT * 3)) (new_Float32Array PARTICLE_COUNT)
           0 FrameExamples.silence FrameExamples.resting_refs
           (mkPoints 0 0 (new_Float32Array (TOTAL_VERTICES * 3))
                     (new_Float32Array (TOTAL_VERTICES * 3)))
           (fun _ => 0) 0%nat 0%nat).
  - right. cbn. lra.
  - reflexivity.
  - exact I.
  - intros j Hj. rewrite get_new by exact Hj. exact I.
  - intros j Hj. rewrite get_new by exact Hj. exact I.
  - repeat split; apply length_new.
  - apply all_finite_new.
  - apply all_finite_new.
  - apply all_finite_new.
Defined.

End TrailFacts.

(* ================================================================== *)
(** ** The memos of the scene: geometry, phases, target *)
(* ================================================================== *)

Module MemoFacts.
Import ParticleScene TrailSpec BufferFacts.

Lemma geometry_trail_spec startPos i :
  forall todo t (pos cols : Float32Array),
    ((i * TRAIL_LENGTH + t + todo) * 3 <= List.length pos)%nat ->
    ((i * TRAIL_LENGTH + t + todo) * 3 <= List.length cols)%nat ->
    let r := geometry_trail todo t i startPos (pos, cols) in
    List.length (fst r) = List.length pos /\
    List.length (snd r) = List.length cols /\
    (forall j, (j < (i * TRAIL_LENGTH + t) * 3 \/
                (i * TRAIL_LENGTH + t + todo) * 3 <= j)%nat ->
       get (fst r) j = get pos j /\ get (snd r) j = get cols j) /\
    (forall u c, (t <= u < t + todo)%nat -> (c < 3)%nat ->
       get (fst r) (vertex i u c) = get startPos (i * 3 + c) /\
       get (snd r) (vertex i u c) = Fin 1.0).
Proof.
  induction todo as [|todo IH]; intros t pos cols Hp Hc.
  - cbn [geometry_trail fst snd]. repeat split; try reflexivity; intros; lia.
  - cbn [geometry_trail]. cbv zeta.
    set (idx := ((i * TRAIL_LENGTH + t) * 3)%nat).
    set (p3 := store (store (store pos idx (get startPos (i * 3))) (idx + 1)
                        (get startPos (i * 3 + 1))) (idx + 2) (get startPos (i * 3 + 2))).
    set (c3 := store (store (store cols idx 1.0) (idx + 1) 1.0) (idx + 2) 1.0).
    assert (Hlp : List.length p3 = List.length pos)
      by (unfold p3; rewrite !length_store; reflexivity).
    assert (Hlc : List.length c3 = List.length cols)
      by (unfold c3; rewrite !length_store; reflexivity).
    pose proof (IH (S t) p3 c3 ltac:(lia) ltac:(lia)) as H. cbv zeta in H.
    destruct H as (Hl1 & Hl2 & Hout & Hin).
    split; [rewrite Hl1; exact Hlp|]. split; [rewrite Hl2; exact Hlc|]. split.
    + intros j Hj. destruct (Hout j ltac:(lia)) as (-> & ->).
      unfold p3, c3. rewrite !get_store_other by (unfold idx; lia). auto.
    + intros u c Hu Hc3. destruct (Nat.eq_dec u t) as [->|Hne]; [|apply Hin; lia].
      assert (Hv : vertex i t c = (idx + c)%nat) by (unfold vertex, idx; lia).
      rewrite Hv. destruct (Hout (idx + c)%nat ltac:(unfold idx; lia)) as (-> & ->).
      unfold p3, c3. unfold idx in *.
      destruct c as [|[|[|c]]]; try lia; rewrite ?Nat.add_0_r.
      * rewrite !(get_store_other _ (_ + 2)) by lia.
        rewrite !(get_store_other _ (_ + 1)) by lia.
        rewrite !get_store_same by lia. auto.
      * rewrite !(get_store_other _ (_ + 2)) by lia.
        rewrite !get_store_same by (rewrite length_store; lia). auto.
      * rewrite !get_store_same by (rewrite !length_store; lia). auto.
Qed.

Lemma geometry_loop_spec startPos :
  forall todo i bufs,
    (i + todo <= PARTICLE_COUNT)%nat ->
    sized (physics bufs) (positions bufs) (colors bufs) ->
    let r := geometry_loop todo i startPos bufs in
    sized (physics r) (positions r) (colors r) /\
    (forall j, (j < i * 3 \/ (i + todo) * 3 <= j)%nat ->
       get (physics r) j = get (physics bufs) j) /\
    (forall j, (j < i * 15 \/ (i + todo) * 15 <= j)%nat ->
       get (positions r) j = get (positions bufs) j /\
       get (colors r) j = get (colors bufs) j) /\
    (forall q c, (i <= q < i + todo)%nat -> (c < 3)%nat ->
       get (physics r) (q * 3 + c) = get startPos (q * 3 + c) /\
       forall t, (t < TRAIL_LENGTH)%nat ->
         get (positions r) (vertex q t c) = get startPos (q * 3 + c) /\
         get (colors r) (vertex q t c) = Fin 1.0).
Proof.
  induction todo as [|todo IH]; intros i bufs Hi Hs.
  - cbn [geometry_loop]. split; [exact Hs|]. split; [reflexivity|].
    split; [auto | intros; lia].
  - cbn [geometry_loop].
    destruct (TrailFacts.sized_bounds _ _ _ i Hs ltac:(lia)) as (Hb1 & Hb2 & Hb3).
    set (ph := store (store (store (physics bufs) (i * 3) (get startPos (i * 3)))
                        (i * 3 + 1) (get startPos (i * 3 + 1)))
                 (i * 3 + 2) (get startPos (i * 3 + 2))).
    pose proof (geometry_trail_spec startPos i TRAIL_LENGTH 0 (positions bufs) (colors bufs)
                  ltac:(unfold TRAIL_LENGTH; lia) ltac:(unfold TRAIL_LENGTH; lia)) as H.
    cbv zeta in H. destruct H as (Hl1 & Hl2 & Hout & Hin).
    destruct (geometry_trail TRAIL_LENGTH 0 i startPos (positions bufs, colors bufs))
      as [pos cols].
    cbn [fst snd] in *.
    assert (Hsr : sized ph pos cols).
    { destruct Hs as (H1 & H2 & H3). unfold sized, ph.
      rewrite !length_store, Hl1, Hl2. auto. }
    pose proof (IH (S i) (mkBuffers ph pos cols) ltac:(lia) Hsr) as H.
    cbv zeta in H. destruct H as (Hs' & Hpo & Hqo & Hown).
    cbn [physics positions colors] in *.
    split; [exact Hs'|]. split.
    { intros j Hj. rewrite Hpo by lia. unfold ph.
      rewrite !get_store_other by lia. reflexivity. }
    split.
    { intros j Hj. destruct (Hqo j ltac:(lia)) as (-> & ->).
      apply Hout. unfold TRAIL_LENGTH. lia. }
    intros q c Hq Hc. destruct (Nat.eq_dec q i) as [->|Hne]; [|apply Hown; lia].
    split.
    + rewrite Hpo by lia. unfold ph.
      destruct c as [|[|[|c]]]; try lia; rewrite ?Nat.add_0_r.
      * rewrite (get_store_other _ (i * 3 + 2)) by lia.
        rewrite (get_store_other _ (i * 3 + 1)) by lia.
        apply get_store_same. lia.
      * rewrite (get_store_other _ (i * 3 + 2)) by lia.
        apply get_store_same. rewrite length_store. lia.
      * apply get_store_same. rewrite !length_store. lia.
    + intros t Ht. pose proof (TrailFacts.vertex_range i t c Ht Hc).
      destruct (Hqo (vertex i t c) ltac:(lia)) as (-> & ->).
      apply Hin; lia.
Qed.

(** X14.  The geometry memo starts every particle, and all five vertices of
    its trail, at its point of the start cloud, in white. *)
Theorem geometry_starts_trails_at_rest (startPos physicsPositions : Float32Array) :
  List.length physicsPositions = (PARTICLE_COUNT * 3)%nat ->
  let r := geometry startPos physicsPositions in
  sized (physics r) (positions r) (colors r) /\
  forall q c, (q < PARTICLE_COUNT)%nat -> (c < 3)%nat ->
    get (physics r) (q * 3 + c) = get startPos (q * 3 + c) /\
    forall t, (t < TRAIL_LENGTH)%nat ->
      get (positions r) (vertex q t c) = get startPos (q * 3 + c) /\
      get (colors r) (vertex q t c) = Fin 1.
Proof.
  intros Hlen. unfold geometry.
  assert (Hsz : sized physicsPositions (new_Float32Array (TOTAL_VERTICES * 3))
                      (new_Float32Array (TOTAL_VERTICES * 3))).
  { split; [exact Hlen|]. split; apply length_new. }
  pose proof (geometry_loop_spec startPos PARTICLE_COUNT 0
                (mkBuffers physicsPositions (new_Float32Array (TOTAL_VERTICES * 3))
                           (new_Float32Array (TOTAL_VERTICES * 3)))
                (Nat.le_refl _) Hsz) as H.
  cbv zeta in H. destruct H as (Hs & _ & _ & Hown).
  split; [exact Hs|].
  intros q c Hq Hc. destruct (Hown q c ltac:(lia) Hc) as (H1 & H2).
  split; [exact H1|]. intros t Ht. destruct (H2 t Ht) as (H3 & H4).
  split; [exact H3|]. rewrite H4. f_equal. lra.
Qed.

Lemma geometry_starts_trails_at_rest_witness :
  let r := geometry [] (new_Float32Array (PARTICLE_COUNT * 3)) in
  sized (physics r) (positions r) (colors r).
Proof.
  exact (proj1 (geometry_starts_trails_at_rest [] (new_Float32Array (PARTICLE_COUNT * 3))
                  (length_new _))).
Defined.

(** *** The random phases *)

Lemma randomOffsets_loop_spec rnd :
  random_source rnd ->
  forall todo i (offsets : Float32Array) fuel k,
    (i + todo <= List.length offsets)%nat ->
    (forall j, (j < i)%nat -> exists v, get offsets j = Fin v /\ 0 <= v < 2 * PI) ->
    exists final,
      randomOffsets_loop todo i offsets fuel rnd k = Ok final (k + todo)%nat /\
      List.length final = List.length offsets /\
      (forall j, (j < i + todo)%nat -> exists v, get final j = Fin v /\ 0 <= v < 2 * PI).
Proof.
  intros Hrnd. induction todo as [|todo IH]; intros i offsets fuel k Hlen Hdone.
  - exists offsets. rewrite !Nat.add_0_r. cbn [randomOffsets_loop]. unfold ret.
    split; [reflexivity|]. split; [reflexivity | exact Hdone].
  - cbn [randomOffsets_loop]. unfold bind, Math_random.
    change (Fin (rnd k) *! Math_PI *! 2) with (Fin (rnd k * PI * 2)).
    destruct (IH (S i) (store offsets i (Fin (rnd k * PI * 2))) fuel (S k))
      as (final & Hrun & Hl & Hall).
    { rewrite length_store. lia. }
    { intros j Hj. destruct (Nat.eq_dec j i) as [->|Hne].
      - rewrite get_store_same by lia. eexists. split; [reflexivity|].
        pose proof (Hrnd k). pose proof PI_RGT_0. nra.
      - rewrite get_store_other by lia. apply Hdone. lia. }
    exists final. split; [rewrite Hrun; f_equal; lia|].
    split; [rewrite Hl; apply length_store|].
    intros j Hj. apply Hall. lia.
Qed.

(** X15.  The phase memo draws once per particle and gives each a finite
    phase in [0, 2 PI). *)
Theorem randomOffsets_are_phases (rnd : nat -> R) (fuel k : nat) :
  random_source rnd ->
  exists offsets,
    randomOffsets fuel rnd k = Ok offsets (k + PARTICLE_COUNT)%nat /\
    List.length offsets = PARTICLE_COUNT /\
    forall j, (j < PARTICLE_COUNT)%nat ->
      exists v, get offsets j = Fin v /\ 0 <= v < 2 * PI.
Proof.
  intros Hrnd. unfold randomOffsets.
  destruct (randomOffsets_loop_spec rnd Hrnd PARTICLE_COUNT 0
              (new_Float32Array PARTICLE_COUNT) fuel k)
    as (final & Hrun & Hl & Hall).
  - rewrite length_new. lia.
  - intros j Hj. lia.
  - exists final. split; [exact Hrun|]. split; [rewrite Hl; apply length_new|].
    intros j Hj. apply Hall. lia.
Qed.

Lemma randomOffsets_are_phases_witness :
  exists offsets,
    randomOffsets 0%nat (fun _ => 1 / 2) 0%nat = Ok offsets (0 + PARTICLE_COUNT)%nat /\
    List.length offsets = PARTICLE_COUNT /\
    forall j, (j < PARTICLE_COUNT)%nat ->
      exists v, get offsets j = Fin v /\ 0 <= v < 2 * PI.
Proof.
  exact (randomOffsets_are_phases (fun _ => 1 / 2) 0%nat 0%nat
           SamplerFacts.random_source_half).
Defined.

(** *** The target memo *)

Import ResampleSpec.

Lemma resample_step (customPoints resampled : Float32Array) n todo i fuel rnd k :
  random_source rnd -> List.length customPoints = (n * 3)%nat ->
  exists s, ((s < n)%nat \/ n = 0%nat) /\
    resample_loop (S todo) i customPoints resampled fuel rnd k
    = resample_loop todo (S i) customPoints
        (store (store (store resampled (i * 3) (get customPoints (s * 3)))
                  (i * 3 + 1) (get customPoints (s * 3 + 1)))
           (i * 3 + 2) (get customPoints (s * 3 + 2)))
        fuel rnd (S k).
Proof.
  intros Hrnd Hlen.
  assert (Hdiv : Shapes.of_nat (List.length customPoints) /! 3 = Fin (INR n)).
  { rewrite Hlen. unfold Shapes.of_nat. rewrite ShapeFacts.ndiv_Fin by lra.
    f_equal. rewrite mult_INR. simpl. field. }
  destruct (FillFacts.source_index n (rnd k) (Hrnd k)) as (s & Es & Hs).
  exists s. split; [destruct Hs as [Hs|[Hs _]]; auto|].
  cbn [resample_loop]. unfold bind, Math_random. rewrite Hdiv.
  change (Math_floor (Fin (rnd k) *! Fin (INR n)))
    with (Fin (IZR (Zfloor (rnd k * INR n)))).
  rewrite Es.
  change (Fin (INR s) *! 3) with (Fin (INR s * 3)).
  change (Fin (INR s * 3) +! 1) with (Fin (INR s * 3 + INR 1)).
  change (Fin (INR s * 3) +! 2) with (Fin (INR s * 3 + INR 2)).
  rewrite !FillFacts.array_get_slot.
  replace (INR s * 3) with (INR s * 3 + INR 0) by (simpl; lra).
  rewrite FillFacts.array_get_slot. rewrite Nat.add_0_r. reflexivity.
Qed.

Lemma slot_store3_same (a : Float32Array) i x y z :
  (i * 3 + 2 < List.length a)%nat ->
  slot (store (store (store a (i * 3) x) (i * 3 + 1) y) (i * 3 + 2) z) i = (x, y, z).
Proof.
  intros H. unfold slot.
  rewrite (get_store_other _ (i * 3 + 2) (i * 3)) by lia.
  rewrite (get_store_other _ (i * 3 + 1) (i * 3)) by lia.
  rewrite get_store_same by lia.
  rewrite (get_store_other _ (i * 3 + 2) (i * 3 + 1)) by lia.
  rewrite get_store_same by (rewrite length_store; lia).
  rewrite get_store_same by (rewrite !length_store; lia). reflexivity.
Qed.

Lemma slot_store3_other (a : Float32Array) i q x y z :
  q <> i ->
  slot (store (store (store a (i * 3) x) (i * 3 + 1) y) (i * 3 + 2) z) q = slot a q.
Proof.
  intros H. unfold slot. rewrite !get_store_other by lia. reflexivity.
Qed.

Lemma resample_loop_copies (customPoints : Float32Array) n rnd fuel :
  random_source rnd -> List.length customPoints = (n * 3)%nat ->
  forall todo i (resampled : Float32Array) k,
    ((i + todo) * 3 <= List.length resampled)%nat ->
    (forall q, (q < i)%nat ->
       exists s, ((s < n)%nat \/ n = 0%nat) /\ slot resampled q = slot customPoints s) ->
    exists buf k',
      resample_loop todo i customPoints resampled fuel rnd k = Ok buf k' /\
      List.length buf = List.length resampled /\
      forall q, (q < i + todo)%nat ->
        exists s, ((s < n)%nat \/ n = 0%nat) /\ slot buf q = slot customPoints s.
Proof.
  intros Hrnd Hlen. induction todo as [|todo IH]; intros i resampled k Hl Hdone.
  - exists resampled, k. rewrite Nat.add_0_r. split; [reflexivity|].
    split; [reflexivity | exact Hdone].
  - destruct (resample_step customPoints resampled n todo i fuel rnd k Hrnd Hlen)
      as (s & Hs & ->).
    match goal with
    | |- context [resample_loop todo (S i) customPoints ?r fuel rnd (S k)] =>
        destruct (IH (S i) r (S k)) as (buf & k' & Hrun & Hlb & Hall)
    end.
    + rewrite !length_store. lia.
    + intros q Hq. destruct (Nat.eq_dec q i) as [->|Hne].
      * exists s. split; [exact Hs|]. rewrite slot_store3_same by lia. reflexivity.
      * rewrite slot_store3_other by exact Hne. apply Hdone. lia.
    + exists buf, k'. split; [exact Hrun|].
      split; [rewrite Hlb, !length_store; reflexivity|].
      intros q Hq. apply Hall. lia.
Qed.

(** X16.  A custom cloud of another size is resampled by copying whole
    points of it; an empty custom cloud gives a target of non-finite
    coordinates. *)
Theorem resampling_copies_whole_points
    (customPoints : Float32Array) (n : nat) (rnd : nat -> R) (fuel k : nat) :
  random_source rnd ->
  List.length customPoints = (n * 3)%nat ->
  n <> PARTICLE_COUNT ->
  exists buf k',
    targetPositions ShapeType.CUSTOM (Some customPoints) fuel rnd k = Ok buf k' /\
    List.length buf = (PARTICLE_COUNT * 3)%nat /\
    (forall q, (q < PARTICLE_COUNT)%nat ->
       exists s, ((s < n)%nat \/ n = 0%nat) /\ slot buf q = slot customPoints s) /\
    (n = 0%nat -> forall j, (j < PARTICLE_COUNT * 3)%nat -> get buf j = NaN).
Proof.
  intros Hrnd Hlen Hn. unfold targetPositions.
  rewrite String.eqb_refl.
  destruct (Nat.eqb_spec (List.length customPoints) (PARTICLE_COUNT * 3)) as [E|_];
    [lia|].
  rewrite TargetFacts.if_negb_false.
  destruct (resample_loop_copies customPoints n rnd fuel Hrnd Hlen PARTICLE_COUNT 0
              (new_Float32Array (PARTICLE_COUNT * 3)) k)
    as (buf & k' & Hrun & Hl & Hall).
  { rewrite length_new. lia. }
  { intros q Hq. lia. }
  exists buf, k'. split; [exact Hrun|]. split; [rewrite Hl; apply length_new|].
  split; [intros q Hq; apply Hall; lia|].
  intros H0 j Hj. subst n.
  destruct customPoints; [|discriminate Hlen].
  destruct (Hall (j / 3)%nat) as (s & _ & Hslot).
  { apply Nat.Div0.div_lt_upper_bound. lia. }
  unfold slot in Hslot. unfold get at 4 5 6 in Hslot.
  assert (Hnil : forall m, nth m (@nil num) NaN = NaN) by (intros [|m]; reflexivity).
  rewrite !Hnil in Hslot.
  pose proof (Nat.div_mod_eq j 3) as Hj3.
  pose proof (Nat.mod_upper_bound j 3 ltac:(lia)) as Hm.
  injection Hslot as H1 H2 H3.
  destruct (j mod 3)%nat as [|[|[|m]]] eqn:Em; try lia.
  - replace j with (j / 3 * 3)%nat by lia. exact H1.
  - replace j with (j / 3 * 3 + 1)%nat by lia. exact H2.
  - replace j with (j / 3 * 3 + 2)%nat by lia. exact H3.
Qed.

Lemma resampling_copies_whole_points_witness :
  exists buf k',
    targetPositions ShapeType.CUSTOM (Some [Fin 1; Fin 2; Fin 3]) 0%nat (fun _ => 1 / 2) 0%nat
    = Ok buf k' /\
    List.length buf = (PARTICLE_COUNT * 3)%nat /\
    (forall q, (q < PARTICLE_COUNT)%nat ->
       exists s, ((s < 1)%nat \/ 1%nat = 0%nat) /\
                 slot buf q = slot [Fin 1; Fin 2; Fin 3] s) /\
    (1%nat = 0%nat -> forall j, (j < PARTICLE_COUNT * 3)%nat -> get buf j = NaN).
Proof.
  apply (resampling_copies_whole_points [Fin 1; Fin 2; Fin 3] 1 (fun _ => 1 / 2) 0%nat 0%nat).
  - exact SamplerFacts.random_source_half.
  - reflexivity.
  - unfold PARTICLE_COUNT. lia.
Defined.

End MemoFacts.

(* ================================================================== *)
(** ** The stroke resampler: what it writes *)
(* ================================================================== *)

Module DrawingFacts.
Import DrawingCanvas ResampleSpec PlacementSpec WalkSpec FillSpec BoxSpec.

(** *** The walk never rewrites a point it has placed *)

Section Keeps.

Variables centerX centerY scale : num.
Variable rnd : nat -> R.

Lemma find_segment_keeps path targetDist fuel :
  forall todo w k,
    (todo <= List.length path - 1 - currentSegIdx w)%nat ->
    exists w' k',
      find_segment centerX centerY scale todo path targetDist w fuel rnd k = Ok w' k' /\
      List.length (positions w') = List.length (positions w) /\
      (pIdx w <= pIdx w' <= S (pIdx w))%nat /\
      (forall j, (j < pIdx w * 3)%nat -> get (positions w') j = get (positions w) j).
Proof.
  induction todo as [|todo IH]; intros w k Htodo.
  - exists w, k. split; [reflexivity | split; [reflexivity | split; [lia | auto]]].
  - cbn [find_segment].
    destruct (nth_error path (currentSegIdx w)) as [p1|] eqn:E1;
      [|apply nth_error_None in E1; lia].
    destruct (nth_error path (S (currentSegIdx w))) as [p2|] eqn:E2;
      [|apply nth_error_None in E2; lia].
    destruct (nge _ _).
    + unfold bind, Math_random, ret. eexists. eexists. split; [reflexivity|].
      cbn [positions pIdx]. rewrite !length_store.
      split; [reflexivity|]. split; [lia|].
      intros j Hj. rewrite !get_store_other by lia. reflexivity.
    + match goal with
      | |- context [find_segment _ _ _ todo path targetDist ?w1 fuel rnd k] =>
          destruct (IH w1 k) as (w' & k' & Hrun & Hl & Hp & Hlow);
            [cbn [currentSegIdx]; lia|]
      end.
      exists w', k'. split; [exact Hrun|]. exact (conj Hl (conj Hp Hlow)).
Qed.

Lemma walk_for_keeps path step fuel :
  forall todo i w k,
    exists w' k',
      walk_for centerX centerY scale todo i path step w fuel rnd k = Ok w' k' /\
      List.length (positions w') = List.length (positions w) /\
      (pIdx w <= pIdx w')%nat /\
      (forall j, (j < pIdx w * 3)%nat -> get (positions w') j = get (positions w) j).
Proof.
  induction todo as [|todo IH]; intros i w k.
  - exists w, k. split; [reflexivity | split; [reflexivity | split; [lia | auto]]].
  - cbn [walk_for]. destruct (pIdx w <? COUNT)%nat.
    + destruct (find_segment_keeps path (Shapes.of_nat i *! step) fuel
                  (List.length path - 1 - currentSegIdx w) w k (Nat.le_refl _))
        as (w1 & k1 & Hrun1 & Hl1 & Hp1 & Hlow1).
      destruct (IH (S i) w1 k1) as (w2 & k2 & Hrun2 & Hl2 & Hp2 & Hlow2).
      exists w2, k2. unfold bind. rewrite Hrun1. split; [exact Hrun2|].
      split; [congruence|]. split; [lia|].
      intros j Hj. rewrite Hlow2 by lia. apply Hlow1. exact Hj.
    + exists w, k. split; [reflexivity | split; [reflexivity | split; [lia | auto]]].
Qed.

Lemma walk_path_keeps pathLengths totalLength acc path idx fuel k :
  exists acc' k',
    walk_path centerX centerY scale pathLengths totalLength acc path idx fuel rnd k
    = Ok acc' k' /\
    List.length (fst acc') = List.length (fst acc) /\
    (snd acc <= snd acc')%nat /\
    (forall j, (j < snd acc * 3)%nat -> get (fst acc') j = get (fst acc) j).
Proof.
  unfold walk_path.
  destruct (neq totalLength 0);
    [exists acc, k; split; [reflexivity | split; [reflexivity | split; [lia | auto]]]|].
  destruct (List.length path <? 2)%nat;
    [exists acc, k; split; [reflexivity | split; [reflexivity | split; [lia | auto]]]|].
  destruct (walk_for_keeps path
              (get pathLengths idx /! numPointsForPath pathLengths totalLength idx) fuel
              (iterations (numPointsForPath pathLengths totalLength idx)) 0%nat
              (mkWalk (fst acc) (snd acc) 0 0) k)
    as (w & k' & Hrun & Hl & Hp & Hlow).
  exists (positions w, pIdx w), k'. unfold bind. rewrite Hrun.
  split; [reflexivity|]. cbn [fst snd positions pIdx] in *. auto.
Qed.

Lemma walk_paths_keeps pathLengths totalLength fuel :
  forall flatPaths acc idx k,
    exists acc' k',
      walk_paths centerX centerY scale pathLengths totalLength acc flatPaths idx fuel rnd k
      = Ok acc' k' /\
      List.length (fst acc') = List.length (fst acc) /\
      (snd acc <= snd acc')%nat /\
      (forall j, (j < snd acc * 3)%nat -> get (fst acc') j = get (fst acc) j).
Proof.
  induction flatPaths as [|path rest IH]; intros acc idx k.
  - exists acc, k. split; [reflexivity | split; [reflexivity | split; [lia | auto]]].
  - cbn [walk_paths].
    destruct (walk_path_keeps pathLengths totalLength acc path idx fuel k)
      as (acc1 & k1 & Hrun1 & Hl1 & Hp1 & Hlow1).
    destruct (IH acc1 (S idx) k1) as (acc2 & k2 & Hrun2 & Hl2 & Hp2 & Hlow2).
    exists acc2, k2. unfold bind. rewrite Hrun1. split; [exact Hrun2|].
    split; [congruence|]. split; [lia|].
    intros j Hj. rewrite Hlow2 by lia. apply Hlow1. exact Hj.
Qed.

End Keeps.

(** *** Saving always hands over a full cloud *)

Lemma processAndSave_saves paths currentPath canvas rnd fuel k :
  random_source rnd -> (2 <= List.length (List.concat paths))%nat ->
  exists ps placed k1 final k2,
    walked paths canvas fuel rnd k = Ok (ps, placed) k1 /\
    List.length ps = (COUNT * 3)%nat /\ (placed <= COUNT)%nat /\
    fill_while (COUNT - placed) ps placed fuel rnd k1 = Ok final k2 /\
    processAndSave paths currentPath canvas fuel rnd k = Ok (onSave final) k2 /\
    List.length final = (COUNT * 3)%nat /\
    (forall i, (i < placed * 3)%nat -> get final i = get ps i).
Proof.
  intros Hrnd Hpts.
  destruct (FillFacts.walked_ok paths canvas rnd fuel k)
    as (ps & placed & k1 & Hw & Hl & Hp & Hz).
  rewrite FillFacts.processAndSave_unfold by assumption. rewrite Hw. cbn [fst snd].
  exists ps, placed, k1.
  destruct (Nat.eq_dec placed 0) as [->|Hne].
  - rewrite (Hz eq_refl), FillFacts.fill_while_zeros by (assumption || lia).
    eexists. eexists. split; [reflexivity|]. split; [apply length_new|]. split; [lia|].
    split; [reflexivity|]. split; [reflexivity|]. split; [apply length_new|].
    intros i Hi. lia.
  - destruct (FillFacts.fill_while_copies rnd placed Hrnd ltac:(lia) (COUNT - placed)
                placed ps fuel k1 (Nat.le_refl _) ltac:(lia) Hl)
      as (final & k2 & Hrun & Hlf & Hlow & _).
    { intros q Hq. lia. }
    rewrite Hrun. exists final, k2.
    split; [reflexivity|]. split; [exact Hl|]. split; [exact Hp|].
    split; [reflexivity|]. split; [reflexivity|]. split; [exact Hlf | exact Hlow].
Qed.

Lemma COUNT_is_PARTICLE_COUNT : COUNT = ParticleScene.PARTICLE_COUNT.
Proof. reflexivity. Qed.

(** X17.  A saved drawing has exactly the size of the scene, so the scene
    shows it as resampled by the canvas: [App] makes it the custom cloud
    and the current shape, and the target memo hands it on unchanged,
    without a draw. *)
Theorem saved_drawing_is_the_target
    (paths : list Path) (currentPath : Path) (canvas : Canvas)
    (rnd : nat -> R) (fuel k : nat) (now : R) (w : App.World) :
  random_source rnd ->
  (2 <= List.length (List.concat paths))%nat ->
  exists ps k',
    processAndSave paths currentPath canvas fuel rnd k = Ok (onSave ps) k' /\
    let w' := fst (App.handleSaveDrawing now ps w) in
    App.currentShape (App.app w') = ShapeType.CUSTOM /\
    App.customPoints (App.app w') = Some ps /\
    App.showDrawingCanvas (App.app w') = false /\
    forall fuel' rnd' k'',
      ParticleScene.targetPositions (App.currentShape (App.app w'))
        (App.customPoints (App.app w')) fuel' rnd' k'' = Ok ps k''.
Proof.
  intros Hrnd Hpts.
  destruct (processAndSave_saves paths currentPath canvas rnd fuel k Hrnd Hpts)
    as (ps & placed & k1 & final & k2 & _ & _ & _ & _ & Hrun & Hl & _).
  exists final, k2. split; [exact Hrun|].
  cbv zeta. cbn [App.handleSaveDrawing fst App.app App.currentShape App.customPoints
                 App.showDrawingCanvas].
  split; [reflexivity|]. split; [reflexivity|]. split; [reflexivity|].
  intros fuel' rnd' k''. unfold ParticleScene.targetPositions.
  rewrite String.eqb_refl.
  destruct (Nat.eqb_spec (List.length final) (ParticleScene.PARTICLE_COUNT * 3)) as [_|Hne].
  - rewrite TargetFacts.if_negb_true. reflexivity.
  - exfalso. apply Hne. rewrite Hl, COUNT_is_PARTICLE_COUNT. reflexivity.
Qed.

Lemma saved_drawing_is_the_target_witness :
  exists ps k',
    processAndSave ResampleExamples.two_strokes [] ResampleExamples.a_canvas
      0%nat (fun _ => 0) 0%nat = Ok (onSave ps) k' /\
    forall fuel' rnd' k'',
      ParticleScene.targetPositions ShapeType.CUSTOM (Some ps) fuel' rnd' k'' = Ok ps k''.
Proof.
  destruct (saved_drawing_is_the_target ResampleExamples.two_strokes []
              ResampleExamples.a_canvas (fun _ => 0) 0%nat 0%nat 0
              (App.mkWorld App.initial AudioManager.constructed))
    as (ps & k' & Hrun & _ & _ & _ & Ht).
  - intros j. lra.
  - simpl. lia.
  - exists ps, k'. split; [exact Hrun | exact Ht].
Defined.

(** X18.  The stroke still being drawn is not saved: the outcome does not
    depend on it, and with fewer than two points in the finished strokes
    the canvas is closed without saving and without a draw. *)
Theorem unfinished_stroke_is_ignored
    (paths : list Path) (currentPath currentPath' : Path) (canvas : Canvas) :
  processAndSave paths currentPath canvas = processAndSave paths currentPath' canvas /\
  ((List.length (List.concat paths) < 2)%nat ->
   processAndSave paths currentPath canvas = ret onClose).
Proof.
  assert (H : forall cp, (List.length (List.concat paths) < 2)%nat ->
                processAndSave paths cp canvas = ret onClose).
  { intros cp Hlt. unfold processAndSave.
    destruct ((List.length paths =? 0)%nat && (List.length cp =? 0)%nat)%bool;
      [reflexivity|].
    destruct (Nat.ltb_spec (List.length (List.concat paths)) 2) as [_|Hge];
      [reflexivity | lia]. }
  split; [|apply H].
  destruct (Nat.lt_ge_cases (List.length (List.concat paths)) 2) as [Hlt|Hge].
  - rewrite !H by exact Hlt. reflexivity.
  - unfold processAndSave.
    destruct paths as [|p rest]; [simpl in Hge; lia|].
    reflexivity.
Qed.

(** *** A repeated first point *)

Lemma find_segment_repeated centerX centerY scale rnd p0 p1 rest todo (td : R) w fuel k :
  x p0 = x p1 -> y p0 = y p1 -> td <= 0 ->
  currentSegIdx w = 0%nat -> distanceWalked w = Fin 0 ->
  find_segment centerX centerY scale (S todo) (p0 :: p1 :: rest) (Fin td) w fuel rnd k
  = Ok (mkWalk (store (store (store (positions w) (pIdx w * 3) NaN) (pIdx w * 3 + 1) NaN)
                  (pIdx w * 3 + 2) ((Fin (rnd k) -! 0.5) *! 0.5))
               (S (pIdx w)) (Fin 0) 0%nat) (S k).
Proof.
  intros Hx Hy Htd Hc Hd. cbn [find_segment]. rewrite Hc, Hd. cbn [nth_error].
  rewrite PlacementFacts.segLen_value.
  assert (Hz : sqrt ((x p1 - x p0) * (x p1 - x p0) + (y p1 - y p0) * (y p1 - y p0)) = 0).
  { rewrite Hx, Hy.
    replace ((x p1 - x p1) * (x p1 - x p1) + (y p1 - y p1) * (y p1 - y p1)) with 0 by ring.
    apply sqrt_0. }
  rewrite Hz.
  assert (Hge : (Fin 0 +! Fin 0 >=! Fin td) = true).
  { cbn [nadd lift2 nge]. destruct (Rle_dec td (0 + 0)); [reflexivity | lra]. }
  assert (Ht : (Fin td -! Fin 0) /! Fin 0 = NaN).
  { cbn [nsub lift2 ndiv].
    destruct (Req_dec_T 0 0) as [_|Hn]; [reflexivity | contradiction Hn; reflexivity]. }
  rewrite Hge, Ht.
  assert (Em : forall a : num, a *! NaN = NaN) by (intros [a|]; reflexivity).
  assert (Ea : forall a : num, a +! NaN = NaN) by (intros [a|]; reflexivity).
  rewrite !Em, !Ea.
  assert (E1 : (NaN /! scale) = NaN) by (destruct scale; reflexivity).
  assert (E2 : (nneg NaN /! scale) = NaN) by (destruct scale; reflexivity).
  assert (E3 : (NaN -! centerX) = NaN) by (destruct centerX; reflexivity).
  assert (E4 : (NaN -! centerY) = NaN) by (destruct centerY; reflexivity).
  rewrite E3, E4, E1, E2. reflexivity.
Qed.

(** X19.  If the first stroke starts with a repeated point, the first point
    of the saved cloud is not a number: the walk divides by the zero
    length of the first segment. *)
Theorem repeated_first_point_is_lost
    (p0 p1 : Pt) (rest : Path) (others : list Path) (currentPath : Path)
    (canvas : Canvas) (rnd : nat -> R) (fuel k : nat) :
  let paths := (p0 :: p1 :: rest) :: others in
  random_source rnd ->
  x p0 = x p1 -> y p0 = y p1 ->
  0 < total_length paths ->
  (1 <= allocation_floor paths 0)%Z ->
  exists ps k',
    processAndSave paths currentPath canvas fuel rnd k = Ok (onSave ps) k' /\
    List.length ps = (COUNT * 3)%nat /\
    get ps 0 = NaN /\ get ps 1 = NaN.
Proof.
  intros paths Hrnd Hx Hy HT Halloc.
  assert (Hpts : (2 <= List.length (List.concat paths))%nat).
  { unfold paths. cbn [List.concat]. rewrite length_app. cbn [List.length]. lia. }
  destruct (processAndSave_saves paths currentPath canvas rnd fuel k Hrnd Hpts)
    as (ps & placed & k1 & final & k2 & Hw & Hl & Hp & _ & Hrun & Hlf & Hlow).
  exists final, k2. split; [exact Hrun|]. split; [exact Hlf|].
  (* the first round of the walk of the first stroke *)
  unfold walked in Hw. rewrite AllocationFacts.measure_lengths in Hw.
  unfold paths in Hw at 3. cbn [walk_paths] in Hw. unfold bind at 1 in Hw.
  set (cx := Fin (width canvas) /! 2) in *.
  set (cy := Fin (height canvas) /! 2) in *.
  set (sc := Math_min (width canvas) (height canvas) /! 5) in *.
  set (ls := map (fun p => Fin (polyline_length p)) paths) in *.
  assert (Hfirst : exists acc1 k',
             walk_path cx cy sc ls (Fin (total_length paths))
               (new_Float32Array (COUNT * 3), 0%nat) (p0 :: p1 :: rest) 0 fuel rnd k
             = Ok acc1 k' /\
             List.length (fst acc1) = (COUNT * 3)%nat /\
             (1 <= snd acc1)%nat /\
             get (fst acc1) 0 = NaN /\ get (fst acc1) 1 = NaN).
  { unfold walk_path. cbn [neq].
    destruct (Req_dec_T (total_length paths) 0) as [E|_]; [lra|].
    cbn [List.length Nat.ltb Nat.leb].
    pose proof (AllocationFacts.allocated_floor paths 0 ltac:(unfold paths; cbn; lia)
                  ltac:(lra)) as Hn.
    unfold allocated in Hn. rewrite AllocationFacts.measure_lengths in Hn.
    cbn [fst snd] in Hn. fold ls in Hn. rewrite Hn.
    assert (Eit : iterations (Fin (IZR (allocation_floor paths 0)))
                  = Z.to_nat (allocation_floor paths 0)).
    { unfold iterations, Zceil. rewrite <- opp_IZR, ZfloorZ. f_equal. lia. }
    rewrite Eit.
    destruct (Z.to_nat (allocation_floor paths 0)) as [|m] eqn:Em; [lia|].
    unfold ls. rewrite AllocationFacts.get_map_length by (unfold paths; cbn; lia).
    rewrite ShapeFacts.ndiv_Fin by (apply not_0_IZR; lia).
    cbn [walk_for fst snd pIdx].
    destruct (Nat.ltb_spec 0 COUNT) as [_|H0]; [|unfold COUNT in H0; lia].
    unfold bind.
    change (Shapes.of_nat 0 *! Fin (polyline_length (nth 0 paths []) / IZR (allocation_floor paths 0)))
      with (Fin (INR 0 * (polyline_length (nth 0 paths []) / IZR (allocation_floor paths 0)))).
    cbn [currentSegIdx List.length Nat.sub].
    rewrite (find_segment_repeated cx cy sc rnd p0 p1 rest (List.length rest)
               _ (mkWalk (new_Float32Array (COUNT * 3)) 0 (Fin 0) 0) fuel k Hx Hy)
      by (try reflexivity; simpl INR; lra).
    cbn [positions pIdx Nat.mul Nat.add].
    match goal with
    | |- context [walk_for cx cy sc m 1 ?path ?step ?w1 fuel rnd (S k)] =>
        destruct (walk_for_keeps cx cy sc rnd path step fuel m 1%nat w1 (S k))
          as (w2 & k' & Hrun2 & Hl2 & Hp2 & Hlow2)
    end.
    cbn [positions pIdx] in *. rewrite Hrun2. unfold ret.
    exists (positions w2, pIdx w2), k'. cbn [fst snd].
    split; [reflexivity|].
    assert (Hlen3 : (2 < List.length (new_Float32Array (COUNT * 3)))%nat).
    { rewrite length_new. unfold COUNT. lia. }
    split; [rewrite Hl2, !length_store; apply length_new|]. split; [lia|].
    split.
    - rewrite Hlow2 by lia.
      rewrite (get_store_other _ 2 0) by lia. rewrite (get_store_other _ 1 0) by lia.
      apply get_store_same. lia.
    - rewrite Hlow2 by lia.
      rewrite (get_store_other _ 2 1) by lia.
      apply get_store_same. rewrite length_store. lia. }
  destruct Hfirst as (acc1 & k' & Hrun1 & Hl1 & Hp1 & H0 & H1).
  rewrite Hrun1 in Hw.
  destruct (walk_paths_keeps cx cy sc rnd ls (Fin (total_length paths)) fuel
              others acc1 1%nat k')
    as (acc2 & k'' & Hrun2 & Hl2 & Hp2 & Hlow2).
  rewrite Hrun2 in Hw. injection Hw as Hacc _. subst acc2. cbn [fst snd] in *.
  split.
  - rewrite Hlow by lia. rewrite Hlow2 by lia. exact H0.
  - rewrite Hlow by lia. rewrite Hlow2 by lia. exact H1.
Qed.

Lemma repeated_start_lengths :
  total_length [[mkPt 0 0; mkPt 0 0; mkPt 1 0]] = 1 /\
  budget [[mkPt 0 0; mkPt 0 0; mkPt 1 0]] 0 = 8000.
Proof.
  assert (H : polyline_length [mkPt 0 0; mkPt 0 0; mkPt 1 0] = 1).
  { cbn [polyline_length x y].
    replace ((0 - 0) * (0 - 0) + (0 - 0) * (0 - 0)) with 0 by lra.
    replace ((1 - 0) * (1 - 0) + (0 - 0) * (0 - 0)) with 1 by lra.
    rewrite sqrt_0, sqrt_1. lra. }
  assert (Ht : total_length [[mkPt 0 0; mkPt 0 0; mkPt 1 0]] = 1).
  { cbn [total_length]. rewrite H. lra. }
  split; [exact Ht|].
  unfold budget. rewrite Ht. cbn [nth]. rewrite H, AllocationFacts.INR_COUNT. lra.
Qed.

Lemma repeated_first_point_is_lost_witness :
  exists ps k',
    processAndSave [[mkPt 0 0; mkPt 0 0; mkPt 1 0]] [] ResampleExamples.a_canvas
      0%nat (fun _ => 0) 0%nat = Ok (onSave ps) k' /\
    List.length ps = (COUNT * 3)%nat /\
    get ps 0 = NaN /\ get ps 1 = NaN.
Proof.
  apply (repeated_first_point_is_lost (mkPt 0 0) (mkPt 0 0) [mkPt 1 0] [] []
           ResampleExamples.a_canvas (fun _ => 0) 0%nat 0%nat).
  - intros j. lra.
  - reflexivity.
  - reflexivity.
  - apply Rlt_le_trans with 1; [lra|].
    apply Req_le. symmetry. exact (proj1 repeated_start_lengths).
  - unfold allocation_floor. apply Zfloor_lub.
    apply Rle_trans with 8000; [lra|].
    apply Req_le. symmetry. exact (proj2 repeated_start_lengths).
Defined.

(** *** Strokes inside the canvas land inside the box *)

Section Boxed.

Variable canvas : Canvas.
Variable rnd : nat -> R.
Hypothesis Hrnd : random_source rnd.
Hypothesis Hwidth : 0 < width canvas.
Hypothesis Hheight : 0 < height canvas.

Let cx : num := Fin (width canvas) /! 2.
Let cy : num := Fin (height canvas) /! 2.
Let sc : num := Math_min (width canvas) (height canvas) /! 5.

Lemma min_side_pos : 0 < Rmin (width canvas) (height canvas) / 5.
Proof. unfold Rmin. destruct (Rle_dec _ _); lra. Qed.

Lemma half_sizes_nonneg : 0 <= half_width canvas /\ 0 <= half_height canvas.
Proof.
  pose proof min_side_pos as Hm. unfold half_width, half_height.
  split; apply Rmult_le_pos; try lra; left; apply Rinv_0_lt_compat; exact Hm.
Qed.

Lemma boxed_zero : boxed canvas (Fin 0, Fin 0, Fin 0).
Proof.
  destruct half_sizes_nonneg as (H1 & H2).
  exists 0, 0, 0. rewrite Rabs_R0. repeat split; try assumption; lra.
Qed.

(** A point of a segment inside the canvas, centred and scaled. *)
Lemma placed_point_boxed (p1 p2 : Pt) (tau u : R) :
  0 <= x p1 <= width canvas -> 0 <= y p1 <= height canvas ->
  0 <= x p2 <= width canvas -> 0 <= y p2 <= height canvas ->
  0 <= tau <= 1 -> 0 <= u < 1 ->
  boxed canvas
    ((Fin (x p1) +! (Fin (x p2) -! Fin (x p1)) *! Fin tau -! cx) /! sc,
     nneg (Fin (y p1) +! (Fin (y p2) -! Fin (y p1)) *! Fin tau -! cy) /! sc,
     (Fin u -! 0.5) *! 0.5).
Proof.
  intros Hx1 Hy1 Hx2 Hy2 Ht Hu. pose proof min_side_pos as Hm.
  unfold cx, cy, sc. rewrite !ShapeFacts.ndiv_Fin by lra.
  cbn [nadd nsub nmul nneg lift1 lift2 Math_min].
  rewrite !ShapeFacts.ndiv_Fin by lra.
  eexists. eexists. eexists. split; [reflexivity|].
  assert (Hpx : 0 <= x p1 + (x p2 - x p1) * tau <= width canvas) by nra.
  assert (Hpy : 0 <= y p1 + (y p2 - y p1) * tau <= height canvas) by nra.
  split; [|split].
  - unfold half_width. apply Bounds.bd_div; [exact Hm|].
    apply Rabs_le. lra.
  - unfold half_height. apply Bounds.bd_div; [exact Hm|].
    apply Rabs_le. lra.
  - apply Rabs_le. lra.
Qed.

Lemma all_boxed_store3 (ps : Float32Array) p X Y Z :
  List.length ps = (COUNT * 3)%nat -> (p < COUNT)%nat ->
  all_boxed canvas ps -> boxed canvas (X, Y, Z) ->
  all_boxed canvas (store (store (store ps (p * 3) X) (p * 3 + 1) Y) (p * 3 + 2) Z).
Proof.
  intros Hl Hp Hall Hb q Hq. destruct (Nat.eq_dec q p) as [->|Hne].
  - rewrite MemoFacts.slot_store3_same by lia. exact Hb.
  - rewrite MemoFacts.slot_store3_other by exact Hne. apply Hall. exact Hq.
Qed.

Lemma find_segment_boxed path (td : R) fuel :
  in_canvas canvas path -> no_repeat path ->
  td <= polyline_length path ->
  forall todo w k,
    (todo = List.length path - 1 - currentSegIdx w)%nat -> (0 < todo)%nat ->
    distanceWalked w = Fin (prefix_length path (currentSegIdx w)) ->
    prefix_length path (currentSegIdx w) <= td ->
    (pIdx w < COUNT)%nat ->
    List.length (positions w) = (COUNT * 3)%nat ->
    all_boxed canvas (positions w) ->
    exists w' k',
      find_segment cx cy sc todo path (Fin td) w fuel rnd k = Ok w' k' /\
      List.length (positions w') = (COUNT * 3)%nat /\
      pIdx w' = S (pIdx w) /\
      (currentSegIdx w' < List.length path - 1)%nat /\
      distanceWalked w' = Fin (prefix_length path (currentSegIdx w')) /\
      prefix_length path (currentSegIdx w') <= td /\
      all_boxed canvas (positions w').
Proof.
  intros Hin Hrep Htd.
  induction todo as [|todo IH]; intros w k Htodo Hpos Hd Hpre Hroom Hl Hall; [lia|].
  cbn [find_segment].
  destruct (nth_error path (currentSegIdx w)) as [p1|] eqn:E1;
    [|apply nth_error_None in E1; lia].
  destruct (nth_error path (S (currentSegIdx w))) as [p2|] eqn:E2;
    [|apply nth_error_None in E2; lia].
  rewrite PlacementFacts.segLen_value, Hd.
  assert (Hseg : seg_len path (currentSegIdx w)
                 = sqrt ((x p2 - x p1) * (x p2 - x p1) + (y p2 - y p1) * (y p2 - y p1))).
  { unfold seg_len. rewrite E1, E2. reflexivity. }
  rewrite <- Hseg. cbn [nadd lift2 nge].
  pose proof (Hrep (currentSegIdx w) ltac:(lia)) as Hsegpos.
  destruct (Rle_dec td (prefix_length path (currentSegIdx w) + seg_len path (currentSegIdx w)))
    as [Hhit|Hmiss].
  - unfold bind, Math_random, ret. eexists. eexists. split; [reflexivity|].
    cbn [positions pIdx currentSegIdx distanceWalked]. rewrite !length_store.
    split; [exact Hl|]. split; [reflexivity|]. split; [lia|].
    split; [reflexivity|]. split; [exact Hpre|].
    cbn [nsub lift2]. rewrite ShapeFacts.ndiv_Fin by lra.
    apply all_boxed_store3; try assumption.
    unfold in_canvas in Hin. rewrite Forall_forall in Hin.
    pose proof (Hin p1 (nth_error_In _ _ E1)) as (Hx1 & Hy1).
    pose proof (Hin p2 (nth_error_In _ _ E2)) as (Hx2 & Hy2).
    apply placed_point_boxed; try assumption; [|apply Hrnd].
    split.
    + apply Rmult_le_pos; [lra | left; apply Rinv_0_lt_compat; exact Hsegpos].
    + apply Rmult_le_reg_r with (seg_len path (currentSegIdx w)); [exact Hsegpos|].
      unfold Rdiv. rewrite Rmult_assoc, Rinv_l by lra. lra.
  - assert (Hmore : (0 < todo)%nat).
    { destruct todo as [|t]; [|lia]. exfalso. apply Hmiss.
      rewrite PlacementFacts.polyline_length_prefix in Htd.
      replace (List.length path - 1)%nat with (S (currentSegIdx w)) in Htd by lia.
      cbn [prefix_length] in Htd. exact Htd. }
    destruct (IH (mkWalk (positions w) (pIdx w)
                    (Fin (prefix_length path (currentSegIdx w) + seg_len path (currentSegIdx w)))
                    (S (currentSegIdx w))) k)
      as (w' & k' & Hrun & Hl' & Hp & Hc & Hd' & Hpre' & Hall').
    + cbn [currentSegIdx]. lia.
    + exact Hmore.
    + reflexivity.
    + cbn [currentSegIdx prefix_length]. lra.
    + exact Hroom.
    + exact Hl.
    + exact Hall.
    + exists w', k'. split; [exact Hrun|]. cbn [positions pIdx] in *. auto 10.
Qed.

Lemma walk_for_boxed path (n : nat) fuel :
  in_canvas canvas path -> no_repeat path ->
  (0 < n)%nat -> (2 <= List.length path)%nat ->
  forall todo i w k,
    (i + todo = n)%nat -> (pIdx w + todo <= COUNT)%nat ->
    (currentSegIdx w < List.length path - 1)%nat ->
    distanceWalked w = Fin (prefix_length path (currentSegIdx w)) ->
    prefix_length path (currentSegIdx w) <= INR i * (polyline_length path / INR n) ->
    List.length (positions w) = (COUNT * 3)%nat ->
    all_boxed canvas (positions w) ->
    exists w' k',
      walk_for cx cy sc todo i path (Fin (polyline_length path / INR n)) w
        fuel rnd k = Ok w' k' /\
      List.length (positions w') = (COUNT * 3)%nat /\
      pIdx w' = (pIdx w + todo)%nat /\
      all_boxed canvas (positions w').
Proof.
  intros Hin Hrep Hn Hlen.
  induction todo as [|todo IH]; intros i w k Hi Hroom Hc Hd Hpre Hl Hall.
  - exists w, k. split; [reflexivity|]. split; [exact Hl|]. split; [lia | exact Hall].
  - cbn [walk_for]. destruct (Nat.ltb_spec (pIdx w) COUNT) as [_|Hfull]; [|lia].
    pose proof (AllocationFacts.polyline_length_nonneg path) as HL.
    assert (Hn' : 0 < INR n) by (apply lt_0_INR; lia).
    assert (Hstep : 0 <= polyline_length path / INR n).
    { apply Rmult_le_pos; [lra | left; apply Rinv_0_lt_compat; lra]. }
    assert (Htd : INR i * (polyline_length path / INR n) <= polyline_length path).
    { assert (Hi' : INR i <= INR n) by (apply le_INR; lia).
      pose proof (pos_INR i) as Hi0.
      replace (INR i * (polyline_length path / INR n))
        with (polyline_length path * (INR i / INR n)) by (field; lra).
      assert (Hfrac : INR i / INR n <= 1).
      { apply Rmult_le_reg_r with (INR n); [lra|].
        unfold Rdiv. rewrite Rmult_assoc, Rinv_l by lra. lra. }
      assert (0 <= INR i / INR n).
      { apply Rmult_le_pos; [lra | left; apply Rinv_0_lt_compat; lra]. }
      nra. }
    change (Shapes.of_nat i *! Fin (polyline_length path / INR n))
      with (Fin (INR i * (polyline_length path / INR n))).
    destruct (find_segment_boxed path _ fuel Hin Hrep Htd
                (List.length path - 1 - currentSegIdx w) w k eq_refl ltac:(lia) Hd Hpre
                ltac:(lia) Hl Hall)
      as (w1 & k1 & Hrun1 & Hl1 & Hp1 & Hc1 & Hd1 & Hpre1 & Hall1).
    destruct (IH (S i) w1 k1 ltac:(lia) ltac:(lia) Hc1 Hd1) as (w2 & k2 & Hrun2 & Hl2 & Hp2 & Hall2).
    { rewrite S_INR. nra. }
    { exact Hl1. }
    { exact Hall1. }
    exists w2, k2. unfold bind. rewrite Hrun1. split; [exact Hrun2|].
    split; [exact Hl2|]. split; [lia | exact Hall2].
Qed.

Lemma walk_path_boxed paths idx path (acc : Float32Array * nat) fuel k :
  in_canvas canvas path -> no_repeat path ->
  nth_error paths idx = Some path -> 0 < total_length paths ->
  (snd acc + Z.to_nat (allocation_floor paths idx) <= COUNT)%nat ->
  List.length (fst acc) = (COUNT * 3)%nat -> all_boxed canvas (fst acc) ->
  exists acc' k',
    walk_path cx cy sc (fst (measure paths)) (snd (measure paths))
      acc path idx fuel rnd k = Ok acc' k' /\
    List.length (fst acc') = (COUNT * 3)%nat /\
    snd acc' = (snd acc + Z.to_nat (allocation_floor paths idx))%nat /\
    all_boxed canvas (fst acc').
Proof.
  intros Hin Hrep Hnth HT Hroom Hl Hall.
  assert (Hidx : (idx < List.length paths)%nat) by (apply nth_error_Some; congruence).
  assert (Hpath : nth idx paths [] = path) by (apply nth_error_nth; exact Hnth).
  pose proof (PlacementFacts.allocation_floor_nonneg paths idx ltac:(lra)) as Hz.
  unfold walk_path.
  pose proof (AllocationFacts.allocated_floor paths idx Hidx ltac:(lra)) as Halloc.
  unfold allocated in Halloc. rewrite Halloc. clear Halloc.
  rewrite AllocationFacts.measure_lengths. cbn [fst snd neq].
  destruct (Req_dec_T (total_length paths) 0) as [E|_]; [lra|].
  destruct (Nat.ltb_spec (List.length path) 2) as [Hshort|Hlong].
  - assert (Ez : allocation_floor paths idx = 0%Z).
    { unfold allocation_floor, budget.
      rewrite Hpath, (PlacementFacts.short_path_length path Hshort).
      unfold Rdiv. rewrite !Rmult_0_l. apply (ZfloorZ 0). }
    exists acc, k. split; [reflexivity|]. split; [exact Hl|].
    split; [rewrite Ez; simpl; symmetry; apply Nat.add_0_r | exact Hall].
  - rewrite AllocationFacts.get_map_length by assumption. rewrite Hpath.
    assert (Eit : iterations (Fin (IZR (allocation_floor paths idx)))
                  = Z.to_nat (allocation_floor paths idx)).
    { unfold iterations, Zceil. rewrite <- opp_IZR, ZfloorZ. f_equal. lia. }
    rewrite Eit.
    destruct (Z.to_nat (allocation_floor paths idx)) as [|m] eqn:En.
    + exists acc, k. unfold bind. cbn [walk_for]. unfold ret.
      cbn [positions pIdx]. destruct acc as [ps p]. cbn [fst snd] in *.
      split; [reflexivity|]. split; [exact Hl|]. split; [lia | exact Hall].
    + assert (EI : IZR (allocation_floor paths idx) = INR (S m)).
      { rewrite <- En, INR_IZR_INZ, Z2Nat.id by assumption. reflexivity. }
      rewrite EI. rewrite ShapeFacts.ndiv_Fin by (apply not_0_INR; lia).
      destruct (walk_for_boxed path (S m) fuel Hin Hrep ltac:(lia) Hlong (S m) 0%nat
                  (mkWalk (fst acc) (snd acc) 0 0) k eq_refl)
        as (w & k' & Hrun & Hl' & Hp & Hall').
      * cbn [pIdx]. lia.
      * cbn [currentSegIdx]. lia.
      * reflexivity.
      * cbn [currentSegIdx prefix_length]. simpl INR. lra.
      * exact Hl.
      * exact Hall.
      * exists (positions w, pIdx w), k'. unfold bind. rewrite Hrun.
        split; [reflexivity|]. cbn [fst snd positions pIdx] in *. auto.
Qed.

Lemma walk_paths_boxed paths fuel :
  Forall (in_canvas canvas) paths -> Forall no_repeat paths ->
  0 < total_length paths ->
  forall rest idx (acc : Float32Array * nat) k,
    skipn idx paths = rest ->
    (snd acc + allocated_from paths rest idx <= COUNT)%nat ->
    List.length (fst acc) = (COUNT * 3)%nat -> all_boxed canvas (fst acc) ->
    exists acc' k',
      walk_paths cx cy sc (fst (measure paths)) (snd (measure paths))
        acc rest idx fuel rnd k = Ok acc' k' /\
      List.length (fst acc') = (COUNT * 3)%nat /\
      all_boxed canvas (fst acc').
Proof.
  intros Hin Hrep HT.
  induction rest as [|path rest IH]; intros idx acc k Hskip Hroom Hl Hall.
  - exists acc, k. split; [reflexivity|]. split; [exact Hl | exact Hall].
  - cbn [walk_paths allocated_from] in *.
    assert (Hnth : nth_error paths idx = Some path).
    { rewrite <- (Nat.add_0_r idx), <- nth_error_skipn, Hskip. reflexivity. }
    assert (Hnext : skipn (S idx) paths = rest).
    { change (S idx) with (1 + idx)%nat. rewrite <- skipn_skipn, Hskip. reflexivity. }
    assert (Hmem : In path paths) by (eapply nth_error_In; exact Hnth).
    rewrite Forall_forall in Hin, Hrep.
    destruct (walk_path_boxed paths idx path acc fuel k (Hin _ Hmem) (Hrep _ Hmem)
                Hnth HT ltac:(lia) Hl Hall)
      as (acc1 & k1 & Hrun1 & Hl1 & Hp1 & Hall1).
    rewrite <- Forall_forall in Hin, Hrep.
    destruct (IH (S idx) acc1 k1 Hnext ltac:(lia) Hl1 Hall1)
      as (acc2 & k2 & Hrun2 & Hl2 & Hall2).
    exists acc2, k2. unfold bind. rewrite Hrun1. split; [exact Hrun2|].
    split; [exact Hl2 | exact Hall2].
Qed.

Lemma slot_copy_slot (ps : Float32Array) p s :
  (p * 3 + 2 < List.length ps)%nat ->
  slot (copy_slot ps p s) p = slot ps s.
Proof.
  intros Hlen. unfold slot, copy_slot.
  rewrite (get_store_other _ (p * 3 + 2) (p * 3)) by lia.
  rewrite (get_store_other _ (p * 3 + 1) (p * 3)) by lia.
  rewrite get_store_same by lia.
  rewrite (get_store_other _ (p * 3 + 2) (p * 3 + 1)) by lia.
  rewrite get_store_same by (rewrite length_store; lia).
  rewrite get_store_same by (rewrite !length_store; lia).
  rewrite !get_store_other by lia. reflexivity.
Qed.

Lemma fill_while_boxed fuel :
  forall todo p (ps : Float32Array) k,
    (p + todo = COUNT)%nat ->
    List.length ps = (COUNT * 3)%nat -> all_boxed canvas ps ->
    exists final k',
      fill_while todo ps p fuel rnd k = Ok final k' /\
      List.length final = (COUNT * 3)%nat /\ all_boxed canvas final.
Proof.
  induction todo as [|todo IH]; intros p ps k Hsum Hl Hall.
  - exists ps, k. split; [reflexivity|]. split; [exact Hl | exact Hall].
  - destruct (FillFacts.fill_while_step todo ps p fuel rnd k Hrnd) as (s & Hs & ->).
    apply IH; [lia | rewrite FillFacts.length_copy_slot; exact Hl|].
    intros q Hq. destruct (Nat.eq_dec q p) as [->|Hne].
    + rewrite slot_copy_slot by lia. apply Hall. lia.
    + unfold slot, copy_slot. rewrite !get_store_other by lia. apply (Hall q Hq).
Qed.

End Boxed.

Lemma few_points_no_length paths :
  (List.length (List.concat paths) < 2)%nat -> total_length paths = 0.
Proof.
  induction paths as [|path rest IH]; intros H; [reflexivity|].
  cbn [List.concat total_length] in *. rewrite length_app in H.
  rewrite (PlacementFacts.short_path_length path) by lia. rewrite IH by lia. lra.
Qed.

Lemma new_buffer_boxed canvas :
  0 < width canvas -> 0 < height canvas ->
  all_boxed canvas (new_Float32Array (COUNT * 3)).
Proof.
  intros Hw Hh q Hq. unfold slot. rewrite !get_new by lia.
  apply boxed_zero; assumption.
Qed.

(** X20.  Strokes drawn inside the canvas, none with a repeated point, are
    saved as a cloud of finite points inside the box the canvas is mapped
    to: [|x| <= (width / 2) / s], [|y| <= (height / 2) / s] with
    [s = min(width, height) / 5], and [|z| <= 0.25]. *)
Theorem drawing_inside_canvas_stays_in_box
    (paths : list Path) (currentPath : Path) (canvas : Canvas)
    (rnd : nat -> R) (fuel k : nat) :
  random_source rnd ->
  0 < width canvas -> 0 < height canvas ->
  Forall (in_canvas canvas) paths -> Forall no_repeat paths ->
  0 < total_length paths ->
  exists ps k',
    processAndSave paths currentPath canvas fuel rnd k = Ok (onSave ps) k' /\
    List.length ps = (COUNT * 3)%nat /\
    forall q, (q < COUNT)%nat -> boxed canvas (slot ps q).
Proof.
  intros Hrnd Hw Hh Hin Hrep HT.
  assert (Hpts : (2 <= List.length (List.concat paths))%nat).
  { destruct (Nat.lt_ge_cases (List.length (List.concat paths)) 2) as [Hlt|Hge];
      [|exact Hge].
    rewrite (few_points_no_length paths Hlt) in HT. lra. }
  rewrite FillFacts.processAndSave_unfold by exact Hpts.
  pose proof (PlacementFacts.allocated_total_bound paths HT) as Hb.
  destruct (walk_paths_boxed canvas rnd Hrnd Hw Hh paths fuel Hin Hrep HT
              paths 0%nat (new_Float32Array (COUNT * 3), 0%nat) k eq_refl)
    as ([ps placed] & k1 & Hrun & Hl & Hall).
  { cbn [snd]. fold (allocated_total paths). lia. }
  { cbn [fst]. apply length_new. }
  { cbn [fst]. apply new_buffer_boxed; assumption. }
  destruct (PlacementFacts.walked_places_allocations paths canvas rnd fuel k HT)
    as (ps' & k1' & Hrun' & _).
  unfold walked in *. rewrite AllocationFacts.measure_lengths in *.
  cbn [fst snd] in Hrun. rewrite Hrun in Hrun'. injection Hrun' as _ Hplaced _.
  rewrite Hrun. cbn [fst snd] in *.
  destruct (fill_while_boxed canvas rnd Hrnd fuel (COUNT - placed) placed ps k1)
    as (final & k2 & Hfill & Hlf & Hallf); [lia | exact Hl | exact Hall |].
  rewrite Hfill. exists final, k2. split; [reflexivity|]. split; [exact Hlf | exact Hallf].
Qed.

Lemma two_strokes_in_canvas :
  Forall (in_canvas ResampleExamples.a_canvas) ResampleExamples.two_strokes /\
  Forall no_repeat ResampleExamples.two_strokes.
Proof.
  split.
  - repeat constructor; cbn [x y width height ResampleExamples.a_canvas]; lra.
  - assert (H1 : seg_len [mkPt 0 0; mkPt 1 0] 0 = 1).
    { unfold seg_len. cbn [nth_error x y].
      replace ((1 - 0) * (1 - 0) + (0 - 0) * (0 - 0)) with 1 by lra. apply sqrt_1. }
    assert (H2 : seg_len [mkPt 0 0; mkPt 2 0] 0 = 2).
    { unfold seg_len. cbn [nth_error x y].
      replace ((2 - 0) * (2 - 0) + (0 - 0) * (0 - 0)) with (2 * 2) by lra.
      apply sqrt_square. lra. }
    repeat constructor; intros j Hj; cbn [List.length] in Hj;
      (assert (j = 0%nat) as -> by lia); [rewrite H1 | rewrite H2]; lra.
Qed.

Lemma drawing_inside_canvas_stays_in_box_witness :
  exists ps k',
    processAndSave ResampleExamples.two_strokes [] ResampleExamples.a_canvas
      0%nat (fun _ => 0) 0%nat = Ok (onSave ps) k' /\
    List.length ps = (COUNT * 3)%nat /\
    forall q, (q < COUNT)%nat -> boxed ResampleExamples.a_canvas (slot ps q).
Proof.
  apply (drawing_inside_canvas_stays_in_box ResampleExamples.two_strokes []
           ResampleExamples.a_canvas (fun _ => 0) 0%nat 0%nat).
  - intros j. lra.
  - cbn [width ResampleExamples.a_canvas]. lra.
  - cbn [height ResampleExamples.a_canvas]. lra.
  - exact (proj1 two_strokes_in_canvas).
  - exact (proj2 two_strokes_in_canvas).
  - apply Rlt_le_trans with 3; [lra|]. apply Req_le. symmetry.
    exact (proj2 (proj2 AllocationFacts.two_strokes_lengths)).
Defined.

End DrawingFacts.

(* ================================================================== *)
(** ** The gesture-only scene and a drawn cloud *)
(* ================================================================== *)

Module LegacyFacts.
Import LegacyScene SamplerSpec.

Lemma nadd_NaN_r (a : num) : a +! NaN = NaN.
Proof. destruct a; reflexivity. Qed.

Section Step.

Variable time : num.
Variable baseColor : ParticleScene.Color.
Variable target : Float32Array.
Variables expansionFactor noiseAmount lerpSpeed transition : num.

Let step := particle_step time baseColor target expansionFactor noiseAmount
              lerpSpeed transition.
Let loop := particle_loop time baseColor target expansionFactor noiseAmount
              lerpSpeed transition.

(** One particle: the step returns, keeps the sizes, writes the three
    entries of its own particle only, and writes NaN where the target has
    no entry. *)
Lemma particle_step_writes i (positions colors : Float32Array) fuel rnd k :
  exists p' c' k',
    step i (positions, colors) fuel rnd k = Ok (p', c') k' /\
    List.length p' = List.length positions /\
    List.length c' = List.length colors /\
    (forall j, (j < i * 3 \/ i * 3 + 3 <= j)%nat ->
       get p' j = get positions j /\ get c' j = get colors j) /\
    ((List.length target <= i * 3)%nat ->
     (i * 3 + 2 < List.length positions)%nat ->
     (i * 3 + 2 < List.length colors)%nat ->
     forall c, (c < 3)%nat -> get p' (i * 3 + c) = NaN /\ get c' (i * 3 + c) = NaN).
Proof.
  unfold step, particle_step.
  set (T := if transition >! 0 then _ else _).
  assert (HT : exists t1 t2 t3 k1,
             T fuel rnd k = Ok (t1, t2, t3) k1 /\
             ((List.length target <= i * 3)%nat -> t1 = NaN /\ t2 = NaN /\ t3 = NaN)).
  { subst T. destruct (transition >! 0).
    - unfold bind, Math_random, ret. eexists. eexists. eexists. eexists.
      split; [reflexivity|]. intros Hlen.
      rewrite !get_past_end by lia. repeat split; reflexivity.
    - unfold ret. eexists. eexists. eexists. eexists.
      split; [reflexivity|]. intros Hlen.
      rewrite !get_past_end by lia. repeat split; reflexivity. }
  destruct HT as (t1 & t2 & t3 & k1 & HT & Hnan).
  unfold bind at 1. rewrite HT. cbv zeta.
  destruct (vortex time (t1 *! expansionFactor) (t3 *! expansionFactor))
    as [rx rz] eqn:Hv.
  set (N := if noiseAmount >! 0.01 then _ else _).
  assert (HN : exists n1 n2 n3 k2,
             N fuel rnd k1 = Ok (n1, n2, n3) k2 /\
             ((List.length target <= i * 3)%nat -> n1 = NaN /\ n2 = NaN /\ n3 = NaN)).
  { subst N. destruct (noiseAmount >! 0.01).
    - unfold bind, Math_random, ret. eexists. eexists. eexists. eexists.
      split; [reflexivity|]. intros Hlen. destruct (Hnan Hlen) as (-> & -> & ->).
      unfold vortex in Hv. cbn in Hv. injection Hv as <- <-.
      repeat split; reflexivity.
    - unfold ret. eexists. eexists. eexists. eexists.
      split; [reflexivity|]. intros Hlen. destruct (Hnan Hlen) as (-> & -> & ->).
      unfold vortex in Hv. cbn in Hv. injection Hv as <- <-.
      repeat split; reflexivity. }
  destruct HN as (n1 & n2 & n3 & k2 & HN & Hnan2).
  unfold bind. rewrite HN. unfold ret.
  eexists. eexists. eexists. split; [reflexivity|].
  split; [rewrite !length_store; reflexivity|].
  split; [rewrite !length_store; reflexivity|].
  split.
  - intros j Hj. rewrite !get_store_other by lia. split; reflexivity.
  - intros Hlen Hp Hc c Hlt. destruct (Hnan2 Hlen) as (-> & -> & ->).
    assert (Hc3 : c = 0%nat \/ c = 1%nat \/ c = 2%nat) by lia.
    cbn [nsub nmul lift2]. rewrite !nadd_NaN_r.
    destruct Hc3 as [-> | [-> | ->]]; rewrite ?Nat.add_0_r.
    + split.
      * rewrite !(get_store_other _ _ (i * 3)) by lia.
        apply get_store_same. lia.
      * rewrite !(get_store_other _ _ (i * 3)) by lia.
        rewrite get_store_same by lia.
        rewrite !(get_store_other _ _ (i * 3)) by lia.
        rewrite get_store_same by lia. reflexivity.
    + split.
      * rewrite (get_store_other _ (i * 3 + 2) (i * 3 + 1)) by lia.
        apply get_store_same. rewrite length_store. lia.
      * rewrite (get_store_other _ (i * 3 + 2) (i * 3 + 1)) by lia.
        rewrite get_store_same by (rewrite length_store; lia).
        rewrite (get_store_other _ (i * 3 + 2) (i * 3 + 1)) by lia.
        rewrite get_store_same by (rewrite length_store; lia). reflexivity.
    + split.
      * apply get_store_same. rewrite !length_store. lia.
      * rewrite get_store_same by (rewrite !length_store; lia).
        rewrite get_store_same by (rewrite !length_store; lia). reflexivity.
Qed.

Lemma particle_loop_writes fuel rnd :
  forall todo i (positions colors : Float32Array) k,
    ((i + todo) * 3 <= List.length positions)%nat ->
    ((i + todo) * 3 <= List.length colors)%nat ->
    exists p' c' k',
      loop todo i (positions, colors) fuel rnd k = Ok (p', c') k' /\
      List.length p' = List.length positions /\
      List.length c' = List.length colors /\
      (forall j, (j < i * 3 \/ (i + todo) * 3 <= j)%nat ->
         get p' j = get positions j /\ get c' j = get colors j) /\
      (forall q c, (i <= q < i + todo)%nat -> (List.length target <= q * 3)%nat ->
         (c < 3)%nat -> get p' (q * 3 + c) = NaN /\ get c' (q * 3 + c) = NaN).
Proof.
  induction todo as [|todo IH]; intros i positions colors k Hp Hc.
  - exists positions, colors, k. split; [reflexivity|].
    split; [reflexivity|]. split; [reflexivity|].
    split; [intros; split; reflexivity | intros; lia].
  - unfold loop in *. cbn [particle_loop].
    destruct (particle_step_writes i positions colors fuel rnd k)
      as (p1 & c1 & k1 & Hrun1 & Hl1 & Hlc1 & Hout1 & Hnan1).
    unfold step in Hrun1. unfold bind. rewrite Hrun1.
    destruct (IH (S i) p1 c1 k1 ltac:(lia) ltac:(lia))
      as (p2 & c2 & k2 & Hrun2 & Hl2 & Hlc2 & Hout2 & Hnan2).
    exists p2, c2, k2. split; [exact Hrun2|].
    split; [lia|]. split; [lia|]. split.
    + intros j Hj. destruct (Hout2 j ltac:(lia)) as (-> & ->).
      apply Hout1. lia.
    + intros q c Hq Hlen Hlt. destruct (Nat.eq_dec q i) as [->|Hne].
      * destruct (Hout2 (i * 3 + c)%nat ltac:(lia)) as (-> & ->).
        apply Hnan1; lia.
      * apply Hnan2; lia.
Qed.

(** The loop has no [while]: its result does not depend on the budget. *)
Lemma particle_step_budget i bufs fuel rnd k :
  step i bufs fuel rnd k = step i bufs 0%nat rnd k.
Proof.
  unfold step, particle_step. destruct bufs as [positions colors].
  destruct (transition >! 0); destruct (noiseAmount >! 0.01);
    unfold bind, Math_random, ret; cbv zeta;
    repeat match goal with
           | |- context [vortex ?a ?b ?c] => destruct (vortex a b c)
           end; reflexivity.
Qed.

Lemma particle_loop_budget fuel rnd :
  forall todo i bufs k,
    loop todo i bufs fuel rnd k = loop todo i bufs 0%nat rnd k.
Proof.
  induction todo as [|todo IH]; intros i bufs k; [reflexivity|].
  unfold loop in *. cbn [particle_loop]. unfold bind.
  pose proof (particle_step_budget i bufs fuel rnd k) as E. unfold step in E.
  rewrite E. destruct (particle_step _ _ _ _ _ _ _ i bufs 0%nat rnd k); try reflexivity.
  apply IH.
Qed.

End Step.

(** X21.  The gesture-only scene animates 10000 particles, and reads the
    target of each from the cloud it is given; a drawn cloud of fewer
    points has no entry for the last ones, and one frame leaves each of
    them without a position and without a colour. *)
Theorem short_cloud_loses_particles
    (rnd : nat -> R) (handData : HandData) (baseColor : ParticleScene.Color)
    (t : Float32Array) (time : R) (s : Refs)
    (rot : num) (positions colors : Float32Array) (n : nat) :
  pointsRef s = Some (rot, positions, colors) ->
  List.length positions = (count * 3)%nat ->
  List.length colors = (count * 3)%nat ->
  List.length t = (n * 3)%nat ->
  ensures rnd (useFrame handData baseColor (Some t) time s)
    (fun s' =>
       exists rot' p' c',
         pointsRef s' = Some (rot', p', c') /\
         List.length p' = (count * 3)%nat /\
         forall i c, (n <= i < count)%nat -> (c < 3)%nat ->
           get p' (i * 3 + c) = NaN /\ get c' (i * 3 + c) = NaN).
Proof.
  intros Hs Hp Hc Ht k. exists 0%nat.
  unfold useFrame. rewrite Hs. cbv zeta.
  match goal with
  | |- context [particle_loop ?a ?b ?c ?d ?e ?f ?g count 0%nat (positions, colors)] =>
      destruct (particle_loop_writes a b c d e f g 0%nat rnd count 0%nat positions colors k)
        as (p' & c' & k' & Hrun & Hl & Hlc & _ & Hnan); [lia | lia |]
  end.
  eexists. exists k'. split.
  2: { intros fuel _. unfold bind. rewrite particle_loop_budget, Hrun.
       unfold ret. cbn [fst snd]. reflexivity. }
  eexists. exists p', c'. cbn [pointsRef]. split; [reflexivity|].
  split; [lia|]. intros i c Hi Hlt. apply Hnan; lia.
Qed.

Lemma short_cloud_loses_particles_witness :
  ensures (fun _ => 0)
    (useFrame FrameExamples.still_hand FrameExamples.white
       (Some (new_Float32Array (DrawingCanvas.COUNT * 3))) 0
       (mkRefs (Some (Fin 0, new_Float32Array (count * 3),
                      new_Float32Array (count * 3))) 0))
    (fun s' =>
       exists rot' p' c',
         pointsRef s' = Some (rot', p', c') /\
         List.length p' = (count * 3)%nat /\
         forall i c, (DrawingCanvas.COUNT <= i < count)%nat -> (c < 3)%nat ->
           get p' (i * 3 + c) = NaN /\ get c' (i * 3 + c) = NaN).
Proof.
  apply (short_cloud_loses_particles (fun _ => 0)
           FrameExamples.still_hand FrameExamples.white
           (new_Float32Array (DrawingCanvas.COUNT * 3)) 0
           (mkRefs (Some (Fin 0, new_Float32Array (count * 3),
                          new_Float32Array (count * 3))) 0)
           (Fin 0) (new_Float32Array (count * 3)) (new_Float32Array (count * 3))
           DrawingCanvas.COUNT).
  - reflexivity.
  - apply length_new.
  - apply length_new.
  - apply length_new.
Defined.

End LegacyFacts.

(* ================================================================== *)
(** ** The plain sphere *)
(* ================================================================== *)

Module BallFacts.
Import Shapes SamplerSpec SamplerFacts BallSpec.

Lemma sphere_point_norm (c rad phi theta : R) :
  0 <= c <= 1 ->
  (c * rad * sin phi * cos theta) * (c * rad * sin phi * cos theta)
  + (c * rad * sin phi * sin theta) * (c * rad * sin phi * sin theta)
  + (c * rad * cos phi) * (c * rad * cos phi) <= rad * rad.
Proof.
  intros Hc.
  pose proof (sin2_cos2 phi) as Hp. pose proof (sin2_cos2 theta) as Ht.
  unfold Rsqr in Hp, Ht.
  replace ((c * rad * sin phi * cos theta) * (c * rad * sin phi * cos theta)
           + (c * rad * sin phi * sin theta) * (c * rad * sin phi * sin theta)
           + (c * rad * cos phi) * (c * rad * cos phi))
    with ((c * rad) * (c * rad)
          * (sin phi * sin phi * (sin theta * sin theta + cos theta * cos theta)
             + cos phi * cos phi)) by ring.
  rewrite Ht, Rmult_1_r, Hp, Rmult_1_r.
  assert (H1 : c * c <= 1) by nra.
  assert (H2 : 0 <= rad * rad) by nra.
  replace (c * rad * (c * rad)) with (c * c * (rad * rad)) by ring. nra.
Qed.

Section Sphere.

Variable rnd : nat -> R.
Hypothesis Hrnd : random_source rnd.

Lemma getRandomPointInSphere_in_ball (radius : R) :
  ensures rnd (getRandomPointInSphere (Fin radius))
    (fun p => in_ball radius (of_vec p)).
Proof.
  unfold getRandomPointInSphere.
  apply ensures_random; [exact Hrnd | intros u Hu].
  apply ensures_random; [exact Hrnd | intros v Hv]. cbv zeta.
  apply ensures_random; [exact Hrnd | intros r0 Hr0].
  apply ensures_ret.
  unfold of_vec, Math_PI, Math_cbrt, Math_sin, Math_cos. cbn [vx vy vz].
  cbn [nmul nsub lift2]. rewrite ShapeFacts.Math_acos_Fin by lra.
  cbn [lift1 lift2 nmul].
  eexists. eexists. eexists. split; [reflexivity|].
  apply sphere_point_norm. apply Bounds.cbrt_unit. exact Hr0.
Qed.

Lemma plain_case_in_ball shape i count :
  own_case shape = false ->
  ensures rnd (switch_shape shape i count) (in_ball 3).
Proof.
  intros Hown. unfold own_case in Hown. cbn [existsb] in Hown.
  repeat (apply orb_false_elim in Hown; destruct Hown as [? Hown]).
  unfold switch_shape.
  repeat match goal with
         | H : String.eqb shape ?s = false |- _ => rewrite H; clear H
         end.
  assert (Hsphere : ensures rnd case_SPHERE (in_ball 3)).
  { unfold case_SPHERE. eapply ensures_bind.
    - apply (getRandomPointInSphere_in_ball 3).
    - intros p Hp. apply ensures_ret. exact Hp. }
  destruct (String.eqb shape ShapeType.CUSTOM); exact Hsphere.
Qed.

End Sphere.

(** X22.  [getRandomPointInSphere] returns a point of the ball of the given
    radius; so the cloud generated for the sphere, for the custom shape
    and for every identifier the [switch] does not know lies in the ball
    of radius 3. *)
Theorem sphere_cloud_lies_in_ball (rnd : nat -> R) :
  random_source rnd ->
  (forall radius : R,
     ensures rnd (getRandomPointInSphere (Fin radius))
       (fun p => in_ball radius (vx p, vy p, vz p))) /\
  (forall shape count,
     own_case shape = false ->
     ensures rnd (generateParticles shape count)
       (fun buf => List.length buf = (count * 3)%nat /\ triples (in_ball 3) count buf)).
Proof.
  intros Hrnd. split.
  - intros radius. apply getRandomPointInSphere_in_ball. exact Hrnd.
  - intros shape count Hown. unfold generateParticles.
    apply GenerateFacts.generate_loop_runs.
    + intros i _. apply plain_case_in_ball; assumption.
    + apply length_new.
    + reflexivity.
    + apply GenerateFacts.triples_nil.
Qed.

Lemma sphere_cloud_lies_in_ball_witness :
  ensures (fun _ => 1 / 2) (getRandomPointInSphere (Fin 3))
    (fun p => in_ball 3 (vx p, vy p, vz p)) /\
  ensures (fun _ => 1 / 2) (generateParticles "Teapot" 2%nat)
    (fun buf => List.length buf = 6%nat /\ triples (in_ball 3) 2%nat buf).
Proof.
  split.
  - apply (proj1 (sphere_cloud_lies_in_ball (fun _ => 1 / 2) random_source_half) 3).
  - apply (proj2 (sphere_cloud_lies_in_ball (fun _ => 1 / 2) random_source_half)
             "Teapot"%string 2%nat).
    reflexivity.
Defined.

End BallFacts.

(* ================================================================== *)
(** ** The ranges of the frame parameters *)
(* ================================================================== *)

Module RangeFacts.
Import ParticleScene.

(** A power of a number of the unit interval is in the unit interval. *)
Lemma Math_powr_unit (g y : R) :
  0 <= g <= 1 -> 0 <= y ->
  exists p, Math_powr (Fin g) y = Fin p /\ 0 <= p <= 1.
Proof.
  intros Hg Hy. unfold Math_powr.
  destruct (Rlt_dec g 0) as [Hneg|_]; [lra|].
  destruct (Rlt_dec 0 g) as [Hpos|_].
  - exists (Rpower g y). split; [reflexivity|]. split.
    + unfold Rpower. left. apply exp_pos.
    + assert (H1 : Rpower 1 y = 1).
      { unfold Rpower. rewrite ln_1, Rmult_0_r. apply exp_0. }
      rewrite <- H1. apply Rle_Rpower_l; [exact Hy | lra].
  - exists 0. split; [reflexivity | lra].
Qed.

(** X23.  With a gesture value and audio levels in [0, 1], as the tracker
    and the audio manager report them, a frame computes a physics speed in
    [0.08, 0.3] (so the integration step contracts), an expansion factor in
    [1, 4] in music mode and in [0.95, 4.65] in gesture mode, an opacity
    in [0.5, 1], and keeps the particle size in [0.04, 0.19]. *)
Theorem frame_parameters_stay_in_range
    (music : bool) (hd : HandData) (time : R) (audio : AudioData)
    (rot_x rot_y : num) (m : PointsMaterial) (s : R) :
  0 <= gestureValue hd <= 1 ->
  0 <= bass audio <= 1 -> 0 <= mid audio <= 1 ->
  size m = Fin s -> 0.04 <= s <= 0.19 ->
  exists e l o s',
    snd (fst (mode_switch music hd time audio rot_x rot_y)) = Fin e /\
    snd (mode_switch music hd time audio rot_x rot_y) = Fin l /\
    material_update music hd audio m = mkMaterial (Fin s') (Fin o) /\
    0.08 <= l <= 0.3 /\
    (if music then 1 <= e <= 4 else 0.95 <= e <= 4.65) /\
    0.5 <= o <= 1 /\
    0.04 <= s' <= 0.19.
Proof.
  intros Hg Hb Hm Hs Hsize.
  destruct (Math_powr_unit (gestureValue hd) 1.5 Hg ltac:(lra)) as (p & Hp & Hpr).
  destruct (Math_powr_unit (gestureValue hd) 1.2 Hg ltac:(lra)) as (q & Hq & Hqr).
  unfold mode_switch, material_update. rewrite Hs. destruct music; cbv zeta.
  - cbn [fst snd nadd nsub nmul lift1 lift2 Math_sin].
    eexists. eexists. eexists. eexists.
    split; [reflexivity|]. split; [reflexivity|]. split; [reflexivity|].
    pose proof (SIN_bound (time * 3.0)) as Hsin.
    repeat split; try nra.
  - rewrite Hp, Hq. cbn [fst snd nadd nsub nmul lift1 lift2 Math_sin].
    eexists. eexists. eexists. eexists.
    split; [reflexivity|]. split; [reflexivity|]. split; [reflexivity|].
    pose proof (SIN_bound (time * (2.0 + gestureValue hd * 5.0))) as Hsin.
    repeat split; try nra.
Qed.

Lemma frame_parameters_stay_in_range_witness :
  exists e l o s',
    snd (fst (mode_switch false FrameExamples.still_hand 0 (mkAudio 0 0 0) 0 0)) = Fin e /\
    snd (mode_switch false FrameExamples.still_hand 0 (mkAudio 0 0 0) 0 0) = Fin l /\
    material_update false FrameExamples.still_hand (mkAudio 0 0 0) (mkMaterial 0.04 0.6)
    = mkMaterial (Fin s') (Fin o) /\
    0.08 <= l <= 0.3 /\
    0.95 <= e <= 4.65 /\
    0.5 <= o <= 1 /\
    0.04 <= s' <= 0.19.
Proof.
  apply (frame_parameters_stay_in_range false FrameExamples.still_hand 0 (mkAudio 0 0 0)
           0 0 (mkMaterial 0.04 0.6) 0.04); cbn; try reflexivity; lra.
Defined.

End RangeFacts.

(* ================================================================== *)
(** ** The target of a frame and the move toward it *)
(* ================================================================== *)

Module StepFacts.
Import ParticleScene FrameSpec TargetSpec LoopFacts.

Lemma expansion_of_mode_switch m hd time audio rx ry :
  snd (fst (mode_switch m hd time audio rx ry)) = expansion_of m hd time audio.
Proof. destruct m; reflexivity. Qed.

Section Step.

Variable isMusicMode : bool.
Variable handData : HandData.
Variable time : num.
Variable audio : AudioData.
Variable baseColor : Color.
Variable offsets : Float32Array.
Variable target : Float32Array.
Variables expansionFactor lerpBase transition : num.
Variable rnd : nat -> R.

Let d : nat := draws_per_particle transition audio.

(** One round of the particle loop is the target calculation followed by
    the integration step toward its result. *)
Lemma particle_step_target i bufs fuel k :
  exists tx ty tz pos cols,
    target_calc isMusicMode handData time audio offsets target
      expansionFactor transition i
      (get (physics bufs) (i * 3)) (get (physics bufs) (i * 3 + 1))
      (get (physics bufs) (i * 3 + 2)) fuel rnd k
    = Ok (tx, ty, tz) (k + d)%nat /\
    particle_step isMusicMode handData time audio baseColor offsets target
      expansionFactor lerpBase transition i bufs fuel rnd k
    = Ok (mkBuffers (integrate3 (physics bufs) i tx ty tz lerpBase) pos cols) (k + d)%nat.
Proof.
  unfold d, draws_per_particle, particle_step, target_calc, warp_target, audio_jitter.
  destruct (transition >! 0); destruct (Fin (bass audio) >! 0.3);
    unfold bind, Math_random, ret; cbv zeta;
    match goal with
    | |- context [vortex ?m ?h ?t ?a ?x ?z] => destruct (vortex m h t a x z) as [rx rz]
    end;
    do 5 eexists; (split; [f_equal; lia | f_equal; lia]).
Qed.

(** The particle loop animates every particle it visits, and leaves the
    others as they were. *)
Lemma particle_loop_target fuel :
  forall todo i bufs k,
    ((i + todo) * 3 <= List.length (physics bufs))%nat ->
    exists bufs',
      particle_loop isMusicMode handData time audio baseColor offsets target
        expansionFactor lerpBase transition todo i bufs fuel rnd k
      = Ok bufs' (k + todo * d)%nat /\
      List.length (physics bufs') = List.length (physics bufs) /\
      (forall j, (j < i * 3 \/ (i + todo) * 3 <= j)%nat ->
         get (physics bufs') j = get (physics bufs) j) /\
      (forall q, (i <= q < i + todo)%nat ->
         exists tx ty tz,
           target_calc isMusicMode handData time audio offsets target
             expansionFactor transition q
             (get (physics bufs) (q * 3)) (get (physics bufs) (q * 3 + 1))
             (get (physics bufs) (q * 3 + 2)) fuel rnd (k + (q - i) * d)%nat
           = Ok (tx, ty, tz) (k + S (q - i) * d)%nat /\
           get (physics bufs') (q * 3)
           = integrate (get (physics bufs) (q * 3)) (get (physics bufs) (q * 3)) tx lerpBase /\
           get (physics bufs') (q * 3 + 1)
           = integrate (get (physics bufs) (q * 3 + 1)) (get (physics bufs) (q * 3 + 1))
               ty lerpBase /\
           get (physics bufs') (q * 3 + 2)
           = integrate (get (physics bufs) (q * 3 + 2)) (get (physics bufs) (q * 3 + 2))
               tz lerpBase).
Proof.
  induction todo as [|todo IH]; intros i bufs k Hlen.
  - exists bufs. split; [cbn [particle_loop]; unfold ret; f_equal; lia|].
    split; [reflexivity|]. split; [reflexivity | intros; lia].
  - cbn [particle_loop]. unfold bind.
    destruct (particle_step_target i bufs fuel k)
      as (tx & ty & tz & pos & cols & Ht & ->).
    destruct (IH (S i) (mkBuffers (integrate3 (physics bufs) i tx ty tz lerpBase) pos cols)
                (k + d)%nat)
      as (bufs' & Hrun & Hl & Hout & Hin).
    { cbn [physics]. rewrite length_integrate3. lia. }
    cbn [physics] in *.
    exists bufs'. split; [rewrite Hrun; f_equal; lia|].
    split; [rewrite Hl; apply length_integrate3|]. split.
    + intros j Hj. rewrite Hout by lia. apply get_integrate3_other. lia.
    + intros q Hq. destruct (Nat.eq_dec q i) as [->|Hne].
      * exists tx, ty, tz. rewrite Nat.sub_diag.
        split; [rewrite Nat.add_0_r; rewrite Ht; f_equal; lia|].
        rewrite !Hout by lia.
        apply (get_integrate3_own (physics bufs) i tx ty tz lerpBase). lia.
      * destruct (Hin q ltac:(lia)) as (qx & qy & qz & Hq1 & Hx & Hy & Hz).
        repeat rewrite get_integrate3_other in Hq1 by lia.
        rewrite get_integrate3_other in Hx, Hy, Hz by lia.
        exists qx, qy, qz.
        replace (q - i)%nat with (S (q - S i)) by lia.
        split; [|split; [exact Hx | split; [exact Hy | exact Hz]]].
        replace (k + S (q - S i) * d)%nat with (k + d + (q - S i) * d)%nat
          by (cbn [Nat.mul]; lia).
        replace (k + S (S (q - S i)) * d)%nat with (k + d + S (q - S i) * d)%nat
          by (cbn [Nat.mul]; lia).
        exact Hq1.
Qed.

End Step.

(** A frame on a mounted mesh with a target animates every particle. *)
Lemma useFrame_animates props target offsets time audio s fuel rnd k :
  mounted s ->
  List.length (physicsPositions s) = (PARTICLE_COUNT * 3)%nat ->
  exists s',
    useFrame props (Some target) offsets time audio s fuel rnd k
    = Ok s' (k + PARTICLE_COUNT * draws_per_particle (decay (transitionRef s)) audio)%nat /\
    transitionRef s' = decay (transitionRef s) /\
    prevShapeRef s' = prevShapeRef s /\
    List.length (physicsPositions s') = (PARTICLE_COUNT * 3)%nat /\
    forall q, (q < PARTICLE_COUNT)%nat ->
      animated props target offsets time audio s s' fuel rnd k q.
Proof.
  intros Hm Hlen. unfold useFrame, mounted in *.
  destruct (pointsRef s) as [pts|]; [|contradiction].
  pose proof (ModeFacts.lerpBase_of_mode_switch (isMusicMode props) (handData props) time audio
                (rotation_x pts) (rotation_y pts)) as El.
  pose proof (expansion_of_mode_switch (isMusicMode props) (handData props) time audio
                (rotation_x pts) (rotation_y pts)) as Ee.
  destruct (mode_switch _ _ _ _ _ _) as [[rot expansionFactor] lerpBase].
  cbn [fst snd] in El, Ee. subst lerpBase expansionFactor. unfold bind.
  destruct (particle_loop_target (isMusicMode props) (handData props) time audio
              (color props) offsets target
              (expansion_of (isMusicMode props) (handData props) time audio)
              (lerpBase_of (isMusicMode props) (handData props) audio)
              (decay (transitionRef s)) rnd fuel PARTICLE_COUNT 0%nat
              (mkBuffers (physicsPositions s) (position_array pts) (color_array pts)) k)
    as (bufs' & -> & Hl & _ & Hin).
  { cbn [physics]. lia. }
  unfold ret. eexists. split; [reflexivity|].
  cbn [physicsPositions physics transitionRef prevShapeRef] in *.
  split; [reflexivity|]. split; [reflexivity|]. split; [lia|].
  intros q Hq. unfold animated. cbv zeta.
  destruct (Hin q ltac:(lia)) as (tx & ty & tz & Ht & Hx & Hy & Hz).
  rewrite Nat.sub_0_r in Ht.
  exists tx, ty, tz. auto.
Qed.

End StepFacts.

(* ================================================================== *)
(** ** The two control modes *)
(* ================================================================== *)

Module ModeClaims.
Import ParticleScene FrameSpec FrameExamples TargetSpec.

(** An integration step at a rate strictly between 0 and 1 lands between
    the old value and the target. *)
Lemma integrate_between (old t l : R) :
  0 < l < 1 ->
  exists new,
    integrate (Fin old) (Fin old) (Fin t) (Fin l) = Fin new /\
    Rmin old t <= new <= Rmax old t /\
    Rabs (new - old) = l * Rabs (t - old).
Proof.
  intros Hl. exists (old + (t - old) * l). split; [reflexivity|]. split.
  - unfold Rmin, Rmax. destruct (Rle_dec old t); split; nra.
  - replace (old + (t - old) * l - old) with (l * (t - old)) by ring.
    rewrite Rabs_mult, (Rabs_pos_eq l) by lra. reflexivity.
Qed.

(** C7.  In music mode a frame is independent of the gesture input: from
    the same refs, target, offsets, clock, audio bands and random draws,
    two hand snapshots give the same outcome -- positions, trail, colours,
    rotation, material and warp alike.  Switching the mode resets nothing:
    from the same refs and with the same inputs, the frame in music mode
    and the frame in gesture mode both return, after the same draws and
    with the same warp intensity, and in each of them every particle is
    animated: each stored coordinate is the one it had before the frame,
    moved by one integration step toward the transformed target that the
    target calculation of that mode returns, at the rate of that mode.
    For normalised signals that rate lies strictly between 0 and 1, and a
    step at such a rate lands between the old coordinate and the target,
    at the fraction [lerpBase] of the way: no stored position jumps. *)
Theorem music_mode_ignores_gesture :
  (forall shape color hd1 hd2 custom target offsets time audio s fuel rnd k,
      useFrame (mkProps shape color hd1 custom true) target offsets time audio s fuel rnd k
      = useFrame (mkProps shape color hd2 custom true) target offsets time audio s fuel rnd k)
  /\
  (forall shape color hd custom target offsets time audio s fuel rnd k,
      mounted s ->
      List.length (physicsPositions s) = (PARTICLE_COUNT * 3)%nat ->
      let music := mkProps shape color hd custom true in
      let gesture := mkProps shape color hd custom false in
      let k' := (k + PARTICLE_COUNT
                     * draws_per_particle (decay (transitionRef s)) audio)%nat in
      exists s_music s_gesture,
        useFrame music (Some target) offsets time audio s fuel rnd k = Ok s_music k' /\
        useFrame gesture (Some target) offsets time audio s fuel rnd k = Ok s_gesture k' /\
        transitionRef s_music = transitionRef s_gesture /\
        prevShapeRef s_music = prevShapeRef s_gesture /\
        forall q, (q < PARTICLE_COUNT)%nat ->
          animated music target offsets time audio s s_music fuel rnd k q /\
          animated gesture target offsets time audio s s_gesture fuel rnd k q)
  /\
  (forall m hd audio,
      normalised hd audio ->
      exists l, lerpBase_of m hd audio = Fin l /\ 0 < l < 1)
  /\
  (forall old t l : R,
      0 < l < 1 ->
      exists new,
        integrate (Fin old) (Fin old) (Fin t) (Fin l) = Fin new /\
        Rmin old t <= new <= Rmax old t /\
        Rabs (new - old) = l * Rabs (t - old)).
Proof.
  split; [|split; [|split]].
  - intros shape color hd1 hd2 custom target offsets time audio s fuel rnd k.
    unfold useFrame. cbn [isMusicMode handData ParticleScene.color].
    destruct (pointsRef s) as [pts|]; [|reflexivity].
    change (mode_switch true hd1 time audio (rotation_x pts) (rotation_y pts))
      with (mode_switch true hd2 time audio (rotation_x pts) (rotation_y pts)).
    destruct (mode_switch true hd2 time audio (rotation_x pts) (rotation_y pts))
      as [[rot expansionFactor] lerpBase].
    change (material_update true hd1 audio) with (material_update true hd2 audio).
    unfold bind. destruct target as [targetPositions|]; [|reflexivity].
    rewrite (ModeFacts.particle_loop_ignores_hand hd1 hd2). reflexivity.
  - intros shape color hd custom target offsets time audio s fuel rnd k Hm Hlen.
    cbv zeta.
    destruct (StepFacts.useFrame_animates (mkProps shape color hd custom true)
                target offsets time audio s fuel rnd k Hm Hlen)
      as (s1 & Hrun1 & Ht1 & Hp1 & _ & Ha1).
    destruct (StepFacts.useFrame_animates (mkProps shape color hd custom false)
                target offsets time audio s fuel rnd k Hm Hlen)
      as (s2 & Hrun2 & Ht2 & Hp2 & _ & Ha2).
    exists s1, s2. split; [exact Hrun1|]. split; [exact Hrun2|].
    split; [rewrite Ht1, Ht2; reflexivity|].
    split; [rewrite Hp1, Hp2; reflexivity|].
    intros q Hq. split; [apply Ha1 | apply Ha2]; exact Hq.
  - intros m hd audio Hn.
    destruct (ModeFacts.lerpBase_in_unit m hd audio Hn) as (l & E & Hl).
    exists l. split; [exact E | lra].
  - intros old t l Hl. apply integrate_between. exact Hl.
Qed.

Lemma music_mode_ignores_gesture_witness :
  (exists s_music s_gesture,
      useFrame (mkProps ShapeType.HEART white still_hand None true)
        (Some (new_Float32Array (PARTICLE_COUNT * 3))) (new_Float32Array PARTICLE_COUNT) 0 silence resting_refs
        0%nat (fun _ => 0) 0%nat
      = Ok s_music
           (0 + PARTICLE_COUNT
                * draws_per_particle (decay (transitionRef resting_refs)) silence)%nat /\
      useFrame (mkProps ShapeType.HEART white still_hand None false)
        (Some (new_Float32Array (PARTICLE_COUNT * 3))) (new_Float32Array PARTICLE_COUNT) 0 silence resting_refs
        0%nat (fun _ => 0) 0%nat
      = Ok s_gesture
           (0 + PARTICLE_COUNT
                * draws_per_particle (decay (transitionRef resting_refs)) silence)%nat /\
      transitionRef s_music = transitionRef s_gesture /\
      prevShapeRef s_music = prevShapeRef s_gesture /\
      forall q, (q < PARTICLE_COUNT)%nat ->
        animated (mkProps ShapeType.HEART white still_hand None true)
          (new_Float32Array (PARTICLE_COUNT * 3)) (new_Float32Array PARTICLE_COUNT) 0 silence resting_refs s_music
          0%nat (fun _ => 0) 0%nat q /\
        animated (mkProps ShapeType.HEART white still_hand None false)
          (new_Float32Array (PARTICLE_COUNT * 3)) (new_Float32Array PARTICLE_COUNT) 0 silence resting_refs s_gesture
          0%nat (fun _ => 0) 0%nat q)
  /\
  (exists l, lerpBase_of false still_hand silence = Fin l /\ 0 < l < 1)
  /\
  (exists new,
      integrate (Fin 0) (Fin 0) (Fin 1) (Fin 0.08) = Fin new /\
      Rmin 0 1 <= new <= Rmax 0 1 /\
      Rabs (new - 0) = 0.08 * Rabs (1 - 0)).
Proof.
  split; [|split].
  - apply (proj1 (proj2 music_mode_ignores_gesture)
             ShapeType.HEART white still_hand None
             (new_Float32Array (PARTICLE_COUNT * 3)) (new_Float32Array PARTICLE_COUNT) 0 silence resting_refs
             0%nat (fun _ => 0) 0%nat).
    + unfold mounted, resting_refs. cbn [pointsRef]. discriminate.
    + unfold resting_refs. cbn [physicsPositions]. apply length_new.
  - apply (proj1 (proj2 (proj2 music_mode_ignores_gesture)) false still_hand silence).
    unfold normalised, still_hand, silence. simpl. lra.
  - apply (proj2 (proj2 (proj2 music_mode_ignores_gesture)) 0 1 0.08). lra.
Defined.

End ModeClaims.

(* ================================================================== *)
(** ** The target buffer of a frame *)
(* ================================================================== *)

Module TargetClaims.
Import ParticleScene FrameSpec FrameExamples TargetSpec.

Lemma get_app_inside (a b : Float32Array) j :
  (j < List.length a)%nat -> get (a ++ b) j = get a j.
Proof. intros H. unfold get. apply app_nth1. exact H. Qed.

(** A round of the particle loop reads the three entries of its particle
    in the target, and nothing after them. *)
Lemma particle_step_in_bounds isMusicMode handData time audio baseColor offsets
    (target extra : Float32Array) expansionFactor lerpBase transition i bufs :
  (i * 3 + 2 < List.length target)%nat ->
  particle_step isMusicMode handData time audio baseColor offsets (target ++ extra)
    expansionFactor lerpBase transition i bufs
  = particle_step isMusicMode handData time audio baseColor offsets target
      expansionFactor lerpBase transition i bufs.
Proof.
  intros H. unfold particle_step. cbv zeta.
  rewrite !get_app_inside by lia. reflexivity.
Qed.

Lemma particle_loop_in_bounds isMusicMode handData time audio baseColor offsets
    (target extra : Float32Array) expansionFactor lerpBase transition fuel rnd :
  forall todo i bufs k,
    ((i + todo) * 3 <= List.length target)%nat ->
    particle_loop isMusicMode handData time audio baseColor offsets (target ++ extra)
      expansionFactor lerpBase transition todo i bufs fuel rnd k
    = particle_loop isMusicMode handData time audio baseColor offsets target
        expansionFactor lerpBase transition todo i bufs fuel rnd k.
Proof.
  induction todo as [|todo IH]; intros i bufs k Hlen; [reflexivity|].
  cbn [particle_loop]. unfold bind.
  rewrite particle_step_in_bounds by lia.
  destruct (particle_step _ _ _ _ _ _ target _ _ _ i bufs fuel rnd k); try reflexivity.
  apply IH. lia.
Qed.

(** A frame on a target of [3 * PARTICLE_COUNT] entries reads none past
    them: whatever follows them in memory does not matter. *)
Lemma useFrame_in_bounds props (target extra : Float32Array) offsets time audio s fuel rnd k :
  List.length target = (PARTICLE_COUNT * 3)%nat ->
  useFrame props (Some (target ++ extra)) offsets time audio s fuel rnd k
  = useFrame props (Some target) offsets time audio s fuel rnd k.
Proof.
  intros Hlen. unfold useFrame. destruct (pointsRef s) as [pts|]; [|reflexivity].
  destruct (mode_switch _ _ _ _ _ _) as [[rot expansionFactor] lerpBase].
  unfold bind. rewrite particle_loop_in_bounds by lia. reflexivity.
Qed.

(** The second coordinate of the transformed target during a transition,
    without a strong beat. *)
Lemma target_calc_y isMusicMode handData time audio offsets target
    expansionFactor transition i cx cy cz fuel rnd k tx ty tz k' :
  (transition >! 0) = true -> (Fin (bass audio) >! 0.3) = false ->
  target_calc isMusicMode handData time audio offsets target expansionFactor
    transition i cx cy cz fuel rnd k = Ok (tx, ty, tz) k' ->
  ty = (get target (i * 3 + 1) +! (Fin (rnd (S k)) -! 0.5) *! (transition *! 12))
       *! expansionFactor
       +! Math_cos (time *! 0.7 +! cz *! 0.5 +! get offsets i)
          *! (if isMusicMode then 0.1 +! (Fin (high audio) *! 0.5)
              else 0.15 +! (Fin (gestureValue handData) *! 0.2)).
Proof.
  intros Hw Hj. unfold target_calc, warp_target, audio_jitter. rewrite Hw, Hj.
  unfold bind, Math_random, ret. cbv zeta.
  match goal with
  | |- context [vortex ?m ?h ?t ?a ?x ?z] => destruct (vortex m h t a x z) as [rx rz]
  end.
  intros H. injection H as _ Hy _ _. symmetry. exact Hy.
Qed.

Lemma zero_source : random_source (fun _ => 0).
Proof. intros k. lra. Qed.

Lemma one_point_length : List.length [Fin 5; Fin 5; Fin 5] <> (PARTICLE_COUNT * 3)%nat.
Proof. cbn [List.length]. unfold PARTICLE_COUNT. lia. Qed.

(** C8, as stated, fails: a custom cloud whose length is not
    [3 * PARTICLE_COUNT] (here one point) does not make the frame skip
    anything.  With the phases and the target computed by the memos of
    the component, the first frame after the render that makes the custom
    shape current moves particle 0, at rest at 0, to a negative height:
    the particle does not hold its position. *)
Lemma wrong_length_cloud_is_animated :
  List.length [Fin 5; Fin 5; Fin 5] <> (PARTICLE_COUNT * 3)%nat /\
  exists offsets k0 buf k1 s' k' v,
    randomOffsets 0%nat (fun _ => 0) 0%nat = Ok offsets k0 /\
    targetPositions ShapeType.CUSTOM (Some [Fin 5; Fin 5; Fin 5]) 0%nat (fun _ => 0) k0
    = Ok buf k1 /\
    useFrame (mkProps ShapeType.CUSTOM white still_hand (Some [Fin 5; Fin 5; Fin 5]) false)
      (Some buf) offsets 0 silence (render ShapeType.CUSTOM resting_refs)
      0%nat (fun _ => 0) k1
    = Ok s' k' /\
    get (physicsPositions (render ShapeType.CUSTOM resting_refs)) 1 = Fin 0 /\
    get (physicsPositions s') 1 = Fin v /\ v < 0.
Proof.
  split; [exact one_point_length|].
  (* the phases *)
  destruct (MemoFacts.randomOffsets_loop_spec (fun _ => 0) zero_source PARTICLE_COUNT 0%nat
              (new_Float32Array PARTICLE_COUNT) 0%nat 0%nat)
    as (offsets & Hoff & _ & Hphase).
  { rewrite length_new. lia. }
  { intros j Hj. lia. }
  destruct (Hphase 0%nat TargetFacts.PARTICLE_COUNT_pos) as (ph & Hph & _).
  (* the target *)
  destruct (MemoFacts.resample_loop_copies [Fin 5; Fin 5; Fin 5] 1 (fun _ => 0) 0%nat
              zero_source eq_refl PARTICLE_COUNT 0%nat
              (new_Float32Array (PARTICLE_COUNT * 3)) (0 + PARTICLE_COUNT)%nat)
    as (buf & k1 & Hbuf & Hlbuf & Hcopy).
  { rewrite length_new. lia. }
  { intros q Hq. lia. }
  destruct (Hcopy 0%nat TargetFacts.PARTICLE_COUNT_pos) as (src & Hsrc & Hslot).
  assert (src = 0%nat) as -> by lia.
  assert (Hb1 : get buf 1 = Fin 5).
  { unfold ResampleSpec.slot in Hslot. injection Hslot as _ Hy _. exact Hy. }
  (* the state after the render *)
  assert (Hs : render ShapeType.CUSTOM resting_refs
               = mkRefs (pointsRef resting_refs) (materialRef resting_refs)
                        (physicsPositions resting_refs) 1.0 ShapeType.CUSTOM)
    by reflexivity.
  assert (Hold : forall c, (c < 3)%nat ->
                   get (physicsPositions (render ShapeType.CUSTOM resting_refs)) c = Fin 0).
  { intros c Hc. rewrite Hs. unfold resting_refs. cbn [physicsPositions].
    apply get_new. unfold PARTICLE_COUNT. lia. }
  assert (Hdecay : decay (transitionRef (render ShapeType.CUSTOM resting_refs))
                   = Fin (1.0 * 0.92)).
  { rewrite Hs. cbn [transitionRef]. unfold decay. cbn [ngt nlt].
    destruct (Rlt_dec 0 1.0) as [_|H]; [|lra]. cbn [nmul lift2 nlt].
    destruct (Rlt_dec (1.0 * 0.92) 0.01) as [H|_]; [lra | reflexivity]. }
  (* the frame *)
  destruct (StepFacts.useFrame_animates
              (mkProps ShapeType.CUSTOM white still_hand (Some [Fin 5; Fin 5; Fin 5]) false)
              buf offsets 0 silence (render ShapeType.CUSTOM resting_refs)
              0%nat (fun _ => 0) k1)
    as (s' & Hrun & _ & _ & _ & Hanim).
  { rewrite Hs. unfold mounted, resting_refs. cbn [pointsRef]. discriminate. }
  { rewrite Hs. unfold resting_refs. cbn [physicsPositions]. apply length_new. }
  destruct (Hanim 0%nat TargetFacts.PARTICLE_COUNT_pos) as (tx & ty & tz & Ht & _ & Hy & _).
  cbn [isMusicMode handData] in Ht, Hy.
  change (0 * 3)%nat with 0%nat in Ht, Hy. cbn [Nat.add] in Ht, Hy.
  rewrite !Hold in Ht, Hy by lia. rewrite Hdecay in Ht.
  apply target_calc_y in Ht.
  2:{ cbn [ngt nlt]. destruct (Rlt_dec 0 (1.0 * 0.92)); [reflexivity | lra]. }
  2:{ unfold silence. cbn [bass ngt nlt]. destruct (Rlt_dec 0.3 0); [lra | reflexivity]. }
  change (0 * 3 + 1)%nat with 1%nat in Ht. rewrite Hb1, Hph in Ht.
  assert (He : expansion_of false still_hand 0 silence = Fin 1).
  { unfold expansion_of, mode_switch, still_hand, silence.
    cbn [fst snd gestureValue bass]. unfold Math_powr.
    destruct (Rlt_dec 0 0) as [H|_]; [lra|].
    cbn [nadd nmul lift1 lift2 Math_sin]. f_equal.
    replace (0 * (2.0 + 0 * 5.0)) with 0 by lra. rewrite sin_0. lra. }
  rewrite He in Ht. unfold still_hand in Ht.
  cbn [gestureValue nadd nsub nmul lift1 lift2 Math_cos] in Ht. subst ty.
  assert (Hl : lerpBase_of false (mkHandData false 0 (mkPosition 0.5 0.5)) silence
               = Fin (0.08 + 0 * 0.05)) by reflexivity.
  unfold still_hand in Hy. rewrite Hl in Hy. unfold integrate in Hy.
  cbn [nadd nsub nmul lift2] in Hy.
  eexists offsets, _, buf, k1, s', _, _.
  split; [exact Hoff|].
  split.
  { unfold targetPositions. cbn [String.eqb Ascii.eqb Bool.eqb ShapeType.CUSTOM].
    destruct (Nat.eqb_spec (List.length [Fin 5; Fin 5; Fin 5]) (PARTICLE_COUNT * 3))
      as [E|_]; [exfalso; exact (one_point_length E)|].
    rewrite TargetFacts.if_negb_false. exact Hbuf. }
  split; [exact Hrun|].
  split; [apply Hold; lia|].
  split; [exact Hy|].
  pose proof (COS_bound (0 * 0.7 + 0 * 0.5 + ph)) as Hcos. nra.
Qed.

(** C8, amended.  A frame whose target buffer is absent skips the particle
    loop: it returns without a draw, and positions, trail and colours stay
    as they were.  A custom cloud of another length does not make any
    frame skip: the memo resamples it into a buffer of exactly
    [3 * PARTICLE_COUNT] entries, and a frame on that buffer returns and
    animates every particle toward its transformed target.  Whatever the
    memo returns has that length, so every target read of a frame is in
    bounds; and a frame on a target of that length reads nothing past its
    end.  No case raises. *)
Theorem absent_target_holds_and_length_matches :
  (forall props offsets time audio s fuel rnd k,
      exists s',
        useFrame props None offsets time audio s fuel rnd k = Ok s' k /\
        physicsPositions s' = physicsPositions s /\
        (forall pts, pointsRef s = Some pts ->
           exists pts', pointsRef s' = Some pts' /\
                        position_array pts' = position_array pts /\
                        color_array pts' = color_array pts))
  /\
  (forall customPoints fuel rnd k,
      List.length customPoints <> (PARTICLE_COUNT * 3)%nat ->
      exists buf k',
        targetPositions ShapeType.CUSTOM (Some customPoints) fuel rnd k = Ok buf k' /\
        List.length buf = (PARTICLE_COUNT * 3)%nat /\
        forall props offsets time audio s fuel2 rnd2 k2,
          mounted s ->
          List.length (physicsPositions s) = (PARTICLE_COUNT * 3)%nat ->
          exists s' k2',
            useFrame props (Some buf) offsets time audio s fuel2 rnd2 k2 = Ok s' k2' /\
            forall q, (q < PARTICLE_COUNT)%nat ->
              animated props buf offsets time audio s s' fuel2 rnd2 k2 q)
  /\
  (forall shape custom fuel rnd k buf k',
      targetPositions shape custom fuel rnd k = Ok buf k' ->
      List.length buf = (PARTICLE_COUNT * 3)%nat /\
      (forall i c, (i < PARTICLE_COUNT)%nat -> (c < 3)%nat ->
         (i * 3 + c < List.length buf)%nat) /\
      (forall extra props offsets time audio s fuel2 rnd2 k2,
         useFrame props (Some (buf ++ extra)) offsets time audio s fuel2 rnd2 k2
         = useFrame props (Some buf) offsets time audio s fuel2 rnd2 k2)).
Proof.
  split; [|split].
  - intros props offsets time audio s fuel rnd k. unfold useFrame.
    destruct (pointsRef s) as [pts|] eqn:Epts.
    + destruct (mode_switch _ _ _ _ _ _) as [[rot expansionFactor] lerpBase].
      unfold bind, ret. eexists. split; [reflexivity|].
      cbn [physicsPositions physics pointsRef positions colors].
      split; [reflexivity|].
      intros pts0 E. inversion E; subst. eexists. split; [reflexivity|].
      cbn [position_array color_array]. split; reflexivity.
    + exists s. split; [reflexivity|]. split; [reflexivity|].
      intros pts E. discriminate.
  - intros cp fuel rnd k Hne. unfold targetPositions.
    cbn [String.eqb Ascii.eqb Bool.eqb ShapeType.CUSTOM].
    destruct (Nat.eqb_spec (List.length cp) (PARTICLE_COUNT * 3)) as [E|_]; [contradiction|].
    rewrite TargetFacts.if_negb_false.
    destruct (TargetFacts.resample_loop_length cp fuel rnd PARTICLE_COUNT 0%nat
                (new_Float32Array (PARTICLE_COUNT * 3)) k) as (b & kb & Hrun & Hl).
    exists b, kb. split; [exact Hrun|]. split; [rewrite Hl; apply length_new|].
    intros props offsets time audio s fuel2 rnd2 k2 Hm Hlen.
    destruct (StepFacts.useFrame_animates props b offsets time audio s fuel2 rnd2 k2 Hm Hlen)
      as (s' & Hf & _ & _ & _ & Ha).
    exists s'. eexists. split; [exact Hf | exact Ha].
  - intros shape custom fuel rnd k buf k' H.
    pose proof (TargetFacts.targetPositions_length shape custom fuel rnd k buf k' H) as Hl.
    split; [exact Hl|]. split; [intros i c Hi Hc; lia|].
    intros extra props offsets time audio s fuel2 rnd2 k2.
    apply useFrame_in_bounds. exact Hl.
Qed.

Lemma absent_target_holds_and_length_matches_witness :
  (exists buf k',
      targetPositions ShapeType.CUSTOM (Some [Fin 1; Fin 2; Fin 3]) 0%nat (fun _ => 0) 0%nat
      = Ok buf k' /\
      List.length buf = (PARTICLE_COUNT * 3)%nat /\
      forall props offsets time audio s fuel2 rnd2 k2,
        mounted s ->
        List.length (physicsPositions s) = (PARTICLE_COUNT * 3)%nat ->
        exists s' k2',
          useFrame props (Some buf) offsets time audio s fuel2 rnd2 k2 = Ok s' k2' /\
          forall q, (q < PARTICLE_COUNT)%nat ->
            animated props buf offsets time audio s s' fuel2 rnd2 k2 q)
  /\
  (List.length (new_Float32Array (PARTICLE_COUNT * 3)) = (PARTICLE_COUNT * 3)%nat /\
   (forall i c, (i < PARTICLE_COUNT)%nat -> (c < 3)%nat ->
      (i * 3 + c < List.length (new_Float32Array (PARTICLE_COUNT * 3)))%nat) /\
   (forall extra props offsets time audio s fuel2 rnd2 k2,
      useFrame props (Some (new_Float32Array (PARTICLE_COUNT * 3) ++ extra))
        offsets time audio s fuel2 rnd2 k2
      = useFrame props (Some (new_Float32Array (PARTICLE_COUNT * 3)))
          offsets time audio s fuel2 rnd2 k2)).
Proof.
  split.
  - apply (proj1 (proj2 absent_target_holds_and_length_matches)).
    cbn [List.length]. unfold PARTICLE_COUNT. lia.
  - apply (proj2 (proj2 absent_target_holds_and_length_matches)
             ShapeType.CUSTOM (Some (new_Float32Array (PARTICLE_COUNT * 3)))
             0%nat (fun _ => 0) 0%nat _ 0%nat).
    unfold targetPositions. cbn [String.eqb Ascii.eqb Bool.eqb ShapeType.CUSTOM].
    rewrite length_new, Nat.eqb_refl. reflexivity.
Defined.

End TargetClaims.
